(* ===== verification/_CoqProject ===== *)
-Q . S2P
Prelude.v
RustStr.v
Config.v
Input.v
Header.v
Limits.v
Wire.v
Scan.v
Store.v
Sealing.v
Auth.v
DnsRecords.v
AdminStore.v
Schema.v
AuditLog.v
Delivery.v
SmtpIn.v
Backoff.v
Queue.v
Rows.v
Submission.v
Dane.v
Admin.v
Startup.v
Worker.v
QueueSystem.v
QueueRaces.v
MailKept.v
Html.v
Email.v
Compose.v
Api.v
ApiIsolation.v
ApiContacts.v
ApiMail.v
ApiExamples.v
Jmap.v
JmapSessions.v
JmapBlobs.v
ApiKept.v
System.v
SystemKept.v
SystemTables.v
JmapExamples.v
SystemExamples.v
