(* ===== verification/Prelude.v ===== *)
(** * Litterae: a verification development (root file)

    Litterae is a self-hosted mail server: it takes mail in on port 25, lets
    its account holders send on ports 587 and 465, keeps every message sealed
    to its owner's public key, delivers outbound mail from a durable queue,
    and offers a JMAP API to its account holders and an administration API.
    The library models its Rust crates (src/crates/<crate>/src) function by
    function and proves what makes them correct.  It is a shallow embedding:
    pure functions are functions on byte strings and integers; handlers are
    functions that pass their state and may return an error or panic;
    concurrent parts are step relations or folds over arbitrary interleavings,
    and the whole process is one of them.

    ** How the parts interact

    The binary (Startup) reads its configuration (Config), serves one of its
    subcommands or opens the stores, makes the first administrator (AdminStore)
    with the audit log's keys (AuditLog), loads TLS and starts the listeners
    and the worker, which from then on interleave on the shared stores (System).

    A sender's connection reaches [smtp-in] (SmtpIn), which reads lines
    (Wire), checks addresses (Input), finds the hosted domain (AdminStore) and
    the account (Auth), scans the message (Scan) and has [delivery] (Delivery)
    seal it (Sealing, Header), write the blob and file the row (Store); it
    logs to the audit chain (AuditLog) and wakes listeners (Limits.Changes).
    An account holder's client reaches [submission] (Submission), which
    authenticates against Auth under the login throttle (Limits.Throttle) and
    enqueues (Queue).  The worker (Worker) claims due recipients, connects with
    DANE (Dane), runs the envelope, commits the outcome (with the schedule of
    Backoff) and writes bounces, which it delivers to the local sender.
    A mail client unlocks an account over JMAP (Jmap): the session holds the
    account's keys, and each request's method calls (Api) read and change the
    account's messages, drafts, contacts and identity, search the session's
    index (Email), build messages (Compose, Html), upload and download files,
    and enqueue stored messages (Queue).  Administrators use the handlers of
    Admin.

    ** Files

    - [Prelude] (this file): byte strings, results, panics, the handler monad
      [St] with its Hoare rules, SQL tables as lists of rows, automation.
    - [RustStr]: UTF-8, char classes, trimming, splitting and checked slicing
      of Rust's [str]; the [std::net] address parsers.
    - [Config]: common/src/config.rs, tls.rs and the [load_acceptor]s of
      smtp-in/src/tls.rs and submission/src/tls.rs.
    - [Input]: common/src/input.rs.  [Header]: common/src/header.rs.
    - [Limits]: common/src/throttle.rs, common/src/changes.rs,
      smtp-in/src/conn_limit.rs and the accept loop of smtp-in/src/server.rs.
    - [Wire]: the line, DATA and reply helpers of smtp-in/src/session.rs, of
      which submission/src/session.rs has textual copies.
    - [Scan]: the scan crate.  [Store]: store/src/blob.rs, mailboxes.rs,
      messages.rs, threads.rs, metadata.rs, uploads.rs, contacts.rs.
    - [Sealing]: the crypto crate over its primitives.  [Auth]: the auth crate.
    - [DnsRecords]: dns/src/mta_sts.rs, tls_rpt.rs.
    - [AdminStore]: admin/src/types.rs, store.rs.  [AuditLog]: the audit crate.
    - [Schema]: the [SCHEMA]s, the [open]s and the column migrations of the
      five databases, on tables of named columns.  [Rows]: the [row_to_*]
      readers of their rows.
    - [Delivery]: the delivery crate.  [SmtpIn]: the session of
      smtp-in/src/session.rs.
    - [Backoff]: queue/src/backoff.rs.  [Queue]: the queue crate outside the
      worker (schema, enqueue, query, scheduled, dkim, classify, dsn).
    - [Submission]: submission/src/session.rs and server.rs.
    - [Dane]: dns/src/lib.rs and queue/src/dane.rs.  [Admin]: admin/src/session.rs,
      mfa.rs, handlers.rs, router.rs.  [Startup]: server/src/main.rs.
    - [Worker]: queue/src/worker.rs.  [QueueSystem]: the theorems about queue,
      worker and senders together.  [QueueRaces]: enqueueing and cleaning up
      split at the queue's lock, interleaved.  [MailKept]: what deliveries and the worker
      do to a message that is filed already, and the interface
      [kept_by_delivery], [kept_by_worker].
    - [Html]: jmap/src/html_sanitize.rs, compose_html.rs,
      content_disposition.rs.  [Email]: jmap/src/email.rs, search.rs.
      [Compose]: jmap/src/compose.rs.
    - [Api]: jmap/src/api.rs, contacts.rs and the wire types of types.rs.
      [ApiIsolation], [ApiContacts], [ApiMail]: its theorems.  [ApiExamples]:
      its witnesses.
    - [Jmap]: jmap/src/session_store.rs, handlers.rs, router.rs.
      [JmapSessions], [JmapBlobs]: its theorems.  [JmapExamples]: its witnesses.
    - [ApiKept]: the interface [kept_by_api] and that every JMAP request keeps
      what has it.
    - [System]: the process, its memory and its steps, as main.rs wires them.
      [SystemKept]: the interface [kept_by_process], that every run keeps what
      has it, and its instances.  [SystemTables]: what holds of its databases
      throughout.  [SystemExamples]: one run, computed.

    Each definition has the name of the function or type it models; where one
    function became several definitions, the comment says which lines.

    ** What the theorems show

    - The whole process ([SystemKept], [SystemTables]): from a fresh installation, through any
      sequence of SMTP and submission commands, JMAP and admin requests, passes
      of the worker, restarts and subcommands, accepted mail is not lost before
      it is settled, a settled recipient stays settled, no account exceeds its
      sending rate, a filed message stays readable by its owner's key until a
      session of its account destroys it, and the tables stay well formed.
    - The outbound queue ([QueueSystem], [Worker], [Queue], [Backoff]):
      [finalize] commits exactly the next state; a permanent failure bounces
      once and bounces cannot loop; the plaintext is wiped with the last
      recipient; no pass leaves a claim behind; the envelope reaches the server
      exactly; the sending rate and the retry delay are bounded; between the
      locks of senders and worker ([QueueRaces]) the limits hold in every
      interleaving, and no waiting message loses its blob unless its very text
      is being wiped while it is sent again; a required
      DANE verification is never downgraded ([Dane]).
    - Reception ([SmtpIn], [Wire], [Limits], [Input]): the session never relays,
      refines the SMTP automaton, ends, answers DATA honestly and serves every
      recipient; the DATA reader is the inverse of dot-stuffing; the listener
      keeps its caps; the throttle refines its history specification.
    - Submission: only account holders send, and only as their own address;
      authentication decides as specified; nothing of the plaintext phase
      survives STARTTLS; the answer to DATA is honest.
    - JMAP ([JmapSessions], [JmapBlobs], [ApiIsolation], [ApiMail],
      [ApiContacts], [Email], [Compose], [Html]): no request but unlock is
      answered without a live session, and unlock decides as specified; a batch
      of calls changes no other account's rows; a draft is filed and opens; what
      is submitted is the stored message; what is uploaded downloads; contacts
      stay distinct; a message that is built has clean headers and one that is
      displayed is inert.
    - Administration ([Admin], [AdminStore]): no handler but the listed ones
      acts without a live, unlocked session; a second factor is required where
      enrolled and a recovery code works once; a password change rekeys what
      the password protects; every request keeps the stores' invariant.
    - Start-up ([Startup], [Config], [DnsRecords]): the first administrator is
      made once and with a strong password, and with the audit log's keys or,
      in one window, without them for ever; a failed subcommand changes
      nothing; the printed key signs and the printed policy reads back; TLS
      takes both paths.
    - Data at rest ([Sealing], [Auth], [Delivery], [AuditLog], [Store]): what is
      sealed opens, provisioning then unlocking gives the key back, a delivered
      message is filed and opens, the audit log refines an append-only chain
      whose tampering needs a hash collision, threads are found or created.
    - Files ([Schema], [Rows]): opening the file of any earlier release
      succeeds, keeps every row and gives it the columns and tokens added
      since, and a second opening changes nothing; what the readers get from
      the file are the rows the rest of the library speaks of.

    ** Libraries as parameters

    Code outside src/ is a class of parameters in the file that needs it, with
    the laws the proofs rely on in a separate class where there are any:
    the cryptographic primitives ([Sealing]), SHA-256 and the blob directory
    ([Store], [DnsRecords]), the RFC 5322 parser ([Delivery], [Email]) and
    writers ([Queue], [Compose]), the mail-auth checks ([SmtpIn]), scanners'
    sockets ([Scan]), the DNS resolver and X.509 ([Dane]), TOTP, RSA, JSON and
    time formatting ([Admin]), HTML parsing ([Html]), base64 ([Submission],
    [Html]), SQLite's full-text match ([Email]), serde's decoding of JMAP
    arguments and of contacts ([Api]), TOML, PEM files and rustls ([Config]).
    Every theorem that needs such laws has a witness with a concrete instance.
    Clocks, random draws and the behaviour of peers and of other tasks are
    arguments, quantified over.  SQLite statements mean what their SQL says and
    do not fail for I/O reasons; which row a statement without an order returns
    first is a parameter.

    ** Fuel and granularity

    A loop that ends because its input shrinks is run with the input's length
    as fuel, and a theorem says that this is enough: the SMTP command loops
    use the bytes left plus one ([SmtpIn.command_loop_total]), the DATA and
    line readers the bytes left, percent-decoding the length of the text.
    Rust integers keep their width where the code can reach it: [u32]
    counters wrap in release builds, [i64] seconds saturate where the code
    says so, the jitter of [Backoff] is rounded [f64] arithmetic.

    In [System] a step is one command of an SMTP or submission session, one
    HTTP request, one pass of the worker or one run of the binary.  The code
    holds no lock that long: steps of different tasks can also interleave
    inside these, between two accesses to a store, which [System] does not
    show; [QueueRaces] shows it for the one blob two tasks can share.

    ** Not modelled

    The HTTP accept loop of server/src/serve.rs and common/src/tracing_init.rs
    are calls into libraries; SQLite's pragmas and CORS are library
    configuration; the change notifier's subscription is a tokio channel; log
    lines are left out.  [Schema] opens one file at a time, from any release;
    the stores of [System] are what it holds afterwards, so that a start there
    only fills in missing verification tokens.  [System] leaves the listeners' connection caps to
    [Limits] and [Submission], and puts no bound on the open sessions; binding
    a port cannot fail there.  A configuration section written as a TOML array
    is taken for an error. *)

From stdpp Require Import base list strings gmap sorting.
From Stdlib Require Import Ascii ZArith Lia.

#[global] Set Default Goal Selector "!".

(** ** Byte strings

    Rust's [&str], [String], [&[u8]] and [Vec<u8>] are all sequences of
    bytes; [str] is that sequence.  A Rust [str] is a [str] that is valid
    UTF-8 (see RustStr). *)
Abbreviation byte := ascii.
Abbreviation str := (list ascii).

Definition lit (s : string) : str := String.list_ascii_of_string s.

Declare Scope litterae_scope.
Delimit Scope litterae_scope with lit.
Notation "# s" := (lit s%string) (at level 1, s at level 0) : litterae_scope.
#[global] Open Scope litterae_scope.

(** The numeric value of a byte. *)
Definition bval (b : byte) : N := N_of_ascii b.

(** An [f64] the code stores and prints but never computes with, as its bit
    pattern. *)
Abbreviation f64 := Z.

Definition str_eqb (a b : str) : bool := bool_decide (a = b).

(** ** Results and panics

    [result] is [std::result::Result]; [exec] is the outcome of a Rust call
    that may panic (an out-of-boundary slice, an [expect] on [None]). *)
Inductive result (E A : Type) : Type :=
| Ok (a : A)
| Err (e : E).
Arguments Ok {E A} a.
Arguments Err {E A} e.

Inductive exec (A : Type) : Type :=
| Done (a : A)
| Panicked.
Arguments Done {A} a.
Arguments Panicked {A}.

(** [common::Error], src/crates/common/src/error.rs. *)
Inductive Error : Type :=
| Config (detail : str)
| Io (detail : str)
| Crypto (detail : str)
| Storage (detail : str)
| Network (detail : str)
| RateLimited (detail : str).

Abbreviation Result := (result Error).

(** [Display for Error], as [thiserror] derives it. *)
Definition error_display (e : Error) : str :=
  match e with
  | Config d => # "config error: " ++ d
  | Io d => # "io error: " ++ d
  | Crypto d => # "crypto error: " ++ d
  | Storage d => # "storage error: " ++ d
  | Network d => # "network error: " ++ d
  | RateLimited d => # "rate limited: " ++ d
  end.

Definition is_ok {E A} (r : result E A) : bool :=
  match r with Ok _ => true | Err _ => false end.

(** [Result::ok]. *)
Definition ok_opt {E A} (r : result E A) : option A :=
  match r with Ok a => Some a | Err _ => None end.

#[global] Instance result_ret E : MRet (result E) := fun A a => Ok a.
#[global] Instance result_bind E : MBind (result E) := fun A B f r =>
  match r with Ok a => f a | Err e => Err e end.
#[global] Instance exec_ret : MRet exec := fun A a => Done a.
#[global] Instance exec_bind : MBind exec := fun A B f m =>
  match m with Done a => f a | Panicked => Panicked end.

(** ** State with panics

    [St S A] threads a state of type [S]; a panic keeps the state reached so
    far (a committed SQLite row or a byte already on the wire stays). *)
Definition St (S A : Type) : Type := S -> exec A * S.

#[global] Instance St_ret S : MRet (St S) := fun A a s => (Done a, s).
#[global] Instance St_bind S : MBind (St S) := fun A B f m s =>
  match m s with
  | (Done a, s') => f a s'
  | (Panicked, s') => (Panicked, s')
  end.

Definition st_get {S} : St S S := fun s => (Done s, s).
Definition st_put {S} (s : S) : St S unit := fun _ => (Done tt, s).
Definition st_mod {S} (f : S -> S) : St S unit := fun s => (Done tt, f s).
Definition st_exec {S A} (m : exec A) : St S A := fun s => (m, s).

(** A computation on a part of the state. *)
Definition st_zoom {S T A} (get : S -> T) (put : T -> S -> S) (m : St T A) : St S A := fun s =>
  let '(r, t) := m (get s) in (r, put t s).

(** [m?] in a stateful function: an error ends it, the state reached stays. *)
Definition st_try {S E A B} (m : St S (result E A)) (f : A -> St S (result E B)) : St S (result E B) :=
  r ← m; match r with Ok a => f a | Err e => mret (Err e) end.
Notation "x ←? m ; k" := (st_try m (fun x => k))
  (at level 20, m at level 100, k at level 200, only parsing) : litterae_scope.

(** [r.map_err(|_| e)]. *)
Definition map_err {E F A} (e : F) (r : result E A) : result F A :=
  match r with Ok a => Ok a | Err _ => Err e end.

(** [o.ok_or(e)]. *)
Definition ok_or {E A} (e : E) (o : option A) : result E A :=
  match o with Some a => Ok a | None => Err e end.

(** [for x in l { f(x) }]. *)
Fixpoint st_for {S A} (f : A -> St S unit) (l : list A) : St S unit :=
  match l with
  | [] => mret tt
  | x :: l => _ ← f x; st_for f l
  end.

(** A loop with an accumulator, and [.map(f).collect()] of a stateful [f]. *)
Fixpoint st_foldl {S A B} (f : B -> A -> St S B) (b : B) (l : list A) : St S B :=
  match l with
  | [] => mret b
  | x :: l => b ← f b x; st_foldl f b l
  end.

(** [.collect::<Result<_, _>>()]: the first error ends the loop. *)
Fixpoint st_collect {S E A B} (f : A -> St S (result E B)) (l : list A) : St S (result E (list B)) :=
  match l with
  | [] => mret (Ok [])
  | x :: l =>
      st_try (f x) (fun y => st_try (st_collect f l) (fun ys => mret (Ok (y :: ys))))
  end.

(** Running a computation whose first step is known. *)
Lemma run_bind {S A B} (m : St S A) (f : A -> St S B) (s s' : S) (a : A) :
  m s = (Done a, s') -> (m ≫= f) s = f a s'.
Proof. intros E. unfold mbind, St_bind. by rewrite E. Qed.

Lemma run_try {S E A B} (m : St S (result E A)) (f : A -> St S (result E B)) (s s' : S) (a : A) :
  m s = (Done (Ok a), s') -> st_try m f s = f a s'.
Proof. intros Em. unfold st_try. by rewrite (run_bind _ _ _ _ _ Em). Qed.

Lemma run_try_err {S E A B} (m : St S (result E A)) (f : A -> St S (result E B)) (s s' : S) (e : E) :
  m s = (Done (Err e), s') -> st_try m f s = (Done (Err e), s').
Proof. intros Em. unfold st_try. by rewrite (run_bind _ _ _ _ _ Em). Qed.

(** Postconditions of stateful computations.  [Q] speaks about both the
    normal and the panicking outcome. *)
Definition triple {S A} (P : S -> Prop) (m : St S A) (Q : exec A -> S -> Prop) : Prop :=
  forall s, P s -> Q (fst (m s)) (snd (m s)).

(** One occurrence of the run, to be evaluated step by step. *)
Lemma triple_run {S A} (P : S -> Prop) (m : St S A) (Q : exec A -> S -> Prop) :
  (forall s, P s -> let '(r, s') := m s in Q r s') -> triple P m Q.
Proof. intros H s Hs. specialize (H s Hs). by destruct (m s). Qed.

Lemma triple_ret {S A} (a : A) (P : S -> Prop) (Q : exec A -> S -> Prop) :
  (forall s, P s -> Q (Done a) s) -> triple P (mret a) Q.
Proof. intros H s Hs. exact (H s Hs). Qed.

Lemma triple_bind {S A B} (m : St S A) (f : A -> St S B)
    (P : S -> Prop) (R : exec A -> S -> Prop) (Q : exec B -> S -> Prop) :
  triple P m R ->
  (forall a, triple (R (Done a)) (f a) Q) ->
  (forall s, R Panicked s -> Q Panicked s) ->
  triple P (m ≫= f) Q.
Proof.
  intros Hm Hf Hp s Hs. unfold mbind, St_bind. specialize (Hm s Hs).
  destruct (m s) as [[a|] s'] eqn:E; cbn in *; [exact (Hf a s' Hm) | exact (Hp s' Hm)].
Qed.

Lemma triple_mod {S} (g : S -> S) (P : S -> Prop) (Q : exec unit -> S -> Prop) :
  (forall s, P s -> Q (Done tt) (g s)) -> triple P (st_mod g) Q.
Proof. intros H s Hs. exact (H s Hs). Qed.

Lemma triple_consequence {S A} (m : St S A) (P P' : S -> Prop) (Q Q' : exec A -> S -> Prop) :
  triple P' m Q' -> (forall s, P s -> P' s) -> (forall r s, Q' r s -> Q r s) ->
  triple P m Q.
Proof. intros Hm HP HQ s Hs. apply HQ, Hm, HP, Hs. Qed.

Lemma triple_exec {S A} (m : exec A) (P : S -> Prop) (Q : exec A -> S -> Prop) :
  (forall s, P s -> Q m s) -> triple P (st_exec m) Q.
Proof. intros H s Hs. exact (H s Hs). Qed.

(** A fact that does not mention the state. *)
Lemma triple_fact {S A} (F : Prop) (m : St S A) (P : S -> Prop) (Q : exec A -> S -> Prop) :
  (F -> triple P m Q) -> triple (fun s => F /\ P s) m Q.
Proof. intros H s [HF Hs]. exact (H HF s Hs). Qed.

(** After [st_get] the state is the one read. *)
Lemma triple_get {S B} (f : S -> St S B) (P : S -> Prop) (Q : exec B -> S -> Prop) :
  (forall s, P s -> triple (eq s) (f s) Q) -> triple P (st_get ≫= f) Q.
Proof. intros H s Hs. exact (H s Hs s eq_refl). Qed.

(** After a panicking pure step the state is unchanged. *)
Lemma triple_exec_bind {S A B} (m : exec A) (f : A -> St S B) (P : S -> Prop) (Q : exec B -> S -> Prop) :
  (forall a, m = Done a -> triple P (f a) Q) -> (forall s, P s -> Q Panicked s) ->
  triple P (st_exec m ≫= f) Q.
Proof.
  intros H Hp s Hs. unfold mbind, St_bind, st_exec.
  destruct m as [a|]; [exact (H a eq_refl s Hs)|exact (Hp s Hs)].
Qed.

(** The first step's effect does not matter. *)
Lemma triple_bind_any {S A B} (m : St S A) (f : A -> St S B) (P : S -> Prop) (Q : exec B -> S -> Prop) :
  (forall a, triple (fun _ => True) (f a) Q) -> (forall s, Q Panicked s) -> triple P (m ≫= f) Q.
Proof. intros Hf Hp. eapply (triple_bind _ _ _ (fun _ _ => True)); [done|exact Hf|auto]. Qed.

(** [keeps I m]: the invariant [I] survives [m], a panic included. *)
Definition keeps {S A} (I : S -> Prop) (m : St S A) : Prop := triple I m (fun _ => I).

Lemma keeps_ret {S A} (I : S -> Prop) (a : A) : keeps I (mret a).
Proof. intros s Hs. exact Hs. Qed.

Lemma keeps_bind {S A B} (I : S -> Prop) (m : St S A) (f : A -> St S B) :
  keeps I m -> (forall a, keeps I (f a)) -> keeps I (m ≫= f).
Proof. intros Hm Hf. eapply triple_bind; [exact Hm|exact Hf|done]. Qed.

Lemma keeps_and {S A} (I J : S -> Prop) (m : St S A) : keeps I m -> keeps J m -> keeps (fun s => I s /\ J s) m.
Proof. intros HI HJ s [Hi Hj]. split; [exact (HI s Hi)|exact (HJ s Hj)]. Qed.

Lemma keeps_for {S A} (I : S -> Prop) (f : A -> St S unit) (l : list A) :
  (forall x, x ∈ l -> keeps I (f x)) -> keeps I (st_for f l).
Proof.
  induction l as [|x l IH]; intros H; cbn [st_for]; [apply keeps_ret|].
  apply keeps_bind; [apply H; by left|]. intros _. apply IH. intros y Hy. apply H. by right.
Qed.

Lemma keeps_foldl {S A B} (I : S -> Prop) (f : B -> A -> St S B) (l : list A) : forall b,
  (forall b x, x ∈ l -> keeps I (f b x)) -> keeps I (st_foldl f b l).
Proof.
  induction l as [|x l IH]; intros b H; cbn [st_foldl]; [apply keeps_ret|].
  apply keeps_bind; [apply H; by left|]. intros b'. apply IH. intros b'' y Hy. apply H. by right.
Qed.

(** A loop whose invariant speaks about the accumulator. *)
Lemma triple_foldl {S A B} (R : B -> S -> Prop) (Q : S -> Prop) (f : B -> A -> St S B) (l : list A) : forall b,
  (forall b x, x ∈ l -> triple (R b) (f b x) (fun r s => match r with Done b' => R b' s | Panicked => Q s end)) ->
  triple (R b) (st_foldl f b l) (fun r s => match r with Done b' => R b' s | Panicked => Q s end).
Proof.
  induction l as [|x l IH]; intros b H; cbn [st_foldl]; [by apply triple_ret|].
  eapply triple_bind; [apply H; by left| |done]. intros b'. apply IH. intros b'' y Hy. apply H. by right.
Qed.

Lemma keeps_try {S E A B} (I : S -> Prop) (m : St S (result E A)) (f : A -> St S (result E B)) :
  keeps I m -> (forall a, keeps I (f a)) -> keeps I (st_try m f).
Proof. intros Hm Hf. apply keeps_bind; [exact Hm|]. intros [a|e]; [apply Hf|apply keeps_ret]. Qed.

(** [m?]: an error of [m] is the outcome. *)
Lemma triple_try {S E A B} (m : St S (result E A)) (f : A -> St S (result E B))
    (P : S -> Prop) (R : A -> S -> Prop) (Q : exec (result E B) -> S -> Prop) :
  triple P m (fun r s => match r with
                         | Done (Ok a) => R a s
                         | Done (Err e) => Q (Done (Err e)) s
                         | Panicked => Q Panicked s
                         end) ->
  (forall a, triple (R a) (f a) Q) -> triple P (st_try m f) Q.
Proof.
  intros Hm Hf. eapply triple_bind; [exact Hm| |done].
  intros [a|e]; [apply Hf|]. intros s Hs. exact Hs.
Qed.

(** [r?] on a value. *)
Lemma triple_try_ret {S E A B} (r : result E A) (f : A -> St S (result E B))
    (P : S -> Prop) (Q : exec (result E B) -> S -> Prop) :
  (forall a, r = Ok a -> triple P (f a) Q) -> (forall e s, r = Err e -> P s -> Q (Done (Err e)) s) ->
  triple P (st_try (mret r) f) Q.
Proof. intros Hf He s Hs. destruct r as [a|e]; [exact (Hf a eq_refl s Hs)|exact (He e s eq_refl Hs)]. Qed.

Lemma keeps_mod {S} (I : S -> Prop) (g : S -> S) : (forall s, I s -> I (g s)) -> keeps I (st_mod g).
Proof. intros H s Hs. exact (H s Hs). Qed.

Lemma keeps_exec {S A} (I : S -> Prop) (m : exec A) : keeps I (st_exec m).
Proof. intros s Hs. exact Hs. Qed.

Lemma keeps_get {S B} (I : S -> Prop) (f : S -> St S B) :
  (forall s, I s -> keeps I (f s)) -> keeps I (st_get ≫= f).
Proof. intros H. apply triple_get. intros s Hs t <-. exact (H s Hs s Hs). Qed.

(** One step through a computation that is to keep an invariant. *)
Ltac st_step :=
  match goal with
  | |- keeps _ (st_try _ _) => apply keeps_try; [|intros ?]
  | |- keeps _ (mbind _ _) => first [apply keeps_get; intros ? ? | apply keeps_bind; [|intros ?]]
  | |- keeps _ (mret _) => apply keeps_ret
  | |- keeps _ (st_exec _) => apply keeps_exec
  | |- keeps _ (st_for _ _) => apply keeps_for; intros ? ?
  | |- keeps _ (st_foldl _ _ _) => apply keeps_foldl; intros ? ? _
  | |- keeps _ (let '(_, _) := ?x in _) => destruct x eqn:?
  | |- keeps _ (match ?x with _ => _ end) => destruct x eqn:?
  end.

Create HintDb litterae.
#[export] Hint Resolve triple_ret triple_mod keeps_ret keeps_exec keeps_mod : litterae.

#[global] Arguments Nat.ltb : simpl never.

(** ** Tactics *)

(** Case split on the scrutinee of the first match or conditional of the
    goal or of a hypothesis, keeping the equation. *)
Ltac split_match :=
  match goal with
  | |- context [match ?x with _ => _ end] => destruct x eqn:?
  | H : context [match ?x with _ => _ end] |- _ => destruct x eqn:?
  end.

(** Turn boolean facts into propositions. *)
Ltac bool_facts :=
  repeat match goal with
  | H : andb _ _ = true |- _ => apply andb_true_iff in H; destruct H
  | H : orb _ _ = false |- _ => apply orb_false_iff in H; destruct H
  | H : negb _ = true |- _ => apply negb_true_iff in H
  | H : negb _ = false |- _ => apply negb_false_iff in H
  | H : bool_decide _ = true |- _ => apply bool_decide_eq_true in H
  | H : bool_decide _ = false |- _ => apply bool_decide_eq_false in H
  | H : str_eqb _ _ = true |- _ => apply bool_decide_eq_true in H
  | H : str_eqb _ _ = false |- _ => apply bool_decide_eq_false in H
  | H : (_ <? _)%Z = true |- _ => apply Z.ltb_lt in H
  | H : (_ <? _)%Z = false |- _ => apply Z.ltb_ge in H
  | H : (_ <=? _)%Z = true |- _ => apply Z.leb_le in H
  | H : (_ <=? _)%Z = false |- _ => apply Z.leb_gt in H
  | H : (_ =? _)%Z = true |- _ => apply Z.eqb_eq in H
  | H : (_ =? _)%Z = false |- _ => apply Z.eqb_neq in H
  | H : (_ <? _)%N = true |- _ => apply N.ltb_lt in H
  | H : (_ <? _)%N = false |- _ => apply N.ltb_ge in H
  | H : (_ <=? _)%N = true |- _ => apply N.leb_le in H
  | H : (_ <=? _)%N = false |- _ => apply N.leb_gt in H
  | H : (_ =? _)%N = true |- _ => apply N.eqb_eq in H
  | H : (_ =? _)%N = false |- _ => apply N.eqb_neq in H
  | H : (_ <? _)%nat = true |- _ => apply Nat.ltb_lt in H
  | H : (_ <? _)%nat = false |- _ => apply Nat.ltb_ge in H
  | H : (_ <=? _)%nat = true |- _ => apply Nat.leb_le in H
  | H : (_ <=? _)%nat = false |- _ => apply Nat.leb_gt in H
  | H : (_ =? _)%nat = true |- _ => apply Nat.eqb_eq in H
  | H : (_ =? _)%nat = false |- _ => apply Nat.eqb_neq in H
  end.

Lemma pair_with_fst {A B} (p : A * B) (a : A) : p.1 = a -> p = (a, p.2).
Proof. intros <-. apply surjective_pairing. Qed.

(** ** SQL tables

    A table is the list of its rows in rowid order.  SQLite gives an
    [INTEGER PRIMARY KEY] row inserted without an id the largest rowid plus
    one, 1 in an empty table. *)
Definition next_rowid (ids : list Z) : Z := (1 + foldr Z.max 0 ids)%Z.

Lemma next_rowid_gt (ids : list Z) (i : Z) : i ∈ ids -> (i < next_rowid ids)%Z.
Proof.
  unfold next_rowid. induction ids as [|x ids IH]; cbn; [by intros ?%elem_of_nil|].
  intros [->|H]%elem_of_cons; [lia|]. specialize (IH H). lia.
Qed.

Lemma next_rowid_fresh (ids : list Z) : next_rowid ids ∉ ids.
Proof. intros H. apply next_rowid_gt in H. lia. Qed.

Lemma next_rowid_pos (ids : list Z) : (0 < next_rowid ids)%Z.
Proof. unfold next_rowid. induction ids; cbn; lia. Qed.
Lemma next_rowid_le (ids : list Z) (n : Z) :
  (forall i, i ∈ ids -> (i < n)%Z) -> (next_rowid ids <= Z.max n 1)%Z.
Proof.
  unfold next_rowid. induction ids as [|x ids IH]; cbn; intros H; [lia|].
  pose proof (H x ltac:(by left)). specialize (IH ltac:(intros i Hi; apply H; by right)). lia.
Qed.

Lemma next_rowid_unique (ids : list Z) (n : Z) :
  (forall i, i ∈ ids -> (i < n)%Z) -> ((n - 1)%Z ∈ ids \/ n = 1%Z) -> (0 < n)%Z ->
  next_rowid ids = n.
Proof.
  intros Hlt Hn Hp. pose proof (next_rowid_le ids n Hlt). pose proof (next_rowid_pos ids).
  destruct Hn as [Hn|Hn]; [|lia]. apply next_rowid_gt in Hn. lia.
Qed.
#[export] Hint Resolve next_rowid_fresh next_rowid_pos : litterae.

(** [SELECT .. WHERE p LIMIT 1] over a key that identifies one row. *)
Definition sql_find {A} (p : A -> bool) (t : list A) : option A := find p t.

Lemma sql_find_some {A} (p : A -> bool) (t : list A) (x : A) :
  sql_find p t = Some x -> x ∈ t /\ p x = true.
Proof. intros H%find_some. rewrite list_elem_of_In. exact H. Qed.

Lemma sql_find_none {A} (p : A -> bool) (t : list A) (x : A) :
  sql_find p t = None -> x ∈ t -> p x = false.
Proof. intros H Hx. rewrite list_elem_of_In in Hx. exact (find_none _ _ H x Hx). Qed.

Lemma sql_find_is_some {A} (p : A -> bool) (t : list A) (x : A) :
  x ∈ t -> p x = true -> is_Some (sql_find p t).
Proof.
  intros Hx Hp. destruct (sql_find p t) eqn:E; [done|].
  rewrite (sql_find_none _ _ _ E Hx) in Hp. done.
Qed.

Lemma sql_find_app {A} (p : A -> bool) (t u : list A) :
  sql_find p (t ++ u) = match sql_find p t with Some x => Some x | None => sql_find p u end.
Proof. unfold sql_find. induction t as [|x t IH]; cbn; [done|]. by destruct (p x). Qed.

Lemma sql_find_absent {A} (p : A -> bool) (t : list A) :
  (forall x, x ∈ t -> p x = false) -> sql_find p t = None.
Proof.
  intros H. destruct (sql_find p t) as [x|] eqn:E; [|done].
  apply sql_find_some in E as [Hx Hp]. by rewrite H in Hp.
Qed.

Lemma elem_of_filter_list {A} (p : A -> bool) (t : list A) (x : A) :
  x ∈ List.filter p t <-> x ∈ t /\ p x = true.
Proof. rewrite !list_elem_of_In. apply filter_In. Qed.

Lemma existsb_false {A} (p : A -> bool) (t : list A) (x : A) :
  existsb p t = false -> x ∈ t -> p x = false.
Proof.
  intros E Hx. destruct (p x) eqn:Ep; [|done]. rewrite list_elem_of_In in Hx.
  assert (existsb p t = true) by (apply existsb_exists; eauto). congruence.
Qed.

Lemma NoDup_fmap_filter {A K} (key : A -> K) (p : A -> bool) (t : list A) :
  NoDup (key <$> t) -> NoDup (key <$> List.filter p t).
Proof.
  induction t as [|x t IH]; cbn; intros H; [done|]. apply NoDup_cons in H as [Hx Ht].
  destruct (p x); cbn; [|by apply IH]. apply NoDup_cons. split; [|by apply IH].
  intros (y & Ey & Hy)%list_elem_of_fmap. apply elem_of_filter_list in Hy as [Hy _].
  apply Hx. rewrite Ey. by apply list_elem_of_fmap_2.
Qed.

(** [UPDATE .. SET f WHERE p]. *)
Definition sql_update {A} (p : A -> bool) (f : A -> A) (t : list A) : list A :=
  (fun x => if p x then f x else x) <$> t.

Lemma elem_of_sql_update {A} (p : A -> bool) (f : A -> A) (t : list A) (y : A) :
  y ∈ sql_update p f t <-> exists x, x ∈ t /\ y = if p x then f x else x.
Proof. unfold sql_update. rewrite list_elem_of_fmap. split; intros (x & H1 & H2); eauto. Qed.

Lemma sql_update_key {A K} (key : A -> K) (p : A -> bool) (f : A -> A) (t : list A) :
  (forall x, key (f x) = key x) -> key <$> sql_update p f t = key <$> t.
Proof.
  intros Hk. unfold sql_update. rewrite <- list_fmap_compose. apply list_fmap_ext.
  intros i x _. cbn. destruct (p x); [apply Hk | done].
Qed.

(** Inserting at the end of a table whose keys are distinct. *)
Lemma sql_find_update {A} (key : A -> Z) (f : A -> A) (id id' : Z) (t : list A) :
  (forall x, key (f x) = key x) ->
  sql_find (fun x => key x =? id')%Z (sql_update (fun x => key x =? id)%Z f t)
  = (if (id' =? id)%Z then f else fun x => x) <$> sql_find (fun x => key x =? id')%Z t.
Proof.
  intros Hf. unfold sql_find, sql_update. induction t as [|x t IH]; cbn; [done|].
  destruct (key x =? id)%Z eqn:E; rewrite ?Hf; destruct (key x =? id')%Z eqn:E'; cbn; try exact IH; bool_facts.
  - rewrite (proj2 (Z.eqb_eq _ _)); [done|lia].
  - rewrite (proj2 (Z.eqb_neq _ _)); [done|lia].
Qed.

Lemma NoDup_snoc {A} (l : list A) (x : A) : NoDup l -> x ∉ l -> NoDup (l ++ [x]).
Proof.
  intros Hl Hx. apply NoDup_app. split_and!; [done| |apply NoDup_singleton].
  intros y Hy ->%list_elem_of_singleton. done.
Qed.

(** A row found by key in a table with distinct keys. *)
Lemma sql_find_key {A} (key : A -> Z) (t : list A) (x : A) :
  NoDup (key <$> t) -> x ∈ t -> sql_find (fun y => (key y =? key x)%Z) t = Some x.
Proof.
  intros Hnd Hx. unfold sql_find. induction t as [|y t IH]; [by apply elem_of_nil in Hx|].
  cbn. cbn in Hnd. apply NoDup_cons in Hnd as [Hy Hnd]. apply elem_of_cons in Hx as [->|Hx].
  - by rewrite Z.eqb_refl.
  - destruct (_ =? _)%Z eqn:E; [|by apply IH]. bool_facts. destruct Hy. rewrite E.
    by apply list_elem_of_fmap_2.
Qed.

Lemma sql_find_unique {A K} (key : A -> K) (p : A -> bool) (t : list A) (x : A) :
  NoDup (key <$> t) -> x ∈ t -> (forall y, p y = true <-> key y = key x) -> sql_find p t = Some x.
Proof.
  intros Hnd Hx Hp. unfold sql_find. induction t as [|y t IH]; [by apply elem_of_nil in Hx|].
  cbn. cbn in Hnd. apply NoDup_cons in Hnd as [Hy Hnd]. apply elem_of_cons in Hx as [->|Hx].
  - by rewrite (proj2 (Hp y) eq_refl).
  - destruct (p y) eqn:E; [|by apply IH]. apply Hp in E. destruct Hy. rewrite E. by apply list_elem_of_fmap_2.
Qed.

(** A primary key names one row. *)
Lemma row_key_unique {A K} (key : A -> K) (t : list A) (x y : A) :
  NoDup (key <$> t) -> x ∈ t -> y ∈ t -> key x = key y -> x = y.
Proof.
  intros Hnd (i & Hi)%list_elem_of_lookup (j & Hj)%list_elem_of_lookup E.
  assert (i = j) as <-; [|congruence].
  apply (NoDup_lookup _ _ _ (key x) Hnd); rewrite list_lookup_fmap; [by rewrite Hi|by rewrite Hj, E].
Qed.

(** [SELECT COUNT( * ) .. WHERE p]. *)
Definition sql_count {A} (p : A -> bool) (t : list A) : Z :=
  Z.of_nat (length (List.filter p t)).

Lemma sql_count_app {A} (p : A -> bool) (t u : list A) :
  sql_count p (t ++ u) = (sql_count p t + sql_count p u)%Z.
Proof. unfold sql_count. rewrite List.filter_app, length_app. lia. Qed.

Lemma sql_count_cons {A} (p : A -> bool) (x : A) (t : list A) :
  sql_count p (x :: t) = ((if p x then 1 else 0) + sql_count p t)%Z.
Proof. unfold sql_count. cbn [List.filter]. destruct (p x); cbn [length]; lia. Qed.

Lemma sql_count_nonneg {A} (p : A -> bool) (t : list A) : (0 <= sql_count p t)%Z.
Proof. unfold sql_count. lia. Qed.

Lemma sql_count_mono {A} (p q : A -> bool) (t : list A) :
  (forall x, x ∈ t -> p x = true -> q x = true) -> (sql_count p t <= sql_count q t)%Z.
Proof.
  unfold sql_count. intros H. induction t as [|x t IH]; cbn; [lia|].
  assert (IHt : (Z.of_nat (length (List.filter p t)) <= Z.of_nat (length (List.filter q t)))%Z)
    by (apply IH; intros y Hy; apply H; by right).
  destruct (p x) eqn:Ep.
  - rewrite (H x ltac:(by left) Ep). cbn. lia.
  - destruct (q x); cbn; lia.
Qed.

Lemma sql_count_zero {A} (p : A -> bool) (t : list A) :
  sql_count p t = 0%Z <-> forall x, x ∈ t -> p x = false.
Proof.
  unfold sql_count. split.
  - intros H x Hx. destruct (p x) eqn:E; [|done].
    assert (Hin : In x (List.filter p t)) by (apply filter_In; rewrite <- list_elem_of_In; done).
    destruct (List.filter p t); [destruct Hin | cbn in H; lia].
  - intros H. induction t as [|x t IH]; cbn; [done|].
    rewrite (H x ltac:(by left)). apply IH. intros y Hy. apply H. by right.
Qed.

(** SQLite's choice of a row where the query does not determine one
    ([LIMIT 1] without an order, or ties in it). *)
Class SqlAny : Type := {
  any_row : forall {A}, list A -> option A;
  any_row_in : forall A (l : list A) x, any_row l = Some x -> x ∈ l;
  any_row_none : forall A (l : list A), any_row l = None -> l = []
}.

(** The first row, as a concrete [SqlAny]. *)
Definition first_row : SqlAny.
Proof.
  refine {| any_row := fun A l => head l |}; intros A [|y l]; cbn; try done.
  intros x [= ->]. by left.
Defined.

(** [ORDER BY key DESC LIMIT 1] finds a row unless the table is empty. *)
Lemma filter_max_nonempty {A} (key : A -> Z) (l : list A) :
  List.filter (fun x => forallb (fun y => key y <=? key x)%Z l) l = [] -> l = [].
Proof.
  intros E. destruct l as [|a l]; [done|]. exfalso.
  assert (Hmax : exists x, x ∈ a :: l /\ forall y, y ∈ a :: l -> (key y <= key x)%Z).
  { clear E. induction l as [|b l (x & Hx & Hm)].
    - exists a. split; [by left|]. by intros y ->%list_elem_of_singleton.
    - destruct (Z.le_gt_cases (key b) (key x)) as [Hle|Hgt].
      + exists x. split; [set_solver|]. intros y [->|[->|Hy]%elem_of_cons]%elem_of_cons; [|done|];
          apply Hm; set_solver.
      + exists b. split; [set_solver|].
        intros y [->|[->|Hy]%elem_of_cons]%elem_of_cons; [| |]; try lia;
          (etrans; [apply Hm; set_solver|lia]). }
  destruct Hmax as (x & Hx & Hm).
  assert (Hf : x ∈ List.filter (fun x => forallb (fun y => key y <=? key x)%Z (a :: l)) (a :: l)).
  { apply elem_of_filter_list. split; [done|]. apply forallb_forall. intros y Hy.
    apply Z.leb_le, Hm. by apply list_elem_of_In. }
  rewrite E in Hf. by apply elem_of_nil in Hf.
Qed.

(** SQLite's [LIMIT n]: no limit when negative. *)
Definition sql_limit {A} (n : Z) (l : list A) : list A :=
  if (n <? 0)%Z then l else take (Z.to_nat n) l.

Lemma Forall2_sql_limit {A B} (P : A -> B -> Prop) n l k :
  Forall2 P l k -> Forall2 P (sql_limit n l) (sql_limit n k).
Proof. unfold sql_limit. destruct (_ <? _)%Z; [done|apply Forall2_take]. Qed.

Lemma Forall_sql_limit {A} (P : A -> Prop) n l : Forall P l -> Forall P (sql_limit n l).
Proof. unfold sql_limit. destruct (_ <? _)%Z; [done|apply Forall_take]. Qed.

Lemma sql_limit_prefix {A} (n : Z) (l : list A) : exists rest, l = sql_limit n l ++ rest.
Proof.
  unfold sql_limit. destruct (_ <? _)%Z; [exists []; by rewrite app_nil_r|].
  exists (drop (Z.to_nat n) l). by rewrite take_drop.
Qed.

Lemma sql_limit_length {A} (n : Z) (l : list A) : (0 <= n)%Z -> (Z.of_nat (length (sql_limit n l)) <= n)%Z.
Proof. intros Hn. unfold sql_limit. destruct (_ <? _)%Z eqn:E; bool_facts; [lia|]. rewrite length_take. lia. Qed.

(** A limit that cuts something off is reached. *)
Lemma sql_limit_full {A} (n : Z) (l : list A) (x : A) :
  (0 <= n)%Z -> x ∈ l -> x ∉ sql_limit n l -> Z.of_nat (length (sql_limit n l)) = n.
Proof.
  intros Hn Hx. unfold sql_limit. destruct (_ <? _)%Z eqn:E; bool_facts; [lia|]. intros Hnx.
  rewrite length_take. destruct (decide (Z.to_nat n <= length l)%nat); [lia|].
  by rewrite take_ge in Hnx by lia.
Qed.

(** An order the program leaves open: the rows of a query without [ORDER BY],
    ties in one, the iteration of a [HashMap]. *)
Class AnyOrder : Type := {
  any_order : forall {A}, list A -> list A;
  any_order_perm : forall A (l : list A), any_order l ≡ₚ l
}.

Lemma elem_of_any_order `{AnyOrder} {A} (l : list A) (x : A) : x ∈ any_order l <-> x ∈ l.
Proof. by rewrite any_order_perm. Qed.

(** Rows as listed, and reversed: two concrete orders. *)
Definition as_listed : AnyOrder.
Proof. by refine {| any_order := fun A l => l |}. Defined.

Definition backwards : AnyOrder.
Proof. refine {| any_order := fun A l => reverse l |}. intros A l. apply reverse_Permutation. Defined.

(** [ORDER BY key]; ties in any order. *)
Definition key_le {A} (key : A -> Z) (x y : A) : Prop := (key x <= key y)%Z.
#[global] Instance key_le_dec {A} (key : A -> Z) x y : Decision (key_le key x y).
Proof. unfold key_le. apply _. Defined.
#[global] Instance key_le_total {A} (key : A -> Z) : Total (key_le key).
Proof. intros x y. unfold key_le. lia. Qed.
#[global] Instance key_le_trans {A} (key : A -> Z) : Transitive (key_le key).
Proof. intros x y z. unfold key_le. lia. Qed.

Definition order_by `{AnyOrder} {A} (key : A -> Z) (l : list A) : list A :=
  merge_sort (key_le key) (any_order l).

Lemma order_by_perm `{AnyOrder} {A} (key : A -> Z) (l : list A) : order_by key l ≡ₚ l.
Proof. unfold order_by. by rewrite merge_sort_Permutation, any_order_perm. Qed.

(** [LIMIT] after [ORDER BY] keeps the smallest keys. *)
Lemma order_by_limit_least `{AnyOrder} {A} (key : A -> Z) (n : Z) (l : list A) (x y : A) :
  x ∈ sql_limit n (order_by key l) -> y ∈ l -> y ∉ sql_limit n (order_by key l) ->
  (key x <= key y)%Z.
Proof.
  intros Hx Hy Hny. destruct (sql_limit_prefix n (order_by key l)) as [rest Er].
  assert (Hs : StronglySorted (key_le key) (order_by key l))
    by (apply Sorted_StronglySorted; [apply _|]; unfold order_by; apply Sorted_merge_sort; apply _).
  rewrite <- (order_by_perm key), Er in Hy. apply elem_of_app in Hy as [Hy|Hy]; [done|].
  rewrite Er in Hs. apply StronglySorted_app in Hs as (Hle & _ & _). exact (Hle x y Hx Hy).
Qed.
