(* ===== verification/RustStr.v ===== *)
(** * RustStr: the parts of Rust's string library the sources use

    UTF-8 decoding ([str::chars], [String::from_utf8_lossy]), char
    classification, trimming, splitting, ASCII case, checked slicing and the
    [std::net] address parsers, on byte sequences.  Each definition is the
    documented behaviour of the standard-library function it is named
    after. *)

From stdpp Require Import base list strings gmap.
From Stdlib Require Import Ascii ZArith Lia.
From S2P Require Import Prelude.

(** ** UTF-8

    [utf8_chunks s] cuts [s] into maximal pieces: one encoded scalar value
    with its code point, or one ill-formed piece (the bytes the decoder
    replaces by a single U+FFFD). *)
Definition in_range (lo hi : N) (b : byte) : bool := (lo <=? bval b)%N && (bval b <=? hi)%N.

Definition is_cont (b : byte) : bool := in_range 128 191 b.

(** The bytes allowed second after a three- or four-byte lead. *)
Definition second_ok (b0 b1 : byte) : bool :=
  let v := bval b0 in
  if (v =? 224)%N then in_range 160 191 b1
  else if (v =? 237)%N then in_range 128 159 b1
  else if (v =? 240)%N then in_range 144 191 b1
  else if (v =? 244)%N then in_range 128 143 b1
  else is_cont b1.

Definition low6 (b : byte) : N := N.land (bval b) 63.

Fixpoint utf8_chunks (s : str) : list (str * option N) :=
  match s with
  | [] => []
  | b0 :: s0 =>
      if (bval b0 <? 128)%N then ([b0], Some (bval b0)) :: utf8_chunks s0
      else if in_range 194 223 b0 then
        match s0 with
        | b1 :: s1 =>
            if is_cont b1
            then ([b0; b1], Some (N.lor (N.shiftl (N.land (bval b0) 31) 6) (low6 b1)))
                   :: utf8_chunks s1
            else ([b0], None) :: utf8_chunks s0
        | [] => [([b0], None)]
        end
      else if in_range 224 239 b0 then
        match s0 with
        | b1 :: s1 =>
            if second_ok b0 b1 then
              match s1 with
              | b2 :: s2 =>
                  if is_cont b2
                  then ([b0; b1; b2],
                        Some (N.lor (N.shiftl (N.land (bval b0) 15) 12)
                               (N.lor (N.shiftl (low6 b1) 6) (low6 b2)))) :: utf8_chunks s2
                  else ([b0; b1], None) :: utf8_chunks s1
              | [] => [([b0; b1], None)]
              end
            else ([b0], None) :: utf8_chunks s0
        | [] => [([b0], None)]
        end
      else if in_range 240 244 b0 then
        match s0 with
        | b1 :: s1 =>
            if second_ok b0 b1 then
              match s1 with
              | b2 :: s2 =>
                  if is_cont b2 then
                    match s2 with
                    | b3 :: s3 =>
                        if is_cont b3
                        then ([b0; b1; b2; b3],
                              Some (N.lor (N.shiftl (N.land (bval b0) 7) 18)
                                     (N.lor (N.shiftl (low6 b1) 12)
                                        (N.lor (N.shiftl (low6 b2) 6) (low6 b3)))))
                               :: utf8_chunks s3
                        else ([b0; b1; b2], None) :: utf8_chunks s2
                    | [] => [([b0; b1; b2], None)]
                    end
                  else ([b0; b1], None) :: utf8_chunks s1
              | [] => [([b0; b1], None)]
              end
            else ([b0], None) :: utf8_chunks s0
        | [] => [([b0], None)]
        end
      else ([b0], None) :: utf8_chunks s0
  end.

Definition valid_utf8 (s : str) : bool := forallb (fun c => bool_decide (is_Some c.2)) (utf8_chunks s).

(** [str::chars]: the code points, in order. *)
Definition chars (s : str) : list N := omap snd (utf8_chunks s).

Definition replacement : str := [ascii_of_N 239; ascii_of_N 191; ascii_of_N 189].

(** [String::from_utf8_lossy]. *)
Definition from_utf8_lossy (s : str) : str :=
  mjoin ((fun c => match c.2 with Some _ => c.1 | None => replacement end) <$> utf8_chunks s).

(** [String::from_utf8(v).ok()]. *)
Definition from_utf8 (s : str) : option str := if valid_utf8 s then Some s else None.

(** [char::is_control] (general category Cc) and [char::is_whitespace]
    (property White_Space). *)
Definition char_is_control (c : N) : bool := (c <=? 31)%N || ((127 <=? c)%N && (c <=? 159)%N).

Definition char_is_whitespace (c : N) : bool :=
  ((9 <=? c)%N && (c <=? 13)%N) || (c =? 32)%N || (c =? 133)%N || (c =? 160)%N || (c =? 5760)%N
  || ((8192 <=? c)%N && (c <=? 8202)%N) || (c =? 8232)%N || (c =? 8233)%N || (c =? 8239)%N
  || (c =? 8287)%N || (c =? 12288)%N.

(** ** Trimming *)
Fixpoint drop_while {A} (p : A -> bool) (l : list A) : list A :=
  match l with
  | [] => []
  | x :: l' => if p x then drop_while p l' else l
  end.

Definition chunk_ws (c : str * option N) : bool :=
  match c.2 with Some n => char_is_whitespace n | None => false end.

Definition trim_start (s : str) : str := mjoin (fst <$> drop_while chunk_ws (utf8_chunks s)).

Definition trim_end (s : str) : str :=
  mjoin (fst <$> reverse (drop_while chunk_ws (reverse (utf8_chunks s)))).

Definition trim (s : str) : str := trim_end (trim_start s).

Definition CR : byte := ascii_of_N 13.
Definition LF : byte := ascii_of_N 10.
Definition NUL : byte := ascii_of_N 0.

(** [s.trim_end_matches(['\r', '\n'])]. *)
Definition trim_end_crlf (s : str) : str :=
  reverse (drop_while (fun b => bool_decide (b = CR) || bool_decide (b = LF)) (reverse s)).

(** [s.trim_end_matches(c)] for an ASCII [c]. *)
Definition trim_end_byte (c : byte) (s : str) : str :=
  reverse (drop_while (fun b => bool_decide (b = c)) (reverse s)).

(** ** Searching and splitting on an ASCII character *)
Fixpoint split_once (c : byte) (s : str) : option (str * str) :=
  match s with
  | [] => None
  | b :: s' =>
      if bool_decide (b = c) then Some ([], s')
      else match split_once c s' with
           | Some (l, r) => Some (b :: l, r)
           | None => None
           end
  end.

Definition rsplit_once (c : byte) (s : str) : option (str * str) :=
  match split_once c (reverse s) with
  | Some (r, l) => Some (reverse l, reverse r)
  | None => None
  end.

Fixpoint split_on (c : byte) (s : str) : list str :=
  match s with
  | [] => [[]]
  | b :: s' =>
      if bool_decide (b = c) then [] :: split_on c s'
      else match split_on c s' with
           | p :: ps => (b :: p) :: ps
           | [] => [[b]]
           end
  end.

Fixpoint strip_prefix (p s : str) : option str :=
  match p, s with
  | [], _ => Some s
  | a :: p', b :: s' => if bool_decide (a = b) then strip_prefix p' s' else None
  | _ :: _, [] => None
  end.

Definition strip_suffix (p s : str) : option str :=
  reverse <$> strip_prefix (reverse p) (reverse s).

Definition starts_with (p s : str) : bool := bool_decide (is_Some (strip_prefix p s)).

Definition ends_with (p s : str) : bool := bool_decide (is_Some (strip_suffix p s)).

(** [s.contains(p)]. *)
Fixpoint contains (p s : str) : bool :=
  starts_with p s || match s with [] => false | _ :: s' => contains p s' end.

(** [s.split_whitespace()]: the maximal runs of chars that are not white
    space; [cur] is the run being read. *)
Fixpoint words (l : list (str * option N)) (cur : str) : list str :=
  match l with
  | [] => if bool_decide (cur = []) then [] else [cur]
  | c :: l =>
      if chunk_ws c then (if bool_decide (cur = []) then words l [] else cur :: words l [])
      else words l (cur ++ c.1)
  end.

Definition split_whitespace (s : str) : list str := words (utf8_chunks s) [].

(** [s.trim_start_matches(c)] for an ASCII [c], and [s.replace(c, with)]. *)
Definition trim_start_byte (c : byte) (s : str) : str := drop_while (fun b => bool_decide (b = c)) s.

Definition replace_byte (c : byte) (by_ s : str) : str :=
  mjoin ((fun b => if bool_decide (b = c) then by_ else [b]) <$> s).

(** [v.join(sep)]. *)
Fixpoint join (sep : str) (l : list str) : str :=
  match l with
  | [] => []
  | [x] => x
  | x :: l' => x ++ sep ++ join sep l'
  end.

(** ** ASCII case *)
Definition ascii_lower (b : byte) : byte :=
  if in_range 65 90 b then ascii_of_N (bval b + 32) else b.

Definition ascii_upper (b : byte) : byte :=
  if in_range 97 122 b then ascii_of_N (bval b - 32) else b.

Definition to_ascii_lowercase (s : str) : str := ascii_lower <$> s.

Definition to_ascii_uppercase (s : str) : str := ascii_upper <$> s.

Definition eq_ignore_ascii_case (a b : str) : bool :=
  str_eqb (to_ascii_lowercase a) (to_ascii_lowercase b).

Definition is_ascii (s : str) : bool := forallb (fun b => (bval b <? 128)%N) s.

Definition is_ascii_alphanumeric (b : byte) : bool :=
  in_range 48 57 b || in_range 65 90 b || in_range 97 122 b.

Definition is_ascii_hexdigit (b : byte) : bool :=
  in_range 48 57 b || in_range 65 70 b || in_range 97 102 b.

(** [str::lines]. *)
Definition lines (content : str) : list str :=
  let l := split_on LF content in
  ((fun s => default s (strip_suffix [CR] s)) <$> take (length l - 1) l)
    ++ match last l with Some [] | None => [] | Some t => [t] end.

(** ** Checked slicing

    [&s[..n]] and [&s[n..]] panic unless [n] is a char boundary. *)
Definition is_char_boundary (s : str) (n : nat) : bool :=
  match s !! n with
  | Some b => negb (is_cont b)
  | None => (n =? length s)%nat
  end.

Definition slice_to (s : str) (n : nat) : exec str :=
  if is_char_boundary s n then Done (take n s) else Panicked.

Definition slice_from (s : str) (n : nat) : exec str :=
  if is_char_boundary s n then Done (drop n s) else Panicked.

(** ** Numbers *)
Definition digit_val (b : byte) : N :=
  let v := bval b in
  if (v <=? 57)%N then v - 48 else if (v <=? 90)%N then v - 55 else v - 87.

(** The decimal rendering of a non-negative integer ([Display] of [u16],
    [usize], [i64] >= 0); 20 digits cover every 64-bit value. *)
Fixpoint dec_digits (fuel : nat) (n : Z) (acc : str) : str :=
  match fuel with
  | O => acc
  | S f =>
      let acc' := ascii_of_N (48 + Z.to_N (n mod 10)) :: acc in
      if (n / 10 =? 0)%Z then acc' else dec_digits f (n / 10) acc'
  end.

Definition dec (n : Z) : str :=
  if (n <? 0)%Z then # "-" ++ dec_digits 20 (- n) [] else dec_digits 20 n [].

(** [{:0w}]: zeroes between the sign and the digits. *)
Definition dec_width (w : nat) (n : Z) : str :=
  let sign := if (n <? 0)%Z then # "-" else [] in
  let digits := dec (Z.abs n) in
  sign ++ replicate (w - (length sign + length digits)) "0"%char ++ digits.

(** [str::parse::<i64>().ok()]. *)
Definition i64_min : Z := - 2 ^ 63.
Definition i64_max : Z := 2 ^ 63 - 1.

Fixpoint parse_dec (s : str) (acc : Z) : option Z :=
  match s with
  | [] => Some acc
  | b :: s' =>
      if in_range 48 57 b then parse_dec s' (10 * acc + Z.of_N (digit_val b)) else None
  end.

Definition usize_max : Z := 2 ^ 64 - 1.

(** [usize::from_str]: digits after an optional [+]. *)
Definition parse_usize (s : str) : option Z :=
  let checked (o : option Z) := n ← o; if (n <=? usize_max)%Z then Some n else None in
  match s with
  | [] => None
  | b :: s' =>
      if bool_decide (b = "+"%char)
      then match s' with [] => None | _ => checked (parse_dec s' 0) end
      else checked (parse_dec s 0)
  end.

Definition parse_i64 (s : str) : option Z :=
  let checked (o : option Z) :=
    match o with
    | Some n => if (i64_min <=? n)%Z && (n <=? i64_max)%Z then Some n else None
    | None => None
    end in
  match s with
  | [] => None
  | b :: s' =>
      if bool_decide (b = "-"%char)
      then match s' with [] => None | _ => checked (Z.opp <$> parse_dec s' 0) end
      else if bool_decide (b = "+"%char)
      then match s' with [] => None | _ => checked (parse_dec s' 0) end
      else checked (parse_dec s 0)
  end.

(** ** [std::net] address literals

    Parsers consume a prefix and return the rest; an [Option]-returning Rust
    parser step that fails leaves the input where it was. *)
Fixpoint read_digits (hex : bool) (s : str) : list N * str :=
  match s with
  | b :: s' =>
      if (if hex then is_ascii_hexdigit b else in_range 48 57 b)
      then let r := read_digits hex s' in (digit_val b :: r.1, r.2)
      else ([], s)
  | [] => ([], [])
  end.

(** [read_number(radix, Some(max), allow_zero_prefix)], bounded by [lim]. *)
Definition read_number (hex : bool) (max : nat) (allow_zero : bool) (lim : N) (s : str)
    : option (N * str) :=
  let '(ds, rest) := read_digits hex s in
  let v := foldl (fun a d => (if hex then 16 else 10) * a + d)%N 0%N ds in
  if (length ds =? 0)%nat || (max <? length ds)%nat || (lim <? v)%N
     || (negb allow_zero && (1 <? length ds)%nat && bool_decide (head ds = Some 0%N))
  then None else Some (v, rest).

Definition read_char (c : byte) (s : str) : option str :=
  match s with b :: s' => if bool_decide (b = c) then Some s' else None | [] => None end.

Definition read_separator {A} (sep : byte) (index : nat) (inner : str -> option (A * str))
    (s : str) : option (A * str) :=
  match index with
  | O => inner s
  | S _ => s' ← read_char sep s; inner s'
  end.

Definition read_octet (i : nat) (s : str) : option (N * str) :=
  read_separator "."%char i (read_number false 3 false 255) s.

Definition read_ipv4 (s : str) : option (list N * str) :=
  '(a, s) ← read_octet 0 s; '(b, s) ← read_octet 1 s;
  '(c, s) ← read_octet 2 s; '(d, s) ← read_octet 3 s;
  Some ([a; b; c; d], s).

(** [n] group slots remain, [i] is the index of the next one: the groups
    read, whether the last two came from an embedded IPv4 address, and the
    rest. *)
Fixpoint read_groups (n i : nat) (s : str) : list N * bool * str :=
  match n with
  | O => ([], false, s)
  | S n' =>
      let v4 := match n' with
                | O => None
                | S _ => read_separator ":"%char i read_ipv4 s
                end in
      match v4 with
      | Some (os, s') => (os, true, s')
      | None =>
          match read_separator ":"%char i (read_number true 4 true 65535) s with
          | Some (g, s') => let '(gs, f, r) := read_groups n' (S i) s' in (g :: gs, f, r)
          | None => ([], false, s)
          end
      end
  end.

(** The number of groups read: an embedded IPv4 address fills two. *)
Definition groups_size (gs : list N) (v4 : bool) : nat :=
  if v4 then (length gs - 2)%nat else length gs.

Definition parse_ipv4_ok (s : str) : bool :=
  (length s <=? 15)%nat &&
  match read_ipv4 s with Some (_, []) => true | _ => false end.

Definition parse_ipv6_ok (s : str) : bool :=
  let '(hd, v4, r) := read_groups 8 0 s in
  if (groups_size hd v4 =? 8)%nat then bool_decide (r = [])
  else if v4 then false
  else match r' ← read_char ":"%char r; read_char ":"%char r' with
       | Some r' =>
           let '(_, _, r'') := read_groups (8 - (groups_size hd v4 + 1)) 0 r' in
           bool_decide (r'' = [])
       | None => false
       end.

(** ** Lemmas: UTF-8 *)
Lemma in_range_spec lo hi b : in_range lo hi b = true <-> (lo <= bval b <= hi)%N.
Proof. unfold in_range. rewrite andb_true_iff, !N.leb_le. done. Qed.

Lemma second_ok_high b0 b1 : second_ok b0 b1 = true -> (128 <= bval b1)%N.
Proof.
  unfold second_ok, is_cont. intros H.
  repeat case_match; rewrite in_range_spec in H; lia.
Qed.

(** What one decoder step yields: a chunk that decodes the same whatever
    follows it when it is well formed, and that is a single ASCII byte or
    has no ASCII byte at all. *)
Definition chunk_ok (bs : str) (o : option N) : Prop :=
  (forall c, o = Some c -> forall t, utf8_chunks (bs ++ t) = (bs, Some c) :: utf8_chunks t) /\
  ((exists b, bs = [b] /\ (bval b < 128)%N /\ o = Some (bval b)) \/
   (bs <> [] /\ Forall (fun b => (128 <= bval b)%N) bs)).

Ltac chunk_high :=
  right; split; [done|];
  repeat (apply Forall_cons; split);
  [.. | apply Forall_nil; done];
  repeat match goal with
  | H : in_range _ _ _ = true |- _ => rewrite in_range_spec in H
  | H : is_cont _ = true |- _ => unfold is_cont in H; rewrite in_range_spec in H
  | H : second_ok _ _ = true |- _ => apply second_ok_high in H
  | H : (_ <? _)%N = false |- _ => apply N.ltb_ge in H
  end; lia.

Lemma utf8_chunks_step (s : str) :
  s <> [] ->
  exists bs o rest, s = bs ++ rest /\ utf8_chunks s = (bs, o) :: utf8_chunks rest /\ chunk_ok bs o.
Proof.
  destruct s as [|b0 s0]; [done|]. intros _. cbn.
  repeat (case_match; subst);
    first [ eexists _, _, []; split; [|split; [reflexivity|]]; [reflexivity|]
          | eexists _, _, _; split; [|split; [reflexivity|]]; [reflexivity|] ];
    (split; [try (intros c [=]) |]);
    try (subst; intros t; cbn;
         repeat match goal with H : ?b = _ |- context [?b] => rewrite H end; reflexivity).
  all: try chunk_high.
  left. eexists. split; [done|]. bool_facts. done.
Qed.

Lemma utf8_ind (P : str -> Prop) :
  P [] ->
  (forall bs o rest, chunk_ok bs o -> utf8_chunks (bs ++ rest) = (bs, o) :: utf8_chunks rest ->
    P rest -> P (bs ++ rest)) ->
  forall s, P s.
Proof.
  intros H0 Hs s. remember (length s) as n eqn:En. revert s En.
  induction (lt_wf n) as [n _ IH]. intros s ->. destruct s as [|b s]; [done|].
  destruct (utf8_chunks_step (b :: s)) as (bs & o & rest & E & E' & Hok); [done|].
  rewrite E in *. apply (Hs bs o rest); [done|done|]. apply (IH (length rest)); [|done].
  rewrite length_app. destruct Hok as [_ [(?&->&_)|[Hne _]]]; [cbn; lia|].
  destruct bs; [done|cbn; lia].
Qed.

Lemma utf8_chunks_concat (s : str) : mjoin (fst <$> utf8_chunks s) = s.
Proof.
  induction s as [|bs o rest _ E IH] using utf8_ind; [done|].
  rewrite E. cbn. f_equal. exact IH.
Qed.

(** An ASCII byte of the string is one of its chars. *)
Lemma ascii_byte_in_chars (s : str) (b : byte) :
  b ∈ s -> (bval b < 128)%N -> bval b ∈ chars s.
Proof.
  unfold chars. induction s as [|bs o rest Hok E IH] using utf8_ind; [by intros ?%elem_of_nil|].
  rewrite E. intros [Hb|Hb]%elem_of_app Hlt; cbn.
  - destruct Hok as [_ [(b' & -> & _ & ->)|[_ Hhigh]]].
    + apply list_elem_of_singleton in Hb as ->. cbn. by left.
    + rewrite Forall_forall in Hhigh. apply Hhigh in Hb. lia.
  - specialize (IH Hb Hlt). destruct o; cbn; [by right|done].
Qed.

Lemma valid_utf8_app_chunk bs c rest :
  utf8_chunks (bs ++ rest) = (bs, Some c) :: utf8_chunks rest ->
  valid_utf8 (bs ++ rest) = valid_utf8 rest.
Proof. intros E. unfold valid_utf8. rewrite E. done. Qed.

Lemma replacement_chunk (t : str) :
  utf8_chunks (replacement ++ t) = (replacement, Some 65533%N) :: utf8_chunks t.
Proof. reflexivity. Qed.

Lemma from_utf8_lossy_valid (s : str) : valid_utf8 (from_utf8_lossy s) = true.
Proof.
  unfold from_utf8_lossy. induction s as [|bs o rest Hok E IH] using utf8_ind; [done|].
  rewrite E. destruct o as [c|].
  - destruct Hok as [Hc _]. etrans; [|exact IH]. apply (valid_utf8_app_chunk bs c). by apply Hc.
  - etrans; [|exact IH]. apply (valid_utf8_app_chunk replacement 65533). apply replacement_chunk.
Qed.

Lemma from_utf8_lossy_id (s : str) : valid_utf8 s = true -> from_utf8_lossy s = s.
Proof.
  unfold from_utf8_lossy, valid_utf8. induction s as [|bs o rest Hok E IH] using utf8_ind; [done|].
  rewrite E. cbn. intros [Hs Hr]%andb_true_iff. destruct o; [|done]. f_equal. exact (IH Hr).
Qed.

(** ** Lemmas: splitting *)
Lemma split_once_some c s l r :
  split_once c s = Some (l, r) <-> s = l ++ c :: r /\ c ∉ l.
Proof.
  revert l r. induction s as [|b s IH]; intros l r; cbn.
  - split; [done|]. intros [E _]. destruct l; done.
  - case_bool_decide as Hb.
    + subst. split.
      * intros [= <- <-]. split; [done|]. apply not_elem_of_nil.
      * intros [E Hn]. destruct l as [|x l]; cbn in E; [by simplify_eq|].
        simplify_eq. destruct Hn. by left.
    + split.
      * destruct (split_once c s) as [[l' r']|]; [|done]. intros [= <- <-].
        destruct (proj1 (IH l' r') eq_refl) as [-> Hn]. split; [done|]. by apply not_elem_of_cons.
      * intros [E Hn]. destruct l as [|x l]; cbn in E; [by simplify_eq|].
        simplify_eq. apply not_elem_of_cons in Hn as [_ Hn].
        rewrite (proj2 (IH l r) (conj eq_refl Hn)). done.
Qed.

Lemma split_once_none c s : split_once c s = None <-> c ∉ s.
Proof.
  split.
  - intros E Hin. apply list_elem_of_split in Hin as (l & r & ->).
    revert E. induction l as [|x l IH]; cbn; case_bool_decide; try done.
    destruct (split_once c (l ++ c :: r)) as [[]|]; done.
  - intros Hn. destruct (split_once c s) as [[l r]|] eqn:E; [|done].
    apply split_once_some in E as [-> _]. destruct Hn. apply elem_of_app. right. by left.
Qed.

Lemma rsplit_once_some c s l r :
  rsplit_once c s = Some (l, r) -> s = l ++ c :: r /\ c ∉ r.
Proof.
  unfold rsplit_once. destruct (split_once c (reverse s)) as [[r' l']|] eqn:E; [|done].
  intros [= <- <-]. apply split_once_some in E as [E Hn]. split.
  - rewrite <- (reverse_involutive s), E, reverse_app, reverse_cons, <- app_assoc. done.
  - by rewrite elem_of_reverse.
Qed.

Lemma split_on_ne c s : split_on c s <> [].
Proof. destruct s; cbn; [done|]. repeat case_match; done. Qed.

Lemma split_on_join c s : join [c] (split_on c s) = s.
Proof.
  induction s as [|b s IH]; cbn; [done|]. case_bool_decide as Hb.
  - subst. destruct (split_on c s) eqn:E; [by destruct (split_on_ne c s)|]. cbn in *. by rewrite IH.
  - destruct (split_on c s) as [|p ps] eqn:E; [by destruct (split_on_ne c s)|].
    destruct ps; cbn in *; by rewrite <- IH.
Qed.

Lemma split_on_no_sep c s : Forall (fun p => c ∉ p) (split_on c s).
Proof.
  induction s as [|b s IH]; cbn.
  - repeat constructor. apply not_elem_of_nil.
  - case_bool_decide; [constructor; [apply not_elem_of_nil|done]|].
    destruct (split_on c s) as [|p ps].
    + repeat constructor. rewrite list_elem_of_singleton. congruence.
    + apply Forall_cons in IH as [Hp Hps]. constructor; [|done].
      apply not_elem_of_cons. split; congruence.
Qed.

Lemma strip_prefix_some p s r : strip_prefix p s = Some r <-> s = p ++ r.
Proof.
  revert s. induction p as [|a p IH]; intros s; cbn; [split; congruence|].
  destruct s as [|b s]; [split; done|]. case_bool_decide; subst; rewrite ?IH.
  - split; intros; simplify_eq; done.
  - split; intros; simplify_eq; done.
Qed.

Lemma strip_suffix_some p s l : strip_suffix p s = Some l -> s = l ++ p.
Proof.
  unfold strip_suffix. destruct (strip_prefix _ _) eqn:E; cbn; [|done].
  intros [= <-]. apply strip_prefix_some in E.
  rewrite <- (reverse_involutive s), E, reverse_app, reverse_involutive. done.
Qed.

Lemma starts_with_spec p s : starts_with p s = true <-> exists r, s = p ++ r.
Proof.
  unfold starts_with. rewrite bool_decide_eq_true. split.
  - intros [r E]. exists r. by apply strip_prefix_some.
  - intros [r ->]. exists r. by apply strip_prefix_some.
Qed.

Lemma to_ascii_lowercase_app a b :
  to_ascii_lowercase (a ++ b) = to_ascii_lowercase a ++ to_ascii_lowercase b.
Proof. apply fmap_app. Qed.

Lemma eq_ignore_ascii_case_refl s : eq_ignore_ascii_case s s = true.
Proof. unfold eq_ignore_ascii_case, str_eqb. by rewrite bool_decide_eq_true. Qed.

Lemma trim_end_crlf_app s e :
  Forall (fun b => b = CR \/ b = LF) e -> trim_end_crlf (s ++ e) = trim_end_crlf s.
Proof.
  unfold trim_end_crlf. intros He. f_equal. rewrite reverse_app.
  apply Forall_reverse in He. induction He as [|b e' Hb He IH]; [done|].
  cbn. destruct Hb as [->| ->]; cbn; exact IH.
Qed.

Lemma drop_while_suffix {A} (p : A -> bool) (l : list A) : exists pre, l = pre ++ drop_while p l.
Proof.
  induction l as [|x l [pre IH]]; cbn; [by exists []|].
  destruct (p x); [exists (x :: pre); cbn; by f_equal|by exists []].
Qed.

Lemma elem_of_drop_while {A} (p : A -> bool) (l : list A) (x : A) : x ∈ drop_while p l -> x ∈ l.
Proof. destruct (drop_while_suffix p l) as [pre E]. intros Hx. rewrite E. apply elem_of_app. by right. Qed.

Lemma trim_start_suffix s : exists pre, s = pre ++ trim_start s.
Proof.
  unfold trim_start. destruct (drop_while_suffix chunk_ws (utf8_chunks s)) as [pre E].
  exists (mjoin (fst <$> pre)). rewrite <- (utf8_chunks_concat s) at 1. rewrite E at 1.
  rewrite fmap_app. apply join_app.
Qed.

Lemma trim_end_prefix s : exists suf, s = trim_end s ++ suf.
Proof.
  unfold trim_end. destruct (drop_while_suffix chunk_ws (reverse (utf8_chunks s))) as [pre E].
  exists (mjoin (fst <$> reverse pre)). rewrite <- (utf8_chunks_concat s) at 1.
  rewrite <- (reverse_involutive (utf8_chunks s)) at 1. rewrite E at 1.
  rewrite reverse_app, fmap_app. apply join_app.
Qed.

(** [trim] cuts at both ends. *)
Lemma trim_infix s : exists pre suf, s = pre ++ trim s ++ suf.
Proof.
  unfold trim. destruct (trim_start_suffix s) as [pre E], (trim_end_prefix (trim_start s)) as [suf E'].
  exists pre, suf. by rewrite <- E'.
Qed.

(** ** Numbers in text: printing and reading back *)
Lemma dec_digit_facts (d : Z) : (0 <= d < 10)%Z ->
  in_range 48 57 (ascii_of_N (48 + Z.to_N d)) = true /\ Z.of_N (digit_val (ascii_of_N (48 + Z.to_N d))) = d.
Proof.
  intros Hd. assert (Ht : forallb (fun k => let d := Z.of_nat k in
      in_range 48 57 (ascii_of_N (48 + Z.to_N d)) && (Z.of_N (digit_val (ascii_of_N (48 + Z.to_N d))) =? d)%Z)
      (List.seq 0 10) = true) by (vm_compute; reflexivity).
  rewrite forallb_forall in Ht. specialize (Ht (Z.to_nat d) ltac:(apply in_seq; lia)). cbv zeta in Ht.
  rewrite Z2Nat.id in Ht by lia. by apply andb_prop in Ht as [? ?%Z.eqb_eq].
Qed.

Lemma parse_dec_digits fuel : forall n acc, (0 <= n < 10 ^ Z.of_nat fuel)%Z ->
  exists k, (0 <= k)%Z /\ forall a, parse_dec (dec_digits fuel n acc) a = parse_dec acc (a * 10 ^ k + n).
Proof.
  induction fuel as [|f IH]; intros n acc Hn.
  - exists 0%Z. split; [lia|]. intros a. cbn in *. f_equal. lia.
  - rewrite Nat2Z.inj_succ, Z.pow_succ_r in Hn by lia. cbn [dec_digits].
    destruct (dec_digit_facts (n mod 10)) as [Hr Hv]; [apply Z.mod_pos_bound; lia|].
    pose proof (Z.div_mod n 10 ltac:(lia)) as Hd. destruct (n / 10 =? 0)%Z eqn:E.
    + exists 1%Z. split; [lia|]. intros a. cbn [parse_dec]. rewrite Hr, Hv. apply Z.eqb_eq in E. f_equal. lia.
    + destruct (IH (n / 10)%Z (ascii_of_N (48 + Z.to_N (n mod 10)) :: acc)) as (k & H0 & Hk).
      { split; [apply Z.div_pos; lia|]. apply Z.div_lt_upper_bound; lia. }
      exists (Z.succ k). split; [lia|]. intros a. rewrite Hk. cbn [parse_dec]. rewrite Hr, Hv. f_equal.
      rewrite Z.pow_succ_r by lia. lia.
Qed.

Lemma dec_digits_head fuel : forall n acc, (0 <= n)%Z ->
  exists b l, dec_digits (S fuel) n acc = b :: l /\ in_range 48 57 b = true.
Proof.
  induction fuel as [|f IH]; intros n acc Hn; cbn [dec_digits];
    destruct (dec_digit_facts (n mod 10)) as [Hr _]; try (apply Z.mod_pos_bound; lia).
  - destruct (_ =? _)%Z; eauto.
  - destruct (_ =? _)%Z; [by eauto|]. apply (IH (n / 10)%Z). apply Z.div_pos; lia.
Qed.

(** An [i64] reads back as itself. *)
Lemma parse_i64_dec n : (i64_min <= n <= i64_max)%Z -> parse_i64 (dec n) = Some n.
Proof.
  unfold i64_min, i64_max. intros Hn. unfold dec. destruct (n <? 0)%Z eqn:E.
  - apply Z.ltb_lt in E. destruct (parse_dec_digits 20 (- n) []) as (k & _ & Hk); [lia|].
    destruct (dec_digits_head 19 (- n) []) as (b & l & El & _); [lia|].
    unfold parse_i64. cbn [app lit String.list_ascii_of_string]. rewrite bool_decide_eq_true_2 by done. rewrite El, <- El, Hk.
    cbn [parse_dec fmap option_fmap option_map]. unfold i64_min, i64_max.
    replace (- (0 * 10 ^ k + - n))%Z with n by lia. by rewrite (proj2 (Z.leb_le _ _)), (proj2 (Z.leb_le _ _)) by lia.
  - apply Z.ltb_ge in E. destruct (parse_dec_digits 20 n []) as (k & _ & Hk); [lia|].
    destruct (dec_digits_head 19 n []) as (b & l & El & Hb); [lia|].
    unfold parse_i64. rewrite El, <- El.
    rewrite !bool_decide_eq_false_2 by (intros ->; vm_compute in Hb; discriminate). rewrite Hk.
    cbn [parse_dec]. unfold i64_min, i64_max.
    replace (0 * 10 ^ k + n)%Z with n by lia. by rewrite (proj2 (Z.leb_le _ _)), (proj2 (Z.leb_le _ _)) by lia.
Qed.

Lemma parse_usize_dec n : (0 <= n <= usize_max)%Z -> parse_usize (dec n) = Some n.
Proof.
  unfold usize_max. intros Hn. unfold dec. rewrite (proj2 (Z.ltb_ge _ _)) by lia.
  destruct (parse_dec_digits 20 n []) as (k & _ & Hk); [lia|].
  destruct (dec_digits_head 19 n []) as (b & l & El & Hb); [lia|].
  unfold parse_usize. rewrite El, <- El. rewrite bool_decide_eq_false_2 by (intros ->; vm_compute in Hb; discriminate).
  rewrite Hk. cbn [parse_dec mbind option_bind]. unfold usize_max.
  replace (0 * 10 ^ k + n)%Z with n by lia. by rewrite (proj2 (Z.leb_le _ _)) by lia.
Qed.

(** Printed digits are digits. *)
Lemma dec_digits_range fuel : forall n acc, (0 <= n)%Z ->
  Forall (fun b => in_range 48 57 b = true) acc -> Forall (fun b => in_range 48 57 b = true) (dec_digits fuel n acc).
Proof.
  induction fuel as [|f IH]; intros n acc Hn Hacc; [done|]. cbn [dec_digits].
  destruct (dec_digit_facts (n mod 10)) as [Hr _]; [apply Z.mod_pos_bound; lia|].
  destruct (_ =? _)%Z; [by constructor|]. apply IH; [apply Z.div_pos; lia|by constructor].
Qed.

Lemma dec_chars n : Forall (fun b => b = "-"%char \/ in_range 48 57 b = true) (dec n).
Proof.
  unfold dec. destruct (n <? 0)%Z eqn:E; [apply Z.ltb_lt in E|apply Z.ltb_ge in E];
    [constructor; [by left|]|]; (eapply Forall_impl; [apply dec_digits_range; [lia|constructor]|auto]).
Qed.

(** A character that is neither a sign nor a digit is not printed. *)
Lemma dec_no_char c n : c <> "-"%char -> in_range 48 57 c = false -> c ∉ dec n.
Proof.
  intros Hc Hr Hin. pose proof (dec_chars n) as Hall. rewrite Forall_forall in Hall.
  destruct (Hall _ Hin) as [E|E]; congruence.
Qed.

Lemma dec_no_dot n : "."%char ∉ dec n.
Proof. by apply dec_no_char. Qed.
