(* ===== verification/Config.v ===== *)
(** * Config: configuration and TLS loading, [common]

    src/crates/common/src/config.rs (every section with its defaults, as the
    serde derives read them from a TOML table), tls.rs, and the acceptors of
    smtp-in/src/tls.rs and submission/src/tls.rs.  Reading TOML text, PEM
    files and certificates is library code: parameters.  serde's reading of a
    section written as a positional array is left out. *)

From stdpp Require Import base list strings gmap sorting.
From Stdlib Require Import Ascii ZArith Lia.
From S2P Require Import Prelude RustStr.

(** ** TOML values *)
Inductive Toml : Type :=
| TString (s : str)
| TInteger (z : Z)
| TFloat (f : f64)
| TBoolean (b : bool)
| TDatetime (s : str)
| TArray (l : list Toml)
| TTable (l : list (str * Toml)).

Abbreviation Table := (list (str * Toml)).

(** A table has each key once. *)
Definition table_get (k : str) (t : Table) : option Toml := snd <$> sql_find (fun kv => str_eqb kv.1 k) t.

(** What the derived [Deserialize] makes of one value. *)
Definition de_string (v : Toml) : option str := match v with TString s => Some s | _ => None end.
Definition de_table (v : Toml) : option Table := match v with TTable t => Some t | _ => None end.
Definition de_uint (max : Z) (v : Toml) : option Z :=
  match v with TInteger z => if (0 <=? z)%Z && (z <=? max)%Z then Some z else None | _ => None end.
Definition de_usize : Toml -> option Z := de_uint usize_max.
Definition de_u32 : Toml -> option Z := de_uint (2 ^ 32 - 1).

(** A required field, an [Option] field, and one with [#[serde(default)]]. *)
Definition required {A} (t : Table) (k : str) (de : Toml -> option A) : option A := table_get k t ≫= de.
Definition optional {A} (t : Table) (k : str) (de : Toml -> option A) : option (option A) :=
  match table_get k t with None => Some None | Some v => Some <$> de v end.
Definition defaulted {A} (t : Table) (k : str) (d : A) (de : Toml -> option A) : option A :=
  match table_get k t with None => Some d | Some v => de v end.

(** ** The sections *)
Record ServerConfig : Type := mkServerConfig { domain : str }.

Definition de_server (v : Toml) : option ServerConfig :=
  t ← de_table v; d ← required t (# "domain") de_string; Some (mkServerConfig d).

Record SmtpConfig : Type := mkSmtpConfig {
  smtp_listen_addr : str; smtp_max_message_size : Z; smtp_tls_cert_path : option str; smtp_tls_key_path : option str
}.

Definition default_smtp_listen_addr : str := # "0.0.0.0:25".
Definition default_smtp_max_message_size : Z := 25 * 1024 * 1024.

Definition default_smtp : SmtpConfig :=
  mkSmtpConfig default_smtp_listen_addr default_smtp_max_message_size None None.

Definition de_smtp (v : Toml) : option SmtpConfig :=
  t ← de_table v;
  a ← defaulted t (# "listen_addr") default_smtp_listen_addr de_string;
  m ← defaulted t (# "max_message_size") default_smtp_max_message_size de_usize;
  c ← optional t (# "tls_cert_path") de_string;
  k ← optional t (# "tls_key_path") de_string;
  Some (mkSmtpConfig a m c k).

Record JmapConfig : Type := mkJmapConfig {
  jmap_listen_addr : str; jmap_tls_cert_path : option str; jmap_tls_key_path : option str; max_upload_size : Z
}.

Definition default_jmap_listen_addr : str := # "127.0.0.1:8620".
Definition default_max_upload_size : Z := 25 * 1024 * 1024.

Definition default_jmap : JmapConfig := mkJmapConfig default_jmap_listen_addr None None default_max_upload_size.

Definition de_jmap (v : Toml) : option JmapConfig :=
  t ← de_table v;
  a ← defaulted t (# "listen_addr") default_jmap_listen_addr de_string;
  c ← optional t (# "tls_cert_path") de_string;
  k ← optional t (# "tls_key_path") de_string;
  m ← defaulted t (# "max_upload_size") default_max_upload_size de_usize;
  Some (mkJmapConfig a c k m).

Record SubmissionConfig : Type := mkSubmissionConfig {
  listen_addr_starttls : str; listen_addr_implicit : str; sub_max_message_size : Z;
  sub_tls_cert_path : option str; sub_tls_key_path : option str
}.

Definition default_submission_starttls_addr : str := # "0.0.0.0:587".
Definition default_submission_implicit_addr : str := # "0.0.0.0:465".

Definition default_submission : SubmissionConfig :=
  mkSubmissionConfig default_submission_starttls_addr default_submission_implicit_addr default_smtp_max_message_size
    None None.

Definition de_submission (v : Toml) : option SubmissionConfig :=
  t ← de_table v;
  s ← defaulted t (# "listen_addr_starttls") default_submission_starttls_addr de_string;
  i ← defaulted t (# "listen_addr_implicit") default_submission_implicit_addr de_string;
  m ← defaulted t (# "max_message_size") default_smtp_max_message_size de_usize;
  c ← optional t (# "tls_cert_path") de_string;
  k ← optional t (# "tls_key_path") de_string;
  Some (mkSubmissionConfig s i m c k).

Record AdminConfig : Type := mkAdminConfig {
  username : option str; password : option str; adm_listen_addr : str;
  adm_tls_cert_path : option str; adm_tls_key_path : option str
}.

Definition default_admin_listen_addr : str := # "127.0.0.1:8621".

Definition default_admin : AdminConfig := mkAdminConfig None None default_admin_listen_addr None None.

Definition de_admin (v : Toml) : option AdminConfig :=
  t ← de_table v;
  u ← optional t (# "username") de_string;
  p ← optional t (# "password") de_string;
  a ← defaulted t (# "listen_addr") default_admin_listen_addr de_string;
  c ← optional t (# "tls_cert_path") de_string;
  k ← optional t (# "tls_key_path") de_string;
  Some (mkAdminConfig u p a c k).

Definition bootstrap_credentials (c : AdminConfig) : option (str * str) :=
  match username c, password c with Some u, Some p => Some (u, p) | _, _ => None end.

Record AntispamConfig : Type := mkAntispamConfig { spam_endpoint : option str }.
Record AntivirusConfig : Type := mkAntivirusConfig { av_endpoint : option str }.

Definition default_antispam : AntispamConfig := mkAntispamConfig None.
Definition default_antivirus : AntivirusConfig := mkAntivirusConfig None.

Definition de_antispam (v : Toml) : option AntispamConfig :=
  t ← de_table v; e ← optional t (# "endpoint") de_string; Some (mkAntispamConfig e).
Definition de_antivirus (v : Toml) : option AntivirusConfig :=
  t ← de_table v; e ← optional t (# "endpoint") de_string; Some (mkAntivirusConfig e).

Definition antispam_is_enabled (c : AntispamConfig) : bool := bool_decide (is_Some (spam_endpoint c)).
Definition antivirus_is_enabled (c : AntivirusConfig) : bool := bool_decide (is_Some (av_endpoint c)).

Record MtaStsConfig : Type := mkMtaStsConfig { sts_mode : str; sts_mx : option str }.

Definition default_mta_sts_mode : str := # "testing".

Definition default_mta_sts : MtaStsConfig := mkMtaStsConfig default_mta_sts_mode None.

Definition de_mta_sts (v : Toml) : option MtaStsConfig :=
  t ← de_table v;
  m ← defaulted t (# "mode") default_mta_sts_mode de_string;
  x ← optional t (# "mx") de_string;
  Some (mkMtaStsConfig m x).

Record TlsRptConfig : Type := mkTlsRptConfig { rua_local_part : str }.

Definition default_tls_rpt_local_part : str := # "tlsrpt".

Definition default_tls_rpt : TlsRptConfig := mkTlsRptConfig default_tls_rpt_local_part.

Definition de_tls_rpt (v : Toml) : option TlsRptConfig :=
  t ← de_table v; r ← defaulted t (# "rua_local_part") default_tls_rpt_local_part de_string; Some (mkTlsRptConfig r).

Record StorageConfig : Type := mkStorageConfig { blob_dir : str; sqlite_path : str }.

Definition de_storage (v : Toml) : option StorageConfig :=
  t ← de_table v;
  b ← required t (# "blob_dir") de_string;
  s ← required t (# "sqlite_path") de_string;
  Some (mkStorageConfig b s).

(** The three costs are [u32]s. *)
Record Argon2Config : Type := mkArgon2Config { m_cost_kib : Z; t_cost : Z; p_cost : Z }.

Definition default_m_cost_kib : Z := 64 * 1024.
Definition default_t_cost : Z := 3.
Definition default_p_cost : Z := 4.

Definition default_argon2 : Argon2Config := mkArgon2Config default_m_cost_kib default_t_cost default_p_cost.

Definition de_argon2 (v : Toml) : option Argon2Config :=
  t ← de_table v;
  m ← defaulted t (# "m_cost_kib") default_m_cost_kib de_u32;
  tc ← defaulted t (# "t_cost") default_t_cost de_u32;
  p ← defaulted t (# "p_cost") default_p_cost de_u32;
  Some (mkArgon2Config m tc p).

(** How the password functions take the costs. *)
Definition costs (c : Argon2Config) : Z * Z * Z := (m_cost_kib c, t_cost c, p_cost c).

Record Config : Type := mkConfig {
  server : ServerConfig;
  storage : StorageConfig;
  argon2 : Argon2Config;
  smtp : SmtpConfig;
  jmap : JmapConfig;
  submission : SubmissionConfig;
  admin : AdminConfig;
  antispam : AntispamConfig;
  antivirus : AntivirusConfig;
  mta_sts : MtaStsConfig;
  tls_rpt : TlsRptConfig
}.

Definition de_config (t : Table) : option Config :=
  sv ← required t (# "server") de_server;
  st ← required t (# "storage") de_storage;
  a2 ← defaulted t (# "argon2") default_argon2 de_argon2;
  sm ← defaulted t (# "smtp") default_smtp de_smtp;
  jm ← defaulted t (# "jmap") default_jmap de_jmap;
  su ← defaulted t (# "submission") default_submission de_submission;
  ad ← defaulted t (# "admin") default_admin de_admin;
  an ← defaulted t (# "antispam") default_antispam de_antispam;
  av ← defaulted t (# "antivirus") default_antivirus de_antivirus;
  mt ← defaulted t (# "mta_sts") default_mta_sts de_mta_sts;
  tl ← defaulted t (# "tls_rpt") default_tls_rpt de_tls_rpt;
  Some (mkConfig sv st a2 sm jm su ad an av mt tl).

(** [toml]'s parser, and the text of its error on a text it refuses or whose
    values do not have the types asked for. *)
Class TomlLibrary : Type := {
  toml_table : str -> option Table;
  toml_error : str -> str
}.

(** [read] is what [read_to_string] gives. *)
Definition load `{TomlLibrary} (read : result str str) : Result Config :=
  match read with
  | Err e => Err (Io e)
  | Ok raw =>
      match toml_table raw ≫= de_config with
      | Some c => Ok c
      | None => Err (Prelude.Config (toml_error raw))
      end
  end.

(** ** TLS, tls.rs *)

(** rustls and its PEM reader: the certificates of a file one by one, the key
    of a file, and the configuration of a chain with its key. *)
Class TlsLibrary : Type := {
  TlsConfig : Type;
  pem_file_iter : str -> result str (list (result str str));
  key_from_pem_file : str -> result str str;
  with_single_cert : list str -> str -> result str TlsConfig
}.

Section Tls.
Context `{TlsLibrary}.

(** [.collect::<Result<Vec<_>, _>>()]. *)
Fixpoint collect_certs (l : list (result str str)) : result str (list str) :=
  match l with
  | [] => Ok []
  | c :: l => c ← c; cs ← collect_certs l; Ok (c :: cs)
  end.

Definition config_error {A} (what : str) (r : result str A) : Result A :=
  match r with Ok a => Ok a | Err e => Err (Prelude.Config (what ++ e)) end.

Definition load_server_config (cert_path key_path : str) : Result TlsConfig :=
  certs ← config_error (# "tls_cert_path: ") (pem_file_iter cert_path);
  certs ← config_error (# "failed to parse TLS cert chain: ") (collect_certs certs);
  if bool_decide (certs = []) then Err (Prelude.Config (# "tls_cert_path contains no certificates"))
  else
    key ← config_error (# "failed to parse TLS private key: ") (key_from_pem_file key_path);
    config_error (# "invalid TLS cert/key pair: ") (with_single_cert certs key).

(** smtp-in: no STARTTLS unless both paths are set. *)
Definition load_smtp_acceptor (c : SmtpConfig) : Result (option TlsConfig) :=
  match smtp_tls_cert_path c, smtp_tls_key_path c with
  | Some cert, Some key => t ← load_server_config cert key; Ok (Some t)
  | _, _ => Ok None
  end.

(** submission: TLS is mandatory. *)
Definition load_submission_acceptor (c : SubmissionConfig) : Result TlsConfig :=
  match sub_tls_cert_path c, sub_tls_key_path c with
  | Some cert, Some key => load_server_config cert key
  | _, _ => Err (Prelude.Config (# "submission requires tls_cert_path and tls_key_path (TLS is mandatory)"))
  end.

(** main's treatment of the JMAP and admin listeners. *)
Definition listener_tls (cert key : option str) : Result (option TlsConfig) :=
  match cert, key with
  | Some cert, Some key => t ← load_server_config cert key; Ok (Some t)
  | _, _ => Ok None
  end.

End Tls.

(** ** Theorems *)

(** The sections that may be left out. *)
Definition optional_sections : list str :=
  [ # "argon2"; # "smtp"; # "jmap"; # "submission"; # "admin"; # "antispam"; # "antivirus"; # "mta_sts"; # "tls_rpt"].

Lemma defaulted_absent {A} (t : Table) k (d : A) de :
  table_get k t = None -> de (TTable []) = Some d ->
  defaulted t k d de = defaulted ((k, TTable []) :: t) k d de.
Proof.
  intros Ht Hd. unfold defaulted. rewrite Ht. unfold table_get, sql_find. cbn. unfold str_eqb.
  by rewrite bool_decide_eq_true_2.
Qed.

Lemma table_get_other k k' v (t : Table) : k <> k' -> table_get k ((k', v) :: t) = table_get k t.
Proof. intros Hk. unfold table_get, sql_find. cbn. unfold str_eqb. rewrite bool_decide_eq_false_2; [done|congruence]. Qed.

Lemma required_other {A} k k' v (t : Table) (de : Toml -> option A) : k <> k' -> required ((k', v) :: t) k de = required t k de.
Proof. intros Hk. unfold required. by rewrite table_get_other. Qed.

Lemma defaulted_other {A} k k' v (t : Table) (d : A) de : k <> k' -> defaulted ((k', v) :: t) k d de = defaulted t k d de.
Proof. intros Hk. unfold defaulted. by rewrite table_get_other. Qed.

(** One section of [de_config] after another. *)
Ltac section Ht k :=
  match goal with
  | |- context [required (_ :: _) ?k' _] => rewrite required_other by (vm_compute; congruence)
  | |- context [defaulted ((k, _) :: _) k _ _] => rewrite <- (defaulted_absent _ k _ _ Ht) by reflexivity
  | |- context [defaulted (_ :: _) ?k' _ _] => rewrite defaulted_other by (vm_compute; congruence)
  end.

(** The serde defaults agree with the [Default] implementations: an
    optional section that is left out reads as the same section written
    empty. *)
Theorem absent_section_is_empty_section (t : Table) (k : str) :
  k ∈ optional_sections -> table_get k t = None -> de_config ((k, TTable []) :: t) = de_config t.
Proof.
  intros Hk Ht. unfold optional_sections in Hk.
  repeat (apply elem_of_cons in Hk as [->|Hk];
    [unfold de_config; match type of Ht with table_get ?k _ = _ => repeat section Ht k end; reflexivity|]).
  by apply elem_of_nil in Hk.
Qed.

Lemma absent_section_is_empty_section_witness :
  de_config [(# "smtp", TTable []); (# "server", TTable [(# "domain", TString (# "a.example"))])]
  = de_config [(# "server", TTable [(# "domain", TString (# "a.example"))])].
Proof. apply absent_section_is_empty_section; [unfold optional_sections; set_solver|reflexivity]. Defined.

(** What holds of every configuration that loads: sizes are [usize]s, costs
    [u32]s. *)
Definition config_ok (c : Config) : Prop :=
  (0 <= smtp_max_message_size (smtp c) <= usize_max)%Z /\
  (0 <= sub_max_message_size (submission c) <= usize_max)%Z /\
  (0 <= max_upload_size (jmap c) <= usize_max)%Z /\
  (0 <= m_cost_kib (argon2 c) < 2 ^ 32)%Z /\ (0 <= t_cost (argon2 c) < 2 ^ 32)%Z /\ (0 <= p_cost (argon2 c) < 2 ^ 32)%Z.

Lemma de_uint_range max v z : de_uint max v = Some z -> (0 <= z <= max)%Z.
Proof. destruct v; cbn; try done. case_match eqn:E; [|done]. intros [= <-]. bool_facts. lia. Qed.

Lemma defaulted_range (t : Table) k d max z :
  (0 <= d <= max)%Z -> defaulted t k d (de_uint max) = Some z -> (0 <= z <= max)%Z.
Proof. unfold defaulted. case_match; [intros _; apply de_uint_range|]. by intros Hd [= <-]. Qed.

(** A value read in a section, or the section's default. *)
Lemma defaulted_prop {A} (P : A -> Prop) (t : Table) k d de a :
  P d -> (forall v a, de v = Some a -> P a) -> defaulted t k d de = Some a -> P a.
Proof. unfold defaulted. case_match; [eauto|]. by intros Hd _ [= <-]. Qed.

Ltac bind_inv H :=
  repeat match type of H with
  | (?m ≫= _) = Some _ =>
      let x := fresh "x" in let E := fresh "E" in
      destruct m as [x|] eqn:E; cbn [mbind option_bind] in H; [|discriminate H]
  end.

(** The sizes of a section that was read. *)
Ltac section_size Hs :=
  bind_inv Hs; inv Hs; cbn;
  repeat split;
  match goal with
  | E : defaulted _ _ ?d _ = Some ?z |- (0 <= ?z)%Z => apply (defaulted_range _ _ d _ z) in E
  | E : defaulted _ _ ?d _ = Some ?z |- (?z <= _)%Z => apply (defaulted_range _ _ d _ z) in E
  end; try lia; vm_compute; split; discriminate.

Lemma de_smtp_size v s : de_smtp v = Some s -> (0 <= smtp_max_message_size s <= usize_max)%Z.
Proof. unfold de_smtp, de_usize. intros Hs. section_size Hs. Qed.

Lemma de_submission_size v s : de_submission v = Some s -> (0 <= sub_max_message_size s <= usize_max)%Z.
Proof. unfold de_submission, de_usize. intros Hs. section_size Hs. Qed.

Lemma de_jmap_size v s : de_jmap v = Some s -> (0 <= max_upload_size s <= usize_max)%Z.
Proof. unfold de_jmap, de_usize. intros Hs. section_size Hs. Qed.

Definition costs_ok (a : Argon2Config) : Prop :=
  (0 <= m_cost_kib a <= 2 ^ 32 - 1 /\ 0 <= t_cost a <= 2 ^ 32 - 1 /\ 0 <= p_cost a <= 2 ^ 32 - 1)%Z.

Lemma de_argon2_costs v a : de_argon2 v = Some a -> costs_ok a.
Proof. unfold de_argon2, costs_ok, de_u32. intros Hs. section_size Hs. Qed.

Lemma de_config_ok t c : de_config t = Some c -> config_ok c.
Proof.
  intros Hc. unfold de_config in Hc. bind_inv Hc. inv Hc. unfold config_ok. cbn [smtp submission jmap argon2].
  apply (defaulted_prop costs_ok) in E1; [|vm_compute; split_and!; discriminate|apply de_argon2_costs].
  apply (defaulted_prop (fun s => 0 <= smtp_max_message_size s <= usize_max)%Z) in E2;
    [|vm_compute; split; discriminate|apply de_smtp_size].
  apply (defaulted_prop (fun s => 0 <= max_upload_size s <= usize_max)%Z) in E3;
    [|vm_compute; split; discriminate|apply de_jmap_size].
  apply (defaulted_prop (fun s => 0 <= sub_max_message_size s <= usize_max)%Z) in E4;
    [|vm_compute; split; discriminate|apply de_submission_size].
  unfold costs_ok in E1. split_and!; lia.
Qed.

Section Toml.
Context `{TomlLibrary}.

(** A text that names a domain and the two storage paths loads, every other
    setting the documented default: JMAP and admin on localhost only, no TLS
    and so no submission, no scanners, no bootstrap credentials, Argon2id at
    64 MiB, three passes, four lanes. *)
Theorem minimal_config_loads (raw d b s : str) :
  toml_table raw = Some [(# "server", TTable [(# "domain", TString d)]);
                         (# "storage", TTable [(# "blob_dir", TString b); (# "sqlite_path", TString s)])] ->
  exists c, load (Ok raw) = Ok c /\ domain (server c) = d /\ storage c = mkStorageConfig b s /\
    bootstrap_credentials (admin c) = None /\
    (forall `{TlsLibrary}, load_smtp_acceptor (smtp c) = Ok None /\
       listener_tls (jmap_tls_cert_path (jmap c)) (jmap_tls_key_path (jmap c)) = Ok None /\
       listener_tls (adm_tls_cert_path (admin c)) (adm_tls_key_path (admin c)) = Ok None /\
       is_ok (load_submission_acceptor (submission c)) = false) /\
    starts_with (# "127.0.0.1:") (jmap_listen_addr (jmap c)) = true /\
    starts_with (# "127.0.0.1:") (adm_listen_addr (admin c)) = true /\
    antispam_is_enabled (antispam c) = false /\ antivirus_is_enabled (antivirus c) = false /\
    costs (argon2 c) = (65536, 3, 4)%Z.
Proof.
  intros Hraw. unfold load. rewrite Hraw. eexists. split; [reflexivity|]. split_and!; try reflexivity.
  intros T. split_and!; reflexivity.
Qed.

End Toml.

(** ** Half a TLS pair *)
Section TlsFacts.
Context `{TlsLibrary}.

(** A listener is encrypted exactly when both paths are set and rustls takes
    what they hold; one path without the other is no error anywhere: JMAP,
    admin and SMTP go on in plain text, whatever the file holds. *)
Theorem tls_needs_both_paths (cert key : option str) :
  (forall t, listener_tls cert key = Ok (Some t) <->
     exists c k, cert = Some c /\ key = Some k /\ load_server_config c k = Ok t) /\
  ((cert = None \/ key = None) <-> listener_tls cert key = Ok None) /\
  (forall a m, load_smtp_acceptor (mkSmtpConfig a m cert key) = listener_tls cert key) /\
  (forall a i m, cert = None \/ key = None -> is_ok (load_submission_acceptor (mkSubmissionConfig a i m cert key)) = false).
Proof.
  unfold listener_tls, load_submission_acceptor, load_smtp_acceptor. cbn.
  destruct cert as [c|], key as [k|]; split_and!; try done; try tauto.
  - intros t. unfold mbind, result_bind. destruct (load_server_config c k) as [t'|e] eqn:E; split.
    + intros [= ->]. eauto.
    + by intros (? & ? & [= ->] & [= ->] & [= ->]%(eq_trans (eq_sym E))).
    + done.
    + by intros (? & ? & [= ->] & [= ->] & [=]%(eq_trans (eq_sym E))).
  - unfold mbind, result_bind. destruct (load_server_config c k); naive_solver.
  - naive_solver.
  - naive_solver.
  - naive_solver.
  - naive_solver.
Qed.

(** A chain that loads is not empty and every certificate of its file was
    readable, in order. *)
Theorem server_config_has_whole_chain (cert_path key_path : str) (t : TlsConfig) :
  load_server_config cert_path key_path = Ok t ->
  exists certs key, certs <> [] /\ pem_file_iter cert_path = Ok (Ok <$> certs) /\
    key_from_pem_file key_path = Ok key /\ with_single_cert certs key = Ok t.
Proof.
  unfold load_server_config, mbind, result_bind.
  destruct (pem_file_iter cert_path) as [items|e] eqn:Ei; [|done]. cbn [config_error].
  assert (Hc : forall l cs, collect_certs l = Ok cs -> l = Ok <$> cs).
  { induction l as [|[c|e] l IH]; intros cs; cbn; unfold mbind, result_bind; [by intros [= <-]| |done].
    destruct (collect_certs l) as [cs'|] eqn:E; [|done]. intros [= <-]. cbn. f_equal. by apply IH. }
  destruct (collect_certs items) as [certs|e] eqn:Ec; [|done]. cbn [config_error].
  case_bool_decide as Hn; [done|].
  destruct (key_from_pem_file key_path) as [key|e] eqn:Ek; [|done]. cbn [config_error].
  destruct (with_single_cert certs key) as [t'|e] eqn:Ew; [|done]. intros [= <-].
  exists certs, key. split_and!; try done. f_equal. by apply Hc.
Qed.

End TlsFacts.
