(* ===== verification/Input.v ===== *)
(** * Input: [common::input]

    The validators every address, domain and header value crosses before it
    reaches the SMTP wire, the queue or a header (src/crates/common/src/input.rs),
    and what acceptance guarantees: an accepted value carries no byte that
    could end the line, the header or the angle-bracketed address. *)

From stdpp Require Import base list strings gmap.
From Stdlib Require Import Ascii ZArith Lia.
From S2P Require Import Prelude RustStr.

Definition valid_header_value (value : str) : bool :=
  negb (existsb (fun c => (c =? 13)%N || (c =? 10)%N || (c =? 0)%N || char_is_control c)
          (chars value)).

(** The delimiters refused in an address, besides white space. *)
Definition address_delimiter (c : N) : bool :=
  existsb (N.eqb c) (bval <$> # "<>()[],;:\" ) || (c =? 34)%N.

Definition valid_domain_label (label : str) : bool :=
  negb (str_eqb label [])
  && (length label <=? 63)%nat
  && negb (starts_with (# "-") label)
  && negb (ends_with (# "-") label)
  && forallb (fun b => is_ascii_alphanumeric b || bool_decide (b = "-"%char)) label.

Definition valid_domain_name (domain : str) : bool :=
  negb (str_eqb domain [])
  && (length domain <=? 253)%nat
  && valid_header_value domain
  && is_ascii domain
  && forallb valid_domain_label (split_on "."%char domain).

Definition valid_email_address (address : str) : bool :=
  if str_eqb address [] || (254 <? length address)%nat || negb (valid_header_value address)
  then false
  else if existsb (fun c => char_is_whitespace c || address_delimiter c) (chars address)
  then false
  else
    match split_on "@"%char address with
    | [local; domain] =>
        negb (str_eqb local [] || str_eqb domain []
              || starts_with (# ".") local || ends_with (# ".") local
              || contains (# "..") local || negb (valid_domain_name domain))
    | _ => false
    end.

Definition valid_local_part (local : str) : bool :=
  valid_email_address (local ++ # "@example.invalid").

Definition valid_helo_domain (value : str) : bool :=
  if valid_domain_name value then true
  else
    match s ← strip_prefix (# "[") value; strip_suffix (# "]") s with
    | None => false
    | Some inner =>
        match strip_prefix (# "IPv6:") inner with
        | Some v6 => parse_ipv6_ok v6
        | None => parse_ipv4_ok inner
        end
    end.

(** ** What acceptance means at the byte level *)

(** Control bytes: everything below 32, and DEL. *)
Definition control_byte (b : byte) : bool := (bval b <? 32)%N || (bval b =? 127)%N.

Lemma valid_header_value_no_control (v : str) (b : byte) :
  valid_header_value v = true -> b ∈ v -> control_byte b = false.
Proof.
  unfold valid_header_value. intros Hv Hb. apply negb_true_iff in Hv.
  destruct (control_byte b) eqn:E; [exfalso|done]. unfold control_byte in E.
  assert (Hlt : (bval b < 128)%N) by (apply orb_true_iff in E as [E|E]; bool_facts; lia).
  pose proof (ascii_byte_in_chars _ _ Hb Hlt) as Hin. apply list_elem_of_In in Hin.
  assert (Hex : existsb (fun c => (c =? 13)%N || (c =? 10)%N || (c =? 0)%N || char_is_control c)
                  (chars v) = true).
  { apply existsb_exists. exists (bval b). split; [done|]. unfold char_is_control.
    apply orb_true_iff in E as [E|E]; bool_facts.
    - rewrite (proj2 (N.leb_le (bval b) 31)) by lia. by rewrite !orb_true_r.
    - rewrite E. done. }
  congruence.
Qed.

Lemma valid_email_no_char (a : str) (b : byte) :
  valid_email_address a = true -> b ∈ a -> (bval b < 128)%N ->
  char_is_whitespace (bval b) = false /\ address_delimiter (bval b) = false.
Proof.
  intros Hv Hb Hlt. apply orb_false_iff.
  assert (Hn : existsb (fun c => char_is_whitespace c || address_delimiter c) (chars a) = false).
  { unfold valid_email_address in Hv. destruct (_ || negb _); [done|].
    destruct (existsb _ _); done. }
  destruct (_ || _) eqn:E; [exfalso|done]. rewrite <- not_true_iff_false in Hn. apply Hn.
  apply existsb_exists. exists (bval b). split; [|done].
  apply list_elem_of_In. by apply ascii_byte_in_chars.
Qed.

Lemma valid_email_header (a : str) :
  valid_email_address a = true -> valid_header_value a = true /\ (length a <= 254)%nat.
Proof.
  unfold valid_email_address. intros H.
  destruct (str_eqb a [] || (254 <? length a)%nat || negb (valid_header_value a)) eqn:E; [done|].
  bool_facts. done.
Qed.

Lemma valid_email_parts (a : str) :
  valid_email_address a = true ->
  exists local domain, a = local ++ ("@"%char :: domain) /\
    ("@"%char ∉ local) /\ ("@"%char ∉ domain) /\ local <> [] /\ valid_domain_name domain = true.
Proof.
  unfold valid_email_address. intros H.
  destruct (_ || negb _); [done|]. destruct (existsb _ _); [done|].
  pose proof (split_on_join "@"%char a) as Hj. pose proof (split_on_no_sep "@"%char a) as Hs.
  destruct (split_on "@"%char a) as [|l [|d [|]]]; try done.
  apply negb_true_iff in H. bool_facts.
  apply Forall_cons in Hs as [? [? _]%Forall_cons]. exists l, d. cbn in Hj. rewrite <- Hj. done.
Qed.

(** The bytes of an accepted address: none can end a command line, a header
    or an angle-bracketed path. *)
Definition wire_safe_byte (b : byte) : bool :=
  negb (control_byte b) && negb (existsb (fun c => bool_decide (b = c)) (# " <>()[],;:\" )).

Lemma unsafe_chars_refused :
  forallb (fun c => (bval c <? 128)%N && (char_is_whitespace (bval c) || address_delimiter (bval c)))
    (# " <>()[],;:\" ) = true.
Proof. reflexivity. Qed.

Lemma valid_email_wire_safe (a : str) (b : byte) :
  valid_email_address a = true -> b ∈ a -> wire_safe_byte b = true.
Proof.
  intros Hv Hb. destruct (valid_email_header a Hv) as [Hh _].
  unfold wire_safe_byte. rewrite (valid_header_value_no_control a b Hh Hb). cbn -[lit].
  apply negb_true_iff. destruct (existsb _ _) eqn:E; [exfalso|done].
  apply existsb_exists in E as (c & Hc & ->%bool_decide_eq_true).
  pose proof (proj1 (forallb_forall _ _) unsafe_chars_refused c Hc) as Hc'.
  cbn beta in Hc'. bool_facts.
  destruct (valid_email_no_char a c Hv Hb) as [Hw Hd]; [done|].
  rewrite Hw, Hd in *. done.
Qed.

Lemma valid_domain_wire_safe (d : str) (b : byte) :
  valid_domain_name d = true -> b ∈ d ->
  is_ascii_alphanumeric b = true \/ b = "-"%char \/ b = "."%char.
Proof.
  unfold valid_domain_name. intros Hv Hb. bool_facts.
  match goal with H : forallb valid_domain_label _ = true |- _ => rename H into Hl end.
  rewrite forallb_forall in Hl.
  rewrite <- (split_on_join "."%char d) in Hb.
  assert (Hall : forall p, p ∈ split_on "."%char d -> valid_domain_label p = true)
    by (intros p Hp; apply Hl; by apply list_elem_of_In).
  clear Hl. induction (split_on "."%char d) as [|p ps IH]; [by apply elem_of_nil in Hb|].
  assert (Hp : b ∈ p -> is_ascii_alphanumeric b = true \/ b = "-"%char \/ b = "."%char).
  { intros Hbp. specialize (Hall p ltac:(by left)). unfold valid_domain_label in Hall. bool_facts.
    match goal with H : forallb _ p = true |- _ => rename H into Hf end.
    rewrite forallb_forall in Hf. apply list_elem_of_In in Hbp. specialize (Hf b Hbp).
    apply orb_true_iff in Hf as [Hf|Hf]; [by left|]. apply bool_decide_eq_true in Hf. auto. }
  assert (Hps : b ∈ join (# ".") ps -> is_ascii_alphanumeric b = true \/ b = "-"%char \/ b = "."%char)
    by (intros; apply IH; [done|]; intros q Hq; apply Hall; by right).
  destruct ps as [|q ps]; [auto|].
  change (b ∈ p ++ "."%char :: join (# ".") (q :: ps)) in Hb.
  apply elem_of_app in Hb as [Hb|Hb]; [auto|]. apply elem_of_cons in Hb as [->|Hb]; auto.
Qed.

(** ** Address literals

    Everything the [std::net] parsers consume is a hexadecimal digit, a
    full stop or a colon. *)
Definition ip_byte (b : byte) : bool :=
  is_ascii_hexdigit b || bool_decide (b = "."%char) || bool_decide (b = ":"%char).

Definition consumes (s r : str) : Prop := exists pre, s = pre ++ r /\ forallb ip_byte pre = true.

Lemma consumes_refl s : consumes s s.
Proof. exists []. done. Qed.

Lemma consumes_trans s r t : consumes s r -> consumes r t -> consumes s t.
Proof.
  intros (p & -> & Hp) (q & -> & Hq). exists (p ++ q). split; [by rewrite app_assoc|].
  by rewrite forallb_app, Hp, Hq.
Qed.

Lemma consumes_nil s b : consumes s [] -> b ∈ s -> ip_byte b = true.
Proof.
  intros (p & -> & Hp) Hb. rewrite app_nil_r in Hb. rewrite forallb_forall in Hp.
  apply Hp. by apply list_elem_of_In.
Qed.

Lemma read_char_consumes c s r : ip_byte c = true -> read_char c s = Some r -> consumes s r.
Proof.
  intros Hc. destruct s as [|b s]; cbn; [done|]. case_bool_decide as Hb; [|done].
  intros [= <-]. subst b. exists [c]. cbn. by rewrite Hc.
Qed.

Lemma read_digits_consumes hex s : consumes s (read_digits hex s).2.
Proof.
  induction s as [|b s IH]; cbn; [apply consumes_refl|].
  destruct (if hex then _ else _) eqn:E; [|apply consumes_refl]. cbn.
  apply (consumes_trans _ s); [|done]. exists [b]. split; [done|]. cbn.
  unfold ip_byte. rewrite andb_true_r.
  replace (is_ascii_hexdigit b) with true; [done|].
  destruct hex; [done|]. unfold is_ascii_hexdigit. by rewrite E.
Qed.

Lemma read_number_consumes hex mx z lim s v r :
  read_number hex mx z lim s = Some (v, r) -> consumes s r.
Proof.
  unfold read_number. pose proof (read_digits_consumes hex s) as H.
  destruct (read_digits hex s) as [ds rest]. destruct (_ || _); [done|]. by intros [= _ <-].
Qed.

Lemma read_separator_consumes {A} sep i (inner : str -> option (A * str)) s v r :
  ip_byte sep = true ->
  (forall s' v' r', inner s' = Some (v', r') -> consumes s' r') ->
  read_separator sep i inner s = Some (v, r) -> consumes s r.
Proof.
  intros Hsep Hin. destruct i; cbn; [apply Hin|].
  destruct (read_char sep s) as [s'|] eqn:E; cbn; [|done]. intros H.
  eapply consumes_trans; [by eapply read_char_consumes|by eapply Hin].
Qed.

Lemma read_octet_consumes i s v r : read_octet i s = Some (v, r) -> consumes s r.
Proof. apply read_separator_consumes; [done|]. intros ???. apply read_number_consumes. Qed.

Lemma read_ipv4_consumes s v r : read_ipv4 s = Some (v, r) -> consumes s r.
Proof.
  unfold read_ipv4.
  destruct (read_octet 0 s) as [[? s1]|] eqn:E1; cbn -[read_octet]; [|done].
  destruct (read_octet 1 s1) as [[? s2]|] eqn:E2; cbn -[read_octet]; [|done].
  destruct (read_octet 2 s2) as [[? s3]|] eqn:E3; cbn -[read_octet]; [|done].
  destruct (read_octet 3 s3) as [[? s4]|] eqn:E4; cbn -[read_octet]; [|done].
  intros [= _ <-]. eauto 10 using consumes_trans, read_octet_consumes.
Qed.

Lemma read_groups_consumes n : forall i s, consumes s (read_groups n i s).2.
Proof.
  induction n as [|n IH]; intros i s; cbn; [apply consumes_refl|].
  destruct (match n with O => None | S _ => _ end) as [[os s']|] eqn:E4; cbn.
  - destruct n; [done|]. revert E4.
    apply (read_separator_consumes ":"%char); [done|exact read_ipv4_consumes].
  - destruct (read_separator _ _ (read_number _ _ _ _) s) as [[g s']|] eqn:Eg; [|apply consumes_refl].
    specialize (IH (S i) s'). destruct (read_groups n (S i) s') as [[gs f] r]. cbn in *.
    eapply consumes_trans; [|exact IH]. revert Eg.
    apply (read_separator_consumes ":"%char); [done|]. intros ???. apply read_number_consumes.
Qed.

Lemma parse_ipv4_bytes s b : parse_ipv4_ok s = true -> b ∈ s -> ip_byte b = true.
Proof.
  unfold parse_ipv4_ok. intros [_ H]%andb_true_iff.
  destruct (read_ipv4 s) as [[os r]|] eqn:E; [|done]. destruct r; [|done].
  apply consumes_nil. by eapply read_ipv4_consumes.
Qed.

Lemma parse_ipv6_bytes s b : parse_ipv6_ok s = true -> b ∈ s -> ip_byte b = true.
Proof.
  unfold parse_ipv6_ok. pose proof (read_groups_consumes 8 0 s) as Hh.
  destruct (read_groups 8 0 s) as [[hd v4] r]. cbn in Hh.
  destruct (_ =? 8)%nat. { intros ->%bool_decide_eq_true. by apply consumes_nil. }
  destruct v4; [done|].
  destruct (read_char ":"%char r) as [r1|] eqn:E1; cbn; [|done].
  destruct (read_char ":"%char r1) as [r2|] eqn:E2; cbn; [|done].
  pose proof (read_groups_consumes (8 - (groups_size hd false + 1)) 0 r2) as Ht.
  destruct (read_groups _ 0 r2) as [[tl ?] r3]. cbn in Ht. intros ->%bool_decide_eq_true.
  apply consumes_nil.
  apply (consumes_trans _ r); [exact Hh|].
  apply (consumes_trans _ r1); [by apply (read_char_consumes ":"%char)|].
  apply (consumes_trans _ r2); [by apply (read_char_consumes ":"%char)|exact Ht].
Qed.

(** The bytes an accepted HELO argument is made of. *)
Definition helo_byte (b : byte) : bool :=
  is_ascii_alphanumeric b || existsb (fun c => bool_decide (b = c)) (# "-.:[]").

Lemma ip_byte_helo b : ip_byte b = true -> helo_byte b = true.
Proof.
  unfold ip_byte, helo_byte, is_ascii_hexdigit, is_ascii_alphanumeric.
  rewrite !orb_true_iff, !in_range_spec. cbn [existsb lit String.list_ascii_of_string].
  rewrite !orb_true_iff. intuition lia.
Qed.

(** ** Properties *)

(** An address [common::input::valid_email_address] accepts cannot
    inject protocol or header syntax: no byte of it is a control byte (CR,
    LF and NUL included), a space, a quote-free delimiter such as the angle
    brackets, parentheses, comma, semicolon, colon or backslash; it has at
    most 254 bytes and exactly one at-sign, with a non-empty local part
    before it and a valid domain name after it. *)
Theorem valid_email_address_safe (a : str) :
  valid_email_address a = true ->
  (forall b, b ∈ a -> wire_safe_byte b = true) /\ (length a <= 254)%nat /\
  exists local domain, a = local ++ ("@"%char :: domain) /\
    ("@"%char ∉ local) /\ ("@"%char ∉ domain) /\ local <> [] /\ valid_domain_name domain = true.
Proof.
  intros H. split; [intros b; by apply valid_email_wire_safe|].
  split; [by apply valid_email_header|by apply valid_email_parts].
Qed.

Lemma valid_email_address_safe_witness :
  wire_safe_byte "c"%char = true /\
  exists local domain, # "carol@example.org" = local ++ ("@"%char :: domain) /\
    ("@"%char ∉ local) /\ ("@"%char ∉ domain) /\ local <> [] /\ valid_domain_name domain = true.
Proof.
  destruct (valid_email_address_safe (# "carol@example.org") eq_refl) as (H1 & _ & H3).
  split; [apply H1; cbn; by left|exact H3].
Defined.

(** A HELO/EHLO argument [common::input::valid_helo_domain] accepts is
    made of letters, digits, hyphens, full stops, colons and square brackets
    only, in both of its forms (domain name and IPv4/IPv6 address literal);
    white space, control bytes and SMTP syntax never reach SPF or the audit
    log through it. *)
Theorem valid_helo_domain_safe (v : str) (b : byte) :
  valid_helo_domain v = true -> b ∈ v -> helo_byte b = true.
Proof.
  unfold valid_helo_domain. destruct (valid_domain_name v) eqn:Ed.
  { intros _ Hb. unfold helo_byte.
    destruct (valid_domain_wire_safe v b Ed Hb) as [-> | [-> | ->]]; done. }
  destruct (strip_prefix (# "[") v) as [s|] eqn:Ep; cbn -[lit]; [|done].
  destruct (strip_suffix (# "]") s) as [inner|] eqn:Es; [|done].
  apply strip_prefix_some in Ep as ->. apply strip_suffix_some in Es as ->.
  intros Hi Hb. rewrite !elem_of_app in Hb.
  destruct Hb as [Hb|[Hb|Hb]]; [apply list_elem_of_singleton in Hb as ->; done| |
                                apply list_elem_of_singleton in Hb as ->; done].
  destruct (strip_prefix (# "IPv6:") inner) as [v6|] eqn:E6.
  - apply strip_prefix_some in E6 as ->. apply elem_of_app in Hb as [Hb|Hb].
    + revert b Hb. apply Forall_forall. repeat constructor.
    + by apply ip_byte_helo, (parse_ipv6_bytes v6).
  - by apply ip_byte_helo, (parse_ipv4_bytes inner).
Qed.

Lemma valid_helo_domain_safe_witness : helo_byte ":"%char = true.
Proof.
  apply (valid_helo_domain_safe (# "[IPv6:2001:db8::1]")); [vm_compute; reflexivity|].
  apply list_elem_of_In. cbn. tauto.
Defined.
