(* ===== verification/Header.v ===== *)
(** * Header: the crypto-agility header, [common::header]

    Every sealed or wrapped blob starts with this header
    (src/crates/common/src/header.rs): magic, version, algorithm id, key id,
    nonce length and nonce, all big-endian. *)

From stdpp Require Import base list strings gmap.
From Stdlib Require Import Ascii ZArith Lia.
From S2P Require Import Prelude RustStr.

Definition MAGIC : str := # "LTR1".
Definition HEADER_VERSION : N := 1.

Inductive AlgId : Type :=
| CommittingWrapXChaCha20Poly1305
| XChaCha20Poly1305
| HpkeX25519Sha256ChaCha20Poly1305.

#[global] Instance AlgId_eq_dec : EqDecision AlgId.
Proof. solve_decision. Defined.

Definition to_u16 (a : AlgId) : N :=
  match a with
  | CommittingWrapXChaCha20Poly1305 => 1
  | XChaCha20Poly1305 => 2
  | HpkeX25519Sha256ChaCha20Poly1305 => 3
  end.

Definition from_u16 (v : N) : Result AlgId :=
  if (v =? 1)%N then Ok CommittingWrapXChaCha20Poly1305
  else if (v =? 2)%N then Ok XChaCha20Poly1305
  else if (v =? 3)%N then Ok HpkeX25519Sha256ChaCha20Poly1305
  else Err (Crypto (# "unknown alg_id " ++ dec (Z.of_N v))).

Record AgilityHeader : Type := mkHeader {
  version : N;
  alg_id : AlgId;
  key_id : N;
  nonce : str
}.

Definition header_new (a : AlgId) (k : N) (n : str) : AgilityHeader :=
  mkHeader HEADER_VERSION a k n.

(** [u16::to_be_bytes] of [v as u16] and [u16::from_be_bytes]. *)
Definition u16_to_be_bytes (v : N) : str :=
  [ascii_of_N ((v / 256) mod 256); ascii_of_N (v mod 256)].

Definition u16_from_be_bytes (hi lo : byte) : N := (256 * bval hi + bval lo)%N.

Definition encode (h : AgilityHeader) : str :=
  MAGIC ++ [ascii_of_N (version h)] ++ u16_to_be_bytes (to_u16 (alg_id h))
  ++ u16_to_be_bytes (key_id h) ++ u16_to_be_bytes (N.of_nat (length (nonce h)) mod 65536)
  ++ nonce h.

Definition decode (buf : str) : Result (AgilityHeader * str) :=
  if (length buf <? 4 + 1 + 2 + 2 + 2)%nat then Err (Crypto (# "truncated agility header"))
  else if negb (str_eqb (take 4 buf) MAGIC) then Err (Crypto (# "bad magic on agility header"))
  else
    match drop 4 buf with
    | v :: a1 :: a2 :: k1 :: k2 :: n1 :: n2 :: rest =>
        alg ← from_u16 (u16_from_be_bytes a1 a2);
        let nonce_len := N.to_nat (u16_from_be_bytes n1 n2) in
        if (length rest <? nonce_len)%nat then Err (Crypto (# "truncated agility header nonce"))
        else Ok (mkHeader (bval v) alg (u16_from_be_bytes k1 k2) (take nonce_len rest),
                 drop nonce_len rest)
    | _ => Err (Crypto (# "truncated agility header"))
    end.

(** A header whose fields fit their Rust types. *)
Definition header_wf (h : AgilityHeader) : Prop :=
  (version h < 256)%N /\ (key_id h < 65536)%N /\ (N.of_nat (length (nonce h)) < 65536)%N.

#[global] Instance header_wf_dec h : Decision (header_wf h).
Proof. unfold header_wf. apply _. Defined.

(** ** Lemmas *)
Lemma bval_lt b : (bval b < 256)%N.
Proof. unfold bval. apply N_ascii_bounded. Qed.

Lemma bval_of_N n : (n < 256)%N -> bval (ascii_of_N n) = n.
Proof. apply N_ascii_embedding. Qed.

Lemma ascii_of_bval b : ascii_of_N (bval b) = b.
Proof. apply ascii_N_embedding. Qed.

Lemma u16_round_trip v :
  (v < 65536)%N ->
  u16_from_be_bytes (ascii_of_N ((v / 256) mod 256)) (ascii_of_N (v mod 256)) = v.
Proof.
  intros H. unfold u16_from_be_bytes.
  pose proof (N.div_mod v 256 ltac:(lia)).
  assert (v / 256 < 256)%N by (apply N.Div0.div_lt_upper_bound; lia).
  rewrite !bval_of_N by (apply N.mod_lt; lia). rewrite (N.mod_small (v / 256)) by lia. lia.
Qed.

Lemma u16_bytes_round_trip a b : u16_to_be_bytes (u16_from_be_bytes a b) = [a; b].
Proof.
  unfold u16_to_be_bytes, u16_from_be_bytes. pose proof (bval_lt a). pose proof (bval_lt b).
  rewrite (N.mul_comm 256), N.div_add_l, N.div_small, N.add_0_r by lia.
  rewrite (N.mod_small (bval a)) by lia. rewrite N.add_comm, N.Div0.mod_add, N.mod_small by lia.
  by rewrite !ascii_of_bval.
Qed.

Lemma u16_from_be_lt a b : (u16_from_be_bytes a b < 65536)%N.
Proof. unfold u16_from_be_bytes. pose proof (bval_lt a). pose proof (bval_lt b). lia. Qed.

Lemma from_to_u16 a : from_u16 (to_u16 a) = Ok a.
Proof. destruct a; reflexivity. Qed.

Lemma to_from_u16 v a : from_u16 v = Ok a -> to_u16 a = v.
Proof. unfold from_u16. repeat case_match; bool_facts; intros [=]; subst; done. Qed.

Lemma header_decode (h : AgilityHeader) (payload : str) :
  header_wf h -> decode (encode h ++ payload) = Ok (h, payload).
Proof.
  destruct h as [v a k n]. intros (Hv & Hk & Hn). cbn in *. unfold decode, encode. cbn -[u16_from_be_bytes from_u16 to_u16 N.modulo N.div].
  rewrite (N.mod_small (N.of_nat (length n))) by done.
  rewrite (u16_round_trip (to_u16 a)) by (destruct a; cbn; lia). rewrite from_to_u16. cbn -[u16_from_be_bytes from_u16 to_u16 N.modulo N.div].
  rewrite !u16_round_trip by done. rewrite Nat2N.id, bval_of_N by done.
  rewrite take_app_length, drop_app_length.
  replace (negb _) with false by reflexivity.
  assert (Hl : (length (n ++ payload) <? length n)%nat = false)
    by (apply Nat.ltb_ge; rewrite length_app; lia).
  by rewrite Hl.
Qed.

Lemma header_encode (buf payload : str) (h : AgilityHeader) :
  decode buf = Ok (h, payload) -> header_wf h /\ buf = encode h ++ payload.
Proof.
  unfold decode. destruct (_ <? _)%nat; [done|].
  destruct (negb (str_eqb (take 4 buf) MAGIC)) eqn:Em; [done|]. bool_facts.
  rewrite <- (take_drop 4 buf) at 2. rewrite Em.
  destruct (drop 4 buf) as [|v [|a1 [|a2 [|k1 [|k2 [|n1 [|n2 rest]]]]]]]; try done.
  destruct (from_u16 (u16_from_be_bytes a1 a2)) as [alg|] eqn:Ea; unfold mbind, result_bind; [|done].
  destruct (_ <? _)%nat eqn:El; [done|]. bool_facts. intros [= <- <-].
  assert (Hlen : N.of_nat (length (take (N.to_nat (u16_from_be_bytes n1 n2)) rest))
                 = u16_from_be_bytes n1 n2) by (rewrite length_take; lia).
  split.
  - unfold header_wf. cbn [version key_id nonce]. rewrite Hlen. auto using bval_lt, u16_from_be_lt.
  - unfold encode. cbn [version key_id nonce alg_id]. rewrite Hlen, (to_from_u16 _ _ Ea).
    rewrite N.mod_small by apply u16_from_be_lt. rewrite !u16_bytes_round_trip, ascii_of_bval.
    rewrite <- !app_assoc. cbn. by rewrite take_drop.
Qed.

(** ** Properties *)

(** Decoding an encoded header followed by any payload gives the header
    and the payload back, for every header whose nonce is shorter than
    65536 bytes. *)
Theorem header_decode_encode (h : AgilityHeader) (payload : str) :
  header_wf h -> decode (encode h ++ payload) = Ok (h, payload).
Proof. apply header_decode. Qed.

Lemma header_decode_encode_witness :
  decode (encode (header_new XChaCha20Poly1305 7 (# "abcd")) ++ # "payload-bytes")
  = Ok (header_new XChaCha20Poly1305 7 (# "abcd"), # "payload-bytes").
Proof. apply header_decode_encode. vm_compute. repeat split. Defined.

(** The header format is canonical: whatever [decode] accepts is exactly
    the encoding of the header it returns followed by the payload it
    returns, so two blobs that decode alike are the same bytes. *)
Theorem header_encode_decode (buf payload : str) (h : AgilityHeader) :
  decode buf = Ok (h, payload) -> header_wf h /\ buf = encode h ++ payload.
Proof. apply header_encode. Qed.

Lemma header_encode_decode_witness :
  header_wf (mkHeader 1 XChaCha20Poly1305 7 (# "n")).
Proof.
  apply (header_encode_decode (encode (mkHeader 1 XChaCha20Poly1305 7 (# "n")) ++ # "p") (# "p")).
  vm_compute. reflexivity.
Defined.
