(* ===== verification/Limits.v ===== *)
(** * Limits: in-memory state shared by the listeners

    - [Throttle]: [common::throttle::LoginThrottle], the exponential lockout
      per login identity;
    - [Changes]: [common::changes::ChangeNotifier], the per-account change
      counters behind JMAP push;
    - [ConnLimit]: [smtp_in::conn_limit::PerIpLimiter] and the accept loop of
      [smtp_in::server::run] that combines it with the global semaphore.

    Each structure is behind a mutex in the code; every operation below is one
    critical section. *)

From stdpp Require Import base list strings gmap.
From Stdlib Require Import Ascii ZArith Lia.
From S2P Require Import Prelude RustStr.

Module Throttle.

(** Durations and instants in nanoseconds; [Duration::MAX] is
    [u64::MAX] seconds and 999999999 nanoseconds. *)
Definition DURATION_MAX : Z := 2 ^ 64 * 10 ^ 9 - 1.
Definition U32_MAX : Z := 2 ^ 32 - 1.

Record Entry : Type := mkEntry { failures : Z; locked_until : Z }.

Record LoginThrottle : Type := mkThrottle {
  state : gmap str Entry;
  base_delay : Z;
  max_delay : Z
}.

Definition new (base_delay max_delay : Z) : LoginThrottle := mkThrottle ∅ base_delay max_delay.

(** [now] is the [Instant::now()] the call reads. *)
Definition check (t : LoginThrottle) (key : str) (now : Z) : result Z unit :=
  match state t !! key with
  | Some entry =>
      if (now <? locked_until entry)%Z then Err (locked_until entry - now)%Z else Ok tt
  | None => Ok tt
  end.

(** The delay computed from a failure count: [1u32 << exponent] with the
    exponent capped at 10, a saturating product, capped by [max_delay]. *)
Definition lock_delay (base mx failures : Z) : Z :=
  let exponent := Z.min (Z.max 0 (failures - 1)) 10 in
  Z.min (Z.min (base * Z.shiftl 1 exponent) DURATION_MAX) mx.

Definition record_failure (t : LoginThrottle) (key : str) (now : Z) : LoginThrottle :=
  let entry := default (mkEntry 0 now) (state t !! key) in
  let failures' := Z.min (failures entry + 1) U32_MAX in
  let delay := lock_delay (base_delay t) (max_delay t) failures' in
  mkThrottle (<[key := mkEntry failures' (now + delay)]> (state t)) (base_delay t) (max_delay t).

Definition record_success (t : LoginThrottle) (key : str) : LoginThrottle :=
  mkThrottle (delete key (state t)) (base_delay t) (max_delay t).

(** ** Abstract specification: the history of login outcomes *)
Inductive outcome : Type :=
| Failure (key : str) (now : Z)
| Success (key : str).

Definition apply_outcome (t : LoginThrottle) (o : outcome) : LoginThrottle :=
  match o with
  | Failure k n => record_failure t k n
  | Success k => record_success t k
  end.

Definition run (base mx : Z) (h : list outcome) : LoginThrottle := foldl apply_outcome (new base mx) h.

(** What a key's history says: the failures since its last success and when
    the last of them happened; [h] is the history, latest outcome first. *)
Fixpoint streak (key : str) (h : list outcome) : nat * Z :=
  match h with
  | [] => (0%nat, 0%Z)
  | Failure k n :: h' =>
      if bool_decide (k = key) then (S (streak key h').1, n) else streak key h'
  | Success k :: h' => if bool_decide (k = key) then (0%nat, 0%Z) else streak key h'
  end.

(** The delay after [n] failures in a row, in plain arithmetic: the base delay
    doubled with each failure after the first, ten times at most, and capped
    by the longest [Duration] and by the maximum. *)
Fixpoint doubled (base : Z) (times : nat) : Z :=
  match times with O => base | S times => 2 * doubled base times end.

Definition spec_delay (base mx : Z) (n : nat) : Z :=
  Z.min (Z.min (doubled base (Nat.min (n - 1) 10)) 18446744073709551615999999999) mx.

Definition spec_check (base mx : Z) (h : list outcome) (key : str) (now : Z) : result Z unit :=
  match streak key (reverse h) with
  | (O, _) => Ok tt
  | (S n, last) =>
      let until := (last + spec_delay base mx (S n))%Z in
      if (now <? until)%Z then Err (until - now)%Z else Ok tt
  end.

Lemma doubled_pow base times : doubled base times = (base * 2 ^ Z.of_nat times)%Z.
Proof.
  induction times as [|times IH]; cbn [doubled]; [lia|].
  rewrite IH, Nat2Z.inj_succ, Z.pow_succ_r by lia. lia.
Qed.

Lemma lock_delay_spec base mx n : lock_delay base mx (Z.of_nat (S n)) = spec_delay base mx (S n).
Proof.
  unfold lock_delay, spec_delay. rewrite Z.shiftl_1_l, doubled_pow.
  replace (Z.min (Z.max 0 (Z.of_nat (S n) - 1)) 10) with (Z.of_nat (Nat.min (S n - 1) 10)) by lia. reflexivity.
Qed.

(** The failure count saturates at [u32::MAX], which the delay cannot see. *)
Lemma lock_delay_saturated base mx (n : Z) :
  (1 <= n)%Z -> lock_delay base mx (Z.min n U32_MAX) = lock_delay base mx n.
Proof. intros H. unfold lock_delay, U32_MAX. f_equal. f_equal. f_equal. f_equal. lia. Qed.

Definition entry_of (base mx : Z) (s : nat * Z) : option Entry :=
  match s with
  | (O, _) => None
  | (S n, last) =>
      Some (mkEntry (Z.min (Z.of_nat (S n)) U32_MAX) (last + lock_delay base mx (Z.of_nat (S n))))
  end.

Lemma run_state base mx h :
  base_delay (run base mx h) = base /\ max_delay (run base mx h) = mx /\
  forall key, state (run base mx h) !! key = entry_of base mx (streak key (reverse h)).
Proof.
  unfold run. induction h as [|o h IH] using rev_ind; [done|].
  rewrite foldl_app, reverse_app. cbn. destruct IH as (Hb & Hm & IH).
  destruct o as [k n|k]; cbn; rewrite ?Hb, ?Hm; split_and!; try done; intros key.
  - case_bool_decide as Hk; [subst k|by rewrite lookup_insert_ne, IH].
    rewrite lookup_insert_eq, IH. unfold entry_of. destruct (streak key (reverse h)) as [[|m] last];
      cbn; [reflexivity|].
    assert (E : Z.min (Z.min (Z.of_nat (S m)) U32_MAX + 1) U32_MAX = Z.min (Z.of_nat (S (S m))) U32_MAX)
      by (unfold U32_MAX; lia).
    cbn in E. rewrite E. by rewrite lock_delay_saturated by lia.
  - case_bool_decide as Hk; [subst k; by rewrite lookup_delete_eq|by rewrite lookup_delete_ne, IH].
Qed.

Lemma lock_delay_bounds base mx n :
  (0 <= base)%Z -> (0 <= mx)%Z -> (0 <= lock_delay base mx n <= mx)%Z.
Proof.
  intros Hb Hm. unfold lock_delay, DURATION_MAX. rewrite Z.shiftl_1_l.
  pose proof (Z.pow_pos_nonneg 2 (Z.min (Z.max 0 (n - 1)) 10)). lia.
Qed.

(** C39.  The login throttle implements its abstract history specification:
    after any interleaving of failures and successes of any keys, [check]
    locks a key exactly until its last failure plus
    [min(base * 2^min(n-1, 10), max)], where [n] counts the key's failures
    since its last success (saturation of the [u32] counter and of the
    [Duration] product, at 2^64 seconds less a nanosecond, included), and
    reports the remaining time; other keys have no influence. *)
Theorem throttle_refines_history (base mx : Z) (h : list outcome) (key : str) (now : Z) :
  check (run base mx h) key now = spec_check base mx h key now.
Proof.
  unfold check, spec_check. destruct (run_state base mx h) as (_ & _ & ->).
  destruct (streak key (reverse h)) as [[|n] last]; [reflexivity|].
  rewrite <- lock_delay_spec. reflexivity.
Qed.

(** What one more outcome does to a key's next check, and to the others'. *)
Lemma check_after_success t key now : check (record_success t key) key now = Ok tt.
Proof. unfold check, record_success. cbn. by rewrite lookup_delete_eq. Qed.

Lemma lock_delay_at_least base mx n :
  (0 <= base <= DURATION_MAX)%Z -> (Z.min base mx <= lock_delay base mx n)%Z.
Proof.
  intros Hb. unfold lock_delay. rewrite Z.shiftl_1_l.
  pose proof (Z.pow_pos_nonneg 2 (Z.min (Z.max 0 (n - 1)) 10) ltac:(lia) ltac:(lia)). nia.
Qed.

Lemma check_after_failure t key last now :
  (0 <= base_delay t <= DURATION_MAX)%Z -> (now < last + Z.min (base_delay t) (max_delay t))%Z ->
  is_ok (check (record_failure t key last) key now) = false.
Proof.
  intros Hb Hn. unfold check, record_failure. cbn. rewrite lookup_insert_eq. cbn.
  match goal with |- context [lock_delay ?b ?m ?n] => pose proof (lock_delay_at_least b m n Hb) end.
  rewrite (proj2 (Z.ltb_lt _ _)) by lia. done.
Qed.

Lemma check_other_failure t key key' last now :
  key <> key' -> check (record_failure t key last) key' now = check t key' now.
Proof. intros Hk. unfold check, record_failure. cbn. by rewrite lookup_insert_ne. Qed.

Lemma check_other_success t key key' now :
  key <> key' -> check (record_success t key) key' now = check t key' now.
Proof. intros Hk. unfold check, record_success. cbn. by rewrite lookup_delete_ne. Qed.

(** A lockout never exceeds the configured cap: the remaining time
    [check] reports at or after the last failure is positive and at most
    [max_delay]. *)
Theorem throttle_lockout_bounded (base mx : Z) (h : list outcome) (key : str) (last now remaining : Z) :
  (0 <= base)%Z -> (0 <= mx)%Z -> (last <= now)%Z ->
  check (run base mx (h ++ [Failure key last])) key now = Err remaining ->
  (0 < remaining <= mx)%Z.
Proof.
  intros Hb Hm Hn. unfold check. destruct (run_state base mx (h ++ [Failure key last])) as (_ & _ & ->).
  rewrite reverse_app. cbn. rewrite bool_decide_eq_true_2 by done. cbn.
  destruct (_ <? _)%Z eqn:E; [|done]. bool_facts. intros [= <-].
  match goal with |- context [lock_delay base mx ?n] => pose proof (lock_delay_bounds base mx n Hb Hm) end.
  lia.
Qed.

Lemma throttle_lockout_bounded_witness : (0 < 1000000000 <= 60000000000)%Z.
Proof.
  apply (throttle_lockout_bounded 1000000000 60000000000 [] (# "alice@example.com") 5 5);
    [lia|lia|lia|vm_compute; reflexivity].
Defined.

End Throttle.

Module Changes.

Record AccountChanged : Type := mkChanged { account_id : Z; change_state : Z }.

(** [sent] is what went into the broadcast channel, in order. *)
Record ChangeNotifier : Type := mkNotifier {
  counters : gmap Z Z;
  sent : list AccountChanged
}.

Definition new : ChangeNotifier := mkNotifier ∅ [].

(** The counter is a [u64]. *)
Definition notify (n : ChangeNotifier) (account : Z) : ChangeNotifier :=
  let st := ((default 0 (counters n !! account) + 1) mod 2 ^ 64)%Z in
  mkNotifier (<[account := st]> (counters n)) (sent n ++ [mkChanged account st]).

Definition states_of (account : Z) (l : list AccountChanged) : list Z :=
  change_state <$> filter (fun c => account_id c = account) l.

Definition notify_all (l : list Z) : ChangeNotifier := foldl notify new l.

Definition count_of (account : Z) (l : list Z) : nat := length (filter (fun a => a = account) l).

Lemma notify_all_spec (l : list Z) (a : Z) :
  (Z.of_nat (length l) < 2 ^ 64)%Z ->
  default 0%Z (counters (notify_all l) !! a) = Z.of_nat (count_of a l) /\
  states_of a (sent (notify_all l)) = Z.of_nat <$> seq 1 (count_of a l).
Proof.
  unfold notify_all, count_of. induction l as [|x l IH] using rev_ind; [done|].
  rewrite length_app. cbn [length]. intros Hl. destruct IH as [IHc IHs]; [lia|].
  rewrite foldl_app. cbn [foldl]. set (n := foldl notify new l) in *. unfold notify.
  cbn [counters sent].
  unfold states_of in *. rewrite !filter_app, !fmap_app, !length_app, IHs.
  assert (Hc : (length (filter (fun b => b = a) l) <= length l)%nat) by apply length_filter.
  destruct (decide (x = a)) as [->|Hx].
  - rewrite lookup_insert_eq, IHc. rewrite !filter_cons_True by done.
    rewrite (Z.mod_small (_ + 1)) by lia. cbn [default filter fmap list_fmap length account_id].
    split; [cbn; lia|]. rewrite Nat.add_1_r, seq_S, fmap_app. cbn. do 2 f_equal. lia.
  - rewrite lookup_insert_ne, IHc by done. rewrite !filter_cons_False by done. cbn.
    rewrite Nat.add_0_r, app_nil_r. done.
Qed.

(** Change notifications are per account and monotone: however the calls
    for different accounts interleave, the states broadcast for one account
    are 1, 2, 3, ... in order, one per call (fewer than 2^64 calls). *)
Theorem notifier_states_count_up (l : list Z) (a : Z) :
  (Z.of_nat (length l) < 2 ^ 64)%Z ->
  states_of a (sent (notify_all l)) = Z.of_nat <$> seq 1 (count_of a l).
Proof. apply notify_all_spec. Qed.

Lemma notifier_states_count_up_witness :
  states_of 1 (sent (notify_all [1; 2; 1]%Z)) = Z.of_nat <$> seq 1 (count_of 1 [1; 2; 1]%Z).
Proof. apply notifier_states_count_up. vm_compute. reflexivity. Defined.

End Changes.

Module ConnLimit.

(** [IpAddr] values, by any injective numbering. *)
Abbreviation IpAddr := Z.

Record PerIpLimiter : Type := mkLimiter { max_per_ip : Z; counts : gmap IpAddr Z }.

Definition new (max_per_ip : Z) : PerIpLimiter := mkLimiter max_per_ip ∅.

(** [entry(ip).or_insert(0)] leaves the entry in the map even when the call
    is refused.  [true] stands for the returned guard. *)
Definition try_acquire (l : PerIpLimiter) (ip : IpAddr) : bool * PerIpLimiter :=
  let count := default 0%Z (counts l !! ip) in
  if (max_per_ip l <=? count)%Z
  then (false, mkLimiter (max_per_ip l) (<[ip := count]> (counts l)))
  else (true, mkLimiter (max_per_ip l) (<[ip := (count + 1)%Z]> (counts l))).

(** [Drop for PerIpGuard]. *)
Definition drop_guard (l : PerIpLimiter) (ip : IpAddr) : PerIpLimiter :=
  match counts l !! ip with
  | Some count =>
      if (count - 1 =? 0)%Z then mkLimiter (max_per_ip l) (delete ip (counts l))
      else mkLimiter (max_per_ip l) (<[ip := (count - 1)%Z]> (counts l))
  | None => l
  end.

Definition MAX_CONNECTIONS : Z := 512.
Definition MAX_CONNECTIONS_PER_IP : Z := 32.

(** The listener: free global permits, the per-IP limiter, and the peers of
    the spawned sessions. *)
Record Listener : Type := mkListener {
  permits : Z;
  per_ip : PerIpLimiter;
  live : list IpAddr
}.

Definition listener_init : Listener :=
  mkListener MAX_CONNECTIONS (new MAX_CONNECTIONS_PER_IP) [].

(** One iteration of the accept loop for a connection from [ip]; [true] when
    a session is spawned.  When the global semaphore is exhausted the per-IP
    guard already taken is dropped with the stream. *)
Definition accept (s : Listener) (ip : IpAddr) : bool * Listener :=
  let '(got, lim) := try_acquire (per_ip s) ip in
  if got then
    if (0 <? permits s)%Z
    then (true, mkListener (permits s - 1) lim (ip :: live s))
    else (false, mkListener (permits s) (drop_guard lim ip) (live s))
  else (false, mkListener (permits s) lim (live s)).

(** The end of a session (by any path, timeout included) drops both permits. *)
Definition remove_one (ip : IpAddr) (l : list IpAddr) : list IpAddr :=
  match list_find (fun x => x = ip) l with
  | Some (i, _) => base.delete i l
  | None => l
  end.

Definition finish (s : Listener) (ip : IpAddr) : Listener :=
  if decide (ip ∈ live s)
  then mkListener (permits s + 1) (drop_guard (per_ip s) ip) (remove_one ip (live s))
  else s.

Inductive step : Listener -> Listener -> Prop :=
| step_accept s ip : step s (accept s ip).2
| step_finish s ip : ip ∈ live s -> step s (finish s ip).

Inductive reachable : Listener -> Prop :=
| reach_init : reachable listener_init
| reach_step s s' : reachable s -> step s s' -> reachable s'.

Definition occurrences (ip : IpAddr) (l : list IpAddr) : nat := length (filter (fun x => x = ip) l).

#[global] Arguments occurrences : simpl never.

Record listener_inv (s : Listener) : Prop := {
  inv_max : max_per_ip (per_ip s) = MAX_CONNECTIONS_PER_IP;
  inv_counts : forall ip, counts (per_ip s) !! ip =
      match occurrences ip (live s) with O => None | S n => Some (Z.of_nat (S n)) end;
  inv_per_ip : forall ip, (Z.of_nat (occurrences ip (live s)) <= MAX_CONNECTIONS_PER_IP)%Z;
  inv_permits : permits s = (MAX_CONNECTIONS - Z.of_nat (length (live s)))%Z;
  inv_total : (0 <= permits s)%Z
}.

Lemma occurrences_cons ip x l :
  occurrences ip (x :: l) = (if bool_decide (x = ip) then S (occurrences ip l) else occurrences ip l).
Proof. unfold occurrences. rewrite filter_cons. case_decide; case_bool_decide; done. Qed.

Lemma remove_one_spec ip l :
  ip ∈ l -> length l = S (length (remove_one ip l)) /\
  forall x, occurrences x l = occurrences x (ip :: remove_one ip l).
Proof.
  intros Hin. unfold remove_one.
  destruct (list_find (fun x => x = ip) l) as [[i y]|] eqn:E.
  - apply list_find_Some in E as (Hi & -> & _). split.
    + rewrite length_delete by eauto. apply lookup_lt_Some in Hi. lia.
    + intros x. unfold occurrences.
      assert (Hp : l ≡ₚ ip :: base.delete i l) by (by apply delete_Permutation).
      by rewrite Hp at 1.
  - apply list_find_None in E. rewrite Forall_forall in E. by destruct (E ip Hin).
Qed.

Lemma listener_counts s ip :
  listener_inv s -> default 0%Z (counts (per_ip s) !! ip) = Z.of_nat (occurrences ip (live s)).
Proof. intros H. rewrite (inv_counts s H). by destruct (occurrences ip (live s)). Qed.

Lemma accept_inv s ip : listener_inv s -> listener_inv (accept s ip).2.
Proof.
  intros H. pose proof (listener_counts s ip H) as Hc. unfold accept, try_acquire. rewrite Hc.
  destruct H as [Hm Hcs Hip Hp Ht]. rewrite Hm.
  destruct (_ <=? _)%Z eqn:El; cbn; bool_facts.
  - assert (Hpos : occurrences ip (live s) <> O) by (unfold MAX_CONNECTIONS_PER_IP in El; lia).
    split; cbn; try done. intros x. destruct (decide (x = ip)) as [->|Hx].
    + rewrite lookup_insert_eq. destruct (occurrences ip (live s)); [congruence|done].
    + by rewrite lookup_insert_ne.
  - destruct (0 <? permits s)%Z eqn:Ep; cbn; bool_facts.
    + split; cbn [per_ip live permits max_per_ip counts length]; try (done || lia).
      * intros x. rewrite occurrences_cons. case_bool_decide as Hx.
        -- subst x. rewrite lookup_insert_eq. f_equal. lia.
        -- by rewrite lookup_insert_ne.
      * intros x. rewrite occurrences_cons. case_bool_decide; [subst; lia|done].
    + unfold drop_guard. cbn. rewrite lookup_insert_eq.
      destruct (_ =? 0)%Z eqn:E0; cbn; bool_facts; split; cbn; try done; intros x.
      * destruct (decide (x = ip)) as [->|Hx]; [|by rewrite lookup_delete_ne, lookup_insert_ne].
        rewrite lookup_delete_eq. destruct (occurrences ip (live s)) eqn:Eo; [done|lia].
      * destruct (decide (x = ip)) as [->|Hx]; [|by rewrite !lookup_insert_ne].
        rewrite lookup_insert_eq. destruct (occurrences ip (live s)) eqn:Eo; [lia|f_equal; lia].
Qed.

Lemma finish_inv s ip : ip ∈ live s -> listener_inv s -> listener_inv (finish s ip).
Proof.
  intros Hin [Hm Hcs Hip Hp Ht]. unfold finish. rewrite decide_True by done.
  destruct (remove_one_spec ip (live s) Hin) as [Hlen Hocc].
  unfold drop_guard. rewrite Hcs.
  pose proof (Hocc ip) as Ho. rewrite occurrences_cons, bool_decide_eq_true_2 in Ho by done.
  assert (Hle : forall x, (Z.of_nat (occurrences x (remove_one ip (live s))) <= MAX_CONNECTIONS_PER_IP)%Z).
  { intros x. specialize (Hip x). rewrite Hocc, occurrences_cons in Hip. case_bool_decide; lia. }
  assert (Hother : forall x, x <> ip -> counts (per_ip s) !! x =
    match occurrences x (remove_one ip (live s)) with O => None | S n => Some (Z.of_nat (S n)) end).
  { intros x Hx. rewrite Hcs, Hocc, occurrences_cons. by rewrite bool_decide_eq_false_2. }
  rewrite Ho. destruct (_ =? 0)%Z eqn:E; bool_facts;
    split; cbn [per_ip live permits max_per_ip counts]; try done; try lia;
    intros x; (destruct (decide (x = ip)) as [->|Hx];
      [rewrite ?lookup_delete_eq, ?lookup_insert_eq
      |rewrite ?lookup_delete_ne, ?lookup_insert_ne by done; by apply Hother]).
  - destruct (occurrences ip (remove_one ip (live s))) eqn:Er; [done|lia].
  - destruct (occurrences ip (remove_one ip (live s))) eqn:Er; [lia|f_equal; lia].
Qed.

Lemma listener_init_inv : listener_inv listener_init.
Proof. split; cbn; unfold MAX_CONNECTIONS_PER_IP; done. Qed.

Lemma reachable_inv s : reachable s -> listener_inv s.
Proof.
  induction 1 as [|s s' _ IH Hs]; [apply listener_init_inv|].
  destruct Hs; auto using accept_inv, finish_inv.
Qed.

(** In every state the inbound listener can reach, at most 512 sessions
    are live, at most 32 of them from any one address, and the per-IP map
    holds exactly the live count of every address with a live session and
    no entry (not a zero) for any other. *)
Theorem listener_caps (s : Listener) :
  reachable s ->
  (Z.of_nat (length (live s)) <= MAX_CONNECTIONS)%Z /\
  forall ip, (Z.of_nat (occurrences ip (live s)) <= MAX_CONNECTIONS_PER_IP)%Z /\
    counts (per_ip s) !! ip =
      match occurrences ip (live s) with O => None | S n => Some (Z.of_nat (S n)) end.
Proof.
  intros H%reachable_inv. pose proof (inv_permits s H). pose proof (inv_total s H).
  split; [lia|]. intros ip. split; [by apply inv_per_ip|by apply inv_counts].
Qed.

Lemma listener_caps_witness :
  (Z.of_nat (length (live (accept listener_init 7).2)) <= MAX_CONNECTIONS)%Z.
Proof.
  apply listener_caps. apply (reach_step listener_init); [apply reach_init|apply step_accept].
Defined.

(** The accept loop refuses a connection only for the reason it logs: a
    connection from [ip] is served exactly when fewer than 32 sessions from
    [ip] and fewer than 512 sessions in all are live. *)
Theorem accept_iff_capacity (s : Listener) (ip : IpAddr) :
  reachable s ->
  ((accept s ip).1 = true <->
   (Z.of_nat (occurrences ip (live s)) < MAX_CONNECTIONS_PER_IP)%Z /\
   (Z.of_nat (length (live s)) < MAX_CONNECTIONS)%Z).
Proof.
  intros H%reachable_inv. pose proof (listener_counts s ip H) as Hc.
  pose proof (inv_permits s H) as Hp. unfold accept, try_acquire. rewrite Hc, (inv_max s H).
  destruct (_ <=? _)%Z eqn:El; cbn; bool_facts; [split; [done|lia]|].
  destruct (0 <? permits s)%Z eqn:Ep; cbn; bool_facts; split; (done || lia).
Qed.

Lemma accept_iff_capacity_witness :
  (accept listener_init 7).1 = true <->
   (Z.of_nat (occurrences 7 (live listener_init)) < MAX_CONNECTIONS_PER_IP)%Z /\
   (Z.of_nat (length (live listener_init)) < MAX_CONNECTIONS)%Z.
Proof. apply accept_iff_capacity. apply reach_init. Defined.

End ConnLimit.
