(* ===== verification/Wire.v ===== *)
(** * Wire: SMTP line I/O shared by both listeners

    The helpers of src/crates/smtp-in/src/session.rs that read lines and DATA
    from a buffered connection and write replies; submission's session.rs has
    the same functions (see Submission).  A connection is a buffered reader
    over the chunks the peer's bytes arrive in, and a write side whose
    attempts succeed or fail as an arbitrary oracle says. *)

From stdpp Require Import base list strings gmap.
From Stdlib Require Import Ascii ZArith Lia.
From S2P Require Import Prelude RustStr.

Definition MAX_COMMAND_LINE : nat := N.to_nat 4096.
Definition MAX_DATA_LINE : nat := N.to_nat 65536.
Definition MAX_RECIPIENTS : nat := 100.

(** ** The read side

    [rd_buf] is what [BufReader::buffer()] holds, [rd_chunks] what later
    reads of the socket return (a zero-length read is end of file), and
    [rd_err] whether the socket then fails or reports end of file. *)
Record Reader : Type := mkReader {
  rd_buf : str;
  rd_chunks : list str;
  rd_err : bool
}.

Inductive line_result : Type :=
| LineEof                  (* [Ok(false)] *)
| LineGot (line : str)     (* [Ok(true)], the line through its LF *)
| LineErr.                 (* [Err(_)]: too long, or the socket failed *)

(** One buffer's worth of the byte loop; [out] is the line so far. *)
Inductive scan_result : Type :=
| ScanMore (out : str)
| ScanLine (line rest : str)
| ScanTooLong (rest : str).

Fixpoint scan_buf (max_len : nat) (out buf : str) : scan_result :=
  match buf with
  | [] => ScanMore out
  | b :: buf' =>
      let out' := out ++ [b] in
      if bool_decide (b = LF) then ScanLine out' buf'
      else if (max_len <? length out')%nat then ScanTooLong buf'
      else scan_buf max_len out' buf'
  end.

Fixpoint read_line_from (max_len : nat) (out buf : str) (chunks : list str) (err : bool)
    : line_result * Reader :=
  match scan_buf max_len out buf with
  | ScanLine line rest => (LineGot line, mkReader rest chunks err)
  | ScanTooLong rest => (LineErr, mkReader rest chunks err)
  | ScanMore out' =>
      match chunks with
      | [] => (if err then LineErr else LineEof, mkReader [] [] err)
      | [] :: chunks' => (LineEof, mkReader [] chunks' err)
      | chunk :: chunks' => read_line_from max_len out' chunk chunks' err
      end
  end.

Definition read_line_bounded (max_len : nat) (r : Reader) : line_result * Reader :=
  read_line_from max_len [] (rd_buf r) (rd_chunks r) (rd_err r).

Definition reader_size (r : Reader) : nat := length (rd_buf r) + sum_list_with length (rd_chunks r).

(** ** DATA *)
Inductive DataError : Type := TooLarge | DataIo.

Definition data_terminator (line : str) : bool :=
  str_eqb line ["."%char; CR; LF] || str_eqb line ["."%char; LF].

Definition unstuff (line : str) : str :=
  match line with
  | b :: rest => if bool_decide (b = "."%char) then rest else line
  | [] => line
  end.

(** The loop of [read_data]; [fuel] bounds the number of lines, and
    [read_data_from] gives it one more than the bytes left ([read_data_eq]
    shows it never runs out). *)
Fixpoint read_data_loop (fuel : nat) (max_size : nat) (out : str) (r : Reader)
    : result DataError str * Reader :=
  match fuel with
  | O => (Err DataIo, r)
  | S fuel' =>
      match read_line_bounded MAX_DATA_LINE r with
      | (LineErr, r') => (Err TooLarge, r')
      | (LineEof, r') => (Err DataIo, r')
      | (LineGot line, r') =>
          if data_terminator line then (Ok out, r')
          else
            let content := unstuff line in
            if (max_size <? length out + length content)%nat then (Err TooLarge, r')
            else read_data_loop fuel' max_size (out ++ content) r'
      end
  end.

Definition read_data_from (max_size : nat) (out : str) (r : Reader) : result DataError str * Reader :=
  read_data_loop (S (reader_size r)) max_size out r.

Definition read_data (max_size : nat) (r : Reader) : result DataError str * Reader :=
  read_data_from max_size [] r.

(** ** The write side

    [cn_out] records every [write_all] attempted and whether it succeeded;
    the [n]-th attempt succeeds when [cn_wok n]. *)
Record Conn : Type := mkConn {
  cn_rd : Reader;
  cn_wok : nat -> bool;
  cn_out : list (str * bool)
}.

Definition write_all (c : Conn) (bs : str) : bool * Conn :=
  let ok := cn_wok c (length (cn_out c)) in
  (ok, mkConn (cn_rd c) (cn_wok c) (cn_out c ++ [(bs, ok)])).

Definition crlf : str := [CR; LF].

Definition reply_line (code : Z) (text : str) : str := dec code ++ # " " ++ text ++ crlf.

Definition write_reply (c : Conn) (code : Z) (text : str) : bool * Conn :=
  write_all c (reply_line code text).

(** Stops at the first failing write, as [?] does. *)
Fixpoint write_multiline_reply (c : Conn) (code : Z) (lines : list str) : bool * Conn :=
  match lines with
  | [] => (true, c)
  | text :: rest =>
      let sep := match rest with [] => # " " | _ => # "-" end in
      let '(ok, c') := write_all c (dec code ++ sep ++ text ++ crlf) in
      if ok then write_multiline_reply c' code rest else (false, c')
  end.

(** ** Command parsing *)
Definition split_command (line : str) : str * str :=
  match split_once " "%char line with
  | Some (verb, rest) => (verb, trim rest)
  | None => (line, [])
  end.

Definition parse_addr_param (rest prefix : str) : exec (option str) :=
  let rest := trim rest in
  if (length rest <? length prefix)%nat then Done None
  else
    hd ← slice_to rest (length prefix);
    if negb (eq_ignore_ascii_case hd prefix) then Done None
    else
      tl ← slice_from rest (length prefix);
      Done (after ← strip_prefix (# "<") (trim_start tl);
            '(addr, _) ← split_once ">"%char after;
            Some addr).

(** ** Abstract specification: lines of the flat byte stream *)

(** The bytes before the first end of file, and how the stream ends. *)
Fixpoint flat (chunks : list str) : str :=
  match chunks with
  | [] => []
  | [] :: _ => []
  | chunk :: chunks' => chunk ++ flat chunks'
  end.

Fixpoint clean_end (err : bool) (chunks : list str) : bool :=
  match chunks with
  | [] => negb err
  | [] :: _ => true
  | _ :: chunks' => clean_end err chunks'
  end.

Definition stream (r : Reader) : str := rd_buf r ++ flat (rd_chunks r).

Inductive line_spec (max_len : nat) (r : Reader) : line_result -> str -> Prop :=
| spec_line l rest :
    stream r = l ++ (LF :: rest) -> LF ∉ l -> (length l <= max_len)%nat ->
    line_spec max_len r (LineGot (l ++ [LF])) rest
| spec_long l rest :
    stream r = l ++ rest -> LF ∉ l -> length l = S max_len ->
    line_spec max_len r LineErr rest
| spec_end :
    LF ∉ stream r -> (length (stream r) <= max_len)%nat ->
    line_spec max_len r (if clean_end (rd_err r) (rd_chunks r) then LineEof else LineErr) [].

(** What [scan_buf] does to a buffer followed by any further bytes. *)
Lemma scan_buf_spec mx out buf :
  match scan_buf mx out buf with
  | ScanMore out' => out' = out ++ buf /\ (LF ∉ buf) /\ (length out <= mx -> length out' <= mx)%nat
  | ScanLine line rest => exists l : str, buf = l ++ (LF :: rest) /\ line = out ++ l ++ [LF] /\
      (LF ∉ l) /\ (length out <= mx -> length (out ++ l) <= mx)%nat
  | ScanTooLong rest => exists l, buf = l ++ rest /\ (LF ∉ l) /\
      (length out <= mx -> length (out ++ l) = S mx)%nat
  end.
Proof.
  revert out. induction buf as [|b buf IH]; intros out; cbn.
  { rewrite app_nil_r. split_and!; [done|apply not_elem_of_nil|done]. }
  case_bool_decide as Hb.
  { subst b. exists []. rewrite app_nil_r. split_and!; try done. apply not_elem_of_nil. }
  destruct (mx <? length (out ++ [b]))%nat eqn:El; bool_facts.
  { exists [b]. rewrite length_app in *. cbn in *. split_and!; [done| |lia].
    by rewrite list_elem_of_singleton. }
  specialize (IH (out ++ [b])). destruct (scan_buf mx (out ++ [b]) buf).
  - destruct IH as (-> & Hn & Hl). rewrite <- app_assoc in *. split_and!; [done| |auto].
    by apply not_elem_of_cons.
  - destruct IH as (l & -> & -> & Hn & Hl). exists (b :: l). rewrite <- !app_assoc in *.
    split_and!; [done|done|by apply not_elem_of_cons|auto].
  - destruct IH as (l & -> & Hn & Hl). exists (b :: l). rewrite <- !app_assoc in *.
    split_and!; [done|by apply not_elem_of_cons|auto].
Qed.

Lemma read_line_from_spec mx out buf chunks err :
  (length out <= mx)%nat ->
  exists res r', read_line_from mx out buf chunks err = (res, r') /\
    match res with
    | LineGot line => exists l, buf ++ flat chunks = l ++ (LF :: stream r') /\
        line = out ++ l ++ [LF] /\ (LF ∉ l) /\ (length (out ++ l) <= mx)%nat
    | LineErr => (exists l, buf ++ flat chunks = l ++ stream r' /\ (LF ∉ l) /\
        (length (out ++ l) = S mx)%nat) \/
        ((LF ∉ buf ++ flat chunks) /\ (length (out ++ buf ++ flat chunks) <= mx)%nat /\
         clean_end err chunks = false /\ stream r' = [])
    | LineEof => (LF ∉ buf ++ flat chunks) /\ (length (out ++ buf ++ flat chunks) <= mx)%nat /\
        clean_end err chunks = true
    end.
Proof.
  revert out buf. induction chunks as [|c chunks IH]; intros out buf Hout;
    pose proof (scan_buf_spec mx out buf) as Hs; cbn; destruct (scan_buf mx out buf) as [out'|line rest|rest].
  - destruct Hs as (-> & Hn & Hl). rewrite app_nil_r.
    destruct err; do 2 eexists; (split; [reflexivity|]); cbn; auto 10.
  - destruct Hs as (l & -> & -> & Hn & Hl). do 2 eexists. split; [reflexivity|].
    exists l. unfold stream. cbn. rewrite !app_nil_r. auto.
  - destruct Hs as (l & -> & Hn & Hl). do 2 eexists. split; [reflexivity|].
    left. exists l. unfold stream. cbn. rewrite !app_nil_r. auto.
  - destruct Hs as (-> & Hn & Hl). destruct c as [|b c].
    + do 2 eexists. split; [reflexivity|]. cbn. rewrite app_nil_r. auto.
    + destruct (IH (out ++ buf) (b :: c) (Hl Hout)) as (res & r' & E & Hr). exists res, r'. split; [exact E|].
      change (flat ((b :: c) :: chunks)) with ((b :: c) ++ flat chunks).
      destruct res as [|line|]; cbn -[app] in *.
      * destruct Hr as (Hn' & Hlen & Hc). rewrite <- app_assoc in Hlen. split_and!; [|done|done].
        rewrite elem_of_app. tauto.
      * destruct Hr as (l & E' & -> & Hn' & Hlen). exists (buf ++ l). rewrite E', <- !app_assoc in *.
        split_and!; [done|done| |done]. rewrite elem_of_app. tauto.
      * destruct Hr as [(l & E' & Hn' & Hlen)|(Hn' & Hlen & Hc & Hr)]; [left|right].
        -- exists (buf ++ l). rewrite E', <- !app_assoc in *. split_and!; [done| |done].
           rewrite elem_of_app. tauto.
        -- rewrite <- app_assoc in Hlen. split_and!; try done. rewrite elem_of_app. tauto.
  - destruct Hs as (l & -> & -> & Hn & Hl). do 2 eexists. split; [reflexivity|].
    exists l. unfold stream. cbn. rewrite <- !app_assoc. auto.
  - destruct Hs as (l & -> & Hn & Hl). do 2 eexists. split; [reflexivity|].
    left. exists l. unfold stream. cbn. rewrite <- !app_assoc. auto.
Qed.

Lemma first_lf_unique (l1 l2 r1 r2 : str) :
  l1 ++ (LF :: r1) = l2 ++ (LF :: r2) -> LF ∉ l1 -> LF ∉ l2 -> l1 = l2 /\ r1 = r2.
Proof.
  revert l2. induction l1 as [|x l1 IH]; intros [|y l2] E H1 H2; cbn in E; simplify_eq.
  - done.
  - destruct H2. by left.
  - destruct H1. by left.
  - apply not_elem_of_cons in H1 as [_ H1], H2 as [_ H2].
    destruct (IH l2) as [-> ->]; [|done..]. done.
Qed.

(** [read_line_bounded] returns a line exactly when the flat stream starts
    with one whose body fits, whatever the chunking. *)
Lemma read_line_got mx r line r' :
  read_line_bounded mx r = (LineGot line, r') ->
  exists l, line = l ++ [LF] /\ (LF ∉ l) /\ (length l <= mx)%nat /\ stream r = l ++ (LF :: stream r').
Proof.
  unfold read_line_bounded. intros E.
  destruct (read_line_from_spec mx [] (rd_buf r) (rd_chunks r) (rd_err r)) as (res & r1 & E' & H);
    [cbn; lia|]. rewrite E in E'. simplify_eq. destruct H as (l & Es & -> & Hn & Hl). eauto 10.
Qed.

Lemma read_line_of_stream mx r l rest :
  stream r = l ++ (LF :: rest) -> LF ∉ l -> (length l <= mx)%nat ->
  exists r', read_line_bounded mx r = (LineGot (l ++ [LF]), r') /\ stream r' = rest.
Proof.
  intros Es Hn Hl. unfold read_line_bounded.
  destruct (read_line_from_spec mx [] (rd_buf r) (rd_chunks r) (rd_err r)) as (res & r1 & E' & H);
    [cbn; lia|]. unfold stream in Es. rewrite E'. exists r1.
  destruct res as [|line|]; cbn in H; rewrite Es in H.
  - destruct H as (H & _). destruct H. rewrite elem_of_app. right. by left.
  - destruct H as (l' & E1 & -> & Hn' & _).
    destruct (first_lf_unique l l' rest (stream r1)) as [-> ->]; [done..|]. done.
  - destruct H as [(l' & E1 & Hn' & Hl')|(H & _)].
    + destruct (decide (length l' <= length l)%nat); [lia|].
      destruct Hn'. assert (E2 : take (length l') (l ++ LF :: rest) = l') by (rewrite E1; apply take_app_length).
      rewrite <- E2. rewrite take_app_ge by lia. apply elem_of_app. right.
      destruct (length l' - length l)%nat eqn:Ed; [lia|]. by left.
    + destruct H. rewrite elem_of_app. right. by left.
Qed.

Lemma read_line_from_size mx out buf chunks err line r' :
  read_line_from mx out buf chunks err = (LineGot line, r') ->
  (reader_size r' < length buf + sum_list_with length chunks)%nat.
Proof.
  revert out buf. induction chunks as [|c chunks IH]; intros out buf; cbn;
    pose proof (scan_buf_spec mx out buf) as Hs; destruct (scan_buf mx out buf) as [out'|l rest|rest].
  - by destruct err.
  - intros [= <- <-]. destruct Hs as (l' & -> & _). unfold reader_size. cbn. rewrite length_app. cbn. lia.
  - done.
  - destruct c as [|b c]; [done|]. intros E%IH. cbn in *. lia.
  - intros [= <- <-]. destruct Hs as (l' & -> & _). unfold reader_size. cbn. rewrite !length_app. cbn. lia.
  - done.
Qed.

Lemma read_line_size mx r line r' :
  read_line_bounded mx r = (LineGot line, r') -> (reader_size r' < reader_size r)%nat.
Proof. apply read_line_from_size. Qed.

(** Any two sufficient amounts of fuel agree. *)
Lemma read_data_loop_fuel f1 : forall f2 mx out r,
  (reader_size r < f1)%nat -> (reader_size r < f2)%nat ->
  read_data_loop f1 mx out r = read_data_loop f2 mx out r.
Proof.
  induction f1 as [|f1 IH]; intros [|f2] mx out r H1 H2; [lia..|]. cbn.
  destruct (read_line_bounded MAX_DATA_LINE r) as [[|line|] r'] eqn:E; try done.
  apply read_line_size in E. case_match; [done|]. case_match; [done|]. apply IH; lia.
Qed.

Lemma read_data_eq mx out r :
  read_data_from mx out r =
  match read_line_bounded MAX_DATA_LINE r with
  | (LineErr, r') => (Err TooLarge, r')
  | (LineEof, r') => (Err DataIo, r')
  | (LineGot line, r') =>
      if data_terminator line then (Ok out, r')
      else if (mx <? length out + length (unstuff line))%nat then (Err TooLarge, r')
      else read_data_from mx (out ++ unstuff line) r'
  end.
Proof.
  unfold read_data_from at 1. cbn -[read_data_from].
  destruct (read_line_bounded MAX_DATA_LINE r) as [[|line|] r'] eqn:E; try done.
  apply read_line_size in E. case_match; [done|]. case_match; [done|].
  apply read_data_loop_fuel; lia.
Qed.

Lemma read_data_ind (P : str -> Reader -> Prop) :
  (forall out r,
    (forall line r', read_line_bounded MAX_DATA_LINE r = (LineGot line, r') -> P (out ++ unstuff line) r') ->
    P out r) ->
  forall out r, P out r.
Proof.
  intros Hstep out r. remember (reader_size r) as n eqn:En. revert out r En.
  induction (lt_wf n) as [n _ IH]. intros out r ->. apply Hstep. intros line r' E.
  apply (IH (reader_size r')); [by eapply read_line_size|done].
Qed.

Lemma read_data_bound mx out r raw r' :
  (length out <= mx)%nat -> read_data_from mx out r = (Ok raw, r') -> (length raw <= mx)%nat.
Proof.
  revert out r. apply (read_data_ind (fun out r => (length out <= mx)%nat ->
    read_data_from mx out r = (Ok raw, r') -> (length raw <= mx)%nat)).
  intros out r IH Hout. rewrite read_data_eq.
  destruct (read_line_bounded MAX_DATA_LINE r) as [[|line|] r1] eqn:E; try done.
  destruct (data_terminator line); [congruence|].
  destruct (_ <? _)%nat eqn:El; [done|]. bool_facts. apply (IH line r1 eq_refl). rewrite length_app. lia.
Qed.

Lemma read_line_size_le mx r : (reader_size (read_line_bounded mx r).2 <= reader_size r)%nat.
Proof.
  unfold read_line_bounded. destruct r as [buf chunks err]. cbn [rd_buf rd_chunks rd_err].
  change (reader_size (mkReader buf chunks err)) with (length buf + sum_list_with length chunks)%nat.
  generalize (@nil byte) as out. revert buf.
  induction chunks as [|c chunks IH]; intros buf out; cbn [read_line_from sum_list_with];
    pose proof (scan_buf_spec mx out buf) as Hs;
    destruct (scan_buf mx out buf) as [o|l rest|rest].
  1, 4: clear Hs.
  1: destruct err; cbn; lia.
  1: destruct c as [|b c]; [unfold reader_size; cbn; lia|]; eapply Nat.le_trans; [apply (IH (b :: c) o)|apply Nat.le_add_l].
  all: destruct Hs as (l' & -> & _); unfold reader_size; cbn [snd rd_buf rd_chunks];
    rewrite !length_app; cbn; lia.
Qed.

(** The remaining reader never grows, whatever [read_data] returns. *)
Lemma read_data_size mx out r :
  (reader_size (read_data_from mx out r).2 <= reader_size r)%nat.
Proof.
  revert out r. apply (read_data_ind (fun out r =>
    (reader_size (read_data_from mx out r).2 <= reader_size r)%nat)).
  intros out r IH. rewrite read_data_eq.
  destruct (read_line_bounded MAX_DATA_LINE r) as [res r1] eqn:E.
  pose proof (read_line_size_le MAX_DATA_LINE r) as Hle. rewrite E in Hle. cbn in Hle.
  destruct res as [|line|]; [done| |done].
  case_match; [done|]. case_match; [done|]. specialize (IH line r1 eq_refl). lia.
Qed.

(** ** Dot stuffing *)

(** What a client does to a body line (RFC 5321 section 4.5.2). *)
Definition stuff (line : str) : str :=
  match line with
  | b :: _ => if bool_decide (b = "."%char) then "."%char :: line else line
  | [] => line
  end.

(** A body line: ends in LF, has no other LF, and fits the line bound once
    stuffed. *)
Definition body_line (line : str) : Prop :=
  exists l, line = l ++ [LF] /\ (LF ∉ l) /\ (length l < MAX_DATA_LINE)%nat.

Lemma unstuff_stuff line : unstuff (stuff line) = line.
Proof.
  destruct line as [|b l]; cbn; [done|]. case_bool_decide as Hb; cbn.
  - done.
  - by rewrite bool_decide_eq_false_2.
Qed.

Lemma stuff_body line :
  body_line line -> exists l, stuff line = l ++ [LF] /\ (LF ∉ l) /\ (length l <= MAX_DATA_LINE)%nat.
Proof.
  intros (l & -> & Hn & Hl). destruct l as [|b l].
  - exists []. cbn. split_and!; [done|done|lia].
  - cbn. case_bool_decide as Hb; cbn.
    + exists ("."%char :: b :: l). cbn in *. split_and!; [done| |lia].
      apply not_elem_of_cons. split; [discriminate|done].
    + exists (b :: l). split_and!; [done|done|cbn in *; lia].
Qed.

Lemma stuff_not_terminator line : body_line line -> data_terminator (stuff line) = false.
Proof.
  intros (l & -> & Hn & _). unfold data_terminator. apply orb_false_iff.
  unfold str_eqb. rewrite !bool_decide_eq_false.
  destruct l as [|b [|b' l]]; cbn; [done| |]; (case_bool_decide as Hb; [subst|]); cbn.
  - done.
  - split; congruence.
  - split; intros E; injection E; intros; destruct l; simplify_eq; done.
  - split; intros E; injection E; congruence.
Qed.

Lemma read_data_stuffed mx lines term rest :
  Forall body_line lines -> term = # "." ++ crlf \/ term = # "." ++ [LF] ->
  forall out r, (length out + length (mjoin lines) <= mx)%nat ->
  stream r = mjoin (stuff <$> lines) ++ term ++ rest ->
  exists r', read_data_from mx out r = (Ok (out ++ mjoin lines), r') /\ stream r' = rest.
Proof.
  intros Hlines Ht. induction Hlines as [|line lines Hline Hlines IH]; intros out r Hmx Hs.
  - assert (Hl : exists l, term = l ++ [LF] /\ (LF ∉ l) /\ (length l <= MAX_DATA_LINE)%nat /\
      data_terminator (l ++ [LF]) = true).
    { destruct Ht as [->| ->]; [exists ["."%char; CR]|exists ["."%char]];
        (split_and!; [done| |apply Nat.leb_le; vm_compute; reflexivity|reflexivity]);
        rewrite <- (bool_decide_eq_false (LF ∈ _)); vm_compute; reflexivity. }
    destruct Hl as (l & -> & Hn & Hlen & Htm). rewrite read_data_eq.
    destruct (read_line_of_stream MAX_DATA_LINE r l rest) as (r' & -> & Hr); [|done..|].
    { rewrite Hs. cbn. by rewrite <- app_assoc. }
    rewrite Htm. exists r'. cbn. by rewrite app_nil_r.
  - destruct (stuff_body line Hline) as (l & El & Hn & Hlen). rewrite read_data_eq.
    destruct (read_line_of_stream MAX_DATA_LINE r l (mjoin (stuff <$> lines) ++ term ++ rest))
      as (r' & -> & Hr); [|done..|].
    { rewrite Hs. change (mjoin (stuff <$> line :: lines)) with (stuff line ++ mjoin (stuff <$> lines)).
      rewrite El, <- !app_assoc. done. }
    rewrite <- El, (stuff_not_terminator line Hline), unstuff_stuff.
    change (mjoin (line :: lines)) with (line ++ mjoin lines) in *. rewrite length_app in Hmx.
    assert (Hle : (mx <? length out + length line)%nat = false) by (apply Nat.ltb_ge; lia).
    rewrite Hle. destruct (IH (out ++ line) r') as (r'' & -> & Hr''); [rewrite length_app; lia|done|].
    exists r''. by rewrite app_assoc.
Qed.

(** ** Properties *)

(** Dot-stuffing round trip: when a client sends body lines stuffed as
    RFC 5321 says, followed by a lone dot line, [read_data] returns exactly
    the concatenation of the original lines and leaves the reader at the
    first byte after the terminator, however the bytes are chunked (lines
    within the line bound, total within [max_size]). *)
Theorem read_data_round_trip (max_size : nat) (lines : list str) (rest : str) (r : Reader) :
  Forall body_line lines ->
  (length (mjoin lines) <= max_size)%nat ->
  stream r = mjoin (stuff <$> lines) ++ (# "." ++ crlf) ++ rest ->
  exists r', read_data max_size r = (Ok (mjoin lines), r') /\ stream r' = rest.
Proof.
  intros Hl Hm Hs. destruct (read_data_stuffed max_size lines (# "." ++ crlf) rest Hl
    ltac:(by left) [] r Hm Hs) as (r' & E & Hr). exists r'. done.
Qed.

Lemma read_data_round_trip_witness :
  exists r', read_data 100 (mkReader (# "..hi" ++ [CR]) [[LF] ++ # "." ++ [CR; LF]; # "QUIT"] false)
             = (Ok (# ".hi" ++ crlf), r') /\ stream r' = # "QUIT".
Proof.
  apply (read_data_round_trip 100 [ # ".hi" ++ crlf] (# "QUIT")).
  - constructor; [|constructor]. exists (# ".hi" ++ [CR]).
    split; [reflexivity|]. split; [rewrite <- (bool_decide_eq_false (LF ∈ _)); vm_compute; reflexivity|].
    apply Nat.ltb_lt. vm_compute. reflexivity.
  - apply Nat.leb_le. reflexivity.
  - reflexivity.
Defined.

(** Unbounded input cannot grow the message buffer: a message
    [read_data] returns never exceeds the configured maximum size. *)
Theorem read_data_within_limit (max_size : nat) (r r' : Reader) (raw : str) :
  read_data max_size r = (Ok raw, r') -> (length raw <= max_size)%nat.
Proof. apply (read_data_bound max_size [] r raw r'). cbn. lia. Qed.

Lemma read_data_within_limit_witness : (length (# "a" ++ crlf) <= 3)%nat.
Proof.
  apply (read_data_within_limit 3 (mkReader (# "a" ++ crlf ++ # "." ++ crlf) [] false)
           (mkReader [] [] false)). vm_compute. reflexivity.
Defined.

(** [read_line_bounded] implements the line specification over the flat
    byte stream: it returns the first line of at most [max_len] bytes before
    its LF, reports an over-long line after consuming exactly
    [max_len + 1] bytes of it, and reports the end of the stream otherwise;
    the reader is left where the specification says, independent of how
    the bytes were split into reads. *)
Theorem read_line_refines_spec (max_len : nat) (r : Reader) :
  exists rest, line_spec max_len r (read_line_bounded max_len r).1 rest /\
    ((read_line_bounded max_len r).1 <> LineEof -> stream (read_line_bounded max_len r).2 = rest).
Proof.
  unfold read_line_bounded.
  destruct (read_line_from_spec max_len [] (rd_buf r) (rd_chunks r) (rd_err r)) as (res & r' & -> & H);
    [cbn; lia|]. destruct res as [|line|]; cbn in H.
  - exists []. destruct H as (Hn & Hl & Hc). split; [|done].
    replace LineEof with (if clean_end (rd_err r) (rd_chunks r) then LineEof else LineErr)
      by (by rewrite Hc). by apply spec_end.
  - destruct H as (l & Es & -> & Hn & Hl). exists (stream r'). split; [|done]. by apply spec_line.
  - destruct H as [(l & Es & Hn & Hl)|(Hn & Hl & Hc & Hr)].
    + exists (stream r'). split; [|done]. by apply (spec_long _ _ l).
    + exists []. split; [|done].
      replace LineErr with (if clean_end (rd_err r) (rd_chunks r) then LineEof else LineErr)
        by (by rewrite Hc). by apply spec_end.
Qed.

(** [parse_addr_param] panics exactly when the trimmed argument is at
    least as long as the prefix and has no char boundary at the prefix's
    length: the byte-indexed slice is taken before the prefix is known to
    match, so a multi-byte char straddling that index aborts the session
    task. *)
Theorem parse_addr_param_panics_iff (rest prefix : str) :
  parse_addr_param rest prefix = Panicked <->
  (length prefix <= length (trim rest))%nat /\
  is_char_boundary (trim rest) (length prefix) = false.
Proof.
  unfold parse_addr_param, slice_to, slice_from.
  destruct (_ <? _)%nat eqn:E; bool_facts; [split; [done|lia]|].
  destruct (is_char_boundary (trim rest) (length prefix)) eqn:Eb.
  - cbn. destruct (negb _); split; [done|naive_solver|done|naive_solver].
  - cbn. naive_solver.
Qed.
