(* ===== verification/Scan.v ===== *)
(** * Scan: content scanning of inbound mail

    src/crates/scan/src: the rspamd and clamd clients' requests and reply
    parsers, and how [Scanner::scan] combines their answers.  The network is
    a parameter: what a backend answers to the bytes it is sent, an I/O
    error, or nothing within the timeout.  Scores are [f64] values the code
    only stores and prints. *)

From stdpp Require Import base list strings gmap.
From Stdlib Require Import Ascii ZArith Lia.
From S2P Require Import Prelude RustStr Header.

(** ** Endpoints *)
Inductive Endpoint : Type := Unix (path : str) | Tcp (addr : str).

Definition endpoint_parse (s : str) : Endpoint :=
  if starts_with (# "/") s then Unix s else Tcp s.

(** ** clamd *)
Inductive ClamavVerdict : Type := AvClean | AvFound (signature : str).

Definition CHUNK_SIZE : nat := N.to_nat 262144.

Definition u32_to_be_bytes (v : N) : str :=
  [ascii_of_N ((v / 16777216) mod 256); ascii_of_N ((v / 65536) mod 256);
   ascii_of_N ((v / 256) mod 256); ascii_of_N (v mod 256)].

(** [raw.chunks(n)]: [fuel] bounds the number of chunks; [length raw] is
    enough since each takes at least one byte. *)
Fixpoint chunks_fuel (fuel n : nat) (raw : str) : list str :=
  match fuel, raw with
  | _, [] => []
  | O, _ => []
  | S f, _ => take n raw :: chunks_fuel f n (drop n raw)
  end.

Definition chunks (n : nat) (raw : str) : list str := chunks_fuel (length raw) n raw.

(** The bytes [ClamavClient::scan] writes. *)
Definition instream_frame (chunk : str) : str :=
  u32_to_be_bytes (N.of_nat (length chunk) mod 2 ^ 32) ++ chunk.

Definition instream_request (chunk_size : nat) (raw : str) : str :=
  # "zINSTREAM" ++ [NUL] ++ mjoin (instream_frame <$> chunks chunk_size raw) ++ u32_to_be_bytes 0.

(** The reply line: the bytes before the first NUL or the end of file. *)
Fixpoint until_nul (s : str) : str :=
  match s with
  | [] => []
  | b :: s' => if bool_decide (b = NUL) then [] else b :: until_nul s'
  end.

Section Clamav.
Context (debug_str : str -> str).   (* [{:?}] of a [str] *)

Definition parse_stream_reply (line : str) : Result ClamavVerdict :=
  match strip_prefix (# "stream:") (trim line) with
  | None => Err (Network (# "malformed clamd reply: " ++ debug_str line))
  | Some rest =>
      let rest := trim rest in
      if str_eqb rest (# "OK") then Ok AvClean
      else match strip_suffix (# "FOUND") rest with
           | Some sig => Ok (AvFound (trim sig))
           | None => Err (Network (# "unrecognized clamd reply: " ++ debug_str line))
           end
  end.

(** [clamav_io bytes] is what clamd sends back for a request, or the I/O
    error of the exchange. *)
Definition clamav_scan (clamav_io : str -> Result str) (raw : str) : Result ClamavVerdict :=
  reply ← clamav_io (instream_request CHUNK_SIZE raw);
  parse_stream_reply (from_utf8_lossy (until_nul reply)).

End Clamav.

(** ** rspamd *)
Inductive RspamdAction : Type :=
| NoAction | AddHeader | RewriteSubject | SoftReject | Reject | Greylist | Unknown (s : str).

Definition action_parse (s : str) : RspamdAction :=
  if str_eqb s (# "no action") then NoAction
  else if str_eqb s (# "add header") then AddHeader
  else if str_eqb s (# "rewrite subject") then RewriteSubject
  else if str_eqb s (# "soft reject") then SoftReject
  else if str_eqb s (# "reject") then Reject
  else if str_eqb s (# "greylist") then Greylist
  else Unknown s.

Section Scanner.
Context {F64 : Type} (fmt1 : F64 -> str).      (* [{:.1}] of an [f64] *)
Context (debug_str : str -> str).

Record RspamdVerdict : Type := mkRspamdVerdict {
  action : RspamdAction;
  score : F64;
  required_score : F64
}.

Record RawResponse : Type := mkRawResponse { r_score : F64; r_required : F64; r_action : str }.

Record ScanRequest : Type := mkScanRequest {
  remote_ip : str;
  helo : str;
  mail_from : str;
  rcpt_to : list str;
  raw_message : str
}.

Definition CRLF2 : str := [CR; LF].

(** The request head [RspamdClient::check] writes before the message. *)
Definition rspamd_head (req : ScanRequest) : str :=
  # "POST /checkv2 HTTP/1.0" ++ CRLF2
  ++ # "Content-Length: " ++ dec (Z.of_nat (length (raw_message req))) ++ CRLF2
  ++ # "IP: " ++ remote_ip req ++ CRLF2
  ++ # "Helo: " ++ helo req ++ CRLF2
  ++ # "From: " ++ mail_from req ++ CRLF2
  ++ mjoin ((fun rcpt => # "Rcpt: " ++ rcpt ++ CRLF2) <$> rcpt_to req)
  ++ CRLF2.

(** The position after the first [sep]. *)
Fixpoint after_sep (sep s : str) : option str :=
  match strip_prefix sep s with
  | Some rest => Some rest
  | None => match s with [] => None | _ :: s' => after_sep sep s' end
  end.

(** [serde_json] decoding of the body: an error or the three fields. *)
Definition parse_response (json : str -> result str RawResponse) (response : str)
    : Result RspamdVerdict :=
  match after_sep (CRLF2 ++ CRLF2) response with
  | None => Err (Network (# "malformed rspamd response: no header/body separator"))
  | Some body =>
      match json body with
      | Err e => Err (Network (# "malformed rspamd JSON response: " ++ e))
      | Ok raw => Ok (mkRspamdVerdict (action_parse (r_action raw)) (r_score raw) (r_required raw))
      end
  end.

Definition rspamd_check (json : str -> result str RawResponse) (rspamd_io : str -> Result str)
    (req : ScanRequest) : Result RspamdVerdict :=
  response ← rspamd_io (rspamd_head req ++ raw_message req);
  parse_response json response.

(** ** Combining the two *)
Inductive Verdict : Type :=
| Clean
| Spam (reason : str)
| Defer (reason : str)
| VReject (reason : str).

Record ScanResult : Type := mkScanResult {
  verdict : Verdict;
  warnings : list str;
  spam_score : option F64;
  av_clean : option bool
}.

(** A configured backend's answer within the timeout: [None] when the
    timeout fires first. *)
Definition with_timeout {A} (what : str) (answer : option (Result A)) : Result A :=
  match answer with Some r => r | None => Err (Network what) end.

Definition score_of (v : RspamdVerdict) : str :=
  # " (score " ++ fmt1 (score v) ++ # "/" ++ fmt1 (required_score v) ++ # ")".

(** [Scanner::scan] on the joined backend results; [None] when a backend is
    not configured. *)
Definition combine (rspamd_result : option (Result RspamdVerdict))
    (clamav_result : option (Result ClamavVerdict)) : ScanResult :=
  let warnings :=
    match clamav_result with
    | Some (Err e) => [(# "clamav unreachable: ") ++ error_display e]
    | _ => []
    end in
  let av_clean :=
    match clamav_result with
    | Some (Ok AvClean) => Some true
    | Some (Ok (AvFound _)) => Some false
    | _ => None
    end in
  match clamav_result with
  | Some (Ok (AvFound sig)) =>
      mkScanResult (VReject (# "malware detected: " ++ sig)) warnings None av_clean
  | _ =>
      let '(rspamd_verdict, warnings) :=
        match rspamd_result with
        | Some (Ok v) => (Some v, warnings)
        | Some (Err e) => (None, warnings ++ [(# "rspamd unreachable: ") ++ error_display e])
        | None => (None, warnings)
        end in
      let '(verdict, warnings) :=
        match rspamd_verdict with
        | None => (Clean, warnings)
        | Some v =>
            match action v with
            | Reject => (VReject (# "rspamd reject" ++ score_of v), warnings)
            | SoftReject => (Defer (# "rspamd SoftReject" ++ score_of v), warnings)
            | Greylist => (Defer (# "rspamd Greylist" ++ score_of v), warnings)
            | AddHeader => (Spam (# "rspamd AddHeader" ++ score_of v), warnings)
            | RewriteSubject => (Spam (# "rspamd RewriteSubject" ++ score_of v), warnings)
            | NoAction => (Clean, warnings)
            | Unknown s =>
                (Clean, warnings ++ [(# "rspamd: unrecognized action ") ++ debug_str s
                                     ++ # ", treating as no action"])
            end
        end in
      mkScanResult verdict warnings (score <$> rspamd_verdict) av_clean
  end.

(** A scanner: for each backend, its network behaviour when configured. *)
Record Scanner : Type := mkScanner {
  rspamd : option (str -> option (Result str));
  clamav : option (str -> option (Result str))
}.

Definition run_rspamd (json : str -> result str RawResponse) (s : Scanner) (req : ScanRequest)
    : option (Result RspamdVerdict) :=
  io ← rspamd s;
  Some (with_timeout (# "rspamd check timed out")
          ((fun answer => rspamd_check json (fun _ => answer) req)
             <$> io (rspamd_head req ++ raw_message req))).

Definition run_clamav (s : Scanner) (raw : str) : option (Result ClamavVerdict) :=
  io ← clamav s;
  Some (with_timeout (# "clamd scan timed out")
          ((fun answer => clamav_scan debug_str (fun _ => answer) raw) <$> io (instream_request CHUNK_SIZE raw))).

Definition scan (json : str -> result str RawResponse) (s : Scanner) (req : ScanRequest) : ScanResult :=
  combine (run_rspamd json s req) (run_clamav s (raw_message req)).

(** ** Lemmas *)
Lemma combine_reject r c reason :
  verdict (combine r c) = VReject reason ->
  (exists sig, c = Some (Ok (AvFound sig))) \/
  (exists v, r = Some (Ok v) /\ action v = Reject).
Proof. unfold combine. repeat case_match; cbn; intros; simplify_eq; eauto. Qed.

Lemma combine_defer r c reason :
  verdict (combine r c) = Defer reason ->
  exists v, r = Some (Ok v) /\ (action v = SoftReject \/ action v = Greylist).
Proof. unfold combine. repeat case_match; cbn; intros; simplify_eq; eauto. Qed.

Lemma parse_stream_reply_clean line :
  parse_stream_reply debug_str line = Ok AvClean ->
  exists rest, trim line = # "stream:" ++ rest /\ trim rest = # "OK".
Proof.
  unfold parse_stream_reply. destruct (strip_prefix _ _) as [rest|] eqn:E; [|done].
  destruct (str_eqb _ _) eqn:Eo; [|by destruct (strip_suffix _ _)]. intros _. bool_facts.
  exists rest. split; [by apply strip_prefix_some|done].
Qed.

(** ** Properties *)

(** Scanning fails open and only open: when clamd has not answered
    FOUND and rspamd has not answered at all (unconfigured, connection
    error, timeout, malformed reply), the verdict is Clean, and every
    configured backend that failed left a warning for the audit log. *)
Theorem scan_fails_open (json : str -> result str RawResponse) (s : Scanner) (req : ScanRequest) :
  (forall sig, run_clamav s (raw_message req) <> Some (Ok (AvFound sig))) ->
  (forall v, run_rspamd json s req <> Some (Ok v)) ->
  verdict (scan json s req) = Clean /\ spam_score (scan json s req) = None /\
  (length (warnings (scan json s req)) =
    (match run_clamav s (raw_message req) with Some (Err _) => 1 | _ => 0 end)
    + (match run_rspamd json s req with Some (Err _) => 1 | _ => 0 end))%nat.
Proof.
  unfold scan. destruct (run_clamav _ _) as [[[|sig]|e]|]; destruct (run_rspamd _ _ _) as [[v|e']|];
    intros Hc Hr; try (by destruct (Hc sig)); try (by destruct (Hr v)); done.
Qed.

(** A message is rejected or deferred only on a scanner's explicit
    word: Reject needs a clamd FOUND or rspamd's own "reject" action, Defer
    needs rspamd's "soft reject" or "greylist"; and a clamd FOUND rejects
    whatever rspamd says. *)
Theorem scan_verdict_sound (json : str -> result str RawResponse) (s : Scanner) (req : ScanRequest) :
  (forall reason, verdict (scan json s req) = VReject reason ->
     (exists sig, run_clamav s (raw_message req) = Some (Ok (AvFound sig))) \/
     (exists v, run_rspamd json s req = Some (Ok v) /\ action v = Reject)) /\
  (forall reason, verdict (scan json s req) = Defer reason ->
     exists v, run_rspamd json s req = Some (Ok v) /\ (action v = SoftReject \/ action v = Greylist)) /\
  (forall sig, run_clamav s (raw_message req) = Some (Ok (AvFound sig)) ->
     verdict (scan json s req) = VReject (# "malware detected: " ++ sig)).
Proof.
  unfold scan. split_and!.
  - intros reason. apply combine_reject.
  - intros reason. apply combine_defer.
  - intros sig ->. done.
Qed.

End Scanner.

#[global] Arguments Scanner : clear implicits.
#[global] Arguments mkScanner : clear implicits.
#[global] Arguments ScanRequest : clear implicits.

Lemma scan_fails_open_witness :
  verdict (scan (F64 := Z) dec id (fun _ => Err (# "no json"))
    (mkScanner (Some (fun _ => None)) None)
    (mkScanRequest (# "192.0.2.1") (# "h") (# "a@b") [] (# "body"))) = Clean.
Proof. apply scan_fails_open; [discriminate|vm_compute; discriminate]. Defined.

(** ** The INSTREAM framing *)

(** The receiving side, as clamd's protocol describes it: length-prefixed
    chunks up to an empty one. *)
Definition u32_from_be_bytes (a b c d : byte) : N :=
  (16777216 * bval a + 65536 * bval b + 256 * bval c + bval d)%N.

Fixpoint deframe (fuel : nat) (s : str) : option str :=
  match fuel, s with
  | S f, a :: b :: c :: d :: rest =>
      let n := N.to_nat (u32_from_be_bytes a b c d) in
      if (n =? 0)%nat then Some []
      else if (length rest <? n)%nat then None
      else more ← deframe f (drop n rest); Some (take n rest ++ more)
  | _, _ => None
  end.

Lemma u32_round_trip v :
  (v < 2 ^ 32)%N ->
  match u32_to_be_bytes v with
  | [a; b; c; d] => u32_from_be_bytes a b c d = v
  | _ => False
  end.
Proof.
  intros H. unfold u32_to_be_bytes, u32_from_be_bytes.
  rewrite !bval_of_N by (apply N.mod_lt; lia).
  change (2 ^ 32)%N with 4294967296%N in H.
  pose proof (N.div_mod v 256 ltac:(lia)). pose proof (N.div_mod (v / 256) 256 ltac:(lia)).
  pose proof (N.div_mod (v / 256 / 256) 256 ltac:(lia)).
  rewrite !N.Div0.div_div in *. change (256 * 256)%N with 65536%N in *.
  change (65536 * 256)%N with 16777216%N in *.
  assert (v / 16777216 < 256)%N by (apply N.Div0.div_lt_upper_bound; lia).
  rewrite (N.mod_small (v / 16777216)) by done. lia.
Qed.

Lemma chunks_fuel_spec n f raw :
  (0 < n)%nat -> (length raw <= f)%nat ->
  mjoin (chunks_fuel f n raw) = raw /\
  Forall (fun c => 0 < length c <= n)%nat (chunks_fuel f n raw).
Proof.
  intros Hn. revert raw. induction f as [|f IH]; intros raw Hf.
  - destruct raw; [done|cbn in Hf; lia].
  - destruct raw as [|b raw]; [done|].
    change (chunks_fuel (S f) n (b :: raw)) with
      (take n (b :: raw) :: chunks_fuel f n (drop n (b :: raw))).
    assert (Hl : (length (drop n (b :: raw)) <= f)%nat) by (rewrite length_drop; cbn in *; lia).
    destruct (IH _ Hl) as [Hj Ha]. split.
    + transitivity (take n (b :: raw) ++ mjoin (chunks_fuel f n (drop n (b :: raw)))); [done|].
      rewrite Hj. apply take_drop.
    + constructor; [|done]. rewrite length_take. cbn [length]. lia.
Qed.

Definition frame_ok (c : str) : Prop := (0 < length c)%nat /\ (N.of_nat (length c) < 2 ^ 32)%N.

Lemma deframe_frames cs :
  Forall frame_ok cs -> forall f, (length cs < f)%nat ->
  deframe f (mjoin (instream_frame <$> cs) ++ u32_to_be_bytes 0) = Some (mjoin cs).
Proof.
  induction 1 as [|c cs [Hpos Hlt] _ IH]; intros [|f] Hf; [cbn in Hf; lia|done|cbn in Hf; lia|].
  change (mjoin (instream_frame <$> c :: cs)) with (instream_frame c ++ mjoin (instream_frame <$> cs)).
  unfold instream_frame at 1. rewrite N.mod_small by done.
  pose proof (u32_round_trip (N.of_nat (length c)) Hlt) as Hv.
  destruct (u32_to_be_bytes (N.of_nat (length c))) as [|a [|b [|c' [|d [|]]]]]; try done.
  rewrite <- !app_assoc. cbn [app deframe]. rewrite Hv, Nat2N.id.
  destruct (length c =? 0)%nat eqn:E0; bool_facts; [lia|].
  destruct (_ <? length c)%nat eqn:E1; bool_facts; [rewrite length_app in E1; lia|].
  rewrite drop_app_length, take_app_length, IH by (cbn in Hf; lia). done.
Qed.

(** clamd receives exactly the message: for a chunk size between 1 and
    2^32 - 1 (the code's is 256 KiB), a receiver that follows the INSTREAM
    protocol reassembles the original bytes from the request. *)
Theorem instream_round_trip (n : nat) (raw : str) :
  (0 < n)%nat -> (N.of_nat n < 2 ^ 32)%N ->
  exists body, instream_request n raw = # "zINSTREAM" ++ [NUL] ++ body /\
    deframe (S (length (chunks n raw))) body = Some raw.
Proof.
  intros Hn Hlt. eexists. split; [reflexivity|].
  destruct (chunks_fuel_spec n (length raw) raw Hn ltac:(lia)) as [Hj Ha].
  rewrite deframe_frames; [by rewrite <- Hj at 2| |lia].
  eapply Forall_impl; [exact Ha|]. intros c Hc. cbn in Hc. split; lia.
Qed.

Lemma instream_round_trip_witness :
  exists body, instream_request 2 (# "hello") = # "zINSTREAM" ++ [NUL] ++ body /\
    deframe (S (length (chunks 2 (# "hello")))) body = Some (# "hello").
Proof. apply instream_round_trip; [apply Nat.ltb_lt; reflexivity|reflexivity]. Defined.

(** A clamd reply is Clean only when it reads "stream: OK" (up to
    white space); no other text, errors included, counts as clean. *)
Theorem clamd_clean_only_on_ok (debug_str : str -> str) (line : str) :
  parse_stream_reply debug_str line = Ok AvClean ->
  exists rest, trim line = # "stream:" ++ rest /\ trim rest = # "OK".
Proof. apply parse_stream_reply_clean. Qed.

Lemma clamd_clean_only_on_ok_witness :
  exists rest, trim (# "stream: OK") = # "stream:" ++ rest /\ trim rest = # "OK".
Proof. apply (clamd_clean_only_on_ok id). vm_compute. reflexivity. Defined.
