(* ===== verification/Store.v ===== *)
(** * Store: blobs and metadata

    [Blob]: the content-addressed blob store of src/crates/store/src/blob.rs;
    [Metadata]: the mailboxes, threads, messages, uploads, contacts and blob
    reference counts of the SQLite metadata store (mailboxes.rs, threads.rs,
    messages.rs, uploads.rs, contacts.rs, metadata.rs).  Statements are taken to succeed unless a constraint they
    rely on fails. *)

From stdpp Require Import base list strings gmap sorting.
From Stdlib Require Import Ascii ZArith Lia.
From S2P Require Import Prelude RustStr.

(** ** Interfaces to code outside the repository *)

(** The [sha2] and [hex] crates: lower-case hexadecimal SHA-256. *)
Class BlobHash : Type := {
  hash_hex : str -> str;
  hash_hex_length : forall b, length (hash_hex b) = 64%nat;
  hash_hex_digits : forall b, forallb is_ascii_hexdigit (hash_hex b) = true
}.

Module Blob.

(** A file's place below the root: shard directory and name. *)
Abbreviation path := (str * str)%type.

Abbreviation BlobStore := (gmap path str).

Definition path_for (hash : str) : Result path :=
  if negb (length hash =? 64)%nat || negb (forallb is_ascii_hexdigit hash)
  then Err (Storage (# "invalid blob hash"))
  else Ok (take 2 hash, drop 2 hash).

Section WithHash.
Context `{BlobHash}.

Definition write (b : BlobStore) (bytes : str) : Result str * BlobStore :=
  let hash := hash_hex bytes in
  match path_for hash with
  | Err e => (Err e, b)
  | Ok p =>
      match b !! p with
      | Some _ => (Ok hash, b)
      | None => (Ok hash, <[p := bytes]> b)
      end
  end.

Definition read (b : BlobStore) (hash : str) : Result str :=
  p ← path_for hash;
  match b !! p with
  | None => Err (Io (# "not found"))
  | Some bytes =>
      let actual := hash_hex bytes in
      if str_eqb actual hash then Ok bytes
      else Err (Storage (# "blob integrity check failed: expected " ++ hash ++ # ", got " ++ actual))
  end.

Definition exists_ (b : BlobStore) (hash : str) : bool :=
  match path_for hash with
  | Ok p => bool_decide (is_Some (b !! p))
  | Err _ => false
  end.

Definition remove (b : BlobStore) (hash : str) : Result unit * BlobStore :=
  match path_for hash with
  | Err e => (Err e, b)
  | Ok p => (Ok tt, delete p b)
  end.

(** ** Lemmas *)
Lemma path_for_hash bytes : path_for (hash_hex bytes) = Ok (take 2 (hash_hex bytes), drop 2 (hash_hex bytes)).
Proof. unfold path_for. by rewrite hash_hex_length, hash_hex_digits. Qed.

Lemma path_for_inj h1 h2 p : path_for h1 = Ok p -> path_for h2 = Ok p -> h1 = h2.
Proof.
  unfold path_for. destruct (_ || _); [done|]. intros [= <-]. destruct (_ || _); [done|].
  intros [= E1 E2]. by rewrite <- (take_drop 2 h1), <- (take_drop 2 h2), E1, E2.
Qed.

(** Every file holds content that hashes to its own name. *)
Definition intact (b : BlobStore) : Prop :=
  forall h p c, path_for h = Ok p -> b !! p = Some c -> hash_hex c = h.

Lemma write_ok b bytes :
  exists b', write b bytes = (Ok (hash_hex bytes), b').
Proof. unfold write. rewrite path_for_hash. destruct (b !! _); eauto. Qed.

Lemma write_intact b bytes : intact b -> intact (write b bytes).2.
Proof.
  intros Hi. unfold write. rewrite path_for_hash. destruct (b !! _) eqn:E; cbn; [done|].
  intros h p c Hp. rewrite lookup_insert. case_decide as Hd; [|by apply Hi].
  intros [= <-]. subst p. symmetry. eapply path_for_inj; [exact Hp|apply path_for_hash].
Qed.

Lemma remove_intact b h : intact b -> intact (remove b h).2.
Proof.
  intros Hi. unfold remove. destruct (path_for h); cbn; [|done].
  intros h' p' c Hp. rewrite lookup_delete. case_decide; [done|by apply Hi].
Qed.

Lemma write_exists b bytes h :
  exists_ (write b bytes).2 h = bool_decide (h = hash_hex bytes) || exists_ b h.
Proof.
  unfold exists_, write. rewrite path_for_hash.
  destruct (decide (h = hash_hex bytes)) as [->|Hne].
  - rewrite (bool_decide_eq_true_2 (hash_hex bytes = _)), path_for_hash by done.
    destruct (b !! _) eqn:E; cbn [snd orb]; rewrite ?E, ?lookup_insert_eq;
      by apply bool_decide_eq_true_2.
  - rewrite (bool_decide_eq_false_2 (h = _)) by done. cbn [orb].
    destruct (path_for h) as [p|] eqn:Ep; [|done].
    destruct (b !! _) eqn:E; cbn [snd]; [done|]. rewrite lookup_insert_ne; [done|].
    intros <-. apply Hne. eapply path_for_inj; [exact Ep|apply path_for_hash].
Qed.

Lemma exists_read b h : intact b -> exists_ b h = is_ok (read b h).
Proof.
  intros Hi. unfold exists_, read. destruct (path_for h) as [p|] eqn:Ep; [|done].
  unfold mbind, result_bind. destruct (b !! p) as [c|] eqn:E; [|done].
  unfold str_eqb. rewrite (Hi h p c Ep E), !bool_decide_eq_true_2 by done. done.
Qed.

(** A write keeps every readable blob, and makes its own readable unless a
    different blob already has its hash. *)
Lemma write_keeps b bytes h c : read b h = Ok c -> read (write b bytes).2 h = Ok c.
Proof.
  unfold read, write. rewrite path_for_hash. destruct (path_for h) as [p|]; [|done].
  unfold mbind, result_bind. destruct (b !! p) as [c'|] eqn:E; [|done].
  destruct (b !! (take 2 (hash_hex bytes), _)) eqn:E'; cbn [snd]; [by rewrite E|].
  rewrite lookup_insert_ne; [by rewrite E|]. intros <-. congruence.
Qed.

Lemma write_read b bytes :
  intact b -> (forall c, read b (hash_hex bytes) = Ok c -> c = bytes) ->
  read (write b bytes).2 (hash_hex bytes) = Ok bytes.
Proof.
  intros Hi Hc. unfold write. rewrite path_for_hash. destruct (b !! _) as [c|] eqn:E; cbn [snd].
  - pose proof (Hi _ _ _ (path_for_hash bytes) E) as Hh.
    assert (Hr : read b (hash_hex bytes) = Ok c).
    { unfold read. rewrite path_for_hash. unfold mbind, result_bind. rewrite E, Hh.
      unfold str_eqb. by rewrite bool_decide_eq_true_2. }
    rewrite Hr. by rewrite (Hc c Hr).
  - unfold read. rewrite path_for_hash. unfold mbind, result_bind. rewrite lookup_insert_eq.
    unfold str_eqb. by rewrite bool_decide_eq_true_2.
Qed.

(** What was written is readable, whichever content has its hash. *)
Lemma write_readable b bytes : intact b -> exists c, read (write b bytes).2 (hash_hex bytes) = Ok c.
Proof.
  intros Hi. pose proof (exists_read (write b bytes).2 (hash_hex bytes) (write_intact b bytes Hi)) as He.
  rewrite write_exists, bool_decide_eq_true_2 in He by done. cbn [orb] in He.
  destruct (read _ _) as [c|]; [by exists c|done].
Qed.

Lemma remove_read b h h' : h' <> h -> read (remove b h).2 h' = read b h'.
Proof.
  intros Hne. unfold read, remove. destruct (path_for h') as [p'|] eqn:Ep'; [|done].
  destruct (path_for h) as [p|] eqn:Ep; cbn [snd]; [|done]. unfold mbind, result_bind.
  rewrite lookup_delete_ne; [done|]. intros <-. apply Hne. by apply (path_for_inj h' h p).
Qed.

Lemma remove_exists b h h' :
  exists_ (remove b h).2 h' = negb (bool_decide (h' = h)) && exists_ b h'.
Proof.
  unfold exists_, remove. destruct (path_for h') as [p'|] eqn:Ep'; [|by rewrite andb_false_r].
  destruct (decide (h' = h)) as [->|Hne].
  - rewrite (bool_decide_eq_true_2 (h = h)), Ep' by done. cbn [snd negb andb].
    rewrite lookup_delete_eq. done.
  - rewrite (bool_decide_eq_false_2 (h' = h)) by done. cbn [negb andb].
    destruct (path_for h) as [p|] eqn:Ep; cbn [snd]; [|done]. rewrite lookup_delete_ne; [done|].
    intros <-. apply Hne. by apply (path_for_inj h' h p).
Qed.

(** ** Properties *)

(** What a blob write returns can be read back: in an intact store,
    [write] succeeds, keeps the store intact, and [read] of the returned
    hash gives content with that very hash -- the bytes written unless
    SHA-256 collides on them. *)
Theorem blob_write_read (b : BlobStore) (bytes : str) :
  intact b ->
  exists b' c, write b bytes = (Ok (hash_hex bytes), b') /\ intact b' /\
    read b' (hash_hex bytes) = Ok c /\ hash_hex c = hash_hex bytes /\
    ((forall c', hash_hex c' = hash_hex bytes -> c' = bytes) -> c = bytes).
Proof.
  intros Hi. destruct (write_ok b bytes) as [b' E]. exists b'.
  pose proof (write_intact b bytes Hi) as Hi'. pose proof (write_exists b bytes (hash_hex bytes)) as Hx.
  rewrite E in Hi', Hx. cbn in Hi', Hx. rewrite bool_decide_eq_true_2 in Hx by done. cbn in Hx.
  rewrite exists_read in Hx by done. destruct (read b' (hash_hex bytes)) as [c|] eqn:Er; [|done].
  assert (Hc : hash_hex c = hash_hex bytes).
  { revert Er. unfold read. rewrite path_for_hash. unfold mbind, result_bind.
    destruct (b' !! _); [|done]. destruct (str_eqb _ _) eqn:Es; [|done]. bool_facts. congruence. }
  exists c. split_and!; auto.
Qed.

End WithHash.

(** A concrete hash for the witnesses: the hexadecimal digits of the first
    bytes, padded. *)
Definition hex_digit (n : N) : byte := if (n <? 10)%N then ascii_of_N (48 + n) else ascii_of_N (87 + n).

Definition toy_hash (s : str) : str :=
  take 64 (mjoin ((fun b => [hex_digit (bval b / 16); hex_digit (bval b mod 16)]) <$> s)
           ++ replicate 64 "0"%char).

Lemma hex_digit_ok n : (n < 16)%N -> is_ascii_hexdigit (hex_digit n) = true.
Proof.
  intros H. destruct n as [|p]; [reflexivity|].
  do 4 (destruct p as [p|p|]; try reflexivity; try lia).
Qed.

Lemma toy_hash_length b : length (toy_hash b) = 64%nat.
Proof. unfold toy_hash. rewrite length_take, length_app, length_replicate. lia. Qed.

Lemma forallb_take {A} (p : A -> bool) n (l : list A) : forallb p l = true -> forallb p (take n l) = true.
Proof.
  revert n. induction l as [|x l IH]; intros [|n]; cbn; [done..|].
  intros [Hx Hl]%andb_true_iff. by rewrite Hx, IH.
Qed.

Lemma toy_hash_digits b : forallb is_ascii_hexdigit (toy_hash b) = true.
Proof.
  unfold toy_hash. apply forallb_take. rewrite forallb_app. apply andb_true_iff. split; [|reflexivity].
  induction b as [|x b IH]; [done|].
  assert (Hx : (bval x < 256)%N) by apply N_ascii_bounded.
  cbn. rewrite !hex_digit_ok; [exact IH|apply N.mod_lt; lia|apply N.Div0.div_lt_upper_bound; lia].
Qed.

#[local] Instance toy_BlobHash : BlobHash := {
  hash_hex := toy_hash;
  hash_hex_length := toy_hash_length;
  hash_hex_digits := toy_hash_digits
}.

Lemma blob_write_read_witness :
  exists (b' : BlobStore) (c : str),
    (write ∅ (# "mail") = (Ok (hash_hex (# "mail")), b')) /\ (intact b') /\
    (read b' (hash_hex (# "mail")) = Ok c) /\ (hash_hex c = hash_hex (# "mail")) /\
    ((forall c', hash_hex c' = hash_hex (# "mail") -> c' = # "mail") -> c = # "mail").
Proof. apply blob_write_read. intros h p c _ Hc. by rewrite lookup_empty in Hc. Defined.

End Blob.

(** ** Subjects *)
Module Subject.

Definition reply_prefixes : list str := [ # "re:"; # "fwd:"; # "fw:"].

(** The [find_map] over the prefixes: the slice [lower[..prefix.len()]] is
    taken by byte index and panics off a char boundary. *)
Fixpoint strip_reply (prefixes : list str) (lower : str) : exec (option str) :=
  match prefixes with
  | [] => Done None
  | p :: ps =>
      if (length p <=? length lower)%nat then
        hd ← slice_to lower (length p);
        if eq_ignore_ascii_case hd p then
          tl ← slice_from lower (length p);
          Done (Some (trim_start tl))
        else strip_reply ps lower
      else strip_reply ps lower
  end.

(** The loop strips at least one byte per turn; [fuel] is one more than the
    subject's length. *)
Fixpoint strip_loop (fuel : nat) (s : str) : exec str :=
  match fuel with
  | O => Done s
  | S f =>
      stripped ← strip_reply reply_prefixes (trim_start s);
      match stripped with
      | Some rest => if negb (length rest =? length s)%nat then strip_loop f rest else Done s
      | None => Done s
      end
  end.

(** [to_lowercase] is Rust's Unicode lower-casing ([str::to_lowercase]),
    whose tables are a parameter. *)
Definition normalize_subject (to_lowercase : str -> str) (subject : str) : exec str :=
  s ← strip_loop (S (length (trim subject))) (trim subject);
  Done (to_lowercase s).

Lemma drop_while_length {A} (p : A -> bool) (l : list A) : (length (drop_while p l) <= length l)%nat.
Proof. induction l as [|x l IH]; cbn; [done|]. destruct (p x); cbn; lia. Qed.

Lemma trim_start_length s : (length (trim_start s) <= length s)%nat.
Proof. destruct (trim_start_suffix s) as [pre E]. rewrite E at 2. rewrite length_app. lia. Qed.

Lemma strip_reply_shorter ps lower rest :
  Forall (fun p => p <> []) ps ->
  strip_reply ps lower = Done (Some rest) -> (length rest < length lower)%nat.
Proof.
  induction 1 as [|p ps Hp _ IH]; cbn; [done|]. case_match eqn:El; [|done].
  unfold slice_to, slice_from. destruct (is_char_boundary lower (length p)); cbn; [|done].
  case_match; [|done]. intros [= <-]. pose proof (trim_start_length (drop (length p) lower)).
  rewrite length_drop in *. bool_facts. destruct p; [done|]. cbn in *. lia.
Qed.

Lemma reply_prefixes_ne : Forall (fun p : str => p <> []) reply_prefixes.
Proof. repeat constructor; done. Qed.

Lemma strip_loop_fuel f1 : forall f2 s,
  (length s < f1)%nat -> (length s < f2)%nat -> strip_loop f1 s = strip_loop f2 s.
Proof.
  induction f1 as [|f1 IH]; intros [|f2] s H1 H2; [lia..|]. cbn -[strip_reply].
  destruct (strip_reply reply_prefixes (trim_start s)) as [[rest|]|] eqn:E; cbn -[strip_reply strip_loop]; [|done..].
  apply strip_reply_shorter in E; [|apply reply_prefixes_ne]. pose proof (trim_start_length s).
  case_match; [|done]. apply IH; lia.
Qed.

(** The loop equation, without fuel. *)
Lemma strip_loop_eq s :
  strip_loop (S (length s)) s =
  match strip_reply reply_prefixes (trim_start s) with
  | Panicked => Panicked
  | Done None => Done s
  | Done (Some rest) =>
      if negb (length rest =? length s)%nat then strip_loop (S (length rest)) rest else Done s
  end.
Proof.
  cbn -[strip_reply]. destruct (strip_reply reply_prefixes (trim_start s)) as [[rest|]|] eqn:E; cbn -[strip_reply strip_loop]; [|done..].
  apply strip_reply_shorter in E; [|apply reply_prefixes_ne]. pose proof (trim_start_length s).
  case_match; [|done]. change (strip_loop (length s) rest = strip_loop (S (length rest)) rest).
  apply strip_loop_fuel; lia.
Qed.

(** ASCII text has a char boundary everywhere. *)
Lemma ascii_boundary s n : is_ascii s = true -> (n <= length s)%nat -> is_char_boundary s n = true.
Proof.
  unfold is_char_boundary, is_ascii. intros Ha Hn. destruct (s !! n) as [b|] eqn:E.
  - apply list_elem_of_lookup_2, list_elem_of_In in E. rewrite forallb_forall in Ha.
    specialize (Ha b E). bool_facts. unfold is_cont. apply negb_true_iff.
    destruct (in_range 128 191 b) eqn:Er; [|done]. apply in_range_spec in Er. lia.
  - apply lookup_ge_None in E. apply Nat.eqb_eq. lia.
Qed.

Lemma is_ascii_app a b : is_ascii (a ++ b) = is_ascii a && is_ascii b.
Proof. apply forallb_app. Qed.

Lemma trim_start_ascii s : is_ascii s = true -> is_ascii (trim_start s) = true.
Proof.
  destruct (trim_start_suffix s) as [pre E]. rewrite E at 1. rewrite is_ascii_app.
  intros [_ H]%andb_true_iff. done.
Qed.

Lemma trim_end_ascii s : is_ascii s = true -> is_ascii (trim_end s) = true.
Proof.
  destruct (trim_end_prefix s) as [suf E]. rewrite E at 1. rewrite is_ascii_app.
  intros [H _]%andb_true_iff. done.
Qed.

Lemma is_ascii_drop n s : is_ascii s = true -> is_ascii (drop n s) = true.
Proof. rewrite <- (take_drop n s) at 1. rewrite is_ascii_app. by intros [_ ?]%andb_true_iff. Qed.

Lemma strip_reply_ascii ps lower :
  is_ascii lower = true ->
  exists o, strip_reply ps lower = Done o /\ forall rest, o = Some rest -> is_ascii rest = true.
Proof.
  intros Ha. induction ps as [|p ps IH]; cbn; [by exists None|].
  destruct (_ <=? _)%nat eqn:El; [|exact IH]. apply Nat.leb_le in El.
  unfold slice_to, slice_from. rewrite ascii_boundary by done. cbn.
  destruct (eq_ignore_ascii_case _ _); [|exact IH].
  eexists. split; [reflexivity|]. intros rest [= <-]. by apply trim_start_ascii, is_ascii_drop.
Qed.

Lemma strip_loop_ascii f s : is_ascii s = true -> exists s', strip_loop f s = Done s'.
Proof.
  revert s. induction f as [|f IH]; intros s Ha; cbn -[strip_reply]; [by eexists|].
  destruct (strip_reply_ascii reply_prefixes (trim_start s)) as (o & -> & Ho);
    [by apply trim_start_ascii|]. cbn -[strip_reply]. destruct o as [rest|]; [|by eexists].
  case_match; [by apply IH, Ho|by eexists].
Qed.

(** Subject normalisation is total on ASCII subjects (the stripping
    loop terminates and no slice panics), but panics on others: whenever the
    trimmed subject has a multi-byte char straddling byte 3, or byte 4 when
    it does not start with "re:", the byte-indexed prefix test aborts.  Any
    subject starting with two three-byte chars (all of CJK) is such a
    subject. *)
Theorem normalize_subject_panics (to_lowercase : str -> str) (subject : str) :
  (is_ascii subject = true -> exists s, normalize_subject to_lowercase subject = Done s) /\
  (let t := trim_start (trim subject) in
   (3 <= length t)%nat -> is_char_boundary t 3 = false \/
     ((4 <= length t)%nat /\ eq_ignore_ascii_case (take 3 t) (# "re:") = false /\
      is_char_boundary t 4 = false) ->
   normalize_subject to_lowercase subject = Panicked).
Proof.
  unfold normalize_subject. split.
  - intros Ha. destruct (strip_loop_ascii (S (length (trim subject))) (trim subject)) as (s & ->).
    + unfold trim. apply trim_end_ascii, trim_start_ascii, Ha.
    + by eexists.
  - cbn zeta. intros H3 H. rewrite strip_loop_eq. set (t := trim_start (trim subject)) in *.
    assert (E : strip_reply reply_prefixes t = Panicked); [|by rewrite E].
    unfold reply_prefixes. cbn [strip_reply].
    change (length (# "re:")) with 3%nat. change (length (# "fwd:")) with 4%nat.
    rewrite (proj2 (Nat.leb_le 3 (length t))) by done. unfold slice_to.
    destruct (is_char_boundary t 3) eqn:E3; [|done].
    destruct H as [?|(H4 & Hre & Hb)]; [done|]. unfold mbind, exec_bind at 1. rewrite Hre.
    rewrite (proj2 (Nat.leb_le 4 (length t))) by done. by rewrite Hb.
Qed.

Lemma normalize_subject_panics_witness :
  normalize_subject to_ascii_lowercase (# "日本語") = Panicked.
Proof.
  apply (normalize_subject_panics to_ascii_lowercase (# "日本語"));
    [apply Nat.leb_le; vm_compute; reflexivity|].
  right. split_and!; [apply Nat.leb_le|..]; vm_compute; reflexivity.
Defined.

End Subject.

(** ** The metadata database *)
Module Metadata.

Definition ROLE_INBOX : str := # "inbox".
Definition ROLE_ARCHIVE : str := # "archive".
Definition ROLE_TRASH : str := # "trash".
Definition ROLE_SENT : str := # "sent".
Definition ROLE_DRAFTS : str := # "drafts".
Definition ROLE_JUNK : str := # "junk".
Definition KEYWORD_JUNK : str := # "$junk".
Definition KEYWORD_DRAFT : str := # "$draft".

Definition SYSTEM_ROLES : list (str * str) :=
  [(ROLE_INBOX, # "Inbox"); (ROLE_ARCHIVE, # "Archive"); (ROLE_TRASH, # "Trash");
   (ROLE_SENT, # "Sent"); (ROLE_DRAFTS, # "Drafts"); (ROLE_JUNK, # "Junk")].

Record Mailbox : Type := mkMailbox {
  mb_id : Z;
  mb_account : Z;
  mb_role : str;
  mb_name : str
}.

Record Thread : Type := mkThread { th_id : Z; th_account : Z }.

(** The columns of [messages] besides the id. *)
Record NewMessage : Type := mkNewMessage {
  account_id : Z;
  mailbox_id : Z;
  thread_id : Z;
  blob_hash : str;
  dek_wrap : str;
  mail_from : str;
  rcpt_to : str;
  remote_ip : str;
  size_bytes : Z;
  spf_result : str;
  dkim_result : str;
  dmarc_result : str;
  received_at : Z;
  keywords : str;
  message_id_header : option str;
  in_reply_to : option str;
  references_header : option str;
  subject_hash : option str;
  spam_score : option f64;
  av_clean : option bool
}.

Record StoredMessage : Type := mkStored { m_id : Z; m_row : NewMessage }.

Definition set_mailbox (mb : Z) (m : NewMessage) : NewMessage :=
  mkNewMessage (account_id m) mb (thread_id m) (blob_hash m) (dek_wrap m) (mail_from m) (rcpt_to m)
    (remote_ip m) (size_bytes m) (spf_result m) (dkim_result m) (dmarc_result m) (received_at m)
    (keywords m) (message_id_header m) (in_reply_to m) (references_header m) (subject_hash m)
    (spam_score m) (av_clean m).

Definition set_keywords (k : str) (m : NewMessage) : NewMessage :=
  mkNewMessage (account_id m) (mailbox_id m) (thread_id m) (blob_hash m) (dek_wrap m) (mail_from m)
    (rcpt_to m) (remote_ip m) (size_bytes m) (spf_result m) (dkim_result m) (dmarc_result m)
    (received_at m) k (message_id_header m) (in_reply_to m) (references_header m) (subject_hash m)
    (spam_score m) (av_clean m).

(** The columns of [uploads] besides the id. *)
Record NewUpload : Type := mkNewUpload {
  up_account_id : Z;
  up_blob_hash : str;
  up_dek_wrap : str;
  up_key_id : N;
  up_filename : str;
  up_content_type : str;
  up_size_bytes : Z;
  up_created_at : Z
}.

Record StoredUpload : Type := mkStoredUpload { up_id : Z; up_row : NewUpload }.

Record StoredContact : Type := mkStoredContact {
  ct_id : Z;
  ct_account_id : Z;
  ct_sealed : str;
  ct_created_at : Z;
  ct_updated_at : Z
}.

(** The tables, each in rowid order; [blob_refs]: hash to reference count and
    creation time. *)
Record MetadataStore : Type := mkMetadata {
  mailboxes : list Mailbox;
  threads : list Thread;
  messages : list StoredMessage;
  blob_refs : gmap str (Z * Z);
  uploads : list StoredUpload;
  contacts : list StoredContact
}.

Definition empty_store : MetadataStore := mkMetadata [] [] [] ∅ [] [].

Definition with_mailboxes (l : list Mailbox) (s : MetadataStore) : MetadataStore :=
  mkMetadata l (threads s) (messages s) (blob_refs s) (uploads s) (contacts s).
Definition with_threads (l : list Thread) (s : MetadataStore) : MetadataStore :=
  mkMetadata (mailboxes s) l (messages s) (blob_refs s) (uploads s) (contacts s).
Definition with_messages (l : list StoredMessage) (s : MetadataStore) : MetadataStore :=
  mkMetadata (mailboxes s) (threads s) l (blob_refs s) (uploads s) (contacts s).
Definition with_blob_refs (m : gmap str (Z * Z)) (s : MetadataStore) : MetadataStore :=
  mkMetadata (mailboxes s) (threads s) (messages s) m (uploads s) (contacts s).
Definition with_uploads (l : list StoredUpload) (s : MetadataStore) : MetadataStore :=
  mkMetadata (mailboxes s) (threads s) (messages s) (blob_refs s) l (contacts s).
Definition with_contacts (l : list StoredContact) (s : MetadataStore) : MetadataStore :=
  mkMetadata (mailboxes s) (threads s) (messages s) (blob_refs s) (uploads s) l.

(** *** Mailboxes *)
Definition mailbox_is (account : Z) (role : str) (m : Mailbox) : bool :=
  (mb_account m =? account)%Z && str_eqb (mb_role m) role.

(** [INSERT OR IGNORE] under [UNIQUE(account_id, role)]. *)
Definition insert_or_ignore_mailbox (account : Z) (t : list Mailbox) (rn : str * str) : list Mailbox :=
  match sql_find (mailbox_is account rn.1) t with
  | Some _ => t
  | None => t ++ [mkMailbox (next_rowid (mb_id <$> t)) account rn.1 rn.2]
  end.

Definition get_mailbox_by_role (s : MetadataStore) (account : Z) (role : str) : Result (option Mailbox) :=
  Ok (sql_find (mailbox_is account role) (mailboxes s)).

Definition ensure_mailbox (s : MetadataStore) (account : Z) (role : str)
    : Result Mailbox * MetadataStore :=
  let s' := with_mailboxes (foldl (insert_or_ignore_mailbox account) (mailboxes s) SYSTEM_ROLES) s in
  (match get_mailbox_by_role s' account role with
   | Ok (Some m) => Ok m
   | Ok None => Err (Storage (# "no such mailbox role: " ++ role))
   | Err e => Err e
   end, s').

Definition get_mailbox (s : MetadataStore) (id : Z) : Result (option Mailbox) :=
  Ok (sql_find (fun m => (mb_id m =? id)%Z) (mailboxes s)).

Definition mailboxes_for_account (s : MetadataStore) (account : Z)
    : Result (list Mailbox) * MetadataStore :=
  match ensure_mailbox s account ROLE_INBOX with
  | (Err e, s') => (Err e, s')
  | (Ok _, s') => (Ok (List.filter (fun m => (mb_account m =? account)%Z) (mailboxes s')), s')
  end.

(** *** Messages *)
Definition insert_message (s : MetadataStore) (m : NewMessage) : Z * MetadataStore :=
  let id := next_rowid (m_id <$> messages s) in
  (id, with_messages (messages s ++ [mkStored id m]) s).

Definition get_message (s : MetadataStore) (id : Z) : Result (option StoredMessage) :=
  Ok (sql_find (fun m => (m_id m =? id)%Z) (messages s)).

Definition get_messages (s : MetadataStore) (ids : list Z) : Result (list StoredMessage) :=
  Ok (List.filter (fun m => existsb (Z.eqb (m_id m)) ids) (messages s)).

(** [ORDER BY received_at DESC] and [ASC]; rows with equal times come in
    rowid order here, which SQL leaves open. *)
Definition newer (a b : StoredMessage) : Prop :=
  (received_at (m_row b) <= received_at (m_row a))%Z.
#[global] Instance newer_dec a b : Decision (newer a b).
Proof. unfold newer. apply _. Defined.
Definition older (a b : StoredMessage) : Prop := newer b a.
#[global] Instance older_dec a b : Decision (older a b).
Proof. unfold older. apply _. Defined.

Definition in_account (account : Z) (m : StoredMessage) : bool := (account_id (m_row m) =? account)%Z.

Definition messages_for_account (s : MetadataStore) (account : Z) : Result (list StoredMessage) :=
  Ok (merge_sort newer (List.filter (in_account account) (messages s))).

Definition messages_in_mailbox (s : MetadataStore) (account mailbox : Z) : Result (list StoredMessage) :=
  Ok (merge_sort newer (List.filter
    (fun m => in_account account m && (mailbox_id (m_row m) =? mailbox)%Z) (messages s))).

Definition messages_in_thread (s : MetadataStore) (account thread : Z) : Result (list StoredMessage) :=
  Ok (merge_sort older (List.filter
    (fun m => in_account account m && (thread_id (m_row m) =? thread)%Z) (messages s))).

(** SQLite's [LIKE]: [%] any run of characters, [_] any one, the rest
    compared without ASCII case. *)
Definition fold_ascii (c : N) : N := if ((65 <=? c) && (c <=? 90))%N then (c + 32)%N else c.

Fixpoint like (p s : list N) : bool :=
  match p with
  | [] => match s with [] => true | _ => false end
  | c :: p' =>
      if (c =? 37)%N then
        (fix any (s : list N) : bool := like p' s || match s with [] => false | _ :: s' => any s' end) s
      else match s with
           | [] => false
           | d :: s' => ((c =? 95)%N || (fold_ascii c =? fold_ascii d)%N) && like p' s'
           end
  end.

Definition has_keyword_sql (keyword : str) (m : StoredMessage) : bool :=
  like (chars (# "%," ++ keyword ++ # ",%")) (chars (# "," ++ keywords (m_row m) ++ # ",")).

Definition messages_with_keyword (s : MetadataStore) (account : Z) (keyword : str)
    : Result (list StoredMessage) :=
  Ok (merge_sort newer (List.filter
    (fun m => in_account account m && has_keyword_sql keyword m) (messages s))).

Definition messages_without_keyword (s : MetadataStore) (account : Z) (keyword : str)
    : Result (list StoredMessage) :=
  Ok (merge_sort newer (List.filter
    (fun m => in_account account m && negb (has_keyword_sql keyword m)) (messages s))).

Definition update_row (f : NewMessage -> NewMessage) (id : Z) (l : list StoredMessage) : list StoredMessage :=
  sql_update (fun m => (m_id m =? id)%Z) (fun m => mkStored (m_id m) (f (m_row m))) l.

Definition update_message (s : MetadataStore) (id : Z) (mailbox : option Z) (kw : option str)
    : MetadataStore :=
  let s1 := match mailbox with
            | Some mb => with_messages (update_row (set_mailbox mb) id (messages s)) s
            | None => s
            end in
  match kw with
  | Some k => with_messages (update_row (set_keywords k) id (messages s1)) s1
  | None => s1
  end.

Definition delete_message (s : MetadataStore) (id : Z) : MetadataStore :=
  with_messages (List.filter (fun m => negb (m_id m =? id)%Z) (messages s)) s.

(** *** Threads *)
Record ThreadMatch : Type := mkThreadMatch {
  tm_account : Z;
  reference_ids : list str;
  tm_subject_hash : option str
}.

Section Threads.
Context `{SqlAny}.

Definition opt_is (o : option str) (v : str) : bool :=
  match o with Some x => str_eqb x v | None => false end.

Definition thread_by_reference (s : MetadataStore) (account : Z) (refs : list str) : option Z :=
  match refs with
  | [] => None
  | _ =>
      any_row ((fun m => thread_id (m_row m)) <$>
        List.filter (fun m => in_account account m &&
                       existsb (opt_is (message_id_header (m_row m))) refs) (messages s))
  end.

(** The rows [ORDER BY received_at DESC LIMIT 1] may return. *)
Definition latest (l : list StoredMessage) : list StoredMessage :=
  List.filter (fun m => forallb (fun n => (received_at (m_row n) <=? received_at (m_row m))%Z) l) l.

Definition thread_by_subject_hash (s : MetadataStore) (account : Z) (h : str) : option Z :=
  any_row ((fun m => thread_id (m_row m)) <$>
    latest (List.filter (fun m => in_account account m && opt_is (subject_hash (m_row m)) h)
              (messages s))).

Definition create_thread (s : MetadataStore) (account : Z) : Z * MetadataStore :=
  let id := next_rowid (th_id <$> threads s) in
  (id, with_threads (threads s ++ [mkThread id account]) s).

Definition find_or_create_thread (s : MetadataStore) (m : ThreadMatch) : Z * MetadataStore :=
  match thread_by_reference s (tm_account m) (reference_ids m) with
  | Some id => (id, s)
  | None =>
      match (h ← tm_subject_hash m; thread_by_subject_hash s (tm_account m) h) with
      | Some id => (id, s)
      | None => create_thread s (tm_account m)
      end
  end.

End Threads.

(** *** Blob reference counts *)
Definition incref_blob (s : MetadataStore) (hash : str) (now : Z) : MetadataStore :=
  let row := match blob_refs s !! hash with
             | Some (n, created) => ((n + 1)%Z, created)
             | None => (1%Z, now)
             end in
  with_blob_refs (<[hash := row]> (blob_refs s)) s.

Definition decref_blob (s : MetadataStore) (hash : str) : Result Z * MetadataStore :=
  match blob_refs s !! hash with
  | Some (n, created) => (Ok (n - 1)%Z, with_blob_refs (<[hash := ((n - 1)%Z, created)]> (blob_refs s)) s)
  | None => (Err (Storage (# "Query returned no rows")), s)
  end.

Definition ref_count (s : MetadataStore) (hash : str) : Result (option Z) :=
  Ok (fst <$> blob_refs s !! hash).

(** *** Uploads *)
Definition insert_upload (s : MetadataStore) (u : NewUpload) : Result Z * MetadataStore :=
  let id := next_rowid (up_id <$> uploads s) in
  (Ok id, with_uploads (uploads s ++ [mkStoredUpload id u]) s).

Definition get_upload (s : MetadataStore) (id : Z) : Result (option StoredUpload) :=
  Ok (sql_find (fun u => (up_id u =? id)%Z) (uploads s)).

(** *** Contacts *)
Definition insert_contact (s : MetadataStore) (account : Z) (sealed : str) (now : Z) : Result Z * MetadataStore :=
  let id := next_rowid (ct_id <$> contacts s) in
  (Ok id, with_contacts (contacts s ++ [mkStoredContact id account sealed now now]) s).

Definition get_contact (s : MetadataStore) (id : Z) : Result (option StoredContact) :=
  Ok (sql_find (fun c => (ct_id c =? id)%Z) (contacts s)).

Definition contacts_for_account (s : MetadataStore) (account : Z) : Result (list StoredContact) :=
  Ok (List.filter (fun c => (ct_account_id c =? account)%Z) (contacts s)).

Definition update_contact (s : MetadataStore) (id : Z) (sealed : str) (now : Z) : Result unit * MetadataStore :=
  (Ok tt, with_contacts (sql_update (fun c => (ct_id c =? id)%Z)
            (fun c => mkStoredContact (ct_id c) (ct_account_id c) sealed (ct_created_at c) now) (contacts s)) s).

Definition delete_contact (s : MetadataStore) (id : Z) : Result unit * MetadataStore :=
  (Ok tt, with_contacts (List.filter (fun c => negb (ct_id c =? id)%Z) (contacts s)) s).

(** *** The database invariant

    Row ids are distinct, [UNIQUE(account_id, role)] holds, and every message
    points to a thread and a mailbox of its own account. *)
Definition mb_key (m : Mailbox) : Z * str := (mb_account m, mb_role m).

Definition thread_of (s : MetadataStore) (account id : Z) : Prop := mkThread id account ∈ threads s.

Definition mailbox_of (s : MetadataStore) (account id : Z) : Prop :=
  exists m, m ∈ mailboxes s /\ mb_id m = id /\ mb_account m = account.

Record meta_inv (s : MetadataStore) : Prop := {
  mi_mailbox_ids : NoDup (mb_id <$> mailboxes s);
  mi_mailbox_unique : NoDup (mb_key <$> mailboxes s);
  mi_thread_ids : NoDup (th_id <$> threads s);
  mi_message_ids : NoDup (m_id <$> messages s);
  mi_threads : forall m, m ∈ messages s -> thread_of s (account_id (m_row m)) (thread_id (m_row m));
  mi_mailboxes : forall m, m ∈ messages s -> mailbox_of s (account_id (m_row m)) (mailbox_id (m_row m))
}.

Lemma empty_store_inv : meta_inv empty_store.
Proof. split; cbn; try apply NoDup_nil_2; intros m H; by apply elem_of_nil in H. Qed.

Lemma mailbox_is_spec account role m :
  mailbox_is account role m = true <-> mb_key m = (account, role).
Proof.
  unfold mailbox_is, mb_key, str_eqb. rewrite andb_true_iff, Z.eqb_eq, bool_decide_eq_true.
  split; [intros [-> ->]; done|by intros [=]].
Qed.

Lemma find_mailbox_none account role t :
  sql_find (mailbox_is account role) t = None -> (account, role) ∉ (mb_key <$> t).
Proof.
  intros E (m & Em & Hm)%list_elem_of_fmap.
  pose proof (sql_find_none _ _ _ E Hm) as Hf. symmetry in Em.
  apply mailbox_is_spec in Em. congruence.
Qed.

Definition mailboxes_ok (t : list Mailbox) : Prop := NoDup (mb_id <$> t) /\ NoDup (mb_key <$> t).

Lemma insert_or_ignore_ok account t rn :
  mailboxes_ok t ->
  mailboxes_ok (insert_or_ignore_mailbox account t rn) /\
  (exists new, insert_or_ignore_mailbox account t rn = t ++ new) /\
  (account, rn.1) ∈ (mb_key <$> insert_or_ignore_mailbox account t rn).
Proof.
  intros [Hid Hk]. unfold insert_or_ignore_mailbox.
  destruct (sql_find _ t) as [m|] eqn:E.
  - apply sql_find_some in E as [Hm Hp%mailbox_is_spec].
    split_and!; [done|exists []; by rewrite app_nil_r|]. rewrite <- Hp. by apply list_elem_of_fmap_2.
  - pose proof (find_mailbox_none _ _ _ E) as Hn. split_and!.
    + split; rewrite fmap_app; apply NoDup_snoc; (done || apply next_rowid_fresh).
    + by eexists.
    + rewrite fmap_app. apply elem_of_app. right. by apply list_elem_of_singleton.
Qed.

Lemma insert_roles_ok account roles t :
  mailboxes_ok t ->
  mailboxes_ok (foldl (insert_or_ignore_mailbox account) t roles) /\
  (exists new, foldl (insert_or_ignore_mailbox account) t roles = t ++ new) /\
  forall rn, rn ∈ roles -> (account, rn.1) ∈ (mb_key <$> foldl (insert_or_ignore_mailbox account) t roles).
Proof.
  revert t. induction roles as [|r roles IH]; intros t Ht; cbn.
  - split_and!; [done|exists []; by rewrite app_nil_r|by intros ? ?%elem_of_nil].
  - destruct (insert_or_ignore_ok account t r Ht) as (Ht' & [n1 E1] & Hin).
    destruct (IH _ Ht') as (Ht'' & [n2 E2] & Hall). split_and!; [done| |].
    + exists (n1 ++ n2). by rewrite E2, E1, app_assoc.
    + intros rn [->|Hrn]%elem_of_cons; [|by apply Hall].
      rewrite E2, fmap_app. apply elem_of_app. by left.
Qed.

Lemma insert_roles_id account roles t :
  (forall rn, rn ∈ roles -> (account, rn.1) ∈ (mb_key <$> t)) ->
  foldl (insert_or_ignore_mailbox account) t roles = t.
Proof.
  induction roles as [|r roles IH]; intros H; cbn; [done|].
  assert (E : insert_or_ignore_mailbox account t r = t).
  { unfold insert_or_ignore_mailbox. destruct (sql_find _ t) eqn:E; [done|].
    destruct (find_mailbox_none _ _ _ E). apply H. by left. }
  rewrite E. apply IH. intros rn Hrn. apply H. by right.
Qed.

Definition system_role (role : str) : Prop := role ∈ (fst <$> SYSTEM_ROLES).

Lemma ensure_mailbox_spec s account role :
  meta_inv s -> system_role role ->
  exists m s', ensure_mailbox s account role = (Ok m, s') /\
    mb_key m = (account, role) /\ m ∈ mailboxes s' /\ meta_inv s' /\
    (exists new, mailboxes s' = mailboxes s ++ new) /\
    threads s' = threads s /\ messages s' = messages s /\ blob_refs s' = blob_refs s.
Proof.
  intros Hs (rn & -> & Hrn)%list_elem_of_fmap. unfold ensure_mailbox, get_mailbox_by_role.
  destruct (insert_roles_ok account SYSTEM_ROLES (mailboxes s)) as (Hok & [new Enew] & Hall);
    [split; apply Hs|]. cbn [mailboxes with_mailboxes].
  specialize (Hall rn Hrn). apply list_elem_of_fmap in Hall as (m & Hm & Hin). symmetry in Hm.
  apply mailbox_is_spec in Hm. destruct (sql_find_is_some _ _ _ Hin Hm) as [m' E].
  rewrite E. apply sql_find_some in E as [Hin' Hm'%mailbox_is_spec].
  do 2 eexists. split; [reflexivity|]. cbn [mailboxes threads messages blob_refs].
  split_and!; try done; [|by exists new].
  destruct Hs as [H1 H2 H3 H4 H5 H6], Hok as [Hid Hk]. split; cbn [mailboxes with_mailboxes threads messages]; try done.
  intros x Hx. destruct (H6 x Hx) as (mb & Hmb & ?). exists mb. split; [|done].
  cbn [mailboxes with_mailboxes]. rewrite Enew. apply elem_of_app. by left.
Qed.

Lemma roles_present s account :
  meta_inv s -> forall rn, rn ∈ SYSTEM_ROLES ->
  (account, rn.1) ∈ (mb_key <$> foldl (insert_or_ignore_mailbox account) (mailboxes s) SYSTEM_ROLES).
Proof. intros Hs. apply insert_roles_ok. split; apply Hs. Qed.

(** Adding a message whose thread and mailbox are its account's. *)
Lemma insert_message_inv s m :
  meta_inv s -> thread_of s (account_id m) (thread_id m) -> mailbox_of s (account_id m) (mailbox_id m) ->
  meta_inv (insert_message s m).2.
Proof.
  intros [H1 H2 H3 H4 H5 H6] Ht Hm. split; cbn; try done.
  - rewrite fmap_app. apply NoDup_snoc; (done || apply next_rowid_fresh).
  - intros x [Hx| ->%list_elem_of_singleton]%elem_of_app; [by apply H5|done].
  - intros x [Hx| ->%list_elem_of_singleton]%elem_of_app; [by apply H6|done].
Qed.

Lemma update_keywords_inv s id k : meta_inv s -> meta_inv (update_message s id None (Some k)).
Proof.
  intros [H1 H2 H3 H4 H5 H6]. split; cbn; try done.
  - unfold update_row. rewrite sql_update_key by done. done.
  - intros x (y & Hy & ->)%elem_of_sql_update. specialize (H5 y Hy). by destruct (_ =? _)%Z.
  - intros x (y & Hy & ->)%elem_of_sql_update. specialize (H6 y Hy). by destruct (_ =? _)%Z.
Qed.

Section ThreadFacts.
Context `{SqlAny}.

Lemma thread_by_reference_some s account refs id :
  thread_by_reference s account refs = Some id ->
  exists m, m ∈ messages s /\ account_id (m_row m) = account /\ thread_id (m_row m) = id /\
    exists r, r ∈ refs /\ message_id_header (m_row m) = Some r.
Proof.
  unfold thread_by_reference. destruct refs as [|r0 refs]; [done|].
  intros (m & -> & Hm)%any_row_in%list_elem_of_fmap.
  apply list_elem_of_In, filter_In in Hm as [Hm [Ha He]%andb_true_iff].
  apply existsb_exists in He as (r & Hr & Ho). exists m. split_and!; [by apply list_elem_of_In|..].
  - unfold in_account in Ha. by bool_facts.
  - done.
  - exists r. split; [by apply list_elem_of_In|]. unfold opt_is in Ho.
    destruct (message_id_header _); [|done]. by bool_facts; subst.
Qed.

Lemma thread_by_subject_some s account h id :
  thread_by_subject_hash s account h = Some id ->
  exists m, m ∈ messages s /\ account_id (m_row m) = account /\ thread_id (m_row m) = id /\
    subject_hash (m_row m) = Some h /\
    forall n, n ∈ messages s -> account_id (m_row n) = account -> subject_hash (m_row n) = Some h ->
      (received_at (m_row n) <= received_at (m_row m))%Z.
Proof.
  unfold thread_by_subject_hash, latest. intros (m & -> & Hm)%any_row_in%list_elem_of_fmap.
  apply list_elem_of_In, filter_In in Hm as [Hm Hlast].
  apply filter_In in Hm as [Hm [Ha Ho]%andb_true_iff]. unfold in_account in Ha. bool_facts.
  exists m. split_and!; [by apply list_elem_of_In|done|done| |].
  - unfold opt_is in Ho. destruct (subject_hash _); [|done]. by bool_facts; subst.
  - intros n Hn Han Hsn. rewrite forallb_forall in Hlast. apply Z.leb_le, Hlast, filter_In.
    split; [by apply list_elem_of_In|]. unfold in_account. rewrite Han, Z.eqb_refl, Hsn. cbn.
    by apply bool_decide_eq_true.
Qed.

Lemma find_or_create_thread_spec s m :
  meta_inv s ->
  let '(id, s') := find_or_create_thread s m in
  meta_inv s' /\ thread_of s' (tm_account m) id /\ mailboxes s' = mailboxes s /\
  messages s' = messages s /\ blob_refs s' = blob_refs s.
Proof.
  intros Hs. unfold find_or_create_thread.
  destruct (thread_by_reference s (tm_account m) (reference_ids m)) as [id|] eqn:E.
  - apply thread_by_reference_some in E as (x & Hx & <- & <- & _).
    split_and!; try done. by apply (mi_threads s Hs).
  - destruct (h ← tm_subject_hash m; thread_by_subject_hash s (tm_account m) h) as [id|] eqn:E2.
    + destruct (tm_subject_hash m) as [h|]; cbn in E2; [|done].
      apply thread_by_subject_some in E2 as (x & Hx & <- & <- & _).
      split_and!; try done. by apply (mi_threads s Hs).
    + cbn. destruct Hs as [H1 H2 H3 H4 H5 H6]. split_and!; try done.
      * split; cbn; try done.
        -- rewrite fmap_app. apply NoDup_snoc; (done || apply next_rowid_fresh).
        -- intros x Hx. unfold thread_of. cbn. apply elem_of_app. left. by apply H5.
      * unfold thread_of. cbn. apply elem_of_app. right. by apply list_elem_of_singleton.
Qed.

(** *** Properties *)

(** Mailbox provisioning is complete and idempotent: for a standard
    role, [ensure_mailbox] succeeds with that account's mailbox for the role
    and leaves all six standard mailboxes present exactly once, whatever
    subset existed before; calling it again for any role changes nothing. *)
Theorem ensure_mailbox_complete (s : MetadataStore) (account : Z) (role : str) :
  meta_inv s -> system_role role ->
  exists m s', ensure_mailbox s account role = (Ok m, s') /\ mb_key m = (account, role) /\
    m ∈ mailboxes s' /\ meta_inv s' /\
    (forall rn, rn ∈ SYSTEM_ROLES -> (account, rn.1) ∈ (mb_key <$> mailboxes s')) /\
    (forall role', (ensure_mailbox s' account role').2 = s').
Proof.
  intros Hs Hr. destruct (ensure_mailbox_spec s account role Hs Hr)
    as (m & s' & E & Hk & Hin & Hs' & _). exists m, s'. split_and!; try done.
  - intros rn Hrn. pose proof (roles_present s account Hs rn Hrn) as Hp.
    unfold ensure_mailbox in E. injection E as _ <-. exact Hp.
  - intros role'. unfold ensure_mailbox in *. injection E as _ <-.
    cbn [mailboxes with_mailboxes snd]. rewrite insert_roles_id; [done|]. intros rn Hrn. by apply roles_present.
Qed.

(** Threading: a message joins the thread of an existing message of
    the same account whose Message-ID it references; failing that, the
    thread of the account's most recently received message with the same
    subject hash; failing both it gets a thread no message has.  The thread
    returned always belongs to the recipient's account, and the database
    invariant is kept. *)
Theorem find_or_create_thread_correct (s : MetadataStore) (m : ThreadMatch) :
  meta_inv s ->
  let '(id, s') := find_or_create_thread s m in
  meta_inv s' /\ thread_of s' (tm_account m) id /\
  ((exists x r, x ∈ messages s /\ account_id (m_row x) = tm_account m /\ thread_id (m_row x) = id /\
      r ∈ reference_ids m /\ message_id_header (m_row x) = Some r) \/
   (exists x h, x ∈ messages s /\ account_id (m_row x) = tm_account m /\ thread_id (m_row x) = id /\
      tm_subject_hash m = Some h /\ subject_hash (m_row x) = Some h /\
      forall n, n ∈ messages s -> account_id (m_row n) = tm_account m ->
        subject_hash (m_row n) = Some h -> (received_at (m_row n) <= received_at (m_row x))%Z) \/
   (forall x, x ∈ messages s -> thread_id (m_row x) <> id)).
Proof.
  intros Hs. pose proof (find_or_create_thread_spec s m Hs) as Hspec.
  unfold find_or_create_thread in *.
  destruct (thread_by_reference s (tm_account m) (reference_ids m)) as [id|] eqn:E.
  { destruct Hspec as (? & ? & _). split_and!; try done. left.
    apply thread_by_reference_some in E as (x & Hx & ? & ? & r & ? & ?). eauto 10. }
  destruct (h ← tm_subject_hash m; thread_by_subject_hash s (tm_account m) h) as [id|] eqn:E2.
  { destruct Hspec as (? & ? & _). split_and!; try done. right. left.
    destruct (tm_subject_hash m) as [h|] eqn:Eh; cbn in E2; [|done].
    apply thread_by_subject_some in E2 as (x & Hx & ? & ? & ? & Hlast). exists x, h. eauto 10. }
  cbn in *. destruct Hspec as (? & ? & _). split_and!; try done. right. right.
  intros x Hx Hid. pose proof (mi_threads s Hs x Hx) as Ht. unfold thread_of in Ht. rewrite Hid in Ht.
  apply (next_rowid_fresh (th_id <$> threads s)).
  apply (list_elem_of_fmap_2 th_id) in Ht. exact Ht.
Qed.

End ThreadFacts.

#[local] Existing Instance first_row.

Lemma ensure_mailbox_complete_witness :
  exists (m : Mailbox) (s' : MetadataStore),
    (ensure_mailbox empty_store 1 ROLE_JUNK = (Ok m, s')) /\ (mb_key m = (1%Z, ROLE_JUNK)) /\
    (m ∈ mailboxes s') /\ meta_inv s' /\
    (forall rn, rn ∈ SYSTEM_ROLES -> (1%Z, rn.1) ∈ (mb_key <$> mailboxes s')) /\
    (forall role', (ensure_mailbox s' 1 role').2 = s').
Proof.
  apply ensure_mailbox_complete; [apply empty_store_inv|].
  by apply (bool_decide_unpack (system_role ROLE_JUNK)); vm_compute.
Defined.

Lemma find_or_create_thread_correct_witness :
  meta_inv (find_or_create_thread empty_store (mkThreadMatch 1 [] None)).2.
Proof.
  pose proof (find_or_create_thread_correct empty_store (mkThreadMatch 1 [] None) empty_store_inv) as H.
  exact (proj1 H).
Defined.

End Metadata.
