(* ===== verification/Sealing.v ===== *)
(** * Sealing: the crypto crate, [crypto]

    The constructions src/crates/crypto/src builds on RustCrypto: AEAD seals
    (aead.rs), committing wraps (committing.rs), key wraps (amk.rs, keys.rs),
    HPKE seals (hpke_seal.rs) and key derivation (kdf.rs).  The primitives are
    a class of parameters with their documented laws; the random nonce of a
    call is an argument. *)

From stdpp Require Import base list strings gmap.
From Stdlib Require Import Ascii ZArith Lia.
From S2P Require Import Prelude RustStr Header.

(** ** The primitives *)
Class Primitives : Type := {
  xchacha_encrypt : str -> str -> str -> str;            (* key, nonce, plaintext *)
  xchacha_decrypt : str -> str -> str -> option str;     (* key, nonce, ciphertext *)
  argon2id : str -> str -> Z * Z * Z -> result str str;  (* password, salt, m/t/p cost *)
  hpke_public : str -> str;                              (* public key of a private key *)
  hpke_single_shot_seal : str -> str -> str -> str -> result str (str * str);
      (* ephemeral randomness, public key, info, plaintext: encapsulated key, ciphertext *)
  hpke_bad_key : str -> option str;                      (* the error of a key's from_bytes *)
  hpke_single_shot_open : str -> str -> str -> str -> option str;
      (* private key, encapsulated key, info, ciphertext *)
  ed25519_public : str -> str;                           (* verifying key of a seed *)
  ed25519_key_ok : str -> bool;                          (* VerifyingKey::from_bytes succeeds *)
  ed25519_sign : str -> str -> str;                      (* seed, message *)
  ed25519_verify : str -> str -> str -> bool;            (* verifying key, message, signature *)
  hmac_sha256 : str -> str -> str;                       (* key, data *)
}.

(** What the code relies on. *)
Class PrimitiveLaws `{Primitives} : Prop := {
  xchacha_decrypt_encrypt k n p : xchacha_decrypt k n (xchacha_encrypt k n p) = Some p;
  argon2id_length p s c pk : argon2id p s c = Ok pk -> length pk = 32%nat;
  hpke_encapped_length r pk info p enc c :
    hpke_single_shot_seal r pk info p = Ok (enc, c) -> length enc = 32%nat;
  hpke_open_seal r sk info p enc c :
    length sk = 32%nat -> hpke_single_shot_seal r (hpke_public sk) info p = Ok (enc, c) ->
    hpke_single_shot_open sk enc info c = Some p;
  hpke_key_good k : length k = 32%nat -> hpke_bad_key k = None;
  ed25519_public_ok seed : ed25519_key_ok (ed25519_public seed) = true;
  ed25519_verify_sign seed m : ed25519_verify (ed25519_public seed) m (ed25519_sign seed m) = true;
  ed25519_signature_length seed m : length (ed25519_sign seed m) = 64%nat;
  hmac_length k d : length (hmac_sha256 k d) = 32%nat;
  hpke_public_length sk : length sk = 32%nat -> length (hpke_public sk) = 32%nat;
  ed25519_public_length seed : length seed = 32%nat -> length (ed25519_public seed) = 32%nat;
  hpke_seal_total r sk info p :
    length sk = 32%nat -> exists ec, hpke_single_shot_seal r (hpke_public sk) info p = Ok ec
}.

(** ** Errors *)
Inductive CryptoError : Type :=
| HeaderError (e : Error)
| SealFailed
| OpenFailed
| CommitmentFailed
| Hpke (detail : str)
| Kdf (detail : str)
| InvalidKey (detail : str)
| WrongAlgorithm.

Definition crypto_error_display (e : CryptoError) : str :=
  match e with
  | HeaderError e => # "header error: " ++ error_display e
  | SealFailed => # "AEAD seal failed"
  | OpenFailed => # "AEAD open failed (wrong key, or ciphertext tampered)"
  | CommitmentFailed => # "committing-wrap prefix check failed: wrong key or tampered ciphertext"
  | Hpke d => # "HPKE operation failed: " ++ d
  | Kdf d => # "KDF operation failed: " ++ d
  | InvalidKey d => # "invalid key material: " ++ d
  | WrongAlgorithm => # "unexpected alg_id for this operation"
  end.

(** [.map_err(|e| Error::Crypto(e.to_string()))]. *)
Definition as_crypto_error {A} (r : result CryptoError A) : Result A :=
  match r with Ok a => Ok a | Err e => Err (Crypto (crypto_error_display e)) end.

(** [AgilityHeader::decode(..)?] in a function of the crypto crate. *)
Definition decode_header (sealed : str) : result CryptoError (AgilityHeader * str) :=
  match decode sealed with Ok hp => Ok hp | Err e => Err (HeaderError e) end.

Definition SALT_LEN : nat := 16.
Definition PK_LEN : nat := 32.
Definition AMK_LEN : nat := 32.
Definition PUBLIC_KEY_LEN : nat := 32.
Definition PRIVATE_KEY_LEN : nat := 32.
Definition SIGNATURE_LEN : nat := 64.
Definition ZERO_PREFIX_LEN : nat := 16.
Definition NONCE_LEN : nat := 24.

(** [XNonce::try_from(header.nonce.as_slice())]. *)
Definition xnonce (n : str) : result CryptoError str :=
  if (length n =? NONCE_LEN)%nat then Ok n else Err (InvalidKey (# "bad nonce length")).

(** [array.copy_from_slice(&s)] panics unless the lengths agree. *)
Definition copy_from_slice (n : nat) (s : str) : exec str :=
  if (length s =? n)%nat then Done s else Panicked.

Section Constructions.
Context `{Primitives}.

(** ** Plain AEAD, aead.rs *)
Definition aead_seal (nonce key : str) (key_id : N) (plaintext : str) : str :=
  encode (header_new XChaCha20Poly1305 key_id nonce) ++ xchacha_encrypt key nonce plaintext.

Definition aead_open (key sealed : str) : result CryptoError str :=
  '(header, ciphertext) ← decode_header sealed;
  if negb (bool_decide (alg_id header = XChaCha20Poly1305)) then Err WrongAlgorithm
  else
    n ← xnonce (nonce header);
    match xchacha_decrypt key n ciphertext with
    | Some opened => Ok opened
    | None => Err OpenFailed
    end.

(** ** Committing wrap, committing.rs *)
Definition zero_prefix : str := replicate ZERO_PREFIX_LEN NUL.

Definition committing_seal (nonce key : str) (key_id : N) (plaintext : str) : str :=
  encode (header_new CommittingWrapXChaCha20Poly1305 key_id nonce)
  ++ xchacha_encrypt key nonce (zero_prefix ++ plaintext).

Definition committing_open (key sealed : str) : result CryptoError str :=
  '(header, ciphertext) ← decode_header sealed;
  if negb (bool_decide (alg_id header = CommittingWrapXChaCha20Poly1305)) then Err WrongAlgorithm
  else
    n ← xnonce (nonce header);
    match xchacha_decrypt key n ciphertext with
    | None => Err OpenFailed
    | Some opened =>
        if (length opened <? ZERO_PREFIX_LEN)%nat then Err CommitmentFailed
        else if negb (str_eqb (take ZERO_PREFIX_LEN opened) zero_prefix) then Err CommitmentFailed
        else Ok (drop ZERO_PREFIX_LEN opened)
    end.

(** ** Account master key, amk.rs *)
Definition wrap_amk (nonce pk : str) (key_id : N) (amk : str) : str :=
  committing_seal nonce pk key_id amk.

Definition unwrap_amk (pk wrapped : str) : exec (result CryptoError str) :=
  match committing_open pk wrapped with
  | Err e => mret (Err e)
  | Ok opened => bytes ← copy_from_slice AMK_LEN opened; mret (Ok bytes)
  end.

(** ** Private key wraps, keys.rs *)
Definition wrap_priv_key (nonce amk : str) (key_id : N) (priv_key : str) : str :=
  aead_seal nonce amk key_id priv_key.

Definition unwrap_priv_key (amk wrapped : str) : result CryptoError str := aead_open amk wrapped.

(** ** HPKE, hpke_seal.rs *)
Definition hpke_seal (rand pub_key : str) (key_id : N) (info plaintext : str) : result CryptoError str :=
  match hpke_bad_key pub_key with
  | Some e => Err (Hpke (# "bad public key: " ++ e))
  | None =>
      match hpke_single_shot_seal rand pub_key info plaintext with
      | Err e => Err (Hpke (# "seal failed: " ++ e))
      | Ok (encapped, ciphertext) =>
          Ok (encode (header_new HpkeX25519Sha256ChaCha20Poly1305 key_id encapped) ++ ciphertext)
      end
  end.

Definition hpke_open (priv_key info sealed : str) : result CryptoError str :=
  '(header, ciphertext) ← decode_header sealed;
  if negb (bool_decide (alg_id header = HpkeX25519Sha256ChaCha20Poly1305)) then Err WrongAlgorithm
  else
    match hpke_bad_key priv_key with
    | Some e => Err (Hpke (# "bad private key: " ++ e))
    | None =>
        match hpke_bad_key (nonce header) with
        | Some e => Err (Hpke (# "bad encapped key: " ++ e))
        | None =>
            match hpke_single_shot_open priv_key (nonce header) info ciphertext with
            | Some plaintext => Ok plaintext
            | None => Err OpenFailed
            end
        end
    end.

(** ** Password keys, kdf.rs *)
Definition derive_pk (password salt : str) (config : Z * Z * Z) : result CryptoError str :=
  match argon2id password salt config with Ok pk => Ok pk | Err e => Err (Kdf e) end.

(** ** Signatures, sign.rs, and keyed hashes, keyed_hash.rs *)
Definition sign (private message : str) : str := ed25519_sign private message.
Definition verify (public message signature : str) : bool :=
  if ed25519_key_ok public then ed25519_verify public message signature else false.

Definition keyed_hash (key data : str) : str := hmac_sha256 key data.

End Constructions.

(** ** Lemmas *)
Section Facts.
Context `{PrimitiveLaws}.

Lemma decode_header_new a k n payload :
  (k < 65536)%N -> (length n < 256)%nat ->
  decode_header (encode (header_new a k n) ++ payload) = Ok (header_new a k n, payload).
Proof.
  intros Hk Hn. unfold decode_header. rewrite header_decode; [done|].
  split_and!; cbn; unfold HEADER_VERSION; lia.
Qed.

Lemma xnonce_ok n : length n = NONCE_LEN -> xnonce n = Ok n.
Proof. unfold xnonce. intros ->. by rewrite Nat.eqb_refl. Qed.

Lemma aead_open_seal n key k p :
  (k < 65536)%N -> length n = NONCE_LEN -> aead_open key (aead_seal n key k p) = Ok p.
Proof.
  intros Hk Hn. unfold aead_open, aead_seal.
  rewrite decode_header_new by (rewrite ?Hn; unfold NONCE_LEN; lia || done).
  unfold mbind, result_bind. cbn [alg_id nonce header_new].
  rewrite bool_decide_eq_true_2 by done. cbn [negb]. rewrite xnonce_ok by done.
  by rewrite xchacha_decrypt_encrypt.
Qed.

Lemma zero_prefix_length : length zero_prefix = ZERO_PREFIX_LEN.
Proof. reflexivity. Qed.

Lemma committing_open_seal n key k p :
  (k < 65536)%N -> length n = NONCE_LEN -> committing_open key (committing_seal n key k p) = Ok p.
Proof.
  intros Hk Hn. unfold committing_open, committing_seal.
  rewrite decode_header_new by (rewrite ?Hn; unfold NONCE_LEN; lia || done).
  unfold mbind, result_bind. cbn [alg_id nonce header_new].
  rewrite bool_decide_eq_true_2 by done. cbn [negb]. rewrite xnonce_ok by done.
  rewrite xchacha_decrypt_encrypt, length_app, zero_prefix_length.
  destruct (_ <? _)%nat eqn:E; bool_facts; [lia|].
  rewrite <- zero_prefix_length, take_app_length, drop_app_length.
  unfold str_eqb. by rewrite bool_decide_eq_true_2.
Qed.

Lemma unwrap_wrap_amk n pk k amk :
  (k < 65536)%N -> length n = NONCE_LEN -> length amk = AMK_LEN ->
  unwrap_amk pk (wrap_amk n pk k amk) = Done (Ok amk).
Proof.
  intros Hk Hn Ha. unfold unwrap_amk, wrap_amk. rewrite committing_open_seal by done.
  unfold copy_from_slice. by rewrite Ha, Nat.eqb_refl.
Qed.

Lemma hpke_seal_some r pk k info p sealed :
  hpke_seal r pk k info p = Ok sealed ->
  exists enc c, hpke_single_shot_seal r pk info p = Ok (enc, c) /\
    sealed = encode (header_new HpkeX25519Sha256ChaCha20Poly1305 k enc) ++ c /\ length enc = 32%nat.
Proof.
  unfold hpke_seal. destruct (hpke_bad_key _); [done|].
  destruct (hpke_single_shot_seal _ _ _ _) as [[enc c]|] eqn:E; [|done]. intros Hs.
  exists enc, c. split_and!; [done|congruence|]. by eapply hpke_encapped_length.
Qed.

Lemma hpke_open_seal_ok r sk k info p sealed :
  (k < 65536)%N -> length sk = PRIVATE_KEY_LEN ->
  hpke_seal r (hpke_public sk) k info p = Ok sealed -> hpke_open sk info sealed = Ok p.
Proof.
  intros Hk Hsk (enc & c & E & -> & Hl)%hpke_seal_some.
  unfold hpke_open.
  rewrite decode_header_new by (rewrite ?Hl; lia || done).
  unfold mbind, result_bind. cbn [alg_id nonce header_new].
  rewrite bool_decide_eq_true_2 by done. cbn [negb].
  rewrite !hpke_key_good by done. by rewrite (hpke_open_seal _ _ _ _ _ _ Hsk E).
Qed.

Lemma hpke_seal_to_account r sk k info p :
  length sk = PRIVATE_KEY_LEN -> exists sealed, hpke_seal r (hpke_public sk) k info p = Ok sealed.
Proof.
  intros Hsk. unfold hpke_seal. rewrite hpke_key_good by (by apply hpke_public_length).
  destruct (hpke_seal_total r sk info p Hsk) as [[enc c] ->]. by eexists.
Qed.

Lemma copy_from_slice_ok n s : length s = n -> copy_from_slice n s = Done s.
Proof. unfold copy_from_slice. intros ->. by rewrite Nat.eqb_refl. Qed.

(** ** Properties *)

(** What the crypto crate seals it opens: a plain AEAD seal, a
    committing wrap, a wrapped master key and an HPKE seal to an account's
    public key all give back the exact plaintext under the right key. *)
Theorem seal_open_round_trip (n key : str) (key_id : N) (p : str) :
  (key_id < 65536)%N -> length n = NONCE_LEN ->
  aead_open key (aead_seal n key key_id p) = Ok p /\
  committing_open key (committing_seal n key key_id p) = Ok p /\
  (length p = AMK_LEN -> unwrap_amk key (wrap_amk n key key_id p) = Done (Ok p)) /\
  (forall r sk info sealed, length sk = PRIVATE_KEY_LEN ->
     hpke_seal r (hpke_public sk) key_id info p = Ok sealed -> hpke_open sk info sealed = Ok p).
Proof.
  intros Hk Hn. split_and!; [by apply aead_open_seal|by apply committing_open_seal| |].
  - intros Hp. by apply unwrap_wrap_amk.
  - intros r sk info sealed Hsk. by apply hpke_open_seal_ok.
Qed.

(** The three constructions are kept apart by the header: a blob made
    by one of them is rejected as [WrongAlgorithm] by the other two, under
    every key, the right one included -- an AEAD-sealed value can never be
    passed off as a committing wrap. *)
Theorem constructions_are_separated (n key key' : str) (key_id : N) (p info r pk sealed : str) :
  (key_id < 65536)%N -> length n = NONCE_LEN -> hpke_seal r pk key_id info p = Ok sealed ->
  committing_open key' (aead_seal n key key_id p) = Err WrongAlgorithm /\
  hpke_open key' info (aead_seal n key key_id p) = Err WrongAlgorithm /\
  aead_open key' (committing_seal n key key_id p) = Err WrongAlgorithm /\
  hpke_open key' info (committing_seal n key key_id p) = Err WrongAlgorithm /\
  aead_open key' sealed = Err WrongAlgorithm /\
  committing_open key' sealed = Err WrongAlgorithm.
Proof.
  intros Hk Hn (enc & c & E & -> & Hl)%hpke_seal_some.
  unfold committing_open, aead_open, hpke_open, committing_seal, aead_seal.
  rewrite !decode_header_new by (rewrite ?Hl, ?Hn; unfold NONCE_LEN; lia || done).
  split_and!; reflexivity.
Qed.

(** A committing wrap opens exactly when it carries the committing
    algorithm id, a 24-byte nonce and a ciphertext that decrypts to sixteen
    zero bytes followed by the plaintext; anything else is an error. *)
Theorem committing_open_exact (key sealed p : str) :
  committing_open key sealed = Ok p <->
  exists h ciphertext, header_wf h /\ alg_id h = CommittingWrapXChaCha20Poly1305 /\
    length (nonce h) = NONCE_LEN /\ sealed = encode h ++ ciphertext /\
    xchacha_decrypt key (nonce h) ciphertext = Some (zero_prefix ++ p).
Proof.
  unfold committing_open, decode_header, mbind, result_bind. split.
  - destruct (decode sealed) as [[h c]|] eqn:E; [|done].
    apply header_encode in E as [Hwf ->].
    destruct (negb _) eqn:Ea; [done|]. unfold xnonce. bool_facts.
    destruct (length (nonce h) =? NONCE_LEN)%nat eqn:En; [|done]. bool_facts.
    destruct (xchacha_decrypt _ _ _) as [o|] eqn:Ed; [|done].
    destruct (_ <? _)%nat; [done|]. destruct (negb (str_eqb _ _)) eqn:Ez; [done|]. bool_facts.
    intros [= <-]. exists h, c. split_and!; try done. by rewrite <- Ez, take_drop.
  - intros (h & c & Hwf & Ha & Hn & -> & Hd). rewrite header_decode by done. rewrite Ha.
    rewrite bool_decide_eq_true_2 by done. cbn [negb]. rewrite xnonce_ok, Hd by done.
    rewrite length_app, zero_prefix_length. destruct (_ <? _)%nat eqn:E; bool_facts; [lia|].
    rewrite <- zero_prefix_length, take_app_length, drop_app_length.
    unfold str_eqb. by rewrite bool_decide_eq_true_2.
Qed.

End Facts.

(** ** A concrete instance for witnesses: the "ciphertext" is the key, the
    nonce and the plaintext side by side. *)
Definition pad (n : nat) (s : str) : str := take n (s ++ replicate n NUL).

Lemma length_pad n s : length (pad n s) = n.
Proof. unfold pad. rewrite length_take, length_app, length_replicate. lia. Qed.

#[local] Instance toy_primitives : Primitives := {|
  xchacha_encrypt := fun k n p => k ++ n ++ p;
  xchacha_decrypt := fun k n c => strip_prefix (k ++ n) c;
  argon2id := fun p s _ => Ok (pad 32 (p ++ s));
  hpke_public := fun sk => sk;
  hpke_bad_key := fun k => if (length k =? 32)%nat then None else Some (# "IncorrectInputLength");
  hpke_single_shot_seal := fun r pk info p => Ok (pad 32 r, pk ++ info ++ p);
  hpke_single_shot_open := fun sk enc info c => strip_prefix (sk ++ info) c;
  ed25519_public := fun seed => seed;
  ed25519_key_ok := fun _ => true;
  ed25519_sign := fun seed m => pad 64 (seed ++ m);
  ed25519_verify := fun pk m s => str_eqb s (pad 64 (pk ++ m));
  hmac_sha256 := fun k d => pad 32 (k ++ d)
|}.

#[local] Instance toy_laws : PrimitiveLaws.
Proof.
  split; cbn -[pad str_eqb]; intros.
  - rewrite (assoc_L (++)). by apply strip_prefix_some.
  - inv H. apply length_pad.
  - inv H. apply length_pad.
  - inv H0. rewrite (assoc_L (++)). by apply strip_prefix_some.
  - by rewrite H.
  - done.
  - by apply bool_decide_eq_true_2.
  - apply length_pad.
  - apply length_pad.
  - done.
  - done.
  - by eexists.
Defined.

Lemma seal_open_round_trip_witness :
  aead_open (# "key") (aead_seal (pad 24 []) (# "key") 1 (# "dek")) = Ok (# "dek").
Proof.
  exact (proj1 (seal_open_round_trip (pad 24 []) (# "key") 1 (# "dek") eq_refl eq_refl)).
Defined.

Lemma constructions_are_separated_witness :
  committing_open (# "key") (aead_seal (pad 24 []) (# "key") 1 (# "dek")) = Err WrongAlgorithm.
Proof.
  apply (constructions_are_separated (pad 24 []) (# "key") (# "key") 1 (# "dek") [] [] (pad 32 [])
           (encode (header_new HpkeX25519Sha256ChaCha20Poly1305 1 (pad 32 [])) ++ pad 32 [] ++ # "dek"));
    [lia|by rewrite length_pad|reflexivity].
Defined.
