(* ===== verification/Auth.v ===== *)
(** * Auth: the account store, [auth]

    The accounts and application passwords of src/crates/auth/src/store.rs:
    provisioning, lookup, unlocking with a password or an application
    password, revocation.  The two SQL tables are lists of rows; randomness
    and the clock are arguments. *)

From stdpp Require Import base list strings gmap sorting.
From Stdlib Require Import Ascii ZArith Lia.
From S2P Require Import Prelude RustStr Input Header Sealing.

(** ** Application password scopes, app_password.rs *)
Inductive AppPasswordScope : Type := Full | Submission.

#[global] Instance AppPasswordScope_eq_dec : EqDecision AppPasswordScope.
Proof. solve_decision. Defined.

Definition scope_as_str (s : AppPasswordScope) : str :=
  match s with Full => # "full" | Submission => # "submission" end.

Definition scope_parse (s : str) : option AppPasswordScope :=
  if str_eqb s (# "full") then Some Full
  else if str_eqb s (# "submission") then Some Submission
  else None.

Record AppPasswordSummary : Type := mkSummary {
  aps_id : Z;
  aps_label : str;
  aps_scope : AppPasswordScope;
  aps_created_at : Z;
  aps_last_used_at : option Z
}.

(** ** Accounts, account.rs *)
Record Account : Type := mkAccount {
  acc_id : Z;
  local_part : str;
  domain : str;
  acc_key_id : N;
  acc_salt : str;
  wrapped_amk : str;
  account_pub : str;
  wrapped_account_priv : str;
  acc_created_at : Z
}.

Definition address (a : Account) : str := local_part a ++ # "@" ++ domain a.

(** ** The tables *)
Record AccountRow : Type := mkAccountRow {
  row_account : Account;
  signature_sealed : option str
}.

Record AppPasswordRow : Type := mkAppPassword {
  ap_id : Z;
  ap_account : Z;
  ap_label : str;
  ap_scope : str;
  ap_salt : str;
  ap_wrapped_amk : str;
  ap_created_at : Z;
  ap_last_used_at : option Z
}.

Record AuthStore : Type := mkAuthStore {
  accounts : list AccountRow;
  app_passwords : list AppPasswordRow
}.

Definition empty_auth : AuthStore := mkAuthStore [] [].

Definition row_id (r : AccountRow) : Z := acc_id (row_account r).
Definition row_key (r : AccountRow) : str * str := (local_part (row_account r), domain (row_account r)).

Definition has_address (local dom : str) (r : AccountRow) : bool :=
  str_eqb (local_part (row_account r)) local && str_eqb (domain (row_account r)) dom.

(** ** Lookups *)
Definition find_by_address (s : AuthStore) (local dom : str) : Result (option Account) :=
  Ok (row_account <$> sql_find (has_address local (to_ascii_lowercase dom)) (accounts s)).

Definition find_by_id (s : AuthStore) (id : Z) : Result (option Account) :=
  Ok (row_account <$> sql_find (fun r => row_id r =? id)%Z (accounts s)).

(** [ORDER BY created_at DESC]. *)
Definition newer_account (a b : Account) : Prop := (acc_created_at b <= acc_created_at a)%Z.
#[global] Instance newer_account_dec a b : Decision (newer_account a b).
Proof. unfold newer_account. apply _. Defined.

Definition list_accounts (s : AuthStore) : Result (list Account) :=
  Ok (merge_sort newer_account (row_account <$> accounts s)).

(** [ORDER BY local_part]: byte-wise. *)
Fixpoint str_leb (a b : str) : bool :=
  match a, b with
  | [], _ => true
  | _ :: _, [] => false
  | x :: a', y :: b' => (bval x <? bval y)%N || ((bval x =? bval y)%N && str_leb a' b')
  end.

Definition local_part_le (a b : Account) : Prop := str_leb (local_part a) (local_part b) = true.
#[global] Instance local_part_le_dec a b : Decision (local_part_le a b).
Proof. unfold local_part_le. apply _. Defined.

Definition list_accounts_for_domain (s : AuthStore) (dom : str) : Result (list Account) :=
  Ok (merge_sort local_part_le
        (List.filter (fun a => str_eqb (domain a) dom) (row_account <$> accounts s))).

(** Only the [accounts] row goes: application passwords stay. *)
Definition delete_account (s : AuthStore) (id : Z) : Result unit * AuthStore :=
  (Ok tt, mkAuthStore (List.filter (fun r => negb (row_id r =? id)%Z) (accounts s)) (app_passwords s)).

Definition get_signature_sealed (s : AuthStore) (id : Z) : Result (option str) :=
  Ok (r ← sql_find (fun r => row_id r =? id)%Z (accounts s); signature_sealed r).

Definition set_signature_sealed (s : AuthStore) (id : Z) (sealed : option str) : Result unit * AuthStore :=
  (Ok tt, mkAuthStore (sql_update (fun r => row_id r =? id)%Z
                         (fun r => mkAccountRow (row_account r) sealed) (accounts s))
                      (app_passwords s)).

(** ** Provisioning and unlocking *)
Record UnlockedAccount : Type := mkUnlocked { amk : str; account_priv : str }.

(** What one call of [provision] draws from the random number generator. *)
Record ProvisionRand : Type := mkProvisionRand {
  pr_salt : str;
  pr_amk : str;
  pr_wrap_nonce : str;
  pr_priv : str;
  pr_priv_nonce : str
}.

(** A draw has the lengths of the arrays it fills. *)
Definition rand_ok (r : ProvisionRand) : Prop :=
  length (pr_salt r) = SALT_LEN /\ length (pr_amk r) = AMK_LEN /\
  length (pr_wrap_nonce r) = NONCE_LEN /\ length (pr_priv r) = PRIVATE_KEY_LEN /\
  length (pr_priv_nonce r) = NONCE_LEN.

Definition unique_error : Error :=
  Storage (# "UNIQUE constraint failed: accounts.local_part, accounts.domain").

Section Store.
Context `{Primitives}.

Definition provision (rnd : ProvisionRand) (now : Z) (s : AuthStore)
    (local dom password : str) (config : Z * Z * Z) : Result Account * AuthStore :=
  if negb (valid_local_part local) || negb (valid_domain_name dom) then
    (Err (Config (# "invalid mailbox address")), s)
  else
    let dom := to_ascii_lowercase dom in
    match as_crypto_error (derive_pk password (pr_salt rnd) config) with
    | Err e => (Err e, s)
    | Ok pk =>
        let wrapped := wrap_amk (pr_wrap_nonce rnd) pk 1 (pr_amk rnd) in
        let wrapped_priv := wrap_priv_key (pr_priv_nonce rnd) (pr_amk rnd) 1 (pr_priv rnd) in
        if existsb (has_address local dom) (accounts s) then (Err unique_error, s)
        else
          let a := mkAccount (next_rowid (row_id <$> accounts s)) local dom 1 (pr_salt rnd) wrapped
                     (hpke_public (pr_priv rnd)) wrapped_priv now in
          (Ok a, mkAuthStore (accounts s ++ [mkAccountRow a None]) (app_passwords s))
    end.

Definition finish_unlock (amk wrapped_priv : str) : exec (Result UnlockedAccount) :=
  match as_crypto_error (unwrap_priv_key amk wrapped_priv) with
  | Err e => mret (Err e)
  | Ok priv_bytes =>
      account_priv ← copy_from_slice PRIVATE_KEY_LEN priv_bytes;
      mret (Ok (mkUnlocked amk account_priv))
  end.

Definition unlock (account : Account) (password : str) (config : Z * Z * Z)
    : exec (Result UnlockedAccount) :=
  match as_crypto_error (derive_pk password (acc_salt account) config) with
  | Err e => mret (Err e)
  | Ok pk =>
      r ← unwrap_amk pk (wrapped_amk account);
      match as_crypto_error r with
      | Err e => mret (Err e)
      | Ok amk => finish_unlock amk (wrapped_account_priv account)
      end
  end.

(** The loop of [unlock_any] over the candidate rows: the matching row's id
    with what it unlocked. *)
Fixpoint try_candidates (account : Account) (credential : str) (config : Z * Z * Z)
    (candidates : list AppPasswordRow) : exec (Result (Z * UnlockedAccount * AppPasswordScope)) :=
  match candidates with
  | [] => mret (Err (Crypto (# "no matching credential")))
  | c :: rest =>
      if negb (length (ap_salt c) =? SALT_LEN)%nat then try_candidates account credential config rest
      else
        match as_crypto_error (derive_pk credential (ap_salt c) config) with
        | Err e => mret (Err e)
        | Ok pk =>
            r ← unwrap_amk pk (ap_wrapped_amk c);
            match r with
            | Err _ => try_candidates account credential config rest
            | Ok amk =>
                u ← finish_unlock amk (wrapped_account_priv account);
                match u with
                | Err e => mret (Err e)
                | Ok unlocked => mret (Ok (ap_id c, unlocked, default Full (scope_parse (ap_scope c))))
                end
            end
        end
  end.

Definition candidates_of (s : AuthStore) (account : Z) : list AppPasswordRow :=
  List.filter (fun c => ap_account c =? account)%Z (app_passwords s).

Definition touch_app_password (now : Z) (s : AuthStore) (id : Z) : AuthStore :=
  mkAuthStore (accounts s)
    (sql_update (fun c => ap_id c =? id)%Z
       (fun c => mkAppPassword (ap_id c) (ap_account c) (ap_label c) (ap_scope c) (ap_salt c)
                   (ap_wrapped_amk c) (ap_created_at c) (Some now)) (app_passwords s)).

Definition unlock_any (now : Z) (account : Account) (credential : str) (config : Z * Z * Z)
    : St AuthStore (Result (UnlockedAccount * AppPasswordScope)) :=
  u ← st_exec (unlock account credential config);
  match u with
  | Ok unlocked => mret (Ok (unlocked, Full))
  | Err _ =>
      s ← st_get;
      r ← st_exec (try_candidates account credential config (candidates_of s (acc_id account)));
      match r with
      | Err e => mret (Err e)
      | Ok (id, unlocked, scope) =>
          _ ← st_put (touch_app_password now s id);
          mret (Ok (unlocked, scope))
      end
  end.

(** ** Application passwords *)
Definition hex_char (n : N) : byte := ascii_of_N (if (n <? 10)%N then 48 + n else 87 + n).
Definition hex_encode (s : str) : str :=
  mjoin ((fun b => [hex_char (bval b / 16); hex_char (bval b mod 16)]) <$> s).

(** [secret_bytes], [salt] and [nonce] are the random draws. *)
Definition create_app_password (secret_bytes salt nonce : str) (now : Z) (s : AuthStore)
    (account : Z) (amk label : str) (scope : AppPasswordScope) (config : Z * Z * Z)
    : Result (AppPasswordSummary * str) * AuthStore :=
  let plaintext := hex_encode secret_bytes in
  match as_crypto_error (derive_pk plaintext salt config) with
  | Err e => (Err e, s)
  | Ok pk =>
      let id := next_rowid (ap_id <$> app_passwords s) in
      let row := mkAppPassword id account label (scope_as_str scope) salt (wrap_amk nonce pk 1 amk) now None in
      (Ok (mkSummary id label scope now None, plaintext),
       mkAuthStore (accounts s) (app_passwords s ++ [row]))
  end.

Definition summary_of (c : AppPasswordRow) : AppPasswordSummary :=
  mkSummary (ap_id c) (ap_label c) (default Full (scope_parse (ap_scope c)))
    (ap_created_at c) (ap_last_used_at c).

Definition newer_summary (a b : AppPasswordSummary) : Prop := (aps_created_at b <= aps_created_at a)%Z.
#[global] Instance newer_summary_dec a b : Decision (newer_summary a b).
Proof. unfold newer_summary. apply _. Defined.

Definition list_app_passwords (s : AuthStore) (account : Z) : Result (list AppPasswordSummary) :=
  Ok (merge_sort newer_summary (summary_of <$> candidates_of s account)).

Definition revoke_app_password (s : AuthStore) (account id : Z) : Result unit * AuthStore :=
  (Ok tt, mkAuthStore (accounts s)
            (List.filter (fun c => negb ((ap_id c =? id)%Z && (ap_account c =? account)%Z)) (app_passwords s))).

End Store.

(** ** The database invariant *)
Record auth_inv (s : AuthStore) : Prop := {
  ai_ids : NoDup (row_id <$> accounts s);
  ai_addresses : NoDup (row_key <$> accounts s);
  ai_app_ids : NoDup (ap_id <$> app_passwords s)
}.

Lemma empty_auth_inv : auth_inv empty_auth.
Proof. split; apply NoDup_nil_2. Qed.

Lemma has_address_spec l d r : has_address l d r = true <-> row_key r = (l, d).
Proof.
  unfold has_address, row_key, str_eqb. rewrite andb_true_iff, !bool_decide_eq_true.
  split; [by intros [-> ->]|by intros [=]].
Qed.

Lemma delete_account_inv s id : auth_inv s -> auth_inv (delete_account s id).2.
Proof. intros [H1 H2 H3]. split; cbn; by try apply NoDup_fmap_filter. Qed.

Lemma set_signature_inv s id x : auth_inv s -> auth_inv (set_signature_sealed s id x).2.
Proof. intros [H1 H2 H3]. split; cbn; by rewrite ?sql_update_key by done. Qed.

Lemma revoke_inv s a id : auth_inv s -> auth_inv (revoke_app_password s a id).2.
Proof. intros [H1 H2 H3]. split; cbn; by try apply NoDup_fmap_filter. Qed.

Lemma touch_inv now s id : auth_inv s -> auth_inv (touch_app_password now s id).
Proof. intros [H1 H2 H3]. split; cbn; by rewrite ?sql_update_key by done. Qed.

Section Facts.
Context `{PrimitiveLaws}.

(** The shape of a successful provisioning. *)
Lemma provision_ok rnd now s l d pw cfg a s' :
  provision rnd now s l d pw cfg = (Ok a, s') ->
  exists pk, derive_pk pw (pr_salt rnd) cfg = Ok pk /\
    (forall r, r ∈ accounts s -> row_key r <> (l, to_ascii_lowercase d)) /\
    a = mkAccount (next_rowid (row_id <$> accounts s)) l (to_ascii_lowercase d) 1 (pr_salt rnd)
          (wrap_amk (pr_wrap_nonce rnd) pk 1 (pr_amk rnd)) (hpke_public (pr_priv rnd))
          (wrap_priv_key (pr_priv_nonce rnd) (pr_amk rnd) 1 (pr_priv rnd)) now /\
    s' = mkAuthStore (accounts s ++ [mkAccountRow a None]) (app_passwords s).
Proof.
  unfold provision. destruct (_ || _); [done|]. unfold as_crypto_error.
  destruct (derive_pk _ _ _) as [pk|] eqn:Ek; [|done].
  destruct (existsb _ _) eqn:Ex; [done|]. intros [= <- <-]. exists pk. split_and!; try done.
  intros r Hr Hk. apply has_address_spec in Hk. by rewrite (existsb_false _ _ _ Ex Hr) in Hk.
Qed.

Lemma provision_inv rnd now s l d pw cfg :
  auth_inv s -> auth_inv (provision rnd now s l d pw cfg).2.
Proof.
  intros Hs. destruct (provision rnd now s l d pw cfg) as [[a|e] s'] eqn:E.
  - apply provision_ok in E as (pk & _ & Hnew & -> & ->). destruct Hs as [H1 H2 H3].
    split; cbn; [| |done]; rewrite fmap_app; apply NoDup_snoc; try done.
    + apply next_rowid_fresh.
    + intros (r & Er & Hr)%list_elem_of_fmap. by apply (Hnew r Hr).
  - assert (s' = s) as ->; [|done]. revert E. unfold provision.
    repeat case_match; by intros [=].
Qed.

Lemma unlock_provisioned rnd now s l d pw cfg a s' :
  rand_ok rnd -> provision rnd now s l d pw cfg = (Ok a, s') ->
  unlock a pw cfg = Done (Ok (mkUnlocked (pr_amk rnd) (pr_priv rnd))).
Proof.
  intros (_ & Ha & Hn & Hp & Hn') (pk & Hk & _ & -> & _)%provision_ok.
  unfold unlock. cbn [acc_salt wrapped_amk wrapped_account_priv]. rewrite Hk. cbn [as_crypto_error].
  rewrite unwrap_wrap_amk by done. unfold mbind, exec_bind. cbn [as_crypto_error].
  unfold finish_unlock, unwrap_priv_key, wrap_priv_key. rewrite aead_open_seal by done.
  cbn [as_crypto_error]. unfold copy_from_slice. by rewrite Hp, Nat.eqb_refl.
Qed.

(** What [try_candidates] can return. *)
Lemma try_candidates_ok acc cred cfg l id u scope :
  try_candidates acc cred cfg l = Done (Ok (id, u, scope)) ->
  exists c pk, c ∈ l /\ ap_id c = id /\ derive_pk cred (ap_salt c) cfg = Ok pk /\
    unwrap_amk pk (ap_wrapped_amk c) = Done (Ok (amk u)) /\
    finish_unlock (amk u) (wrapped_account_priv acc) = Done (Ok u) /\
    scope = default Full (scope_parse (ap_scope c)).
Proof.
  induction l as [|c l IH]; cbn -[unwrap_amk finish_unlock]; [done|]. intros E.
  assert (Hrec : try_candidates acc cred cfg l = Done (Ok (id, u, scope)) ->
    exists c' pk, c' ∈ c :: l /\ ap_id c' = id /\ derive_pk cred (ap_salt c') cfg = Ok pk /\
      unwrap_amk pk (ap_wrapped_amk c') = Done (Ok (amk u)) /\
      finish_unlock (amk u) (wrapped_account_priv acc) = Done (Ok u) /\
      scope = default Full (scope_parse (ap_scope c'))).
  { intros (c' & pk & Hc & ?)%IH. exists c', pk. split; [by right|done]. }
  destruct (negb _); [by apply Hrec|]. unfold as_crypto_error in E.
  destruct (derive_pk _ _ _) as [pk|] eqn:Ek; [|done].
  destruct (unwrap_amk pk _) as [[k|]|] eqn:Ew; unfold mbind, exec_bind in E; [|by apply Hrec|done].
  destruct (finish_unlock k _) as [[u'|]|] eqn:Ef; [|done|done]. inv E.
  assert (amk u = k) as Hk.
  { revert Ef. unfold finish_unlock. destruct (as_crypto_error _); [|done].
    unfold copy_from_slice. case_match; [|done]. unfold mbind, exec_bind. by intros [= <-]. }
  exists c, pk. subst k. split_and!; try done. by left.
Qed.

(** A credential that an application password row does not open. *)
Definition row_rejects (cred : str) (cfg : Z * Z * Z) (c : AppPasswordRow) : Prop :=
  length (ap_salt c) <> SALT_LEN \/
  exists pk e, derive_pk cred (ap_salt c) cfg = Ok pk /\ unwrap_amk pk (ap_wrapped_amk c) = Done (Err e).

Lemma try_candidates_skip acc cred cfg l rest :
  Forall (row_rejects cred cfg) l ->
  try_candidates acc cred cfg (l ++ rest) = try_candidates acc cred cfg rest.
Proof.
  induction 1 as [|c l [Hc|(pk & e & Hk & Hw)] Hl IH]; [done| |]; cbn [app try_candidates].
  - destruct (length (ap_salt c) =? SALT_LEN)%nat eqn:E; bool_facts; [done|exact IH].
  - destruct (negb _); [exact IH|]. rewrite Hk. cbn [as_crypto_error]. rewrite Hw. exact IH.
Qed.

Lemma scope_round_trip sc : scope_parse (scope_as_str sc) = Some sc.
Proof. destruct sc; reflexivity. Qed.

Lemma candidates_of_snoc s row acc :
  candidates_of (mkAuthStore (accounts s) (app_passwords s ++ [row])) acc =
  candidates_of s acc ++ (if (ap_account row =? acc)%Z then [row] else []).
Proof. unfold candidates_of. cbn [app_passwords]. by rewrite List.filter_app. Qed.

(** The candidates left after a revocation. *)
Lemma candidates_of_revoke s acc id acc' :
  candidates_of (revoke_app_password s acc id).2 acc' =
  if (acc =? acc')%Z then List.filter (fun c => negb (ap_id c =? id)%Z) (candidates_of s acc')
  else candidates_of s acc'.
Proof.
  unfold candidates_of, revoke_app_password. cbn [snd app_passwords].
  induction (app_passwords s) as [|c l IH]; cbn; [by destruct (_ =? _)%Z|].
  destruct (ap_id c =? id)%Z eqn:Ei, (ap_account c =? acc)%Z eqn:Ea,
    (ap_account c =? acc')%Z eqn:Ea', (acc =? acc')%Z eqn:Eaa; cbn;
    rewrite ?Ei, ?Ea, ?Ea'; cbn; rewrite ?Ei; cbn; rewrite ?IH; bool_facts; (done || lia).
Qed.

(** ** Properties *)

(** C27.  A provisioned account works: when [provision] succeeds, the new
    account is found by id and under its address with the domain in any
    letter case, the password it was given unlocks exactly the master key
    and private key drawn for it, every account that could be found before
    still is, the uniqueness invariant is kept, and a second account for the
    same mailbox (domain in any case) is refused without a change. *)
Theorem provision_then_unlock (rnd : ProvisionRand) (now : Z) (s s' : AuthStore)
    (l d pw : str) (cfg : Z * Z * Z) (a : Account) :
  auth_inv s -> rand_ok rnd -> provision rnd now s l d pw cfg = (Ok a, s') ->
  auth_inv s' /\
  unlock a pw cfg = Done (Ok (mkUnlocked (pr_amk rnd) (pr_priv rnd))) /\
  find_by_id s' (acc_id a) = Ok (Some a) /\
  (forall d', to_ascii_lowercase d' = to_ascii_lowercase d -> find_by_address s' l d' = Ok (Some a)) /\
  (forall l' d' b, find_by_address s l' d' = Ok (Some b) -> find_by_address s' l' d' = Ok (Some b)) /\
  (forall rnd' now' d' pw', to_ascii_lowercase d' = to_ascii_lowercase d ->
     exists e, provision rnd' now' s' l d' pw' cfg = (Err e, s')).
Proof.
  intros Hs Hr E. split; [|split; [by eapply unlock_provisioned|]].
  { pose proof (provision_inv rnd now s l d pw cfg Hs) as Hi. by rewrite E in Hi. }
  pose proof (provision_ok _ _ _ _ _ _ _ _ _ E) as (pk & _ & Hnew & Ha & Es).
  assert (Hid : acc_id a = next_rowid (row_id <$> accounts s)) by (by rewrite Ha).
  assert (Hk : forall d', to_ascii_lowercase d' = to_ascii_lowercase d ->
    has_address l (to_ascii_lowercase d') (mkAccountRow a None) = true)
    by (intros d' ->; apply has_address_spec; by rewrite Ha).
  rewrite Es. unfold find_by_id, find_by_address. cbn [accounts]. split_and!.
  - rewrite sql_find_app, sql_find_absent; [cbn; by rewrite Z.eqb_refl|].
    intros r Hrr. apply Z.eqb_neq. rewrite Hid. intros Eq.
    apply (next_rowid_fresh (row_id <$> accounts s)). rewrite <- Eq. by apply list_elem_of_fmap_2.
  - intros d' Hd'. rewrite sql_find_app, sql_find_absent; [cbn; by rewrite Hk|].
    intros r Hrr. destruct (has_address _ _ r) eqn:Eh; [|done].
    apply has_address_spec in Eh. rewrite Hd' in Eh. by destruct (Hnew r Hrr).
  - intros l' d' b. rewrite sql_find_app. by destruct (sql_find _ (accounts s)).
  - intros rnd' now' d' pw' Hd'. unfold provision. destruct (_ || _); [by eexists|].
    destruct (as_crypto_error _); [|by eexists]. cbn [accounts].
    assert (existsb (has_address l (to_ascii_lowercase d')) (accounts s ++ [mkAccountRow a None]) = true)
      as ->; [|by eexists].
    apply existsb_exists. exists (mkAccountRow a None). split; [|by apply Hk].
    apply in_or_app. right. by left.
Qed.

(** [unlock_any] never grants access without a matching credential:
    what it returns is either the primary password's unlock, with the full
    scope and no change to the store, or comes from an application password
    row of that very account whose wrap the credential's derived key opens,
    with the scope stored in that row; then only the row's [last_used_at]
    is updated. *)
Theorem unlock_any_sound (now : Z) (acc : Account) (cred : str) (cfg : Z * Z * Z) (s s' : AuthStore)
    (u : UnlockedAccount) (scope : AppPasswordScope) :
  unlock_any now acc cred cfg s = (Done (Ok (u, scope)), s') ->
  (unlock acc cred cfg = Done (Ok u) /\ scope = Full /\ s' = s) \/
  (exists c pk, c ∈ app_passwords s /\ ap_account c = acc_id acc /\
     derive_pk cred (ap_salt c) cfg = Ok pk /\
     unwrap_amk pk (ap_wrapped_amk c) = Done (Ok (amk u)) /\
     finish_unlock (amk u) (wrapped_account_priv acc) = Done (Ok u) /\
     scope = default Full (scope_parse (ap_scope c)) /\
     s' = touch_app_password now s (ap_id c)).
Proof.
  unfold unlock_any, mbind, St_bind, st_exec, st_get, st_put, mret, St_ret.
  destruct (unlock acc cred cfg) as [[u0|e]|] eqn:Eu; [|cbn|done].
  { intros [= <- <- <-]. by left. }
  destruct (try_candidates _ _ _ _) as [[[[id u1] sc]|e1]|] eqn:Et; [|done|done].
  intros [= <- <- <-]. right.
  apply try_candidates_ok in Et as (c & pk & Hc & <- & Hk & Hw & Hf & ->).
  apply elem_of_filter_list in Hc as [Hc Ha]. bool_facts. exists c, pk. split_and!; done.
Qed.

(** The life of an application password: the secret
    [create_app_password] returns unlocks the account with the scope chosen
    (as long as no other credential of the account accepts that secret), and
    once revoked by its owner it unlocks nothing; a revocation under another
    account's id leaves it working. *)
Theorem app_password_lifecycle (bytes salt nonce : str) (now : Z) (s s1 : AuthStore) (acc : Account)
    (u : UnlockedAccount) (label plain : str) (scope : AppPasswordScope) (cfg : Z * Z * Z)
    (sum : AppPasswordSummary) (e : Error) :
  auth_inv s -> length salt = SALT_LEN -> length nonce = NONCE_LEN -> length (amk u) = AMK_LEN ->
  finish_unlock (amk u) (wrapped_account_priv acc) = Done (Ok u) ->
  create_app_password bytes salt nonce now s (acc_id acc) (amk u) label scope cfg = (Ok (sum, plain), s1) ->
  unlock acc plain cfg = Done (Err e) ->
  Forall (row_rejects plain cfg) (candidates_of s (acc_id acc)) ->
  (forall t, (unlock_any t acc plain cfg s1).1 = Done (Ok (u, scope))) /\
  (forall t other, other <> acc_id acc ->
     (unlock_any t acc plain cfg (revoke_app_password s1 other (aps_id sum)).2).1 = Done (Ok (u, scope))) /\
  (forall t, exists e', (unlock_any t acc plain cfg (revoke_app_password s1 (acc_id acc) (aps_id sum)).2).1
     = Done (Err e')).
Proof.
  intros Hs Hsl Hn Ha Hf Hc Hu Hrej. unfold create_app_password, as_crypto_error in Hc.
  destruct (derive_pk (hex_encode bytes) salt cfg) as [pk|] eqn:Ek; [|done]. inv Hc. cbn [aps_id].
  set (row := mkAppPassword _ _ _ _ _ _ _ _).
  assert (Htry : try_candidates acc (hex_encode bytes) cfg [row] = Done (Ok (ap_id row, u, scope))).
  { cbn [try_candidates]. subst row. cbn [ap_salt ap_wrapped_amk ap_scope ap_id].
    rewrite Hsl, Nat.eqb_refl, Ek. cbn [negb as_crypto_error]. rewrite unwrap_wrap_amk by done.
    unfold mbind, exec_bind. by rewrite Hf, scope_round_trip. }
  assert (Hcand : candidates_of (mkAuthStore (accounts s) (app_passwords s ++ [row])) (acc_id acc)
                  = candidates_of s (acc_id acc) ++ [row])
    by (rewrite candidates_of_snoc; subst row; cbn; by rewrite Z.eqb_refl).
  assert (Hany : forall t st l, candidates_of st (acc_id acc) = candidates_of s (acc_id acc) ++ l ->
    (unlock_any t acc (hex_encode bytes) cfg st).1 =
      match try_candidates acc (hex_encode bytes) cfg l with
      | Done (Ok (_, u1, sc)) => Done (Ok (u1, sc)) | Done (Err e1) => Done (Err e1) | Panicked => Panicked end).
  { intros t st l Hl. unfold unlock_any, mbind, St_bind, st_exec, st_get, st_put, mret, St_ret. cbn.
    rewrite Hu, Hl, try_candidates_skip by done. by destruct (try_candidates _ _ _ l) as [[[[]]|]|]. }
  split_and!.
  - intros t. erewrite Hany by exact Hcand. by rewrite Htry.
  - intros t other Ho. erewrite Hany; [by rewrite Htry|].
    rewrite candidates_of_revoke, Hcand. by destruct (Z.eqb_spec other (acc_id acc)).
  - intros t. erewrite (Hany t _ []); [by eexists|].
    rewrite candidates_of_revoke, Hcand, Z.eqb_refl, List.filter_app. f_equal.
    + apply forallb_filter_id, forallb_forall. intros c Hcc%list_elem_of_In%elem_of_filter_list.
      destruct Hcc as [Hcc _]. apply negb_true_iff, Z.eqb_neq. intros Eq.
      apply (next_rowid_fresh (ap_id <$> app_passwords s)). rewrite <- Eq. by apply list_elem_of_fmap_2.
    + subst row. cbn. by rewrite Z.eqb_refl.
Qed.

(** Deleting an account leaks its leftovers to a successor: row ids
    are reused and [delete_account] removes the [accounts] row only, so
    after the account with the largest id is deleted, the next account
    provisioned -- whoever it is for -- gets that id and inherits the
    deleted account's application passwords. *)
Theorem deleted_account_inherited (rnd : ProvisionRand) (now : Z) (s s' : AuthStore) (old a : Account)
    (l d pw : str) (cfg : Z * Z * Z) :
  (forall r, r ∈ accounts s -> (row_id r < acc_id old)%Z) -> (0 < acc_id old)%Z ->
  (exists r, r ∈ accounts s /\ row_id r = (acc_id old - 1)%Z) \/ acc_id old = 1%Z ->
  let s0 := mkAuthStore (accounts s ++ [mkAccountRow old None]) (app_passwords s) in
  provision rnd now (delete_account s0 (acc_id old)).2 l d pw cfg = (Ok a, s') ->
  acc_id a = acc_id old /\ list_app_passwords s' (acc_id a) = list_app_passwords s0 (acc_id old).
Proof.
  intros Hlt Hpos Hprev s0 E. apply provision_ok in E as (pk & _ & _ & -> & ->).
  assert (Hacc : accounts (delete_account s0 (acc_id old)).2 = accounts s).
  { cbn [delete_account snd accounts s0]. rewrite List.filter_app. cbn. unfold row_id at 2. cbn.
    rewrite Z.eqb_refl. cbn. rewrite app_nil_r. apply forallb_filter_id, forallb_forall.
    intros r Hr%list_elem_of_In. apply Hlt in Hr. apply negb_true_iff, Z.eqb_neq. lia. }
  rewrite Hacc. cbn [acc_id].
  assert (Hnext : next_rowid (row_id <$> accounts s) = acc_id old).
  { apply next_rowid_unique.
    - intros i (r & -> & Hr)%list_elem_of_fmap. by apply Hlt.
    - destruct Hprev as [(r & Hr & Hi)|H1]; [left|by right]. rewrite <- Hi. by apply list_elem_of_fmap_2.
    - done. }
  rewrite Hnext. split; [done|]. reflexivity.
Qed.

(** *** Every change of the two tables *)
Definition after_unlock (s s' : AuthStore) : Prop :=
  s' = s \/ exists now account credential config, s' = (unlock_any now account credential config s).2.

Inductive auth_step (s : AuthStore) : AuthStore -> Prop :=
| auth_provision rnd now l d pw cfg : auth_step s (provision rnd now s l d pw cfg).2
| auth_delete id : auth_step s (delete_account s id).2
| auth_signature id x : auth_step s (set_signature_sealed s id x).2
| auth_create bytes salt nonce now id amk label scope cfg :
    auth_step s (create_app_password bytes salt nonce now s id amk label scope cfg).2
| auth_revoke account id : auth_step s (revoke_app_password s account id).2
| auth_unlock now account credential cfg : auth_step s (unlock_any now account credential cfg s).2.

Lemma unlock_any_inv now acc cred cfg s : auth_inv s -> auth_inv (unlock_any now acc cred cfg s).2.
Proof.
  intros Hs. unfold unlock_any, mbind, St_bind, st_exec, st_get, st_put, mret, St_ret.
  repeat case_match; simplify_eq/=; try done; by apply touch_inv.
Qed.

Lemma create_app_password_inv bytes salt nonce now s id amk label scope cfg :
  auth_inv s -> auth_inv (create_app_password bytes salt nonce now s id amk label scope cfg).2.
Proof.
  intros Hs. unfold create_app_password. destruct (as_crypto_error _); [|done]. destruct Hs as [K1 K2 K3]. split; cbn; try done.
  rewrite fmap_app. apply NoDup_snoc; [done|apply next_rowid_fresh].
Qed.

Lemma auth_step_inv s s' : auth_step s s' -> auth_inv s -> auth_inv s'.
Proof.
  destruct 1; [apply provision_inv|apply delete_account_inv|apply set_signature_inv|apply create_app_password_inv|apply revoke_inv|
    apply unlock_any_inv].
Qed.

End Facts.

#[export] Hint Resolve provision_inv delete_account_inv : litterae.

(** ** Witnesses *)
#[local] Existing Instance toy_primitives.
#[local] Existing Instance toy_laws.

Definition wit_rand : ProvisionRand :=
  mkProvisionRand (pad 16 (# "salt")) (pad 32 (# "amk")) (pad 24 []) (pad 32 (# "priv")) (pad 24 []).
Definition wit_cfg : Z * Z * Z := (65536, 3, 4)%Z.
Definition wit_provisioned : Result Account * AuthStore :=
  provision wit_rand 0 empty_auth (# "alice") (# "Example.com") (# "pw") wit_cfg.
Definition wit_account : Account :=
  match wit_provisioned.1 with Ok a => a | Err _ => mkAccount 0 [] [] 0 [] [] [] [] 0 end.
Definition wit_unlocked : UnlockedAccount := mkUnlocked (pr_amk wit_rand) (pr_priv wit_rand).
Definition wit_created : Result (AppPasswordSummary * str) * AuthStore :=
  create_app_password (# "secret") (pr_salt wit_rand) (pad 24 []) 5 wit_provisioned.2
    (acc_id wit_account) (amk wit_unlocked) (# "phone") Submission wit_cfg.
Definition wit_secret : str := hex_encode (# "secret").

Lemma provision_then_unlock_witness :
  auth_inv wit_provisioned.2 /\
  unlock wit_account (# "pw") wit_cfg = Done (Ok wit_unlocked).
Proof.
  assert (E : wit_provisioned = (Ok wit_account, wit_provisioned.2)) by reflexivity.
  destruct (provision_then_unlock wit_rand 0 empty_auth wit_provisioned.2 (# "alice")
              (# "Example.com") (# "pw") wit_cfg wit_account empty_auth_inv
              ltac:(repeat split; apply length_pad) E) as (H1 & H2 & _).
  split; [exact H1|exact H2].
Defined.

Lemma app_password_lifecycle_witness :
  (forall t, (unlock_any t wit_account wit_secret wit_cfg wit_created.2).1
             = Done (Ok (wit_unlocked, Submission))) /\
  (forall t other, other <> acc_id wit_account ->
     (unlock_any t wit_account wit_secret wit_cfg (revoke_app_password wit_created.2 other 1).2).1
     = Done (Ok (wit_unlocked, Submission))) /\
  (forall t, exists e, (unlock_any t wit_account wit_secret wit_cfg
       (revoke_app_password wit_created.2 (acc_id wit_account) 1).2).1 = Done (Err e)).
Proof.
  assert (Hc : wit_created = (Ok (mkSummary 1 (# "phone") Submission 5 None, wit_secret), wit_created.2))
    by (vm_compute; reflexivity).
  assert (Hu : unlock wit_account wit_secret wit_cfg = Done (Err (Crypto (crypto_error_display OpenFailed))))
    by (vm_compute; reflexivity).
  assert (Hf : finish_unlock (amk wit_unlocked) (wrapped_account_priv wit_account) = Done (Ok wit_unlocked))
    by (vm_compute; reflexivity).
  assert (Hi : auth_inv wit_provisioned.2) by apply (provision_inv _ _ _ _ _ _ _ empty_auth_inv).
  exact (app_password_lifecycle (# "secret") (pr_salt wit_rand) (pad 24 []) 5 wit_provisioned.2
    wit_created.2 wit_account wit_unlocked (# "phone") wit_secret Submission wit_cfg _ _
    Hi eq_refl eq_refl eq_refl Hf Hc Hu (List.Forall_nil _)).
Defined.

Lemma unlock_any_sound_witness :
  (unlock wit_account wit_secret wit_cfg = Done (Ok wit_unlocked) /\ Submission = Full /\
     touch_app_password 9 wit_created.2 1 = wit_created.2) \/
  (exists c pk, c ∈ app_passwords wit_created.2 /\ ap_account c = acc_id wit_account /\
     derive_pk wit_secret (ap_salt c) wit_cfg = Ok pk /\
     unwrap_amk pk (ap_wrapped_amk c) = Done (Ok (amk wit_unlocked)) /\
     finish_unlock (amk wit_unlocked) (wrapped_account_priv wit_account) = Done (Ok wit_unlocked) /\
     Submission = default Full (scope_parse (ap_scope c)) /\
     touch_app_password 9 wit_created.2 1 = touch_app_password 9 wit_created.2 (ap_id c)).
Proof. apply unlock_any_sound. vm_compute. reflexivity. Defined.

Lemma deleted_account_inherited_witness :
  let old := mkAccount 1 (# "old") (# "example.com") 1 [] [] [] [] 0 in
  let s0 := mkAuthStore [mkAccountRow old None]
              [mkAppPassword 1 1 (# "old phone") (# "full") [] [] 0 None] in
  let r := provision wit_rand 0 (delete_account s0 1).2 (# "new") (# "example.org") (# "pw") wit_cfg in
  exists a, r.1 = Ok a /\ acc_id a = 1%Z /\ list_app_passwords r.2 (acc_id a) = list_app_passwords s0 1.
Proof.
  set (s := mkAuthStore [] [mkAppPassword 1 1 (# "old phone") (# "full") [] [] 0 None]).
  intros old s0 r. eexists. split; [vm_compute; reflexivity|].
  apply (deleted_account_inherited wit_rand 0 s r.2 old _ (# "new") (# "example.org") (# "pw") wit_cfg).
  - by intros ? ?%elem_of_nil.
  - vm_compute. reflexivity.
  - by right.
  - vm_compute. reflexivity.
Defined.
