(* ===== verification/DnsRecords.v ===== *)
(** * DnsRecords: the records litterae prints, [dns]

    src/crates/dns/src/mta_sts.rs (the MTA-STS policy, its identifier and TXT
    record) and tls_rpt.rs (the TLS-RPT record).  SHA-256 is a parameter. *)

From stdpp Require Import base list strings gmap sorting.
From Stdlib Require Import Ascii ZArith Lia.
From S2P Require Import Prelude RustStr Header Sealing Auth.

(** [sha2]'s SHA-256: 32 bytes for every input. *)
Class Sha256 : Type := {
  sha256_digest : str -> str;
  sha256_length s : length (sha256_digest s) = 32%nat
}.

Definition quote : str := [ascii_of_N 34].

(** ** MTA-STS, mta_sts.rs *)
Record MtaStsPolicy : Type := mkPolicy { mode : str; mx : str; max_age : Z (* u32 *) }.

Definition policy_file_body (p : MtaStsPolicy) : str :=
  # "version: STSv1" ++ [LF] ++ # "mode: " ++ mode p ++ [LF] ++ # "mx: " ++ mx p ++ [LF]
  ++ # "max_age: " ++ dec (max_age p) ++ [LF].

Definition policy_id `{Sha256} (p : MtaStsPolicy) : str := hex_encode (take 16 (sha256_digest (policy_file_body p))).

Definition sts_txt_record `{Sha256} (p : MtaStsPolicy) (domain : str) : str :=
  # "_mta-sts." ++ domain ++ # "  IN TXT  " ++ quote ++ # "v=STSv1; id=" ++ policy_id p ++ quote.

(** ** TLS-RPT, tls_rpt.rs *)
Definition rpt_txt_record (domain rua_local_part : str) : str :=
  # "_smtp._tls." ++ domain ++ # "  IN TXT  " ++ quote ++ # "v=TLSRPTv1; rua=mailto:" ++ rua_local_part ++ # "@" ++ domain ++ quote.

(** ** What a sender reads back (RFC 8461, section 3.2)

    A policy file is a list of [key: value] lines, the version first. *)
Definition sts_line (l : str) : option (str * str) :=
  kv ← split_once ":"%char l; v ← strip_prefix (# " ") kv.2; Some (kv.1, v).

Definition sts_get (k : str) (fields : list (str * str)) : option str :=
  snd <$> find (fun kv => str_eqb kv.1 k) fields.

Definition read_policy (body : str) : option MtaStsPolicy :=
  let fields := omap sts_line (split_on LF body) in
  match fields with
  | (k, v) :: _ =>
      if str_eqb k (# "version") && str_eqb v (# "STSv1") then
        m ← sts_get (# "mode") fields;
        x ← sts_get (# "mx") fields;
        a ← sts_get (# "max_age") fields;
        n ← parse_i64 a;
        Some (mkPolicy m x n)
      else None
  | [] => None
  end.

(** ** Lemmas *)
Lemma hex_char_inj n m : (n < 16)%N -> (m < 16)%N -> hex_char n = hex_char m -> n = m.
Proof.
  intros Hn Hm E. rewrite <- (N2Nat.id n), <- (N2Nat.id m) in E |- *. f_equal.
  assert (Ht : forallb (fun i => forallb (fun j => implb (bool_decide (hex_char (N.of_nat i) = hex_char (N.of_nat j)))
    (i =? j)%nat) (List.seq 0 16)) (List.seq 0 16) = true) by (vm_compute; reflexivity).
  rewrite forallb_forall in Ht. specialize (Ht (N.to_nat n) ltac:(apply in_seq; lia)).
  rewrite forallb_forall in Ht. specialize (Ht (N.to_nat m) ltac:(apply in_seq; lia)).
  rewrite bool_decide_eq_true_2 in Ht by done. cbn [implb] in Ht. by apply Nat.eqb_eq.
Qed.

Lemma bval_inj (a b : byte) : bval a = bval b -> a = b.
Proof. unfold bval. intros E. rewrite <- (ascii_N_embedding a), <- (ascii_N_embedding b). by rewrite E. Qed.

Lemma hex_encode_inj s t : hex_encode s = hex_encode t -> s = t.
Proof.
  revert t. induction s as [|a s IH]; intros [|b t]; try done. unfold hex_encode. cbn [fmap list_fmap mjoin list_join app].
  intros [= E1 E2 E3]. f_equal; [|by apply IH].
  pose proof (N_ascii_bounded a) as Ha. pose proof (N_ascii_bounded b) as Hb.
  apply hex_char_inj in E1; [|unfold bval; apply N.Div0.div_lt_upper_bound; lia..].
  apply hex_char_inj in E2; [|apply N.mod_lt; lia..].
  apply bval_inj. rewrite (N.div_mod (bval a) 16), (N.div_mod (bval b) 16) by lia. by rewrite E1, E2.
Qed.

Lemma hex_encode_length s : length (hex_encode s) = (2 * length s)%nat.
Proof.
  induction s as [|a s IH]; [done|]. change (hex_encode (a :: s)) with (hex_char (bval a / 16) :: hex_char (bval a mod 16) :: hex_encode s).
  cbn [length]. rewrite IH. lia.
Qed.

Lemma split_on_lf_app l rest : LF ∉ l -> split_on LF (l ++ LF :: rest) = l :: split_on LF rest.
Proof.
  induction l as [|c l IH]; intros Hl; cbn [app split_on].
  - by rewrite bool_decide_eq_true_2.
  - rewrite bool_decide_eq_false_2 by set_solver. rewrite IH by set_solver. done.
Qed.

Lemma sts_line_field k v : ":"%char ∉ k -> sts_line (k ++ # ": " ++ v) = Some (k, v).
Proof.
  intros Hk. unfold sts_line.
  assert (E : split_once ":"%char (k ++ # ": " ++ v) = Some (k, # " " ++ v)).
  { apply split_once_some. split; [|done]. by cbn. }
  rewrite E. cbn [mbind option_bind fst snd].
  by rewrite (proj2 (strip_prefix_some (# " ") (# " " ++ v) v) eq_refl).
Qed.

(** A policy a sender can read: no line breaks inside its values. *)
Definition policy_ok (p : MtaStsPolicy) : Prop := LF ∉ mode p /\ LF ∉ mx p /\ (0 <= max_age p < 2 ^ 32)%Z.

(** A byte that a literal does not hold. *)
Ltac not_in_lit := match goal with |- ?x ∉ ?l => apply (bool_decide_eq_false_1 (x ∈ l)); vm_compute; reflexivity end.

Lemma no_lf_app (k v : str) : LF ∉ k -> LF ∉ v -> LF ∉ k ++ v.
Proof. rewrite elem_of_app. tauto. Qed.

Lemma policy_lines p : policy_file_body p =
  # "version: STSv1" ++ LF :: (# "mode" ++ # ": " ++ mode p) ++ LF :: (# "mx" ++ # ": " ++ mx p) ++ LF ::
  (# "max_age" ++ # ": " ++ dec (max_age p)) ++ LF :: [].
Proof. unfold policy_file_body. rewrite <- !(assoc_L (++)). reflexivity. Qed.

(** ** Theorems *)

(** A published policy reads back: whatever mode and host the configuration
    names (without a line break in either), the file printed for it is a
    version-1 policy with exactly that mode, that host and that age. *)
Theorem policy_file_round_trip (p : MtaStsPolicy) : policy_ok p -> read_policy (policy_file_body p) = Some p.
Proof.
  intros (Hm & Hx & Ha). unfold read_policy. rewrite policy_lines.
  assert (Hd : LF ∉ dec (max_age p)) by by apply dec_no_char.
  rewrite (split_on_lf_app (# "version: STSv1")) by not_in_lit.
  rewrite (split_on_lf_app (# "mode" ++ _)) by (repeat apply no_lf_app; first [done|not_in_lit]).
  rewrite (split_on_lf_app (# "mx" ++ _)) by (repeat apply no_lf_app; first [done|not_in_lit]).
  rewrite (split_on_lf_app (# "max_age" ++ _)) by (repeat apply no_lf_app; first [done|not_in_lit]).
  change (split_on LF []) with ([[]] : list str). cbn [omap list_omap].
  change (sts_line (# "version: STSv1")) with (Some (# "version", # "STSv1")).
  rewrite !sts_line_field by not_in_lit. change (sts_line []) with (@None (str * str)). cbv iota.
  set (fields := [_; _; _; _]). change (_ && _) with true. cbv iota.
  change (sts_get (# "mode") fields) with (Some (mode p)).
  change (sts_get (# "mx") fields) with (Some (mx p)).
  change (sts_get (# "max_age") fields) with (Some (dec (max_age p))). cbn [mbind option_bind].
  rewrite parse_i64_dec by (unfold i64_min, i64_max; lia). by destruct p.
Qed.

Lemma policy_file_round_trip_witness :
  read_policy (policy_file_body (mkPolicy (# "testing") (# "mail.example.com") 604800))
  = Some (mkPolicy (# "testing") (# "mail.example.com") 604800).
Proof. apply policy_file_round_trip. split_and!; [not_in_lit|not_in_lit|cbn; lia|cbn; lia]. Defined.

Section Identifier.
Context `{Sha256}.

(** The identifier fits the 32 characters of the RFC, depends on the content
    alone and changes with it: two different policies have one identifier
    only where the first 16 bytes of their files' digests collide. *)
Theorem policy_id_tracks_content (p q : MtaStsPolicy) :
  policy_ok p -> policy_ok q ->
  length (policy_id p) = 32%nat /\
  (policy_id p = policy_id q -> p = q \/
     policy_file_body p <> policy_file_body q /\
     take 16 (sha256_digest (policy_file_body p)) = take 16 (sha256_digest (policy_file_body q))).
Proof.
  intros Hp Hq. split.
  - unfold policy_id. rewrite hex_encode_length, length_take, sha256_length. done.
  - intros E%hex_encode_inj. destruct (decide (policy_file_body p = policy_file_body q)) as [Eb|Hne]; [left|by right].
    apply policy_file_round_trip in Hp, Hq. rewrite Eb in Hp. congruence.
Qed.

End Identifier.

(** A digest for the witnesses. *)
#[local] Instance toy_sha256 : Sha256 := {|
  sha256_digest := fun s => pad 32 (reverse s);
  sha256_length := fun s => length_pad 32 (reverse s)
|}.

Lemma policy_id_tracks_content_witness :
  length (policy_id (mkPolicy (# "testing") (# "mail.example.com") 604800)) = 32%nat.
Proof.
  refine (proj1 (policy_id_tracks_content (mkPolicy (# "testing") (# "mail.example.com") 604800)
    (mkPolicy (# "enforce") (# "mail.example.com") 604800) _ _)); (split_and!; [not_in_lit|not_in_lit|cbn; lia|cbn; lia]).
Defined.
