(* ===== verification/AdminStore.v ===== *)
(** * AdminStore: administrators and hosted domains, [admin]

    The tables of src/crates/admin/src/store.rs (rows of types.rs): the admin
    login, its TOTP enrolment and recovery codes, and the domains the server
    hosts.  The two SQL tables are lists of rows; randomness and the clock
    are arguments; serde_json's coding of a list of strings is a parameter. *)

From stdpp Require Import base list strings gmap sorting.
From Stdlib Require Import Ascii ZArith Lia.
From S2P Require Import Prelude RustStr Input Header Sealing Auth.

(** ** Rows, types.rs *)
Record Admin : Type := mkAdmin {
  ad_id : Z;
  ad_username : str;
  ad_must_change_password : bool;
  ad_created_at : Z;
  ad_totp_enabled : bool
}.

Record Domain : Type := mkDomain {
  dom_id : Z;
  dom_name : str;
  catch_all_local_part : option str;
  verification_token : str;
  verified_at : option Z;
  dom_created_at : Z
}.

(** The columns; flags are the integers SQLite stores. *)
Record AdminRow : Type := mkAdminRow {
  adm_id : Z;
  adm_username : str;
  adm_salt : str;
  derived_key : str;
  must_change : Z;
  adm_created_at : Z;
  totp_wrapped_secret : option str;
  totp_key_id : option Z;
  totp_enabled : Z;
  totp_recovery_codes : option str
}.

Record DomainRow : Type := mkDomainRow {
  dr_id : Z;
  dr_name : str;
  dr_catch_all : option str;
  dr_token : option str;
  dr_verified_at : option Z;
  dr_created_at : Z
}.

Record AdminStore : Type := mkAdminStore { admins : list AdminRow; domains : list DomainRow }.

Definition empty_admin : AdminStore := mkAdminStore [] [].

Definition no_rows : Error := Storage (# "Query returned no rows").

(** serde_json on [Vec<String>]. *)
Class StringListJson : Type := {
  strings_to_json : list str -> str;
  strings_from_json : str -> option (list str);
  strings_json_round_trip l : strings_from_json (strings_to_json l) = Some l
}.

(** ** Lookups *)
Definition by_id (id : Z) (r : AdminRow) : bool := (adm_id r =? id)%Z.

Definition find_admin (s : AdminStore) (id : Z) : option AdminRow := sql_find (by_id id) (admins s).

(** [UPDATE admins SET .. WHERE id = ?]. *)
Definition update_admin (id : Z) (f : AdminRow -> AdminRow) (s : AdminStore) : AdminStore :=
  mkAdminStore (sql_update (by_id id) f (admins s)) (domains s).

Definition has_admin (s : AdminStore) : Result bool := Ok (0 <? Z.of_nat (length (admins s)))%Z.

Definition username_for_id (s : AdminStore) (id : Z) : Result (option str) :=
  Ok (adm_username <$> find_admin s id).

(** [query_row] without [optional]: no row is an error. *)
Definition is_totp_enabled (s : AdminStore) (id : Z) : Result bool :=
  match find_admin s id with
  | None => Err no_rows
  | Some r => Ok (negb (totp_enabled r =? 0)%Z)
  end.

Definition recovery_codes `{StringListJson} (s : AdminStore) (id : Z) : Result (list str) :=
  match find_admin s id with
  | None => Err no_rows
  | Some r => Ok (default [] (totp_recovery_codes r ≫= strings_from_json))
  end.

(** ** Passwords *)
Section Passwords.
Context `{Primitives}.

Definition username_taken : Error := Storage (# "UNIQUE constraint failed: admins.username").

Definition bootstrap (salt : str) (now : Z) (s : AdminStore) (username password : str) (config : Z * Z * Z)
    : Result (option str) * AdminStore :=
  match has_admin s with
  | Err e => (Err e, s)
  | Ok true => (Ok None, s)
  | Ok false =>
      match as_crypto_error (derive_pk password salt config) with
      | Err e => (Err e, s)
      | Ok pk =>
          if existsb (fun r => str_eqb (adm_username r) username) (admins s) then (Err username_taken, s)
          else
            let row := mkAdminRow (next_rowid (adm_id <$> admins s)) username salt pk 1 now None None 0 None in
            (Ok (Some pk), mkAdminStore (admins s ++ [row]) (domains s))
      end
  end.

Definition verify_login (s : AdminStore) (username password : str) (config : Z * Z * Z)
    : Result (option (Admin * str)) :=
  match sql_find (fun r => str_eqb (adm_username r) username) (admins s) with
  | None => Ok None
  | Some r =>
      if negb (length (adm_salt r) =? SALT_LEN)%nat then Ok None
      else
        pk ← as_crypto_error (derive_pk password (adm_salt r) config);
        if negb (str_eqb pk (derived_key r)) then Ok None
        else Ok (Some (mkAdmin (adm_id r) username (negb (must_change r =? 0)%Z) (adm_created_at r)
                         (negb (totp_enabled r =? 0)%Z), pk))
  end.

Definition change_password (salt : str) (s : AdminStore) (id : Z) (new_password : str) (config : Z * Z * Z)
    : Result str * AdminStore :=
  match as_crypto_error (derive_pk new_password salt config) with
  | Err e => (Err e, s)
  | Ok pk =>
      (Ok pk, update_admin id (fun r =>
         mkAdminRow (adm_id r) (adm_username r) salt pk 0 (adm_created_at r) (totp_wrapped_secret r)
           (totp_key_id r) (totp_enabled r) (totp_recovery_codes r)) s)
  end.

(** ** TOTP *)
Definition with_totp (wrapped : option str) (key_id : option Z) (enabled : Z) (codes : option str) (r : AdminRow)
    : AdminRow :=
  mkAdminRow (adm_id r) (adm_username r) (adm_salt r) (derived_key r) (must_change r) (adm_created_at r)
    wrapped key_id enabled codes.

Definition set_pending_totp (nonce : str) (s : AdminStore) (id : Z) (wrap_key secret : str) : Result unit * AdminStore :=
  (Ok tt, update_admin id (with_totp (Some (committing_seal nonce wrap_key 1 secret)) (Some 1%Z) 0 None) s).

Definition totp_secret (s : AdminStore) (id : Z) (wrap_key : str) : Result (option str) :=
  match find_admin s id with
  | None => Err no_rows
  | Some r =>
      match totp_wrapped_secret r with
      | None => Ok None
      | Some wrapped => secret ← as_crypto_error (committing_open wrap_key wrapped); Ok (Some secret)
      end
  end.

Definition confirm_totp `{StringListJson} (s : AdminStore) (id : Z) (hashed : list str) : Result unit * AdminStore :=
  (Ok tt, update_admin id (fun r =>
     with_totp (totp_wrapped_secret r) (totp_key_id r) 1 (Some (strings_to_json hashed)) r) s).

Definition disable_totp (s : AdminStore) (id : Z) : Result unit * AdminStore :=
  (Ok tt, update_admin id (with_totp None None 0 None) s).

Definition set_recovery_codes `{StringListJson} (s : AdminStore) (id : Z) (codes : list str)
    : Result unit * AdminStore :=
  (Ok tt, update_admin id (fun r =>
     with_totp (totp_wrapped_secret r) (totp_key_id r) (totp_enabled r) (Some (strings_to_json codes)) r) s).

(** [new_key_id as u16] truncates. *)
Definition rewrap_totp_secret (nonce : str) (s : AdminStore) (id : Z) (old_wrap_key new_wrap_key : str)
    : Result unit * AdminStore :=
  match find_admin s id with
  | None => (Err no_rows, s)
  | Some r =>
      match totp_wrapped_secret r, totp_key_id r with
      | Some wrapped, Some key_id =>
          match as_crypto_error (committing_open old_wrap_key wrapped) with
          | Err e => (Err e, s)
          | Ok secret =>
              let new_key_id := (key_id + 1)%Z in
              (Ok tt, update_admin id (fun r =>
                 with_totp (Some (committing_seal nonce new_wrap_key (Z.to_N (new_key_id mod 65536)) secret))
                   (Some new_key_id) (totp_enabled r) (totp_recovery_codes r) r) s)
          end
      | _, _ => (Ok tt, s)
      end
  end.

End Passwords.

(** ** Domains *)

(** [row.get(3)?] of a NULL token into a [String] is an error. *)
Definition row_to_domain (r : DomainRow) : Result Domain :=
  match dr_token r with
  | None => Err (Storage (# "Invalid column type Null at index: 3, name: verification_token"))
  | Some token => Ok (mkDomain (dr_id r) (dr_name r) (dr_catch_all r) token (dr_verified_at r) (dr_created_at r))
  end.

(** [.optional()]: no row is [None]. *)
Definition optional_domain (r : option DomainRow) : Result (option Domain) :=
  match r with None => Ok None | Some r => d ← row_to_domain r; Ok (Some d) end.

Definition domain_name_le (a b : DomainRow) : Prop := str_leb (dr_name a) (dr_name b) = true.
#[global] Instance domain_name_le_dec a b : Decision (domain_name_le a b).
Proof. unfold domain_name_le. apply _. Defined.

(** Rows in order, the first bad one an error. *)
Fixpoint collect_domains (l : list DomainRow) : Result (list Domain) :=
  match l with
  | [] => Ok []
  | r :: l => d ← row_to_domain r; ds ← collect_domains l; Ok (d :: ds)
  end.

Definition list_domains (s : AdminStore) : Result (list Domain) :=
  collect_domains (merge_sort domain_name_le (domains s)).

Definition get_domain (s : AdminStore) (id : Z) : Result (option Domain) :=
  optional_domain (sql_find (fun d => dr_id d =? id)%Z (domains s)).

Definition get_domain_by_name (s : AdminStore) (name : str) : Result (option Domain) :=
  optional_domain (sql_find (fun d => str_eqb (dr_name d) (to_ascii_lowercase name)) (domains s)).

Definition generate_verification_token (bytes : str) : str := hex_encode bytes.

Definition create_domain (token_bytes : str) (now : Z) (s : AdminStore) (name : str) (catch_all : option str)
    : Result Domain * AdminStore :=
  if negb (valid_domain_name name) then (Err (Config (# "invalid domain name")), s)
  else
    let name := to_ascii_lowercase name in
    let token := generate_verification_token token_bytes in
    if existsb (fun d => str_eqb (dr_name d) name) (domains s)
    then (Err (Storage (# "UNIQUE constraint failed: domains.name")), s)
    else
      let id := next_rowid (dr_id <$> domains s) in
      (Ok (mkDomain id name catch_all token None now),
       mkAdminStore (admins s) (domains s ++ [mkDomainRow id name catch_all (Some token) None now])).

Definition update_domain_row (id : Z) (f : DomainRow -> DomainRow) (s : AdminStore) : AdminStore :=
  mkAdminStore (admins s) (sql_update (fun d => dr_id d =? id)%Z f (domains s)).

Definition set_catch_all (s : AdminStore) (id : Z) (catch_all : option str) : Result unit * AdminStore :=
  (Ok tt, update_domain_row id (fun d =>
     mkDomainRow (dr_id d) (dr_name d) catch_all (dr_token d) (dr_verified_at d) (dr_created_at d)) s).

Definition mark_domain_verified (s : AdminStore) (id : Z) (at_ : Z) : Result unit * AdminStore :=
  (Ok tt, update_domain_row id (fun d =>
     mkDomainRow (dr_id d) (dr_name d) (dr_catch_all d) (dr_token d) (Some at_) (dr_created_at d)) s).

Definition delete_domain (s : AdminStore) (id : Z) : Result unit * AdminStore :=
  (Ok tt, mkAdminStore (admins s) (List.filter (fun d => negb (dr_id d =? id)%Z) (domains s))).

(** [migrate_domains_columns] on a table whose columns exist: every NULL
    token is replaced, row by row ([tokens] are the draws). *)
Fixpoint backfill_tokens (tokens : nat -> str) (n : nat) (ids : list Z) (s : AdminStore) : AdminStore :=
  match ids with
  | [] => s
  | id :: ids =>
      backfill_tokens tokens (S n) ids (update_domain_row id (fun d =>
        mkDomainRow (dr_id d) (dr_name d) (dr_catch_all d) (Some (generate_verification_token (tokens n)))
          (dr_verified_at d) (dr_created_at d)) s)
  end.

Definition migrate_domains_columns (tokens : nat -> str) (s : AdminStore) : AdminStore :=
  backfill_tokens tokens 0
    (dr_id <$> List.filter (fun d => bool_decide (dr_token d = None)) (domains s)) s.

(** It replaces nothing where there is nothing to replace, and no administrator. *)
Lemma none_without_token l : Forall (fun d => is_Some (dr_token d)) l -> List.filter (fun d => bool_decide (dr_token d = None)) l = [].
Proof. induction 1 as [|d l [t Ht] _ IH]; [done|]. cbn [List.filter]. by rewrite Ht. Qed.

Lemma migrate_idle tokens s : Forall (fun d => is_Some (dr_token d)) (domains s) -> migrate_domains_columns tokens s = s.
Proof.
  intros Hs. unfold migrate_domains_columns. by rewrite none_without_token.
Qed.

Lemma backfill_admins tokens ids : forall n s, admins (backfill_tokens tokens n ids s) = admins s.
Proof. induction ids as [|i ids IH]; intros n s; [done|]. cbn [backfill_tokens]. by rewrite IH. Qed.

Lemma migrate_admins tokens s : admins (migrate_domains_columns tokens s) = admins s.
Proof. apply backfill_admins. Qed.

(** Every token is there once the table has been opened. *)
Lemma backfill_tokens_all tokens ids : forall n s,
  (forall d, d ∈ domains s -> is_Some (dr_token d) \/ dr_id d ∈ ids) ->
  Forall (fun d => is_Some (dr_token d)) (domains (backfill_tokens tokens n ids s)).
Proof.
  induction ids as [|i ids IH]; intros n s Hs; cbn [backfill_tokens].
  - apply Forall_forall. intros d Hd. destruct (Hs d Hd) as [?|Hi]; [done|]. by apply elem_of_nil in Hi.
  - apply IH. cbn [update_domain_row domains]. intros d' (d & Hd & ->)%elem_of_sql_update.
    destruct (dr_id d =? i)%Z eqn:E; [by left; eexists|]. destruct (Hs d Hd) as [?|[Hi|Hi]%elem_of_cons]; [by left| |by right].
    apply Z.eqb_neq in E. done.
Qed.

Lemma migrate_tokens tokens s : Forall (fun d => is_Some (dr_token d)) (domains (migrate_domains_columns tokens s)).
Proof.
  apply backfill_tokens_all. intros d Hd. destruct (dr_token d) eqn:E; [by left; eexists|right].
  apply list_elem_of_fmap. exists d. split; [done|]. apply elem_of_filter_list. by rewrite E, bool_decide_eq_true_2.
Qed.

(** ** The database invariant *)

(** What holds of a stored admin: TOTP is only on with a secret to check. *)
Definition admin_row_ok (r : AdminRow) : Prop :=
  (totp_wrapped_secret r = None <-> totp_key_id r = None) /\
  (totp_enabled r <> 0%Z -> is_Some (totp_wrapped_secret r) /\ is_Some (totp_recovery_codes r)).

Section DatabaseInvariant.

(** What is known of a catch-all: the handlers check it, the command line
    does not. *)
Context (catch_all : str -> Prop).

Definition catch_all_ok (ca : option str) : Prop := match ca with Some v => catch_all v | None => True end.

Definition domain_row_ok (d : DomainRow) : Prop :=
  is_Some (dr_token d) /\ to_ascii_lowercase (dr_name d) = dr_name d /\ catch_all_ok (dr_catch_all d).

Record admin_inv_with (s : AdminStore) : Prop := {
  av_ids : NoDup (adm_id <$> admins s);
  av_usernames : NoDup (adm_username <$> admins s);
  av_domain_ids : NoDup (dr_id <$> domains s);
  av_domain_names : NoDup (dr_name <$> domains s);
  av_admins : Forall admin_row_ok (admins s);
  av_domains : Forall domain_row_ok (domains s)
}.

Lemma empty_admin_inv : admin_inv_with empty_admin.
Proof. split; cbn; first [apply NoDup_nil_2|constructor]. Qed.

(** An update of one admin that keeps its identity. *)
Lemma find_update id id' f s :
  (forall r, adm_id (f r) = adm_id r) ->
  find_admin (update_admin id f s) id' = (if (id' =? id)%Z then f else fun r => r) <$> find_admin s id'.
Proof. intros Hf. apply (sql_find_update adm_id); done. Qed.

Lemma find_update_same id f s r :
  (forall r, adm_id (f r) = adm_id r) -> find_admin s id = Some r ->
  find_admin (update_admin id f s) id = Some (f r).
Proof. intros Hf E. by rewrite find_update, E, Z.eqb_refl. Qed.

Lemma find_admin_in s id r : find_admin s id = Some r -> r ∈ admins s /\ adm_id r = id.
Proof. intros [Hin Hid]%sql_find_some. unfold by_id in Hid. bool_facts. done. Qed.

Lemma Forall_sql_update {A} (P : A -> Prop) (p : A -> bool) (f : A -> A) (t : list A) :
  Forall P t -> (forall x, x ∈ t -> p x = true -> P x -> P (f x)) -> Forall P (sql_update p f t).
Proof.
  rewrite !Forall_forall. intros Ht Hf y (x & Hx & ->)%elem_of_sql_update.
  destruct (p x) eqn:E; [by apply Hf, Ht|by apply Ht].
Qed.

Lemma update_admin_inv id f s :
  (forall r, adm_id (f r) = adm_id r) -> (forall r, adm_username (f r) = adm_username r) ->
  (forall r, find_admin s id = Some r -> admin_row_ok r -> admin_row_ok (f r)) ->
  admin_inv_with s -> admin_inv_with (update_admin id f s).
Proof.
  intros Hid Hname Hok [H1 H2 H3 H4 H5 H6]. split; cbn; try done.
  - by rewrite sql_update_key.
  - by rewrite sql_update_key.
  - apply Forall_sql_update; [done|]. intros r Hr Hp. unfold by_id in Hp. bool_facts. apply Hok.
    rewrite <- Hp. by apply (sql_find_key adm_id).
Qed.

Lemma update_domain_inv id f s :
  (forall d, dr_id (f d) = dr_id d) -> (forall d, dr_name (f d) = dr_name d) ->
  (forall d, domain_row_ok d -> domain_row_ok (f d)) ->
  admin_inv_with s -> admin_inv_with (update_domain_row id f s).
Proof.
  intros Hid Hname Hok [H1 H2 H3 H4 H5 H6]. split; cbn; try done.
  - by rewrite sql_update_key.
  - by rewrite sql_update_key.
  - apply Forall_sql_update; [done|]. intros d _ _. apply Hok.
Qed.

(** *** Every operation keeps the invariant *)
Lemma to_ascii_lowercase_idem s : to_ascii_lowercase (to_ascii_lowercase s) = to_ascii_lowercase s.
Proof.
  unfold to_ascii_lowercase. rewrite <- list_fmap_compose. apply list_fmap_ext. intros i c _. cbn.
  by destruct c as [[] [] [] [] [] [] [] []].
Qed.

Section Invariant.
Context `{Primitives} `{StringListJson}.

Lemma bootstrap_inv salt now s u pw cfg : admin_inv_with s -> admin_inv_with (bootstrap salt now s u pw cfg).2.
Proof.
  intros Hs. unfold bootstrap. destruct (has_admin s) as [[]|]; try done. destruct (as_crypto_error _); [|done].
  destruct (existsb _ _) eqn:Ee; [done|]. destruct Hs as [H1 H2 H3 H4 H5 H6].
  split; cbn; try done; rewrite ?fmap_app.
  - apply NoDup_snoc; [done|apply next_rowid_fresh].
  - apply NoDup_snoc; [done|]. intros (r & Er & Hr)%list_elem_of_fmap. cbn in Er.
    pose proof (existsb_false _ _ r Ee Hr) as Hf. cbn in Hf. bool_facts. congruence.
  - apply Forall_app. split; [done|]. apply Forall_singleton. split; cbn; [done|lia].
Qed.

Lemma change_password_inv salt s id pw cfg : admin_inv_with s -> admin_inv_with (change_password salt s id pw cfg).2.
Proof. intros Hs. unfold change_password. destruct (as_crypto_error _); [|done]. by apply update_admin_inv. Qed.

Lemma set_pending_totp_inv nonce s id k secret : admin_inv_with s -> admin_inv_with (set_pending_totp nonce s id k secret).2.
Proof. apply update_admin_inv; [done..|]. intros r _ _. split; cbn; [done|lia]. Qed.

Lemma confirm_totp_inv s id hashed r :
  find_admin s id = Some r -> is_Some (totp_wrapped_secret r) ->
  admin_inv_with s -> admin_inv_with (confirm_totp s id hashed).2.
Proof.
  intros Hr Hw. apply update_admin_inv; [done..|]. intros r' Hr' [H1 H2]. simplify_eq. split; cbn; [done|]. eauto.
Qed.

Lemma disable_totp_inv s id : admin_inv_with s -> admin_inv_with (disable_totp s id).2.
Proof. apply update_admin_inv; [done..|]. intros r _ _. split; cbn; [done|lia]. Qed.

Lemma set_recovery_codes_inv s id codes : admin_inv_with s -> admin_inv_with (set_recovery_codes s id codes).2.
Proof.
  apply update_admin_inv; [done..|]. intros r _ [H1 H2]. split; cbn; [done|]. intros He.
  destruct (H2 He) as [Hw _]. by split; [|eexists].
Qed.

Lemma rewrap_totp_secret_inv nonce s id k k' : admin_inv_with s -> admin_inv_with (rewrap_totp_secret nonce s id k k').2.
Proof.
  intros Hs. unfold rewrap_totp_secret. destruct (find_admin s id) as [r|]; [|done].
  destruct (totp_wrapped_secret r); [|done]. destruct (totp_key_id r); [|done].
  destruct (as_crypto_error _); [|done]. apply update_admin_inv; [done..| |done].
  intros r' _ [H1 H2]. split; cbn; [done|]. intros He. destruct (H2 He) as [_ Hc]. by split; [eexists|].
Qed.

Lemma create_domain_inv bytes now s name ca :
  catch_all_ok ca ->
  admin_inv_with s -> admin_inv_with (create_domain bytes now s name ca).2.
Proof.
  intros Hca Hs. unfold create_domain. destruct (negb _); [done|]. destruct (existsb _ _) eqn:Ee; [done|].
  destruct Hs as [H1 H2 H3 H4 H5 H6]. split; cbn; try done; rewrite ?fmap_app.
  - apply NoDup_snoc; [done|apply next_rowid_fresh].
  - apply NoDup_snoc; [done|]. intros (r & Er & Hr)%list_elem_of_fmap. cbn in Er.
    pose proof (existsb_false _ _ r Ee Hr) as Hf. cbn in Hf. bool_facts. congruence.
  - apply Forall_app. split; [done|]. apply Forall_singleton. split_and!; cbn; [done| |done].
    apply to_ascii_lowercase_idem.
Qed.

Lemma set_catch_all_inv s id ca :
  catch_all_ok ca ->
  admin_inv_with s -> admin_inv_with (set_catch_all s id ca).2.
Proof. intros Hca. apply update_domain_inv; [done..|]. by intros d (H1 & H2 & _). Qed.

Lemma mark_domain_verified_inv s id at_ : admin_inv_with s -> admin_inv_with (mark_domain_verified s id at_).2.
Proof. by apply update_domain_inv. Qed.

Lemma delete_domain_inv s id : admin_inv_with s -> admin_inv_with (delete_domain s id).2.
Proof.
  intros [H1 H2 H3 H4 H5 H6]. split; cbn; try done.
  - by apply NoDup_fmap_filter.
  - by apply NoDup_fmap_filter.
  - rewrite Forall_forall in *. intros d [Hd _]%elem_of_filter_list. by apply H6.
Qed.

End Invariant.

End DatabaseInvariant.

(** As the handlers keep it. *)
Abbreviation admin_inv := (admin_inv_with (fun v => valid_local_part v = true)).

Section Secrets.
Context `{Primitives} `{StringListJson}.
Context {catch_all : str -> Prop}.

(** *** Passwords and secrets *)
Lemma verify_login_ok s id r pw cfg :
  admin_inv_with catch_all s -> find_admin s id = Some r -> length (adm_salt r) = SALT_LEN ->
  derive_pk pw (adm_salt r) cfg = Ok (derived_key r) ->
  verify_login s (adm_username r) pw cfg
  = Ok (Some (mkAdmin id (adm_username r) (negb (must_change r =? 0)%Z) (adm_created_at r)
                (negb (totp_enabled r =? 0)%Z), derived_key r)).
Proof.
  intros Hs [Hr Hid]%find_admin_in Hl Hd. unfold verify_login.
  rewrite (sql_find_unique adm_username _ _ r (av_usernames _ _ Hs) Hr); [|intros y; apply bool_decide_eq_true].
  rewrite (proj2 (Nat.eqb_eq _ _) Hl). cbn [negb]. rewrite Hd. cbn. unfold str_eqb.
  by rewrite bool_decide_eq_true_2, Hid.
Qed.

Lemma verify_login_unknown s u pw cfg :
  (forall r, r ∈ admins s -> adm_username r <> u) -> verify_login s u pw cfg = Ok None.
Proof.
  intros Hu. unfold verify_login. rewrite sql_find_absent; [done|]. intros r Hr. by apply bool_decide_eq_false, Hu.
Qed.

(** The secret a new key opens after a rewrap is the old one. *)
Lemma rewrap_totp_secret_ok `{!PrimitiveLaws} nonce s id r k k' :
  length nonce = NONCE_LEN -> find_admin s id = Some r -> admin_row_ok r ->
  (forall w, totp_wrapped_secret r = Some w -> is_ok (committing_open k w) = true) ->
  exists f, (forall r, adm_id (f r) = adm_id r) /\
    rewrap_totp_secret nonce s id k k' = (Ok tt, update_admin id f s) /\
    totp_secret (update_admin id f s) id k' = totp_secret s id k /\
    (forall r, f r = with_totp (totp_wrapped_secret (f r)) (totp_key_id (f r)) (totp_enabled r) (totp_recovery_codes r) r).
Proof.
  intros Hn Er [Hw _] Ho. unfold rewrap_totp_secret, totp_secret. rewrite Er.
  destruct (totp_wrapped_secret r) as [w|] eqn:Ew.
  - destruct (totp_key_id r) as [n|] eqn:En; [|by discriminate (proj2 Hw eq_refl)].
    specialize (Ho w eq_refl). destruct (committing_open k w) as [secret|e] eqn:Eo; [|done]. cbn [as_crypto_error].
    eexists. split; [|split; [reflexivity|split]]; [done| |done].
    erewrite find_update_same; [|done|exact Er]. cbn -[committing_open committing_seal Z.modulo Z.to_N]. rewrite committing_open_seal; [done| |done].
    pose proof (Z.mod_pos_bound (n + 1) 65536). lia.
  - exists (fun r => r). assert (Eid : update_admin id (fun r => r) s = s).
    { unfold update_admin, sql_update. destruct s as [a d]. cbn. f_equal. rewrite <- (list_fmap_id a) at 2.
      apply list_fmap_ext. intros i y _. by destruct (by_id id y). }
    rewrite Eid, Er, Ew. split_and!; try done. by intros [].
Qed.

End Secrets.

#[export] Hint Resolve change_password_inv set_pending_totp_inv disable_totp_inv set_recovery_codes_inv
  rewrap_totp_secret_inv create_domain_inv set_catch_all_inv mark_domain_verified_inv delete_domain_inv : litterae.
