(* ===== verification/Schema.v ===== *)
(** * Schema: opening a database, new or old, [*::open]

    The tables as SQLite keeps them -- columns by name, rows of values -- and
    what opening a store does to its file: the [SCHEMA] constants of
    admin/src/store.rs, auth/src/store.rs, audit/src/store.rs,
    queue/src/schema.rs and of the store crate, and the [migrate_*columns]
    that bring a file of an earlier release up to date.  The theorems say
    that the rows the other files speak of are those of the file, before and
    after.

    Names of tables and columns are lower case here, as they are in every
    statement of the code: SQLite compares them without case. *)

From stdpp Require Import base list strings gmap.
From Stdlib Require Import Ascii ZArith Lia.
From S2P Require Import Prelude Store Auth AdminStore.

(** ** Tables *)
Inductive SqlType : Type := INTEGER | TEXT | BLOB | REAL.
Inductive SqlValue : Type := Null | Integer (n : Z) | Real (x : f64) | Text (s : str) | Bytes (s : str).

#[global] Instance SqlValue_eq_dec : EqDecision SqlValue.
Proof. solve_decision. Defined.

Inductive Constraint : Type :=
| PrimaryKey | Autoincrement | NotNull | Unique
| Default (v : SqlValue) | CheckIs (v : SqlValue) | ReferencesCascade (table column : str).

Record Column : Type := mkColumn { col_name : str; col_type : SqlType; col_constraints : list Constraint }.

Record Table : Type := mkTable {
  columns : list Column;
  uniques : list (list str);
  rows : list (list SqlValue)
}.

Record Database : Type := mkDatabase { tables : gmap str Table; indexes : gmap str (str * list str) }.

Definition empty_db : Database := mkDatabase ∅ ∅.

Definition put_table (name : str) (t : Table) (db : Database) : Database :=
  mkDatabase (<[name := t]> (tables db)) (indexes db).

Definition names (t : Table) : list str := col_name <$> columns t.

(** The position of a column, and its value in a row. *)
Fixpoint position (name : str) (l : list str) : option nat :=
  match l with
  | [] => None
  | x :: l => if str_eqb x name then Some 0 else S <$> position name l
  end.

Definition cell (t : Table) (name : str) (row : list SqlValue) : option SqlValue :=
  i ← position name (names t); row !! i.

Definition set_cell (t : Table) (name : str) (v : SqlValue) (row : list SqlValue) : list SqlValue :=
  match position name (names t) with Some i => <[i := v]> row | None => row end.

(** What a new column holds in the rows that are there. *)
Definition col_default (c : Column) : SqlValue :=
  foldr (fun k v => match k with Default d => d | _ => v end) Null (col_constraints c).

Definition not_null (c : Column) : bool :=
  existsb (fun k => match k with NotNull => true | _ => false end) (col_constraints c).

(** ** Statements *)
Inductive SqlError : Type :=
| NoSuchTable (table : str)
| NoSuchColumn (column : str)
| DuplicateColumn (column : str)
| NotNullWithoutDefault (column : str)
| InvalidColumnType
| InvalidColumnIndex
| CannotOpen.

Inductive Statement : Type :=
| CreateTable (name : str) (columns : list Column) (uniques : list (list str))   (* IF NOT EXISTS *)
| CreateIndex (name table : str) (on : list str).                                (* IF NOT EXISTS *)

Section Sql.
Context (sql_error : SqlError -> str).    (* [rusqlite::Error]'s [Display] *)

Abbreviation Sql A := (St Database (Result A)).

Definition storage_err (e : SqlError) : Error := Storage (sql_error e).

Definition fails {A} (e : SqlError) : Sql A := mret (Err (storage_err e)).

(** The first of the columns that the table does not have. *)
Definition missing (t : Table) (l : list str) : option str := find (fun c => negb (existsb (str_eqb c) (names t))) l.

Definition execute (s : Statement) : Sql unit := fun db =>
  match s with
  | CreateTable name cs us =>
      match tables db !! name with
      | Some _ => (Done (Ok tt), db)
      | None => (Done (Ok tt), put_table name (mkTable cs us []) db)
      end
  | CreateIndex name table on =>
      match indexes db !! name, tables db !! table with
      | Some _, _ => (Done (Ok tt), db)
      | None, None => fails (NoSuchTable table) db
      | None, Some t =>
          match missing t on with
          | Some c => fails (NoSuchColumn c) db
          | None => (Done (Ok tt), mkDatabase (tables db) (<[name := (table, on)]> (indexes db)))
          end
      end
  end.

Fixpoint execute_batch (l : list Statement) : Sql unit :=
  match l with
  | [] => mret (Ok tt)
  | s :: l => _ ←? execute s; execute_batch l
  end.

(** [PRAGMA table_info]: the names of the columns; of no table, none. *)
Definition table_info (table : str) : Sql (list str) := fun db =>
  (Done (Ok (match tables db !! table with Some t => names t | None => [] end)), db).

(** [ALTER TABLE .. ADD COLUMN]. *)
Definition extend (c : Column) (t : Table) : Table :=
  mkTable (columns t ++ [c]) (uniques t) ((fun row => row ++ [col_default c]) <$> rows t).

Definition add_column (table : str) (c : Column) : Sql unit := fun db =>
  match tables db !! table with
  | None => fails (NoSuchTable table) db
  | Some t =>
      if existsb (str_eqb (col_name c)) (names t) then fails (DuplicateColumn (col_name c)) db
      else if not_null c && bool_decide (col_default c = Null) && negb (bool_decide (rows t = []))
      then fails (NotNullWithoutDefault (col_name c)) db
      else (Done (Ok tt), put_table table (extend c t) db)
  end.

(** [if !existing.iter().any(|c| c == name) { conn.execute(..)? }]. *)
Definition add_missing (table : str) (existing : list str) (c : Column) : Sql unit :=
  if existsb (str_eqb (col_name c)) existing then mret (Ok tt) else add_column table c.

(** *** Queries *)

(** [row.get(i)], by the type it is asked for. *)
Definition as_i64 (v : SqlValue) : result SqlError Z :=
  match v with Integer n => Ok n | _ => Err InvalidColumnType end.
Definition as_string (v : SqlValue) : result SqlError str :=
  match v with Text s => Ok s | _ => Err InvalidColumnType end.
Definition as_bytes (v : SqlValue) : result SqlError str :=
  match v with Bytes s => Ok s | _ => Err InvalidColumnType end.
Definition as_bool (v : SqlValue) : result SqlError bool :=
  match v with Integer n => Ok (negb (n =? 0)%Z) | _ => Err InvalidColumnType end.
Definition as_option {A} (f : SqlValue -> result SqlError A) (v : SqlValue) : result SqlError (option A) :=
  match v with Null => Ok None | _ => x ← f v; Ok (Some x) end.

Definition get {A} (f : SqlValue -> result SqlError A) (i : nat) (row : list SqlValue) : result SqlError A :=
  match row !! i with Some v => f v | None => Err InvalidColumnIndex end.

(** The columns a SELECT names, of one row. *)
Definition select_columns (t : Table) (cs : list str) (row : list SqlValue) : list SqlValue :=
  (fun c => default Null (cell t c row)) <$> cs.

Fixpoint collect {A B} (f : A -> result SqlError B) (l : list A) : result SqlError (list B) :=
  match l with
  | [] => Ok []
  | x :: l => y ← f x; ys ← collect f l; Ok (y :: ys)
  end.

(** [SELECT cs FROM table WHERE p], [p] over the columns [ws], each row read
    by [f]. *)
Definition query {A} (table : str) (cs ws : list str) (p : Table -> list SqlValue -> bool)
    (f : list SqlValue -> result SqlError A) : Sql (list A) := fun db =>
  match tables db !! table with
  | None => fails (NoSuchTable table) db
  | Some t =>
      match missing t (cs ++ ws) with
      | Some c => fails (NoSuchColumn c) db
      | None =>
          match collect (fun row => f (select_columns t cs row)) (List.filter (p t) (rows t)) with
          | Ok l => (Done (Ok l), db)
          | Err e => fails e db
          end
      end
  end.

Definition select_ids_where_null (table column : str) : Sql (list Z) :=
  query table [ # "id"] [column] (fun t row => bool_decide (cell t column row = Some Null)) (get as_i64 0).

(** [UPDATE table SET column = v WHERE id = id]. *)
Definition update_where_id (table column : str) (v : SqlValue) (id : Z) : Sql unit := fun db =>
  match tables db !! table with
  | None => fails (NoSuchTable table) db
  | Some t =>
      match missing t [column; # "id"] with
      | Some c => fails (NoSuchColumn c) db
      | None =>
          (Done (Ok tt), put_table table (mkTable (columns t) (uniques t)
             (sql_update (fun row => bool_decide (cell t (# "id") row = Some (Integer id))) (set_cell t column v) (rows t))) db)
      end
  end.

End Sql.

(** ** The schemas *)
Abbreviation id_column := (mkColumn (# "id") INTEGER [PrimaryKey]).
Abbreviation required name type := (mkColumn name type [NotNull]).
Abbreviation optional name type := (mkColumn name type []).
Abbreviation defaulted name type v := (mkColumn name type [NotNull; Default v]).

(** admin/src/store.rs *)
Definition admins_columns : list Column :=
  [id_column; mkColumn (# "username") TEXT [NotNull; Unique]; required (# "salt") BLOB; required (# "derived_key") BLOB;
   defaulted (# "must_change_password") INTEGER (Integer 0); required (# "created_at") INTEGER;
   optional (# "totp_wrapped_secret") BLOB; optional (# "totp_key_id") INTEGER;
   defaulted (# "totp_enabled") INTEGER (Integer 0); optional (# "totp_recovery_codes") TEXT].

Definition domains_columns : list Column :=
  [id_column; mkColumn (# "name") TEXT [NotNull; Unique]; optional (# "catch_all_local_part") TEXT;
   optional (# "verification_token") TEXT; optional (# "verified_at") INTEGER; required (# "created_at") INTEGER].

Definition admin_schema : list Statement :=
  [CreateTable (# "admins") admins_columns []; CreateTable (# "domains") domains_columns []].

(** auth/src/store.rs *)
Definition accounts_columns : list Column :=
  [id_column; required (# "local_part") TEXT; required (# "domain") TEXT; required (# "key_id") INTEGER;
   required (# "salt") BLOB; required (# "wrapped_amk") BLOB; required (# "account_pub") BLOB;
   required (# "wrapped_account_priv") BLOB; required (# "created_at") INTEGER].

Definition app_passwords_columns : list Column :=
  [id_column; required (# "account_id") INTEGER; required (# "label") TEXT; required (# "scope") TEXT;
   required (# "key_id") INTEGER; required (# "salt") BLOB; required (# "wrapped_amk") BLOB;
   required (# "created_at") INTEGER; optional (# "last_used_at") INTEGER].

Definition auth_schema : list Statement :=
  [CreateTable (# "accounts") accounts_columns [[ # "local_part"; # "domain"]];
   CreateTable (# "app_passwords") app_passwords_columns []].

(** audit/src/store.rs *)
Definition audit_schema : list Statement :=
  [CreateTable (# "audit_keys")
     [mkColumn (# "id") INTEGER [PrimaryKey; CheckIs (Integer 1)]; required (# "audit_pub") BLOB;
      required (# "wrapped_audit_priv") BLOB; required (# "key_id") INTEGER; required (# "chain_key") BLOB;
      required (# "sign_pub") BLOB; required (# "sign_priv") BLOB; required (# "created_at") INTEGER] [];
   CreateTable (# "audit_log")
     [mkColumn (# "seq") INTEGER [PrimaryKey; Autoincrement]; required (# "at") INTEGER; required (# "action") TEXT;
      required (# "commitment") BLOB; required (# "prev_hash") BLOB; required (# "hash") BLOB;
      required (# "sealed_detail") BLOB] [];
   CreateTable (# "audit_head_signatures")
     [required (# "seq") INTEGER; required (# "hash") BLOB; required (# "signature") BLOB;
      required (# "signed_at") INTEGER] []].

(** queue/src/schema.rs *)
Definition queue_schema : list Statement :=
  [CreateTable (# "outbound")
     [id_column; required (# "account_id") INTEGER; required (# "message_blob") TEXT; required (# "envelope_from") TEXT;
      required (# "created_at") INTEGER; required (# "expires_at") INTEGER; optional (# "dsn_envid") TEXT;
      optional (# "dsn_ret") TEXT; defaulted (# "is_dsn") INTEGER (Integer 0)] [];
   CreateTable (# "outbound_rcpt")
     [id_column; mkColumn (# "outbound_id") INTEGER [NotNull; ReferencesCascade (# "outbound") (# "id")];
      required (# "rcpt_to") TEXT; required (# "domain") TEXT; defaulted (# "dsn_notify") TEXT (Text (# "FAILURE"));
      defaulted (# "state") TEXT (Text (# "ready")); defaulted (# "attempts") INTEGER (Integer 0);
      required (# "next_attempt_at") INTEGER; optional (# "claimed_by") TEXT; optional (# "claimed_at") INTEGER;
      optional (# "last_code") INTEGER; optional (# "last_status") TEXT; optional (# "last_detail") TEXT;
      defaulted (# "delayed_dsn_sent") INTEGER (Integer 0)] [];
   CreateIndex (# "ix_rcpt_due") (# "outbound_rcpt") [ # "state"; # "next_attempt_at"];
   CreateIndex (# "ix_rcpt_outbound") (# "outbound_rcpt") [ # "outbound_id"];
   CreateIndex (# "ix_outbound_account_created") (# "outbound") [ # "account_id"; # "created_at"];
   CreateTable (# "dkim_keys")
     [mkColumn (# "domain") TEXT [PrimaryKey]; required (# "selector") TEXT; required (# "private_der") BLOB;
      required (# "public_der") BLOB; required (# "created_at") INTEGER] [];
   CreateTable (# "scheduled_events")
     [id_column; required (# "account_id") INTEGER; required (# "kind") TEXT; required (# "fire_at") INTEGER;
      optional (# "thread_id") TEXT; optional (# "payload") TEXT; defaulted (# "state") TEXT (Text (# "pending"))] [];
   CreateIndex (# "ix_sched_due") (# "scheduled_events") [ # "state"; # "fire_at"]].

(** The store crate: metadata.rs, mailboxes.rs, threads.rs, messages.rs,
    uploads.rs and contacts.rs. *)
Definition metadata_schema : list Statement :=
  [CreateTable (# "blob_refs")
     [mkColumn (# "hash") TEXT [PrimaryKey]; defaulted (# "ref_count") INTEGER (Integer 1);
      required (# "created_at") INTEGER] []].

Definition mailboxes_schema : list Statement :=
  [CreateTable (# "mailboxes")
     [id_column; required (# "account_id") INTEGER; required (# "role") TEXT; required (# "name") TEXT]
     [[ # "account_id"; # "role"]]].

Definition threads_schema : list Statement :=
  [CreateTable (# "threads") [id_column; required (# "account_id") INTEGER] []].

Definition messages_columns : list Column :=
  [id_column; required (# "account_id") INTEGER; required (# "mailbox_id") INTEGER; required (# "thread_id") INTEGER;
   required (# "blob_hash") TEXT; required (# "dek_wrap") BLOB; required (# "mail_from") TEXT; required (# "rcpt_to") TEXT;
   required (# "remote_ip") TEXT; required (# "size_bytes") INTEGER; required (# "spf_result") TEXT;
   required (# "dkim_result") TEXT; required (# "dmarc_result") TEXT; required (# "received_at") INTEGER;
   defaulted (# "keywords") TEXT (Text []); optional (# "message_id_header") TEXT; optional (# "in_reply_to") TEXT;
   optional (# "references_header") TEXT; optional (# "subject_hash") TEXT; optional (# "spam_score") REAL;
   optional (# "av_clean") INTEGER].

Definition messages_schema : list Statement :=
  [CreateTable (# "messages") messages_columns [];
   CreateIndex (# "ix_messages_account") (# "messages") [ # "account_id"; # "received_at"];
   CreateIndex (# "ix_messages_mailbox") (# "messages") [ # "account_id"; # "mailbox_id"; # "received_at"];
   CreateIndex (# "ix_messages_thread") (# "messages") [ # "account_id"; # "thread_id"];
   CreateIndex (# "ix_messages_message_id") (# "messages") [ # "account_id"; # "message_id_header"];
   CreateIndex (# "ix_messages_subject_hash") (# "messages") [ # "account_id"; # "subject_hash"]].

Definition uploads_schema : list Statement :=
  [CreateTable (# "uploads")
     [id_column; required (# "account_id") INTEGER; required (# "blob_hash") TEXT; required (# "dek_wrap") BLOB;
      required (# "key_id") INTEGER; required (# "filename") TEXT; required (# "content_type") TEXT;
      required (# "size_bytes") INTEGER; required (# "created_at") INTEGER] [];
   CreateIndex (# "ix_uploads_account") (# "uploads") [ # "account_id"]].

Definition contacts_schema : list Statement :=
  [CreateTable (# "contacts")
     [id_column; required (# "account_id") INTEGER; required (# "sealed") BLOB; required (# "created_at") INTEGER;
      required (# "updated_at") INTEGER] [];
   CreateIndex (# "ix_contacts_account") (# "contacts") [ # "account_id"]].

(** ** Opening *)
Section Open.
Context (sql_error : SqlError -> str).

Abbreviation Sql A := (St Database (Result A)).
Abbreviation add := (add_missing sql_error).
Abbreviation batch := (execute_batch sql_error).

(** [Connection::open] and the pragmas, which leave the tables alone. *)
Definition connect (opened : result SqlError unit) : Sql unit :=
  mret (match opened with Ok _ => Ok tt | Err e => Err (storage_err sql_error e) end).

Definition migrate_admins_columns : Sql unit :=
  existing ←? table_info (# "admins");
  _ ←? add (# "admins") existing (optional (# "totp_wrapped_secret") BLOB);
  _ ←? add (# "admins") existing (optional (# "totp_key_id") INTEGER);
  _ ←? add (# "admins") existing (defaulted (# "totp_enabled") INTEGER (Integer 0));
  _ ←? add (# "admins") existing (optional (# "totp_recovery_codes") TEXT);
  mret (Ok tt).

(** The tokens of [for id in ids_needing_token], from the [n]th draw. *)
Fixpoint backfill (tokens : nat -> str) (n : nat) (ids : list Z) : Sql unit :=
  match ids with
  | [] => mret (Ok tt)
  | id :: ids =>
      _ ←? update_where_id sql_error (# "domains") (# "verification_token") (Text (generate_verification_token (tokens n))) id;
      backfill tokens (S n) ids
  end.

Definition migrate_domains_columns (tokens : nat -> str) : Sql unit :=
  existing ←? table_info (# "domains");
  _ ←? add (# "domains") existing (optional (# "verification_token") TEXT);
  _ ←? add (# "domains") existing (optional (# "verified_at") INTEGER);
  ids_needing_token ←? select_ids_where_null sql_error (# "domains") (# "verification_token");
  backfill tokens 0 ids_needing_token.

Definition open_admin (opened : result SqlError unit) (tokens : nat -> str) : Sql unit :=
  _ ←? connect opened;
  _ ←? batch admin_schema;
  _ ←? migrate_domains_columns tokens;
  _ ←? migrate_admins_columns;
  mret (Ok tt).

Definition migrate_accounts_columns : Sql unit :=
  existing ←? table_info (# "accounts");
  _ ←? add (# "accounts") existing (optional (# "signature_sealed") BLOB);
  mret (Ok tt).

Definition open_auth (opened : result SqlError unit) : Sql unit :=
  _ ←? connect opened;
  _ ←? batch auth_schema;
  _ ←? migrate_accounts_columns;
  mret (Ok tt).

(** messages.rs *)
Definition migrate_columns : Sql unit :=
  existing ←? table_info (# "messages");
  _ ←? add (# "messages") existing (optional (# "spam_score") REAL);
  _ ←? add (# "messages") existing (optional (# "av_clean") INTEGER);
  mret (Ok tt).

Definition open_metadata (opened : result SqlError unit) : Sql unit :=
  _ ←? connect opened;
  _ ←? batch metadata_schema;
  _ ←? batch mailboxes_schema;
  _ ←? batch threads_schema;
  _ ←? batch messages_schema;
  _ ←? migrate_columns;
  _ ←? batch uploads_schema;
  _ ←? batch contacts_schema;
  mret (Ok tt).

Definition open_audit (opened : result SqlError unit) : Sql unit := _ ←? connect opened; _ ←? batch audit_schema; mret (Ok tt).

Definition open_queue (opened : result SqlError unit) : Sql unit := _ ←? connect opened; _ ←? batch queue_schema; mret (Ok tt).

End Open.

(** ** Rows and their columns *)

Lemma existsb_eqb n l : existsb (str_eqb n) l = bool_decide (n ∈ l).
Proof.
  induction l as [|x l IH]; cbn [existsb]; [by rewrite bool_decide_eq_false_2 by apply not_elem_of_nil|].
  rewrite IH. unfold str_eqb. repeat case_bool_decide; set_solver.
Qed.

(** Inclusion of lists of names, by computation. *)
Lemma included l l' : forallb (fun n => existsb (str_eqb n) l') l = true -> l ⊆ l'.
Proof.
  intros Hl n Hn. apply list_elem_of_In in Hn. rewrite forallb_forall in Hl. specialize (Hl n Hn).
  rewrite existsb_eqb in Hl. by bool_facts.
Qed.

Lemma col_position_some n l i : position n l = Some i -> l !! i = Some n.
Proof.
  revert i. induction l as [|x l IH]; intros i; cbn [position]; [done|]. destruct (str_eqb x n) eqn:E.
  - intros [= <-]. by bool_facts; subst.
  - destruct (position n l) as [j|]; [|done]. intros [= <-]. by apply IH.
Qed.

Lemma col_position_is_some n l : n ∈ l -> is_Some (position n l).
Proof.
  induction 1 as [|n x l _ [i IH]]; cbn [position]; [unfold str_eqb; by rewrite bool_decide_eq_true_2|].
  rewrite IH. destruct (str_eqb x n); by eexists.
Qed.

Lemma col_position_app n l l' :
  position n (l ++ l') = match position n l with Some i => Some i | None => Nat.add (length l) <$> position n l' end.
Proof.
  induction l as [|x l IH]; cbn [position app length]; [by destruct (position n l')|].
  destruct (str_eqb x n); [done|]. rewrite IH. destruct (position n l); [done|]. by destruct (position n l').
Qed.

Lemma missing_none t l : l ⊆ names t -> missing t l = None.
Proof.
  intros Hl. unfold missing. induction l as [|c l IH]; cbn [find]; [done|].
  rewrite existsb_eqb, bool_decide_eq_true_2 by set_solver. apply IH. set_solver.
Qed.

(** Every row has a value for every column. *)
Definition wide (t : Table) : Prop := Forall (fun row => length row = length (columns t)) (rows t).

(** A row's value in a column, or what it would get if the column was added. *)
Definition value (d : str -> SqlValue) (t : Table) (row : list SqlValue) (name : str) : SqlValue :=
  default (d name) (cell t name row).

Lemma cell_value d t row n : n ∈ names t -> length row = length (columns t) -> cell t n row = Some (value d t row n).
Proof.
  intros [i Hi]%col_position_is_some Hl. unfold value, cell. rewrite Hi. cbn.
  destruct (row !! i) as [v|] eqn:E; [done|]. apply lookup_ge_None in E. apply col_position_some, lookup_lt_Some in Hi.
  unfold names in Hi. rewrite length_fmap in Hi. lia.
Qed.

(** Adding a column shows in no value. *)
Lemma value_extend d c t row n : length row = length (columns t) -> d (col_name c) = col_default c ->
  value d (extend c t) (row ++ [col_default c]) n = value d t row n.
Proof.
  intros Hl Hd. unfold value, cell, names, extend. cbn [columns]. rewrite fmap_app, col_position_app, length_fmap.
  destruct (position n (col_name <$> columns t)) as [i|] eqn:E; cbn.
  - apply col_position_some, lookup_lt_Some in E. rewrite length_fmap in E. rewrite lookup_app_l by lia. done.
  - destruct (str_eqb (col_name c) n) eqn:En; [|done]. bool_facts. subst n. cbn.
    rewrite Nat.add_0_r, <- Hl, list_lookup_middle by done. by rewrite Hd.
Qed.

Lemma value_set d t col v row n : col ∈ names t -> length row = length (columns t) ->
  value d t (set_cell t col v row) n = if str_eqb n col then v else value d t row n.
Proof.
  intros [i Hi]%col_position_is_some Hl. unfold value, cell, set_cell. rewrite Hi.
  assert (Hlt : i < length row).
  { apply col_position_some, lookup_lt_Some in Hi. unfold names in Hi. rewrite length_fmap in Hi. lia. }
  destruct (str_eqb n col) eqn:E; bool_facts.
  - subst n. rewrite Hi. cbn. by rewrite list_lookup_insert_eq.
  - destruct (position n (names t)) as [j|] eqn:Ej; cbn; [|done].
    rewrite list_lookup_insert_ne; [done|]. intros ->. apply col_position_some in Hi, Ej. congruence.
Qed.

(** ** Upgrading a table *)
Definition upgrade (cs : list Column) (t : Table) : Table :=
  foldl (fun t c => if bool_decide (col_name c ∈ names t) then t else extend c t) t cs.

Lemma extend_names c t n : n ∈ names (extend c t) <-> n ∈ names t \/ n = col_name c.
Proof. unfold names, extend. cbn [columns]. rewrite fmap_app, elem_of_app. cbn. by rewrite list_elem_of_singleton. Qed.

Lemma upgrade_one_names c t n : n ∈ names (upgrade [c] t) <-> n ∈ names t \/ n = col_name c.
Proof. cbn [upgrade foldl]. case_bool_decide as Hc; [|apply extend_names]. split; [by left|by intros [?| ->]]. Qed.

Lemma upgrade_names cs t : names t ⊆ names (upgrade cs t).
Proof.
  revert t. induction cs as [|c cs IH]; intros t; cbn [upgrade foldl]; [done|]. etrans; [|apply IH].
  case_bool_decide; [done|]. intros n. rewrite extend_names. by left.
Qed.

Lemma upgrade_has cs t : col_name <$> cs ⊆ names (upgrade cs t).
Proof.
  revert t. induction cs as [|c cs IH]; intros t; cbn [upgrade foldl]; [set_solver|].
  intros n [->|Hn]%elem_of_cons; [|by apply (IH _)]. apply (upgrade_names cs), upgrade_one_names. by right.
Qed.

(** All columns are there if the first ones were and the rest is added. *)
Lemma upgrade_complete first cs all t : first ⊆ names t -> all ⊆ first ++ (col_name <$> cs) -> all ⊆ names (upgrade cs t).
Proof.
  intros Hf Ha n [Hn|Hn]%Ha%elem_of_app; [by apply upgrade_names, Hf|by apply upgrade_has].
Qed.

Lemma upgrade_id cs t : col_name <$> cs ⊆ names t -> upgrade cs t = t.
Proof.
  induction cs as [|c cs IH]; intros Hs; cbn [upgrade foldl]; [done|]. rewrite bool_decide_eq_true_2 by set_solver. apply IH. set_solver.
Qed.

(** ** Tables and the rows they stand for *)
Section Stored.
Context {A : Type} (encode : A -> list (str * SqlValue)) (d : str -> SqlValue).

(** The columns a row has, by name. *)
Definition encodes (t : Table) (row : list SqlValue) (x : A) : Prop :=
  length row = length (columns t) /\ Forall (fun nv => value d t row nv.1 = nv.2) (encode x).

Definition holds (t : Table) (l : list A) : Prop := Forall2 (encodes t) (rows t) l.

(** A table that is not there has no rows; one that is has its first columns. *)
Definition stored (base : list str) (o : option Table) (l : list A) : Prop :=
  match o with None => l = [] | Some t => base ⊆ names t /\ holds t l end.

Lemma holds_extend c t l : d (col_name c) = col_default c -> holds t l -> holds (extend c t) l.
Proof.
  intros Hd Hl. unfold holds. cbn [rows extend]. apply Forall2_fmap_l. eapply Forall2_impl; [exact Hl|].
  intros row x [Hw Hx]. split; [cbn; rewrite !length_app; cbn; lia|].
  eapply Forall_impl; [exact Hx|]. intros nv. by rewrite value_extend.
Qed.

Lemma stored_create base o l cs us : base ⊆ col_name <$> cs -> stored base o l ->
  stored base (Some (default (mkTable cs us []) o)) l.
Proof. intros Hb Hs. destruct o as [t|]; [exact Hs|]. cbn in Hs. subst l. split; [done|]. constructor. Qed.

Lemma upgrade_holds cs t l : Forall (fun c => d (col_name c) = col_default c) cs -> holds t l -> holds (upgrade cs t) l.
Proof.
  revert t. induction cs as [|c cs IH]; intros t Hd Hl; cbn [upgrade foldl]; [done|].
  apply Forall_cons in Hd as [Hc Hd]. apply IH; [done|]. case_bool_decide; [done|]. by apply holds_extend.
Qed.

End Stored.

(** ** Statements, run *)
Section Run.
Context (sql_error : SqlError -> str).

Lemma put_same n t db : tables db !! n = Some t -> put_table n t db = db.
Proof. intros E. destruct db as [ts ix]. unfold put_table. cbn in *. by rewrite insert_id. Qed.

Lemma put_put n t t' db : put_table n t (put_table n t' db) = put_table n t db.
Proof. unfold put_table. cbn. by rewrite insert_insert_eq. Qed.

Lemma run_create n cs us db :
  execute sql_error (CreateTable n cs us) db
  = (Done (Ok tt), put_table n (default (mkTable cs us []) (tables db !! n)) db).
Proof. cbn. destruct (tables db !! n) as [t|] eqn:E; [|done]. cbn. by rewrite put_same. Qed.

(** A column that can be added to a table with rows. *)
Definition addable (c : Column) : Prop := not_null c = false \/ col_default c <> Null.

#[local] Instance addable_dec c : Decision (addable c).
Proof. unfold addable. apply _. Defined.

Lemma run_add_missing n existing c db t : tables db !! n = Some t ->
  (col_name c ∈ existing <-> col_name c ∈ names t) -> addable c ->
  add_missing sql_error n existing c db = (Done (Ok tt), put_table n (upgrade [c] t) db).
Proof.
  intros Et He Ha. unfold add_missing, upgrade. cbn [foldl]. rewrite existsb_eqb, (bool_decide_ext _ _ He). case_bool_decide as Hc.
  - by rewrite put_same.
  - unfold add_column. rewrite Et, existsb_eqb, bool_decide_eq_false_2 by done.
    replace (not_null c && bool_decide (col_default c = Null)) with false; [done|].
    destruct Ha as [-> | Hd]; [done|]. by rewrite bool_decide_eq_false_2, andb_false_r.
Qed.

(** A run of them. *)
Fixpoint add_all (n : str) (existing : list str) (cs : list Column) : St Database (Result unit) :=
  match cs with [] => mret (Ok tt) | c :: cs => _ ←? add_missing sql_error n existing c; add_all n existing cs end.

Lemma run_add_all n existing cs : forall db t, tables db !! n = Some t -> NoDup (col_name <$> cs) ->
  (forall c, c ∈ cs -> col_name c ∈ existing <-> col_name c ∈ names t) -> Forall addable cs ->
  add_all n existing cs db = (Done (Ok tt), put_table n (upgrade cs t) db).
Proof.
  induction cs as [|c cs IH]; intros db t Et Hnd He Ha.
  - cbn. by rewrite put_same.
  - cbn [add_all]. rewrite fmap_cons in Hnd. apply NoDup_cons in Hnd as [Hn Hnd]. apply Forall_cons in Ha as [Hc Ha].
    erewrite run_try by (apply run_add_missing; [done|apply He; by left|done]).
    rewrite (IH _ (upgrade [c] t)); [by rewrite put_put| |done| |done].
    + cbn. by rewrite lookup_insert_eq.
    + intros c' Hc'. rewrite He by (by right). rewrite upgrade_one_names. split; [by left|]. intros [?|E]; [done|].
      exfalso. apply Hn. rewrite <- E. by apply list_elem_of_fmap_2.
Qed.

Lemma run_migrate n cs db t : tables db !! n = Some t -> NoDup (col_name <$> cs) -> Forall addable cs ->
  (existing ←? table_info n; add_all n existing cs) db = (Done (Ok tt), put_table n (upgrade cs t) db).
Proof.
  intros Et Hn Ha. erewrite run_try by (unfold table_info; by rewrite Et). by apply run_add_all.
Qed.

End Run.

(** ** The administrators' file *)

(** What the columns of a schema hold in rows from before them. *)
Definition defaults (cs : list Column) (name : str) : SqlValue :=
  match find (fun c => str_eqb (col_name c) name) cs with Some c => col_default c | None => Null end.

Definition text_or_null (o : option str) : SqlValue := match o with Some s => Text s | None => Null end.
Definition bytes_or_null (o : option str) : SqlValue := match o with Some s => Bytes s | None => Null end.
Definition integer_or_null (o : option Z) : SqlValue := match o with Some n => Integer n | None => Null end.

Definition encode_domain (d : DomainRow) : list (str * SqlValue) :=
  [(# "id", Integer (dr_id d)); (# "name", Text (dr_name d)); (# "catch_all_local_part", text_or_null (dr_catch_all d));
   (# "verification_token", text_or_null (dr_token d)); (# "verified_at", integer_or_null (dr_verified_at d));
   (# "created_at", Integer (dr_created_at d))].

Definition encode_admin (r : AdminRow) : list (str * SqlValue) :=
  [(# "id", Integer (adm_id r)); (# "username", Text (adm_username r)); (# "salt", Bytes (adm_salt r));
   (# "derived_key", Bytes (derived_key r)); (# "must_change_password", Integer (must_change r));
   (# "created_at", Integer (adm_created_at r)); (# "totp_wrapped_secret", bytes_or_null (totp_wrapped_secret r));
   (# "totp_key_id", integer_or_null (totp_key_id r)); (# "totp_enabled", Integer (totp_enabled r));
   (# "totp_recovery_codes", text_or_null (totp_recovery_codes r))].

(** The columns of the first release. *)
Definition domains_first : list str := [ # "id"; # "name"; # "catch_all_local_part"; # "created_at"].
Definition admins_first : list str := [ # "id"; # "username"; # "salt"; # "derived_key"; # "must_change_password"; # "created_at"].

Abbreviation domains_hold := (holds encode_domain (defaults domains_columns)).
Abbreviation admins_hold := (holds encode_admin (defaults admins_columns)).

(** The file of an [AdminStore], of whatever release. *)
Record admin_file (db : Database) (s : AdminStore) : Prop := {
  af_domains : stored encode_domain (defaults domains_columns) domains_first (tables db !! # "domains") (domains s);
  af_admins : stored encode_admin (defaults admins_columns) admins_first (tables db !! # "admins") (admins s)
}.

(** The table is there with all these columns. *)
Definition has_columns (db : Database) (table : str) (cs : list Column) : Prop :=
  exists t, tables db !! table = Some t /\ col_name <$> cs ⊆ names t.

Lemma encodes_value {A} (encode : A -> list (str * SqlValue)) d t row x n v :
  encodes encode d t row x -> (n, v) ∈ encode x -> value d t row n = v.
Proof. intros [_ Hx] Hin. rewrite Forall_forall in Hx. exact (Hx (n, v) Hin). Qed.

Lemma encodes_cell {A} (encode : A -> list (str * SqlValue)) d t row x n v :
  encodes encode d t row x -> (n, v) ∈ encode x -> n ∈ names t -> cell t n row = Some v.
Proof. intros Hx Hin Hn. rewrite (cell_value d) by (try done; apply Hx). f_equal. by apply (encodes_value encode d t row x). Qed.

(** A query reads the rows it stands for. *)
Lemma run_query {A X} sql_error (encode : A -> list (str * SqlValue)) d n t l cs ws p (q : A -> bool)
    (f : list SqlValue -> result SqlError X) (g : A -> X) db :
  tables db !! n = Some t -> cs ++ ws ⊆ names t -> holds encode d t l ->
  (forall row x, x ∈ l -> encodes encode d t row x -> p t row = q x) ->
  (forall row x, x ∈ l -> encodes encode d t row x -> f (select_columns t cs row) = Ok (g x)) ->
  query sql_error n cs ws p f db = (Done (Ok (g <$> List.filter q l)), db).
Proof.
  intros Et Hn Hl Hp Hf. unfold query. rewrite Et, missing_none by done.
  assert (Hc : collect (fun row => f (select_columns t cs row)) (List.filter (p t) (rows t)) = Ok (g <$> List.filter q l)); [|by rewrite Hc].
  clear Et Hn. unfold holds in Hl. induction Hl as [|row x rs l Hx Hl IH]; [done|]. cbn [List.filter]. rewrite (Hp row x) by (done || left).
  assert (IH' := IH ltac:(intros r y Hy; apply Hp; by right) ltac:(intros r y Hy; apply Hf; by right)).
  destruct (q x); [|exact IH']. cbn [collect]. rewrite (Hf row x) by (done || left). by rewrite IH'.
Qed.

(** Columns that are named as they are encoded. *)
Lemma select_encoded {A} (encode : A -> list (str * SqlValue)) d t row x (e : list (str * SqlValue)) :
  encodes encode d t row x -> e ⊆ encode x -> (fst <$> e) ⊆ names t -> select_columns t (fst <$> e) row = snd <$> e.
Proof.
  intros Hx He Hn. unfold select_columns. rewrite <- list_fmap_compose. apply list_fmap_ext. intros i [n v] Hi. cbn.
  apply list_elem_of_lookup_2 in Hi. rewrite (encodes_cell _ _ _ _ _ n v Hx); [done|by apply He|].
  apply Hn. change n with (n, v).1. by apply list_elem_of_fmap_2.
Qed.

Section Admin.
Context (sql_error : SqlError -> str).
#[local] Existing Instance addable_dec.

Lemma run_select db t l : tables db !! # "domains" = Some t -> [ # "id"; # "verification_token"] ⊆ names t -> domains_hold t l ->
  select_ids_where_null sql_error (# "domains") (# "verification_token") db
  = (Done (Ok (dr_id <$> List.filter (fun d => bool_decide (dr_token d = None)) l)), db).
Proof.
  intros Et Hn Hl. apply (run_query sql_error encode_domain (defaults domains_columns) _ t l); [done..| |].
  - intros row x _ Hx. rewrite (encodes_cell _ _ _ _ _ (# "verification_token") (text_or_null (dr_token x)) Hx)
      by (first [do 3 right; left|apply Hn; right; left]). apply bool_decide_ext. by destruct (dr_token x).
  - intros row x _ Hx. unfold select_columns. cbn [fmap list_fmap].
    by rewrite (encodes_cell _ _ _ _ _ (# "id") (Integer (dr_id x)) Hx) by (first [left|apply Hn; left]).
Qed.

Definition with_token (tok : str) (d : DomainRow) : DomainRow :=
  mkDomainRow (dr_id d) (dr_name d) (dr_catch_all d) (Some tok) (dr_verified_at d) (dr_created_at d).

Lemma run_update db t l tok id : tables db !! # "domains" = Some t -> [ # "id"; # "verification_token"] ⊆ names t -> domains_hold t l ->
  exists t', update_where_id sql_error (# "domains") (# "verification_token") (Text tok) id db = (Done (Ok tt), put_table (# "domains") t' db) /\
    columns t' = columns t /\ domains_hold t' (sql_update (fun d => dr_id d =? id)%Z (with_token tok) l).
Proof.
  intros Et Hn Hl. unfold update_where_id. rewrite Et, missing_none by set_solver. eexists. split; [done|]. split; [done|].
  unfold holds, sql_update. cbn [rows]. apply Forall2_fmap. eapply Forall2_impl; [exact Hl|]. intros row x Hx.
  rewrite (encodes_cell _ _ _ _ _ (# "id") (Integer (dr_id x)) Hx) by (try left; apply Hn; left).
  rewrite (bool_decide_ext _ (dr_id x = id)) by (split; [by intros [= ->]|by intros ->]).
  destruct (Z.eqb_spec (dr_id x) id) as [E|E]; [rewrite bool_decide_eq_true_2 by done|rewrite bool_decide_eq_false_2 by done; exact Hx].
  destruct Hx as [Hw Hx]. split; [unfold set_cell; case_match; cbn; by rewrite ?length_insert|].
  unfold encode_domain in *. rewrite !Forall_cons in Hx. cbn [fst snd] in Hx.
  rewrite !Forall_cons, Forall_nil. cbn [fst snd with_token dr_id dr_name dr_catch_all dr_token dr_verified_at dr_created_at text_or_null].
  assert (Hv : forall n, value (defaults domains_columns) (mkTable (columns t) (uniques t) (rows t)) (set_cell t (# "verification_token") (Text tok) row) n
    = if str_eqb n (# "verification_token") then Text tok else value (defaults domains_columns) t row n).
  { intros n. apply (value_set _ t); [set_solver|done]. }
  destruct Hx as (H1x & H2x & H3x & _ & H5x & H6x & _).
  split_and!; first [exact I|etrans; [exact (Hv _)|first [exact H1x|exact H2x|exact H3x|exact H5x|exact H6x|reflexivity]]].
Qed.

Lemma run_backfill tokens ids : forall n db t s, tables db !! # "domains" = Some t ->
  [ # "id"; # "verification_token"] ⊆ names t -> domains_hold t (domains s) ->
  exists t', backfill sql_error tokens n ids db = (Done (Ok tt), put_table (# "domains") t' db) /\ columns t' = columns t /\
    domains_hold t' (domains (backfill_tokens tokens n ids s)).
Proof.
  induction ids as [|id ids IH]; intros n db t s Et Hn Hl; cbn [backfill backfill_tokens].
  { exists t. by rewrite put_same. }
  destruct (run_update db t (domains s) (generate_verification_token (tokens n)) id Et Hn Hl) as (t1 & E1 & Hc1 & Hl1).
  destruct (IH (S n) (put_table (# "domains") t1 db) t1 (update_domain_row id (with_token (generate_verification_token (tokens n))) s))
    as (t2 & E2 & Hc2 & Hl2); [by cbn; rewrite lookup_insert_eq|by unfold names; rewrite Hc1|done|].
  exists t2. erewrite run_try by exact E1. rewrite E2, put_put. split; [done|]. split; [congruence|exact Hl2].
Qed.

Lemma run_migrate_domains tokens db t s : tables db !! # "domains" = Some t -> domains_first ⊆ names t -> domains_hold t (domains s) ->
  exists t', migrate_domains_columns sql_error tokens db = (Done (Ok tt), put_table (# "domains") t' db) /\
    col_name <$> domains_columns ⊆ names t' /\ domains_hold t' (domains (AdminStore.migrate_domains_columns tokens s)).
Proof.
  intros Et Hn Hl. unfold migrate_domains_columns. erewrite run_try by (unfold table_info; by rewrite Et).
  erewrite run_try by (apply (run_add_missing _ _ _ _ _ t); [done|done|by left]).
  set (t1 := upgrade [_] t).
  assert (Hn1 : # "verified_at" ∈ names t <-> # "verified_at" ∈ names t1) by (unfold t1; rewrite upgrade_one_names; naive_solver).
  erewrite run_try by (apply (run_add_missing _ _ _ _ _ t1); [by cbn; rewrite lookup_insert_eq|exact Hn1|by left]).
  rewrite put_put. set (t2 := upgrade [_] t1).
  assert (Hc : col_name <$> domains_columns ⊆ names t2).
  { change t2 with (upgrade [optional (# "verification_token") TEXT; optional (# "verified_at") INTEGER] t).
    by apply (upgrade_complete domains_first); [|apply included]. }
  assert (Hl2 : domains_hold t2 (domains s)).
  { apply (upgrade_holds encode_domain _ [_]); [by repeat constructor|]. apply (upgrade_holds encode_domain _ [_]); [by repeat constructor|done]. }
  assert (Ht2 : tables (put_table (# "domains") t2 db) !! # "domains" = Some t2) by (cbn; by rewrite lookup_insert_eq).
  erewrite run_try by (apply (run_select _ t2 (domains s) Ht2); [etrans; [|exact Hc]; by apply included|done]).
  destruct (run_backfill tokens (dr_id <$> List.filter (fun d => bool_decide (dr_token d = None)) (domains s)) 0 _ t2 s Ht2
    ltac:(etrans; [|exact Hc]; by apply included) Hl2)
    as (t3 & E3 & Hc3 & Hl3). exists t3. rewrite E3, put_put. split; [done|]. split; [|exact Hl3]. unfold names. by rewrite Hc3.
Qed.

Definition totp_columns : list Column :=
  [optional (# "totp_wrapped_secret") BLOB; optional (# "totp_key_id") INTEGER; defaulted (# "totp_enabled") INTEGER (Integer 0);
   optional (# "totp_recovery_codes") TEXT].

Lemma run_migrate_admins db t : tables db !! # "admins" = Some t ->
  migrate_admins_columns sql_error db = (Done (Ok tt), put_table (# "admins") (upgrade totp_columns t) db).
Proof.
  intros Et. change (migrate_admins_columns sql_error) with (existing ←? table_info (# "admins"); add_all sql_error (# "admins") existing totp_columns).
  apply run_migrate; [done|by apply (bool_decide_unpack _); vm_compute..].
Qed.

(** The tables are there before the migrations. *)
Lemma run_admin_schema db : let ta := default (mkTable admins_columns [] []) (tables db !! # "admins") in
  let td := default (mkTable domains_columns [] []) (tables db !! # "domains") in
  execute_batch sql_error admin_schema db = (Done (Ok tt), put_table (# "domains") td (put_table (# "admins") ta db)).
Proof.
  intros ta td. unfold admin_schema. cbn [execute_batch]. erewrite run_try by apply run_create.
  erewrite run_try by apply run_create. unfold mret, St_ret. cbn [put_table tables].
  rewrite (lookup_insert_ne (tables db)) by done. done.
Qed.

(** Every column there, and every domain's token: opening changes nothing. *)
Lemma open_admin_again tokens db s : admin_file db s -> has_columns db (# "domains") domains_columns ->
  has_columns db (# "admins") admins_columns -> Forall (fun d => is_Some (dr_token d)) (domains s) ->
  open_admin sql_error (Ok tt) tokens db = (Done (Ok tt), db).
Proof.
  intros [Hd _] (td & Etd & Htd) (ta & Eta & Hta) Ht. rewrite Etd in Hd. destruct Hd as [Hbase Hd].
  unfold open_admin. erewrite run_try by reflexivity.
  erewrite run_try by (rewrite run_admin_schema, Etd, Eta; cbn [default id]; rewrite !put_same; [reflexivity|done|by rewrite put_same]).
  assert (Em : migrate_domains_columns sql_error tokens db = (Done (Ok tt), db)).
  { unfold migrate_domains_columns. erewrite run_try by (unfold table_info; by rewrite Etd).
    erewrite run_try by (apply (run_add_missing _ _ _ _ _ td); [done|done|by left]).
    rewrite upgrade_id, put_same by (done || (etrans; [|exact Htd]; by apply included)).
    erewrite run_try by (apply (run_add_missing _ _ _ _ _ td); [done|done|by left]).
    rewrite upgrade_id, put_same by (done || (etrans; [|exact Htd]; by apply included)).
    erewrite run_try by (apply (run_select _ td (domains s)); [done|etrans; [|exact Htd]; by apply included|done]).
    by rewrite none_without_token. }
  erewrite run_try by exact Em. erewrite run_try by (by apply run_migrate_admins).
  rewrite upgrade_id, put_same by (done || (etrans; [|exact Hta]; by apply included)). done.
Qed.

(** C35.  Opening the administrators' file brings it up to date, whatever release it
    comes from.  If there is no file, or one of any earlier release -- the
    tables may be missing, and may be missing any of the columns added since
    -- then opening it succeeds; every column of the schema is there
    afterwards; the file holds exactly the rows it held before, with what
    they had in every column, except that domains without a verification
    token have each got one, as [migrate_domains_columns] on rows says; and
    to open it again, with whatever draws, changes nothing. *)
Theorem old_database_upgrades (tokens : nat -> str) (db : Database) (s : AdminStore) :
  admin_file db s ->
  exists db', open_admin sql_error (Ok tt) tokens db = (Done (Ok tt), db') /\
    admin_file db' (AdminStore.migrate_domains_columns tokens s) /\
    has_columns db' (# "domains") domains_columns /\ has_columns db' (# "admins") admins_columns /\
    forall tokens', open_admin sql_error (Ok tt) tokens' db' = (Done (Ok tt), db').
Proof.
  intros [Hd Ha]. unfold open_admin at 1. erewrite run_try by reflexivity. erewrite run_try by apply run_admin_schema.
  set (ta := default _ (tables db !! # "admins")). set (td := default _ (tables db !! # "domains")).
  apply (stored_create _ _ _ _ _ admins_columns []) in Ha as [Hba Hha]; [|by apply included].
  apply (stored_create _ _ _ _ _ domains_columns []) in Hd as [Hbd Hhd]; [|by apply included].
  fold ta in Hba, Hha. fold td in Hbd, Hhd. set (db1 := put_table _ td _).
  destruct (run_migrate_domains tokens db1 td s ltac:(cbn; by rewrite lookup_insert_eq) Hbd Hhd) as (td' & Ed & Hcd & Hhd').
  erewrite run_try by exact Ed. unfold db1 in *. rewrite put_put in *.
  erewrite run_try by (apply (run_migrate_admins _ ta); cbn; by rewrite lookup_insert_ne, lookup_insert_eq).
  set (db' := put_table _ _ _). exists db'. split; [done|].
  assert (Ed' : tables db' !! # "domains" = Some td') by (cbn; by rewrite lookup_insert_ne, lookup_insert_eq).
  assert (Ea' : tables db' !! # "admins" = Some (upgrade totp_columns ta)) by (cbn; by rewrite lookup_insert_eq).
  assert (Hf : admin_file db' (AdminStore.migrate_domains_columns tokens s)).
  { split; [rewrite Ed'|rewrite Ea'].
    - split; [|done]. etrans; [|exact Hcd]. by apply included.
    - rewrite migrate_admins. split; [|by apply upgrade_holds; [repeat constructor|]]. etrans; [exact Hba|apply upgrade_names]. }
  assert (Hcd' : has_columns db' (# "domains") domains_columns) by (by exists td').
  assert (Hca' : has_columns db' (# "admins") admins_columns).
  { exists (upgrade totp_columns ta). split; [done|]. by apply (upgrade_complete admins_first); [|apply included]. }
  split_and!; [done|done|done|]. intros tokens'. apply (open_admin_again tokens' db' _ Hf Hcd' Hca'). apply migrate_tokens.
Qed.

End Admin.

(** ** The accounts' file *)
Definition signature_column : Column := optional (# "signature_sealed") BLOB.

Definition encode_account (r : AccountRow) : list (str * SqlValue) :=
  let a := row_account r in
  [(# "id", Integer (acc_id a)); (# "local_part", Text (local_part a)); (# "domain", Text (domain a));
   (# "key_id", Integer (Z.of_N (acc_key_id a))); (# "salt", Bytes (acc_salt a)); (# "wrapped_amk", Bytes (wrapped_amk a));
   (# "account_pub", Bytes (account_pub a)); (# "wrapped_account_priv", Bytes (wrapped_account_priv a));
   (# "created_at", Integer (acc_created_at a)); (# "signature_sealed", bytes_or_null (signature_sealed r))].

Definition encode_app_password (r : AppPasswordRow) : list (str * SqlValue) :=
  [(# "id", Integer (ap_id r)); (# "account_id", Integer (ap_account r)); (# "label", Text (ap_label r));
   (# "scope", Text (ap_scope r)); (# "salt", Bytes (ap_salt r)); (# "wrapped_amk", Bytes (ap_wrapped_amk r));
   (# "created_at", Integer (ap_created_at r)); (# "last_used_at", integer_or_null (ap_last_used_at r))].

Record auth_file (db : Database) (s : AuthStore) : Prop := {
  af_accounts : stored encode_account (defaults accounts_columns) (col_name <$> accounts_columns) (tables db !! # "accounts") (accounts s);
  af_app_passwords : stored encode_app_password (defaults app_passwords_columns) (col_name <$> app_passwords_columns)
    (tables db !! # "app_passwords") (app_passwords s)
}.

(** ** The mail database's file *)
Import Store.Metadata.

Definition real_or_null (o : option f64) : SqlValue := match o with Some x => Real x | None => Null end.
Definition bool_or_null (o : option bool) : SqlValue := match o with Some b => Integer (if b then 1 else 0) | None => Null end.

Definition encode_mailbox (m : Mailbox) : list (str * SqlValue) :=
  [(# "id", Integer (mb_id m)); (# "account_id", Integer (mb_account m)); (# "role", Text (mb_role m)); (# "name", Text (mb_name m))].

Definition encode_thread (t : Thread) : list (str * SqlValue) := [(# "id", Integer (th_id t)); (# "account_id", Integer (th_account t))].

Definition encode_message (s : StoredMessage) : list (str * SqlValue) :=
  let m := m_row s in
  [(# "id", Integer (m_id s)); (# "account_id", Integer (account_id m)); (# "mailbox_id", Integer (mailbox_id m));
   (# "thread_id", Integer (thread_id m)); (# "blob_hash", Text (blob_hash m)); (# "dek_wrap", Bytes (dek_wrap m));
   (# "mail_from", Text (mail_from m)); (# "rcpt_to", Text (rcpt_to m)); (# "remote_ip", Text (remote_ip m));
   (# "size_bytes", Integer (size_bytes m)); (# "spf_result", Text (spf_result m)); (# "dkim_result", Text (dkim_result m));
   (# "dmarc_result", Text (dmarc_result m)); (# "received_at", Integer (received_at m)); (# "keywords", Text (keywords m));
   (# "message_id_header", text_or_null (message_id_header m)); (# "in_reply_to", text_or_null (in_reply_to m));
   (# "references_header", text_or_null (references_header m)); (# "subject_hash", text_or_null (subject_hash m));
   (# "spam_score", real_or_null (spam_score m)); (# "av_clean", bool_or_null (av_clean m))].

Definition encode_upload (s : StoredUpload) : list (str * SqlValue) :=
  let u := up_row s in
  [(# "id", Integer (up_id s)); (# "account_id", Integer (up_account_id u)); (# "blob_hash", Text (up_blob_hash u));
   (# "dek_wrap", Bytes (up_dek_wrap u)); (# "key_id", Integer (Z.of_N (up_key_id u))); (# "filename", Text (up_filename u));
   (# "content_type", Text (up_content_type u)); (# "size_bytes", Integer (up_size_bytes u));
   (# "created_at", Integer (up_created_at u))].

Definition encode_contact (c : StoredContact) : list (str * SqlValue) :=
  [(# "id", Integer (ct_id c)); (# "account_id", Integer (ct_account_id c)); (# "sealed", Bytes (ct_sealed c));
   (# "created_at", Integer (ct_created_at c)); (# "updated_at", Integer (ct_updated_at c))].

(** The schema's columns of a [CreateTable] at the head of a batch. *)
Definition head_columns (l : list Statement) : list Column := match l with CreateTable _ cs _ :: _ => cs | _ => [] end.

(** What came with spam scoring and virus scanning. *)
Definition scan_columns : list Column := [optional (# "spam_score") REAL; optional (# "av_clean") INTEGER].
Definition messages_first : list str := take 19 (col_name <$> messages_columns).

Record mail_file (db : Database) (m : MetadataStore) : Prop := {
  mf_mailboxes : stored encode_mailbox (defaults (head_columns mailboxes_schema)) (col_name <$> head_columns mailboxes_schema)
    (tables db !! # "mailboxes") (mailboxes m);
  mf_threads : stored encode_thread (defaults (head_columns threads_schema)) (col_name <$> head_columns threads_schema)
    (tables db !! # "threads") (threads m);
  mf_messages : stored encode_message (defaults messages_columns) messages_first (tables db !! # "messages") (messages m);
  mf_uploads : stored encode_upload (defaults (head_columns uploads_schema)) (col_name <$> head_columns uploads_schema)
    (tables db !! # "uploads") (uploads m);
  mf_contacts : stored encode_contact (defaults (head_columns contacts_schema)) (col_name <$> head_columns contacts_schema)
    (tables db !! # "contacts") (contacts m)
}.

(** Every table is there, with the columns the queries name. *)
Record mail_complete (db : Database) : Prop := {
  mc_mailboxes : has_columns db (# "mailboxes") (head_columns mailboxes_schema);
  mc_threads : has_columns db (# "threads") (head_columns threads_schema);
  mc_messages : has_columns db (# "messages") messages_columns;
  mc_uploads : has_columns db (# "uploads") (head_columns uploads_schema);
  mc_contacts : has_columns db (# "contacts") (head_columns contacts_schema)
}.

(** [SCHEMA] does not have the column that the queries on accounts read. *)
Lemma fresh_accounts_lack_signature : # "signature_sealed" ∉ col_name <$> accounts_columns.
Proof. by apply (bool_decide_unpack _); vm_compute. Qed.

Section AuthMail.
Context (sql_error : SqlError -> str).
#[local] Existing Instance addable_dec.

Definition create (n : str) (cs : list Column) (us : list (list str)) (db : Database) : Database :=
  put_table n (default (mkTable cs us []) (tables db !! n)) db.

(** Opening the accounts' file does the same: every account and application
    password is there as before, accounts from before signatures have none,
    and a second opening changes nothing.  (The column is not in [SCHEMA], so
    a new file gets it from the migration too.) *)
Theorem account_file_upgrades (db : Database) (s : AuthStore) :
  auth_file db s ->
  exists db', open_auth sql_error (Ok tt) db = (Done (Ok tt), db') /\ auth_file db' s /\
    has_columns db' (# "accounts") (accounts_columns ++ [signature_column]) /\
    has_columns db' (# "app_passwords") app_passwords_columns /\
    open_auth sql_error (Ok tt) db' = (Done (Ok tt), db').
Proof.
  assert (Hopen : forall db, open_auth sql_error (Ok tt) db
    = (Done (Ok tt), put_table (# "accounts") (upgrade [signature_column] (default (mkTable accounts_columns [[ # "local_part"; # "domain"]] []) (tables db !! # "accounts")))
         (create (# "app_passwords") app_passwords_columns [] (create (# "accounts") accounts_columns [[ # "local_part"; # "domain"]] db)))).
  { clear. intros db. unfold open_auth. erewrite run_try by reflexivity. unfold auth_schema. cbn [execute_batch].
    erewrite run_try by (erewrite run_try by apply run_create; erewrite run_try by apply run_create; reflexivity).
    erewrite run_try; [reflexivity|]. unfold migrate_accounts_columns. apply (run_migrate _ _ [signature_column]);
      [|by apply (bool_decide_unpack _); vm_compute..]. cbn. by rewrite lookup_insert_ne, lookup_insert_eq. }
  intros [Ha Hp]. eexists. rewrite Hopen. split; [done|].
  apply (stored_create _ _ _ _ _ accounts_columns [[ # "local_part"; # "domain"]]) in Ha as [Hba Hha]; [|done].
  apply (stored_create _ _ _ _ _ app_passwords_columns []) in Hp as [Hbp Hhp]; [|done].
  set (ta := default _ (tables db !! # "accounts")) in *. set (tp := default _ (tables db !! # "app_passwords")) in *.
  set (db' := put_table _ _ _).
  assert (Ea : tables db' !! # "accounts" = Some (upgrade [signature_column] ta)) by (cbn; by rewrite lookup_insert_eq).
  assert (Ep : tables db' !! # "app_passwords" = Some tp).
  { unfold db', create. cbn. rewrite lookup_insert_ne, lookup_insert_eq by done. by rewrite lookup_insert_ne by done. }
  split_and!.
  - split; [rewrite Ea|by rewrite Ep]. split; [etrans; [exact Hba|apply upgrade_names]|]. by apply upgrade_holds; [repeat constructor|].
  - exists (upgrade [signature_column] ta). split; [done|]. by apply (upgrade_complete (col_name <$> accounts_columns)); [|apply included].
  - by exists tp.
  - rewrite Hopen. unfold create. rewrite Ea. cbn [default id].
    rewrite (upgrade_id _ (upgrade _ ta)) by apply upgrade_has. rewrite (put_same _ _ _ Ea), Ep. cbn [default id].
    by rewrite (put_same _ _ _ Ep), (put_same _ _ _ Ea).
Qed.

(** *** Tables with indexes *)
Lemma run_indexes table t (ixs : list (str * list str)) : forall db, tables db !! table = Some t ->
  Forall (fun ix => ix.2 ⊆ names t) ixs ->
  exists db', execute_batch sql_error ((fun ix => CreateIndex ix.1 table ix.2) <$> ixs) db = (Done (Ok tt), db') /\
    tables db' = tables db.
Proof.
  induction ixs as [|[n on] ixs IH]; intros db Et Hi; [by exists db|]. apply Forall_cons in Hi as [Hon Hi].
  set (db1 := match indexes db !! n with Some _ => db | None => mkDatabase (tables db) (<[n := (table, on)]> (indexes db)) end).
  assert (E1 : execute sql_error (CreateIndex n table on) db = (Done (Ok tt), db1)).
  { cbn. unfold db1. destruct (indexes db !! n); [done|]. by rewrite Et, missing_none. }
  assert (Et1 : tables db1 = tables db) by (unfold db1; by destruct (indexes db !! n)).
  destruct (IH db1 ltac:(by rewrite Et1) Hi) as (db2 & E2 & Et2). exists db2. split; [|congruence].
  rewrite fmap_cons. cbn [execute_batch fst snd]. by erewrite run_try by exact E1.
Qed.

(** A batch that makes one table and its indexes. *)
Lemma run_table_batch n cs us ixs db : let t := default (mkTable cs us []) (tables db !! n) in
  Forall (fun ix => ix.2 ⊆ names t) ixs ->
  exists db', execute_batch sql_error (CreateTable n cs us :: ((fun ix => CreateIndex ix.1 n ix.2) <$> ixs)) db = (Done (Ok tt), db') /\
    tables db' = <[n := t]> (tables db).
Proof.
  intros t Hi. destruct (run_indexes n t ixs (put_table n t db) ltac:(cbn; by rewrite lookup_insert_eq) Hi) as (db' & E & Et).
  exists db'. split; [|by rewrite Et]. cbn [execute_batch]. by erewrite run_try by apply run_create.
Qed.

Lemma run_migrate_messages db t : tables db !! # "messages" = Some t ->
  migrate_columns sql_error db = (Done (Ok tt), put_table (# "messages") (upgrade scan_columns t) db).
Proof.
  intros Et. change (migrate_columns sql_error) with (existing ←? table_info (# "messages"); add_all sql_error (# "messages") existing scan_columns).
  apply run_migrate; [done|by apply (bool_decide_unpack _); vm_compute..].
Qed.

(** Every column an index needs was there in the first release. *)
Lemma indexed_first first t (ixs : list (str * list str)) : first ⊆ names t ->
  forallb (fun ix => forallb (fun n => existsb (str_eqb n) first) ix.2) ixs = true -> Forall (fun ix => ix.2 ⊆ names t) ixs.
Proof.
  intros Hf Hi. rewrite forallb_forall in Hi. apply Forall_forall. intros ix Hin. etrans; [|exact Hf].
  apply included, Hi. by apply list_elem_of_In.
Qed.

Lemma open_table {A} (encode : A -> list (str * SqlValue)) d first n cs us ixs batch db l :
  batch = CreateTable n cs us :: ((fun ix => CreateIndex ix.1 n ix.2) <$> ixs) ->
  stored encode d first (tables db !! n) l -> first ⊆ col_name <$> cs ->
  forallb (fun ix => forallb (fun c => existsb (str_eqb c) first) ix.2) ixs = true ->
  exists db' t, execute_batch sql_error batch db = (Done (Ok tt), db') /\ tables db' = <[n := t]> (tables db) /\
    first ⊆ names t /\ holds encode d t l.
Proof.
  intros -> Hs Hf Hi. apply (stored_create _ _ _ _ _ cs us) in Hs as [Hb Hh]; [|done].
  destruct (run_table_batch n cs us ixs db (indexed_first first _ ixs Hb Hi)) as (db' & E & Et). by exists db', (default (mkTable cs us []) (tables db !! n)).
Qed.

(** Opening the mail database does the same: from a file of any release it
    ends with one that has the columns of the schema and the very same
    mailboxes, threads, messages, uploads and contacts, where messages from
    before scanning have no score and no verdict. *)
Lemma mail_file_upgrades (db : Database) (m : MetadataStore) : mail_file db m ->
  exists db', open_metadata sql_error (Ok tt) db = (Done (Ok tt), db') /\ mail_file db' m /\ mail_complete db'.
Proof.
  intros [Hmb Hth Hms Hup Hct]. unfold open_metadata. erewrite run_try by reflexivity.
  destruct (run_table_batch (# "blob_refs") (head_columns metadata_schema) [] [] db ltac:(constructor)) as (db0 & E0 & T0).
  erewrite run_try by exact E0.
  destruct (open_table encode_mailbox _ _ (# "mailboxes") (head_columns mailboxes_schema) _ [] mailboxes_schema db0 (mailboxes m)
    eq_refl ltac:(rewrite T0, lookup_insert_ne by done; exact Hmb) ltac:(done) eq_refl) as (db1 & t1 & E1 & T1 & B1 & L1).
  erewrite run_try by exact E1.
  destruct (open_table encode_thread _ _ (# "threads") (head_columns threads_schema) _ [] threads_schema db1 (threads m)
    eq_refl ltac:(rewrite T1, T0, !lookup_insert_ne by done; exact Hth) ltac:(done) eq_refl) as (db2 & t2 & E2 & T2 & B2 & L2).
  erewrite run_try by exact E2.
  destruct (open_table encode_message _ _ (# "messages") messages_columns _
    [(# "ix_messages_account", [ # "account_id"; # "received_at"]); (# "ix_messages_mailbox", [ # "account_id"; # "mailbox_id"; # "received_at"]);
     (# "ix_messages_thread", [ # "account_id"; # "thread_id"]); (# "ix_messages_message_id", [ # "account_id"; # "message_id_header"]);
     (# "ix_messages_subject_hash", [ # "account_id"; # "subject_hash"])] messages_schema db2 (messages m)
    eq_refl ltac:(rewrite T2, T1, T0, !lookup_insert_ne by done; exact Hms) ltac:(by apply included) eq_refl) as (db3 & t3 & E3 & T3 & B3 & L3).
  erewrite run_try by exact E3.
  erewrite run_try by (apply (run_migrate_messages _ t3); by rewrite T3, lookup_insert_eq).
  set (t3' := upgrade scan_columns t3). set (db4 := put_table _ t3' db3).
  assert (T4 : tables db4 = <[ # "messages" := t3']> (tables db3)) by done.
  destruct (open_table encode_upload _ _ (# "uploads") (head_columns uploads_schema) _ [(# "ix_uploads_account", [ # "account_id"])] uploads_schema db4 (uploads m)
    eq_refl ltac:(rewrite T4, T3, T2, T1, T0, !lookup_insert_ne by done; exact Hup) ltac:(done) eq_refl) as (db5 & t5 & E5 & T5 & B5 & L5).
  erewrite run_try by exact E5.
  destruct (open_table encode_contact _ _ (# "contacts") (head_columns contacts_schema) _ [(# "ix_contacts_account", [ # "account_id"])] contacts_schema db5 (contacts m)
    eq_refl ltac:(rewrite T5, T4, T3, T2, T1, T0, !lookup_insert_ne by done; exact Hct) ltac:(done) eq_refl) as (db6 & t6 & E6 & T6 & B6 & L6).
  erewrite run_try by exact E6. exists db6. split; [done|].
  assert (X1 : tables db6 !! # "mailboxes" = Some t1) by (by rewrite T6, T5, T4, T3, T2, T1, !lookup_insert_ne, lookup_insert_eq by done).
  assert (X2 : tables db6 !! # "threads" = Some t2) by (by rewrite T6, T5, T4, T3, T2, !lookup_insert_ne, lookup_insert_eq by done).
  assert (X3 : tables db6 !! # "messages" = Some t3') by (by rewrite T6, T5, T4, !lookup_insert_ne, lookup_insert_eq by done).
  assert (X5 : tables db6 !! # "uploads" = Some t5) by (by rewrite T6, T5, !lookup_insert_ne, lookup_insert_eq by done).
  assert (X6 : tables db6 !! # "contacts" = Some t6) by (by rewrite T6, lookup_insert_eq).
  split.
  - split; rewrite ?X1, ?X2, ?X3, ?X5, ?X6; try done.
    split; [etrans; [exact B3|apply upgrade_names]|]. by apply upgrade_holds; [repeat constructor|].
  - split; [by exists t1|by exists t2| |by exists t5|by exists t6].
    exists t3'. split; [done|]. by apply (upgrade_complete messages_first); [|apply included].
Qed.

End AuthMail.

(** ** Witnesses *)

(** A file of the first release: domains have neither a token nor a date. *)
Definition wit_old_domain (token : option str) : DomainRow := mkDomainRow 1 (# "example.com") None token None 5.
Definition wit_old_db : Database :=
  mkDatabase {[ # "domains" := mkTable
    [id_column; mkColumn (# "name") TEXT [NotNull; Unique]; optional (# "catch_all_local_part") TEXT; required (# "created_at") INTEGER]
    [] [[Integer 1; Text (# "example.com"); Null; Integer 5]] ]} ∅.

Lemma old_database_upgrades_witness :
  exists db', open_admin (fun _ => []) (Ok tt) (fun _ => # "tok") wit_old_db = (Done (Ok tt), db') /\
    admin_file db' (mkAdminStore [] [wit_old_domain (Some (generate_verification_token (# "tok")))]).
Proof.
  destruct (old_database_upgrades (fun _ => []) (fun _ => # "tok") wit_old_db (mkAdminStore [] [wit_old_domain None])) as (db' & E & Hf & _).
  - split; [|reflexivity]. split; [apply included; reflexivity|]. repeat constructor.
  - exists db'. exact (conj E Hf).
Defined.

Lemma account_file_upgrades_witness :
  exists db', open_auth (fun _ => []) (Ok tt) empty_db = (Done (Ok tt), db') /\ auth_file db' empty_auth.
Proof.
  destruct (account_file_upgrades (fun _ => []) empty_db empty_auth) as (db' & E & Hf & _).
  - split; reflexivity.
  - exists db'. exact (conj E Hf).
Defined.
