(* ===== verification/AuditLog.v ===== *)
(** * AuditLog: the hash-chained audit log, [audit]

    src/crates/audit/src/store.rs: sealed entries chained by keyed hashes,
    periodic head signatures, verification and reading.  Randomness and the
    clock are arguments; the cryptographic primitives are those of Sealing. *)

From stdpp Require Import base list strings gmap sorting.
From Stdlib Require Import Ascii ZArith Lia.
From S2P Require Import Prelude RustStr Header Sealing.

Definition HPKE_INFO : str := # "litterae/audit-entry-v1".
Definition SIGN_INTERVAL : Z := 20.
Definition HASH_LEN : nat := 32.
Definition CHAIN_KEY_LEN : nat := 32.

Definition genesis_hash : str := replicate HASH_LEN NUL.

Record AuditKeys : Type := mkAuditKeys {
  audit_pub : str;
  wrapped_audit_priv : str;
  audit_key_id : N;
  chain_key : str;
  sign_pub : str;
  sign_priv : str
}.

(** A row of [audit_log] and of [audit_head_signatures]. *)
Record LogRow : Type := mkLogRow {
  seq : Z;
  at_ : Z;
  action : str;
  commitment : str;
  prev_hash : str;
  hash : str;
  sealed_detail : str
}.

Record HeadSignature : Type := mkHeadSignature {
  hs_seq : Z;
  hs_hash : str;
  signature : str;
  signed_at : Z
}.

(** The three tables; [audit_log] in [seq] order with the AUTOINCREMENT
    counter's last value. *)
Record AuditStore : Type := mkAuditStore {
  audit_keys : option AuditKeys;
  audit_log : list LogRow;
  last_seq : Z;
  head_signatures : list HeadSignature
}.

Definition empty_audit : AuditStore := mkAuditStore None [] 0 [].

Record AuditEntry : Type := mkAuditEntry {
  e_seq : Z;
  e_at : Z;
  e_action : str;
  e_detail : str
}.

Definition has_keys (s : AuditStore) : bool := match audit_keys s with Some _ => true | None => false end.

Definition not_bootstrapped : Error := Storage (# "audit keys not bootstrapped").

(** The [copy_from_slice] calls of [load_keys]. *)
Definition load_keys (s : AuditStore) : exec (Result AuditKeys) :=
  match audit_keys s with
  | None => mret (Err not_bootstrapped)
  | Some k =>
      ap ← copy_from_slice PUBLIC_KEY_LEN (audit_pub k);
      ck ← copy_from_slice CHAIN_KEY_LEN (chain_key k);
      sp ← copy_from_slice PUBLIC_KEY_LEN (sign_pub k);
      sk ← copy_from_slice PRIVATE_KEY_LEN (sign_priv k);
      mret (Ok (mkAuditKeys ap (wrapped_audit_priv k) (audit_key_id k mod 65536) ck sp sk))
  end.

(** [i64::to_be_bytes]. *)
Definition i64_to_be_bytes (v : Z) : str :=
  (fun k => ascii_of_N (Z.to_N (Z.shiftr v (8 * k) mod 256))) <$> [7; 6; 5; 4; 3; 2; 1; 0]%Z.

Definition head_message (n : Z) (h : str) : str := i64_to_be_bytes n ++ h.

(** [ORDER BY seq DESC]: the log newest first. *)
Definition newest_first (s : AuditStore) : list LogRow := reverse (audit_log s).

Section Store.
Context `{Primitives} `{SqlAny}.
Context (utf8_error : str -> str).   (* [Display for FromUtf8Error] *)

Definition bootstrap_keys (audit_priv seed ck nonce : str) (s : AuditStore) (wrap_key : str)
    : Result unit * AuditStore :=
  if has_keys s then (Ok tt, s)
  else
    let keys := mkAuditKeys (hpke_public audit_priv) (committing_seal nonce wrap_key 1 audit_priv) 1 ck
                  (ed25519_public seed) seed in
    (Ok tt, mkAuditStore (Some keys) (audit_log s) (last_seq s) (head_signatures s)).

Definition rewrap_audit_key (nonce : str) (s : AuditStore) (old_wrap_key new_wrap_key : str)
    : Result unit * AuditStore :=
  match audit_keys s with
  | None => (Err (Storage (# "Query returned no rows")), s)
  | Some k =>
      match as_crypto_error (committing_open old_wrap_key (wrapped_audit_priv k)) with
      | Err e => (Err e, s)
      | Ok priv_bytes =>
          let new_key_id := ((audit_key_id k + 1) mod 65536)%N in
          let keys := mkAuditKeys (audit_pub k) (committing_seal nonce new_wrap_key new_key_id priv_bytes)
                        new_key_id (chain_key k) (sign_pub k) (sign_priv k) in
          (Ok tt, mkAuditStore (Some keys) (audit_log s) (last_seq s) (head_signatures s))
      end
  end.

Definition sign_head_locked (now : Z) (keys : AuditKeys) (n : Z) (h : str) (s : AuditStore) : AuditStore :=
  mkAuditStore (audit_keys s) (audit_log s) (last_seq s)
    (head_signatures s ++ [mkHeadSignature n h (sign (sign_priv keys) (head_message n h)) now]).

Definition chain_hash (key prev c : str) : str := keyed_hash key (prev ++ c).

Definition insert_log (now : Z) (act c prev h sealed : str) (s : AuditStore) : AuditStore :=
  mkAuditStore (audit_keys s)
    (audit_log s ++ [mkLogRow (last_seq s + 1) now act c prev h sealed]) (last_seq s + 1) (head_signatures s).

(** [rand] is the encapsulation's randomness. *)
Definition log (rand : str) (now : Z) (act detail : str) : St AuditStore (Result unit) :=
  s ← st_get;
  r ← st_exec (load_keys s);
  match r with
  | Err e => mret (Err e)
  | Ok keys =>
      prev ← st_exec (match head (newest_first s) with
                      | Some row => copy_from_slice HASH_LEN (hash row)
                      | None => mret genesis_hash
                      end);
      let c := keyed_hash (chain_key keys) detail in
      let h := chain_hash (chain_key keys) prev c in
      match as_crypto_error (hpke_seal rand (audit_pub keys) (audit_key_id keys) HPKE_INFO detail) with
      | Err e => mret (Err e)
      | Ok sealed =>
          _ ← st_mod (insert_log now act c prev h sealed);
          let n := (last_seq s + 1)%Z in
          _ ← st_mod (if (n mod SIGN_INTERVAL =? 0)%Z then sign_head_locked now keys n h else id);
          mret (Ok tt)
      end
  end.

Definition sign_head_now (now : Z) : St AuditStore (Result unit) :=
  s ← st_get;
  r ← st_exec (load_keys s);
  match r with
  | Err e => mret (Err e)
  | Ok keys =>
      match head (newest_first s) with
      | None => mret (Ok tt)
      | Some row =>
          h ← st_exec (copy_from_slice HASH_LEN (hash row));
          _ ← st_mod (sign_head_locked now keys (seq row) h);
          mret (Ok tt)
      end
  end.

(** The loop of [verify_chain] over [(commitment, prev_hash, hash)]. *)
Fixpoint verify_links (key expected_prev : str) (rows : list LogRow) : bool :=
  match rows with
  | [] => true
  | r :: rows =>
      if negb (str_eqb (prev_hash r) expected_prev) then false
      else
        let expected_hash := chain_hash key expected_prev (commitment r) in
        if negb (str_eqb expected_hash (hash r)) then false else verify_links key expected_hash rows
  end.

Definition verify_chain (s : AuditStore) : exec (Result bool) :=
  r ← load_keys s;
  match r with
  | Err e => mret (Err e)
  | Ok keys => mret (Ok (verify_links (chain_key keys) genesis_hash (audit_log s)))
  end.

(** [ORDER BY signed_at DESC LIMIT 1]. *)
Definition latest_signature (s : AuditStore) : option HeadSignature :=
  any_row (List.filter (fun x => forallb (fun y => signed_at y <=? signed_at x)%Z (head_signatures s))
             (head_signatures s)).

Definition verify_latest_signature (s : AuditStore) : exec (Result (option bool)) :=
  r ← load_keys s;
  match r with
  | Err e => mret (Err e)
  | Ok keys =>
      match latest_signature s with
      | None => mret (Ok None)
      | Some x =>
          h ← copy_from_slice HASH_LEN (hs_hash x);
          g ← copy_from_slice SIGNATURE_LEN (signature x);
          mret (Ok (Some (verify (sign_pub keys) (head_message (hs_seq x) h) g)))
      end
  end.

(** The decryption loop of [read_recent]. *)
Fixpoint read_rows (priv : str) (rows : list LogRow) : Result (list AuditEntry) :=
  match rows with
  | [] => Ok []
  | r :: rows =>
      detail ← as_crypto_error (hpke_open priv HPKE_INFO (sealed_detail r));
      detail ← (match from_utf8 detail with
                | Some d => Ok d
                | None => Err (Storage (# "non-utf8 audit detail: " ++ utf8_error detail))
                end : Result str);
      more ← read_rows priv rows;
      Ok (mkAuditEntry (seq r) (at_ r) (action r) detail :: more)
  end.

Definition read_recent (s : AuditStore) (wrap_key : str) (limit : Z) : exec (Result (list AuditEntry)) :=
  r ← load_keys s;
  match r with
  | Err e => mret (Err e)
  | Ok keys =>
      match as_crypto_error (committing_open wrap_key (wrapped_audit_priv keys)) with
      | Err e => mret (Err e)
      | Ok priv_bytes =>
          priv ← copy_from_slice PRIVATE_KEY_LEN priv_bytes;
          mret (read_rows priv (sql_limit limit (newest_first s)))
      end
  end.

End Store.

(** ** Specification

    What the store promises: a key that reads it, the list of entries logged
    so far, and the sequence numbers whose head was signed. *)
Record AuditSpec : Type := mkSpec {
  sp_key : str;
  sp_entries : list AuditEntry;
  sp_signed : list Z
}.

(** The operations after bootstrap; [Rewrap] by a caller that knows the key. *)
Inductive audit_op : Type :=
| Log (rand : str) (now : Z) (act detail : str)
| SignNow (now : Z)
| Rewrap (nonce new_key : str).

Definition sp_next (sp : AuditSpec) : Z := (Z.of_nat (length (sp_entries sp)) + 1)%Z.

Definition spec_step (sp : AuditSpec) (op : audit_op) : AuditSpec :=
  match op with
  | Log _ now act detail =>
      mkSpec (sp_key sp) (sp_entries sp ++ [mkAuditEntry (sp_next sp) now act detail])
        (if (sp_next sp mod SIGN_INTERVAL =? 0)%Z then sp_signed sp ++ [sp_next sp] else sp_signed sp)
  | SignNow _ =>
      mkSpec (sp_key sp) (sp_entries sp)
        (match sp_entries sp with [] => sp_signed sp | _ => sp_signed sp ++ [(sp_next sp - 1)%Z] end)
  | Rewrap _ new_key => mkSpec new_key (sp_entries sp) (sp_signed sp)
  end.

(** The columns [verify_chain] reads. *)
Definition link (r : LogRow) : str * str * str := (commitment r, prev_hash r, hash r).

Section Refinement.
Context `{PrimitiveLaws} `{SqlAny}.
Context (utf8_error : str -> str).

Definition op_ok (op : audit_op) : Prop :=
  match op with Rewrap nonce _ => length nonce = NONCE_LEN | _ => True end.

Definition run_op (sp : AuditSpec) (op : audit_op) (s : AuditStore) : exec (Result unit) * AuditStore :=
  match op with
  | Log rand now act detail => log rand now act detail s
  | SignNow now => sign_head_now now s
  | Rewrap nonce new_key =>
      let r := rewrap_audit_key nonce s (sp_key sp) new_key in (Done r.1, r.2)
  end.

(** A stored row holds an entry. *)
Record row_ok (priv ck : str) (r : LogRow) (e : AuditEntry) : Prop := {
  ro_seq : seq r = e_seq e;
  ro_at : at_ r = e_at e;
  ro_action : action r = e_action e;
  ro_detail : hpke_open priv HPKE_INFO (sealed_detail r) = Ok (e_detail e);
  ro_commitment : commitment r = keyed_hash ck (e_detail e);
  ro_hash : length (hash r) = HASH_LEN
}.

Record sig_ok (k : AuditKeys) (rows : list LogRow) (x : HeadSignature) : Prop := {
  so_hash : length (hs_hash x) = HASH_LEN;
  so_length : length (signature x) = SIGNATURE_LEN;
  so_verify : verify (sign_pub k) (head_message (hs_seq x) (hs_hash x)) (signature x) = true;
  so_row : exists r, r ∈ rows /\ seq r = hs_seq x /\ hash r = hs_hash x
}.

Record keys_ok (priv wk : str) (k : AuditKeys) : Prop := {
  ko_priv : length priv = PRIVATE_KEY_LEN;
  ko_pub : audit_pub k = hpke_public priv;
  ko_open : committing_open wk (wrapped_audit_priv k) = Ok priv;
  ko_id : (audit_key_id k < 65536)%N;
  ko_chain : length (chain_key k) = CHAIN_KEY_LEN;
  ko_sign : sign_pub k = ed25519_public (sign_priv k);
  ko_seed : length (sign_priv k) = PRIVATE_KEY_LEN
}.

(** The refinement relation. *)
Record refines (s : AuditStore) (sp : AuditSpec) : Prop := {
  rf_keys : exists priv k, audit_keys s = Some k /\ keys_ok priv (sp_key sp) k /\
    Forall2 (row_ok priv (chain_key k)) (audit_log s) (sp_entries sp) /\
    verify_links (chain_key k) genesis_hash (audit_log s) = true /\
    Forall (sig_ok k (audit_log s)) (head_signatures s);
  rf_seq : last_seq s = Z.of_nat (length (sp_entries sp));
  rf_numbered : e_seq <$> sp_entries sp = Z.of_nat <$> List.seq 1 (length (sp_entries sp));
  rf_signed : hs_seq <$> head_signatures s = sp_signed sp
}.

(** *** Lemmas *)
Lemma load_keys_ok s priv wk k :
  audit_keys s = Some k -> keys_ok priv wk k -> load_keys s = Done (Ok k).
Proof.
  intros E [K1 K2 K3 K4 K5 K6 K7]. unfold load_keys. rewrite E.
  rewrite (copy_from_slice_ok _ (audit_pub k)) by (rewrite K2; by apply hpke_public_length).
  rewrite (copy_from_slice_ok _ (chain_key k)) by done.
  rewrite (copy_from_slice_ok _ (sign_pub k)) by (rewrite K6; by apply ed25519_public_length).
  rewrite (copy_from_slice_ok _ (sign_priv k)) by done.
  unfold mbind, exec_bind, mret, exec_ret. rewrite N.mod_small by done. by destruct k.
Qed.

(** What [log] slices has the length it slices to; of a store without keys
    only the hashes count. *)
Record sliceable (s : AuditStore) : Prop := {
  sl_keys k : audit_keys s = Some k -> length (audit_pub k) = PUBLIC_KEY_LEN /\
    length (chain_key k) = CHAIN_KEY_LEN /\ length (sign_pub k) = PUBLIC_KEY_LEN /\
    length (sign_priv k) = PRIVATE_KEY_LEN;
  sl_rows : Forall (fun r => length (hash r) = HASH_LEN) (audit_log s)
}.

(** Then logging does not panic. *)
Lemma log_done s rand now act detail :
  sliceable s -> exists r s', log rand now act detail s = (Done r, s') /\ sliceable s'.
Proof.
  intros Hs. pose proof (sl_keys s Hs) as Hk. pose proof (sl_rows s Hs) as Hr.
  unfold log, load_keys, mbind, St_bind, st_get, st_exec, st_mod.
  destruct (audit_keys s) as [k|] eqn:Ek; [|by do 2 eexists].
  destruct (Hk k eq_refl) as (K1 & K2 & K3 & K4). rewrite !copy_from_slice_ok by done.
  cbn [exec_bind mret exec_ret mbind audit_pub audit_key_id chain_key].
  assert (Hp : exists prev, (match head (newest_first s) with
      | Some row => copy_from_slice HASH_LEN (hash row) | None => Done genesis_hash end) = Done prev).
  { destruct (head (newest_first s)) as [row|] eqn:Eh; [|by eexists]. eexists. apply copy_from_slice_ok.
    rewrite Forall_forall in Hr. apply Hr. unfold newest_first in Eh.
    destruct (reverse (audit_log s)) as [|x l] eqn:El; [done|]. injection Eh as <-.
    apply elem_of_reverse. rewrite El. by left. }
  destruct Hp as [prev Hp]. unfold mret, exec_ret in *. rewrite Hp.
  destruct (as_crypto_error _) as [sealed|e]; [|by do 2 eexists].
  do 2 eexists. split; [reflexivity|]. unfold St_ret, mret. cbn [snd].
  assert (Hrow : forall c h d, length h = HASH_LEN -> sliceable (insert_log now act c prev h d s)).
  { intros c h d Hh. split; [exact (sl_keys s Hs)|]. unfold insert_log. cbn. apply Forall_app.
    split; [exact Hr|]. by constructor. }
  assert (Hsign : forall ks n h x, sliceable x -> sliceable (sign_head_locked now ks n h x)) by (intros ks n h x []; by split).
  destruct (_ =? 0)%Z; [apply Hsign|]; apply Hrow, hmac_length.
Qed.

(** The hash a link must carry as [prev_hash] after [rows]. *)
Definition chain_end (key : str) (prev : str) (rows : list LogRow) : str :=
  foldl (fun h r => chain_hash key h (commitment r)) prev rows.

Lemma verify_links_snoc key p rows r :
  verify_links key p (rows ++ [r]) = true <->
  verify_links key p rows = true /\ prev_hash r = chain_end key p rows /\
  hash r = chain_hash key (chain_end key p rows) (commitment r).
Proof.
  revert p. induction rows as [|x rows IH]; intros p; cbn.
  - destruct (str_eqb (prev_hash r) p) eqn:E; cbn; bool_facts.
    + destruct (str_eqb _ (hash r)) eqn:E2; cbn; bool_facts; split;
        [done|done|done|intros (_ & _ & ?); congruence].
    + split; [done|intros (_ & ? & _); congruence].
  - destruct (negb (str_eqb (prev_hash x) p)); [by split; [|intros (? & _)]|].
    destruct (negb (str_eqb _ (hash x))); [by split; [|intros (? & _)]|]. apply IH.
Qed.

Lemma chain_end_last key p rows r :
  verify_links key p (rows ++ [r]) = true -> chain_end key p (rows ++ [r]) = hash r.
Proof. intros (_ & _ & ->)%verify_links_snoc. unfold chain_end. by rewrite foldl_snoc. Qed.

Lemma sig_ok_snoc k rows r x : sig_ok k rows x -> sig_ok k (rows ++ [r]) x.
Proof. intros [? ? ? (y & ? & ?)]. split; try done. exists y. split; [|done]. apply elem_of_app. by left. Qed.

Lemma sig_ok_signed k rows r n now priv wk :
  keys_ok priv wk k -> length (hash r) = HASH_LEN -> r ∈ rows -> seq r = n ->
  sig_ok k rows (mkHeadSignature n (hash r) (sign (sign_priv k) (head_message n (hash r))) now).
Proof.
  intros Hk Hl Hr Hn. split; cbn [hs_hash signature hs_seq].
  - done.
  - apply ed25519_signature_length.
  - rewrite (ko_sign _ _ _ Hk). unfold verify, sign. rewrite ed25519_public_ok. apply ed25519_verify_sign.
  - by exists r.
Qed.

(** The previous hash [log] reads is the chain's end. *)
Lemma prev_hash_read s priv ck es :
  Forall2 (row_ok priv ck) (audit_log s) es ->
  verify_links ck genesis_hash (audit_log s) = true ->
  match head (newest_first s) with
  | Some row => copy_from_slice HASH_LEN (hash row)
  | None => mret genesis_hash
  end = Done (chain_end ck genesis_hash (audit_log s)).
Proof.
  intros Hf Hv. unfold newest_first. destruct (audit_log s) as [|r l _] using rev_ind; [done|].
  rewrite reverse_snoc. cbn [head]. rewrite (chain_end_last _ _ _ _ Hv).
  apply copy_from_slice_ok. apply Forall2_app_inv_l in Hf as (l1 & l2 & _ & Hr & _).
  inv Hr. by eapply ro_hash.
Qed.

Lemma sp_next_numbered sp e :
  e_seq <$> sp_entries sp = Z.of_nat <$> List.seq 1 (length (sp_entries sp)) -> e_seq e = sp_next sp ->
  e_seq <$> sp_entries sp ++ [e] = Z.of_nat <$> List.seq 1 (length (sp_entries sp ++ [e])).
Proof.
  intros Hn He. rewrite length_app, fmap_app, Hn. cbn [length fmap list_fmap]. rewrite He.
  rewrite Nat.add_1_r, seq_S, fmap_app. cbn [fmap list_fmap]. do 2 f_equal. unfold sp_next. lia.
Qed.

Lemma log_refines s sp rand now act detail :
  refines s sp ->
  exists s', log rand now act detail s = (Done (Ok tt), s') /\
    refines s' (spec_step sp (Log rand now act detail)).
Proof.
  intros [(priv & k & Ek & Hk & Hf & Hv & Hs) Hq Hnum Hsig].
  destruct (hpke_seal_to_account rand priv (audit_key_id k) HPKE_INFO detail (ko_priv _ _ _ Hk)) as [sealed Es].
  pose proof (prev_hash_read s priv (chain_key k) _ Hf Hv) as Hp.
  set (c := keyed_hash (chain_key k) detail).
  set (h := chain_hash (chain_key k) (chain_end (chain_key k) genesis_hash (audit_log s)) c).
  set (row := mkLogRow (last_seq s + 1) now act c (chain_end (chain_key k) genesis_hash (audit_log s)) h sealed).
  set (s1 := mkAuditStore (audit_keys s) (audit_log s ++ [row]) (last_seq s + 1) (head_signatures s)).
  exists ((if (sp_next sp mod SIGN_INTERVAL =? 0)%Z then sign_head_locked now k (sp_next sp) h else id) s1).
  split.
  { unfold log, mbind, St_bind, st_get, st_exec, st_mod.
    rewrite (load_keys_ok _ _ _ _ Ek Hk), Hp, (ko_pub _ _ _ Hk), Es. cbn [as_crypto_error].
    unfold insert_log. fold c h row s1. unfold sp_next. rewrite <- Hq. reflexivity. }
  assert (Hrow : row_ok priv (chain_key k) row (mkAuditEntry (sp_next sp) now act detail)).
  { split; cbn; try done; [unfold sp_next; by rewrite Hq| |apply hmac_length].
    apply (hpke_open_seal_ok rand priv (audit_key_id k)); [apply Hk|apply Hk|done]. }
  assert (Hv1 : verify_links (chain_key k) genesis_hash (audit_log s ++ [row]) = true)
    by (by apply verify_links_snoc).
  assert (Hs1 : Forall (sig_ok k (audit_log s ++ [row])) (head_signatures s))
    by (eapply Forall_impl; [exact Hs|intros; by apply sig_ok_snoc]).
  assert (Hq1 : (last_seq s + 1)%Z = Z.of_nat (length (sp_entries sp ++ [mkAuditEntry (sp_next sp) now act detail])))
    by (rewrite length_app; cbn [length]; lia).
  pose proof (sp_next_numbered sp (mkAuditEntry (sp_next sp) now act detail) Hnum eq_refl) as Hnum1.
  cbn [spec_step]. destruct (_ =? _)%Z; unfold id; split; cbn [audit_keys audit_log last_seq head_signatures
    sign_head_locked s1 sp_entries sp_signed sp_key]; try done.
  - exists priv, k. split_and!; try done; [by apply Forall2_app; [|constructor]|].
    apply Forall_app. split; [done|]. constructor; [|constructor].
    apply (sig_ok_signed k _ row _ now priv (sp_key sp)); [done|apply hmac_length| |].
    + apply elem_of_app. right. by apply list_elem_of_singleton.
    + cbn. unfold sp_next. by rewrite Hq.
  - by rewrite fmap_app, Hsig.
  - exists priv, k. split_and!; try done. by apply Forall2_app; [|constructor].
Qed.

Lemma sign_refines s sp now :
  refines s sp ->
  exists s', sign_head_now now s = (Done (Ok tt), s') /\ refines s' (spec_step sp (SignNow now)).
Proof.
  intros [(priv & k & Ek & Hk & Hf & Hv & Hs) Hq Hnum Hsig].
  unfold sign_head_now, mbind, St_bind, st_get, st_exec, st_mod, mret, St_ret.
  rewrite (load_keys_ok _ _ _ _ Ek Hk). unfold newest_first.
  destruct (audit_log s) as [|r l _] eqn:El using rev_ind.
  { apply Forall2_nil_inv_l in Hf. eexists. split; [reflexivity|].
    cbn [spec_step]. rewrite Hf. split; cbn [sp_key sp_entries sp_signed]; rewrite <- ?Hf; try done.
    exists priv, k. by rewrite El, Hf. }
  rewrite reverse_snoc. cbn [head].
  apply Forall2_app_inv_l in Hf as (es & es' & Hf & Hr & He). inv Hr.
  match goal with Hx : Forall2 _ [] _ |- _ => inv Hx end.
  match goal with Hx : row_ok _ _ _ ?x |- _ => rename Hx into Hrow; set (e := x) in * end.
  rewrite copy_from_slice_ok by (by eapply ro_hash). eexists. split; [reflexivity|].
  assert (Hne : seq r = (sp_next sp - 1)%Z).
  { rewrite (ro_seq _ _ _ _ Hrow). unfold sp_next. rewrite He in Hnum |- *.
    rewrite length_app in Hnum |- *. cbn [length] in Hnum |- *.
    rewrite Nat.add_1_r, seq_S, !fmap_app in Hnum. apply app_inj_2 in Hnum as [_ Hl]; [|done].
    cbn in Hl. inv Hl. fold e. lia. }
  cbn [spec_step]. split; cbn [sp_key sp_entries sp_signed]; try done.
  - exists priv, k. cbn [sign_head_locked audit_keys audit_log head_signatures]. rewrite El, He.
    split_and!; try done; [by apply Forall2_app; [|constructor]|].
    apply Forall_app. split; [done|]. constructor; [|constructor].
    eapply sig_ok_signed; [exact Hk|by eapply ro_hash| |done].
    apply elem_of_app. right. by apply list_elem_of_singleton.
  - cbn [sign_head_locked head_signatures]. rewrite fmap_app, Hsig. cbn. rewrite Hne, He.
    by destruct es.
Qed.

Lemma rewrap_refines s sp nonce new_key :
  refines s sp -> length nonce = NONCE_LEN ->
  exists s', rewrap_audit_key nonce s (sp_key sp) new_key = (Ok tt, s') /\
    refines s' (spec_step sp (Rewrap nonce new_key)).
Proof.
  intros [(priv & k & Ek & Hk & Hf & Hv & Hs) Hq Hnum Hsig] Hn.
  unfold rewrap_audit_key. rewrite Ek, (ko_open _ _ _ Hk). cbn [as_crypto_error].
  eexists. split; [reflexivity|]. cbn [spec_step]. split; cbn [sp_key sp_entries sp_signed]; try done.
  exists priv. eexists. split; [reflexivity|]. cbn [chain_key].
  assert (Hid : ((audit_key_id k + 1) mod 65536 < 65536)%N) by (apply N.mod_lt; lia).
  split_and!; try done.
  - destruct Hk. split; cbn; try done. by apply committing_open_seal.
  - eapply Forall_impl; [exact Hs|]. intros x [? ? ? ?]. by split.
Qed.

Lemma run_op_refines s sp op :
  refines s sp -> op_ok op ->
  exists s', run_op sp op s = (Done (Ok tt), s') /\ refines s' (spec_step sp op).
Proof.
  intros Hr Ho. destruct op as [rand now act detail|now|nonce new_key]; cbn [run_op].
  - by apply log_refines.
  - by apply sign_refines.
  - destruct (rewrap_refines s sp nonce new_key Hr Ho) as (s' & -> & ?). by exists s'.
Qed.

(** *** Reading back *)
Lemma read_rows_ok priv ck rows es :
  Forall2 (row_ok priv ck) rows es -> Forall (fun e => valid_utf8 (e_detail e) = true) es ->
  read_rows utf8_error priv rows = Ok es.
Proof.
  induction 1 as [|r e rows es Hr Hrs IH]; intros Hu; [done|]. inv Hu. cbn [read_rows].
  rewrite (ro_detail _ _ _ _ Hr). cbn [as_crypto_error]. unfold mbind, result_bind, from_utf8.
  match goal with Hx : valid_utf8 _ = true |- _ => rewrite Hx end. rewrite IH by done.
  rewrite (ro_seq _ _ _ _ Hr), (ro_at _ _ _ _ Hr), (ro_action _ _ _ _ Hr). by destruct e.
Qed.

Lemma read_recent_refines s sp limit :
  refines s sp -> Forall (fun e => valid_utf8 (e_detail e) = true) (sp_entries sp) ->
  read_recent utf8_error s (sp_key sp) limit = Done (Ok (sql_limit limit (reverse (sp_entries sp)))).
Proof.
  intros [(priv & k & Ek & Hk & Hf & Hv & Hs) Hq Hnum Hsig] Hu. unfold read_recent, mbind, exec_bind.
  rewrite (load_keys_ok _ _ _ _ Ek Hk), (ko_open _ _ _ Hk). cbn [as_crypto_error].
  rewrite copy_from_slice_ok by apply Hk. unfold mret, exec_ret. do 2 f_equal.
  apply (read_rows_ok priv (chain_key k)).
  - apply Forall2_sql_limit. by apply Forall2_reverse.
  - by apply Forall_sql_limit, Forall_reverse.
Qed.

Lemma verify_chain_refines s sp : refines s sp -> verify_chain s = Done (Ok true).
Proof.
  intros [(priv & k & Ek & Hk & Hf & Hv & Hs) Hq Hnum Hsig]. unfold verify_chain, mbind, exec_bind.
  by rewrite (load_keys_ok _ _ _ _ Ek Hk), Hv.
Qed.

Lemma verify_signature_refines s sp :
  refines s sp ->
  verify_latest_signature s = Done (Ok (match sp_signed sp with [] => None | _ => Some true end)).
Proof.
  intros [(priv & k & Ek & Hk & Hf & Hv & Hs) Hq Hnum Hsig].
  unfold verify_latest_signature, mbind, exec_bind. rewrite (load_keys_ok _ _ _ _ Ek Hk), <- Hsig.
  destruct (latest_signature s) as [x|] eqn:El; unfold latest_signature in El.
  - apply any_row_in, elem_of_filter_list in El as [Hx _].
    rewrite Forall_forall in Hs. destruct (Hs x Hx) as [Hh Hl Hver _].
    rewrite !copy_from_slice_ok by done. rewrite Hver.
    by destruct (head_signatures s); [by apply elem_of_nil in Hx|].
  - apply any_row_none, filter_max_nonempty in El. by rewrite El.
Qed.

Lemma bootstrap_refines audit_priv seed ck nonce wk :
  length audit_priv = PRIVATE_KEY_LEN -> length seed = PRIVATE_KEY_LEN ->
  length ck = CHAIN_KEY_LEN -> length nonce = NONCE_LEN ->
  refines (bootstrap_keys audit_priv seed ck nonce empty_audit wk).2 (mkSpec wk [] []).
Proof.
  intros Hp Hseed Hc Hn. split; cbn; try done. exists audit_priv. eexists. split; [reflexivity|].
  split_and!; try done; try constructor; cbn; try done. by apply committing_open_seal.
Qed.

(** A run of operations, with the specification state alongside (it holds
    the current wrap key, which [Rewrap]'s caller knows). *)
Fixpoint run_ops (sp : AuditSpec) (ops : list audit_op) (s : AuditStore) : exec (Result unit) * AuditStore :=
  match ops with
  | [] => (Done (Ok tt), s)
  | op :: ops =>
      match run_op sp op s with
      | (Done (Ok _), s') => run_ops (spec_step sp op) ops s'
      | r => r
      end
  end.

Lemma run_ops_refines ops s sp :
  refines s sp -> Forall op_ok ops ->
  exists s', run_ops sp ops s = (Done (Ok tt), s') /\ refines s' (foldl spec_step sp ops).
Proof.
  revert s sp. induction ops as [|op ops IH]; intros s sp Hr Ho; cbn; [by exists s|]. inv Ho.
  destruct (run_op_refines s sp op Hr) as (s1 & E & Hr1); [done|]. rewrite E. by apply IH.
Qed.

Lemma verify_links_map key p f rows :
  (forall r, link (f r) = link r) -> verify_links key p (f <$> rows) = verify_links key p rows.
Proof.
  intros Hf. revert p. induction rows as [|r l IH]; intros p; cbn; [done|].
  pose proof (Hf r) as Hr. unfold link in Hr. injection Hr as -> -> ->.
  destruct (negb _); [done|]. destruct (negb _); [done|]. apply IH.
Qed.

(** *** Properties *)

(** C26.  The audit store refines its specification (a readable append-only
    list): bootstrapped, and then driven by any sequence of logging, forced
    head signatures and key rewraps, every operation succeeds; the current
    key -- the last rewrap's -- reads back exactly the entries logged, newest
    first, numbered 1, 2, 3, ...; the chain verifies; and the latest head
    signature verifies as soon as one of the entry numbers divisible by 20
    has been reached or a signature has been forced. *)
Theorem audit_log_refines_spec (audit_priv seed ck nonce wk : str) (ops : list audit_op) :
  length audit_priv = PRIVATE_KEY_LEN -> length seed = PRIVATE_KEY_LEN ->
  length ck = CHAIN_KEY_LEN -> length nonce = NONCE_LEN -> Forall op_ok ops ->
  let sp := foldl spec_step (mkSpec wk [] []) ops in
  exists s, run_ops (mkSpec wk [] []) ops (bootstrap_keys audit_priv seed ck nonce empty_audit wk).2
            = (Done (Ok tt), s) /\
    e_seq <$> sp_entries sp = Z.of_nat <$> List.seq 1 (length (sp_entries sp)) /\
    (Forall (fun e => valid_utf8 (e_detail e) = true) (sp_entries sp) ->
     forall limit, read_recent utf8_error s (sp_key sp) limit
                   = Done (Ok (sql_limit limit (reverse (sp_entries sp))))) /\
    verify_chain s = Done (Ok true) /\
    verify_latest_signature s = Done (Ok (match sp_signed sp with [] => None | _ => Some true end)).
Proof.
  intros Hp Hs Hc Hn Ho sp.
  destruct (run_ops_refines ops _ _ (bootstrap_refines audit_priv seed ck nonce wk Hp Hs Hc Hn) Ho)
    as (s & E & Hr). exists s. split_and!.
  - exact E.
  - apply (rf_numbered _ _ Hr).
  - intros Hu limit. by apply read_recent_refines.
  - by eapply verify_chain_refines.
  - by apply verify_signature_refines.
Qed.

(** What the chain and the head signatures do not cover: rewriting
    the time, the action label, the number or the sealed detail of any
    entries leaves [verify_chain]'s answer as it was, and
    [verify_latest_signature] answers the same whatever the log holds -- it
    never looks at the entry the signature claims to cover. *)
Theorem audit_metadata_unprotected (s : AuditStore) (f : LogRow -> LogRow) (rows : list LogRow) :
  (forall r, link (f r) = link r) ->
  let with_log l := mkAuditStore (audit_keys s) l (last_seq s) (head_signatures s) in
  verify_chain (with_log (f <$> audit_log s)) = verify_chain s /\
  verify_latest_signature (with_log rows) = verify_latest_signature s.
Proof.
  intros Hf with_log. split; [|reflexivity]. unfold verify_chain.
  change (load_keys (with_log (f <$> audit_log s))) with (load_keys s).
  destruct (load_keys s) as [[k|e]|]; [|done|done]. unfold mbind, exec_bind, with_log. cbn [audit_log].
  by rewrite verify_links_map.
Qed.

End Refinement.

Section Tampering.
Context `{PrimitiveLaws}.

(** *** Tampering *)
(** What the chain hashes. *)
Fixpoint chain_inputs (key prev : str) (rows : list LogRow) : list str :=
  match rows with
  | [] => []
  | r :: rows => (prev ++ commitment r) :: chain_inputs key (chain_hash key prev (commitment r)) rows
  end.

Lemma chain_inputs_snoc key p rows r :
  chain_inputs key p (rows ++ [r]) = chain_inputs key p rows ++ [chain_end key p rows ++ commitment r].
Proof. revert p. induction rows as [|x rows IH]; intros p; cbn; [done|]. by rewrite IH. Qed.

Lemma chain_end_length key rows : length (chain_end key genesis_hash rows) = HASH_LEN.
Proof.
  destruct rows as [|r rows _] using rev_ind; [done|]. unfold chain_end. rewrite foldl_snoc.
  apply hmac_length.
Qed.

Lemma same_head_same_links key rows rows' :
  verify_links key genesis_hash rows = true -> verify_links key genesis_hash rows' = true ->
  chain_end key genesis_hash rows = chain_end key genesis_hash rows' ->
  link <$> rows = link <$> rows' \/
  (exists d d', d ∈ chain_inputs key genesis_hash rows /\ d' ∈ chain_inputs key genesis_hash rows' /\
     d <> d' /\ keyed_hash key d = keyed_hash key d') \/
  (exists d, d ∈ chain_inputs key genesis_hash rows ++ chain_inputs key genesis_hash rows' /\
     keyed_hash key d = genesis_hash).
Proof.
  revert rows'. induction rows as [|r rows IH] using rev_ind; intros rows' Hv Hv' He.
  - destruct rows' as [|r' rows' _] using rev_ind; [by left|]. right. right.
    unfold chain_end in He. rewrite foldl_snoc in He. eexists. split; [|symmetry; exact He].
    rewrite chain_inputs_snoc. set_solver.
  - destruct rows' as [|r' rows' _] using rev_ind.
    { right. right. unfold chain_end in He. rewrite foldl_snoc in He. eexists. split; [|exact He].
      rewrite chain_inputs_snoc. set_solver. }
    pose proof He as He'. unfold chain_end in He'. rewrite !foldl_snoc in He'. unfold chain_hash in He' at 1 3.
    fold (chain_end key genesis_hash rows) (chain_end key genesis_hash rows') in He'.
    rewrite !chain_inputs_snoc.
    destruct (decide (chain_end key genesis_hash rows ++ commitment r
                      = chain_end key genesis_hash rows' ++ commitment r')) as [Eq|Hne].
    + apply app_inj_1 in Eq as [E1 E2]; [|by rewrite !chain_end_length].
      pose proof (chain_end_last _ _ _ _ Hv) as Hl. pose proof (chain_end_last _ _ _ _ Hv') as Hl'.
      apply verify_links_snoc in Hv as (Hv & Hp & Hh), Hv' as (Hv' & Hp' & Hh').
      destruct (IH rows' Hv Hv' E1) as [Hlk|[(d & d' & ? & ? & ? & ?)|(d & Hd & ?)]].
      * left. rewrite !fmap_app, Hlk. cbn. unfold link. by rewrite E2, Hp, Hp', E1, Hh, Hh', E1, E2.
      * right. left. exists d, d'. set_solver.
      * right. right. exists d. set_solver.
    + right. left. do 2 eexists. split_and!; [| |exact Hne|exact He'].
      * apply elem_of_app. right. by apply list_elem_of_singleton.
      * apply elem_of_app. right. by apply list_elem_of_singleton.
Qed.

(** C34.  Tampering with the chained columns needs a hash collision: two
    logs that both pass [verify_chain] under the same keys and end in the
    same head hash agree on every (commitment, previous hash, hash), unless
    two different strings the chain hashes collide or one hashes to the
    all-zero genesis value. *)
Theorem chain_tampering_needs_collision (s s' : AuditStore) (k : AuditKeys) :
  load_keys s = Done (Ok k) -> load_keys s' = Done (Ok k) ->
  verify_chain s = Done (Ok true) -> verify_chain s' = Done (Ok true) ->
  chain_end (chain_key k) genesis_hash (audit_log s) = chain_end (chain_key k) genesis_hash (audit_log s') ->
  let inputs t := chain_inputs (chain_key k) genesis_hash (audit_log t) in
  link <$> audit_log s = link <$> audit_log s' \/
  (exists d d', d ∈ inputs s /\ d' ∈ inputs s' /\ d <> d' /\
     keyed_hash (chain_key k) d = keyed_hash (chain_key k) d') \/
  (exists d, d ∈ inputs s ++ inputs s' /\ keyed_hash (chain_key k) d = genesis_hash).
Proof.
  intros Ek Ek' Hv Hv' He. unfold verify_chain in Hv, Hv'. rewrite Ek in Hv. rewrite Ek' in Hv'.
  unfold mbind, exec_bind, mret, exec_ret in Hv, Hv'. inv Hv. inv Hv'.
  by apply same_head_same_links.
Qed.

End Tampering.

(** ** Witnesses *)
#[local] Existing Instance toy_primitives.
#[local] Existing Instance toy_laws.
#[local] Existing Instance first_row.

Definition wit_ops : list audit_op :=
  [Log [] 10 (# "auth.login") (# "alice"); Rewrap (pad 24 []) (# "new key");
   Log [] 11 (# "smtp.session") (# "bob"); SignNow 12].
Definition wit_store : AuditStore :=
  (run_ops (mkSpec (# "key") [] []) wit_ops
     (bootstrap_keys (pad 32 (# "priv")) (pad 32 (# "seed")) (pad 32 []) (pad 24 []) empty_audit (# "key")).2).2.

Lemma audit_log_refines_spec_witness :
  exists s, run_ops (mkSpec (# "key") [] []) wit_ops
      (bootstrap_keys (pad 32 (# "priv")) (pad 32 (# "seed")) (pad 32 []) (pad 24 []) empty_audit (# "key")).2
      = (Done (Ok tt), s) /\ verify_chain s = Done (Ok true) /\
    verify_latest_signature s = Done (Ok (Some true)).
Proof.
  destruct (audit_log_refines_spec id (pad 32 (# "priv")) (pad 32 (# "seed")) (pad 32 []) (pad 24 [])
    (# "key") wit_ops eq_refl eq_refl eq_refl eq_refl) as (s & E & _ & _ & Hv & Hs).
  - unfold wit_ops. repeat constructor.
  - exists s. exact (conj E (conj Hv Hs)).
Defined.

Lemma chain_tampering_needs_collision_witness :
  link <$> audit_log wit_store = link <$> audit_log wit_store \/
  (exists d d', d ∈ chain_inputs (pad 32 []) genesis_hash (audit_log wit_store) /\
     d' ∈ chain_inputs (pad 32 []) genesis_hash (audit_log wit_store) /\ d <> d' /\
     keyed_hash (pad 32 []) d = keyed_hash (pad 32 []) d') \/
  (exists d, d ∈ chain_inputs (pad 32 []) genesis_hash (audit_log wit_store)
               ++ chain_inputs (pad 32 []) genesis_hash (audit_log wit_store) /\
     keyed_hash (pad 32 []) d = genesis_hash).
Proof.
  assert (E : exists k, load_keys wit_store = Done (Ok k) /\ chain_key k = pad 32 [])
    by (eexists; split; vm_compute; reflexivity).
  destruct E as (k & Ek & Ec). rewrite <- Ec.
  apply (chain_tampering_needs_collision wit_store wit_store k Ek Ek);
    [vm_compute; reflexivity|vm_compute; reflexivity|reflexivity].
Defined.

Lemma audit_metadata_unprotected_witness :
  verify_chain (mkAuditStore (audit_keys wit_store)
     ((fun r => mkLogRow 7 0 (# "forged") (commitment r) (prev_hash r) (hash r) (# "junk"))
        <$> audit_log wit_store) (last_seq wit_store) (head_signatures wit_store)) = verify_chain wit_store.
Proof. apply (audit_metadata_unprotected wit_store _ []). reflexivity. Defined.
