(* ===== verification/Delivery.v ===== *)
(** * Delivery: sealing and filing inbound mail, [delivery]

    src/crates/delivery/src/lib.rs: [deliver] classifies a message, seals it
    to the recipient's public key, writes the blob and the metadata row;
    [open_blob] and [open_message] are the inverse.  The RFC 5322 parser
    (mail_parser) is a parameter. *)

From stdpp Require Import base list strings gmap sorting.
From Stdlib Require Import Ascii ZArith Lia.
From S2P Require Import Prelude RustStr Header Store Sealing.
Import Store.Blob Store.Subject Store.Metadata.

Definition DEK_SEAL_INFO : str := # "litterae/message-dek/v1".

(** What [deliver] reads of mail_parser's result. *)
Inductive HeaderValue : Type := Text (s : str) | TextList (l : list str) | OtherValue.

Record ParsedMessage : Type := mkParsed {
  p_message_id : option str;
  p_in_reply_to : HeaderValue;
  p_references : HeaderValue;
  p_subject : option str
}.

Record ScanMetadata : Type := mkScanMetadata { sm_spam_score : option f64; sm_av_clean : option bool }.

Record InboundEnvelope : Type := mkInbound { ie_mail_from : str; ie_rcpt_to : str; ie_remote_ip : str }.

Record AuthResults : Type := mkAuthResults { spf : str; dkim : str; dmarc : str }.

Record DeliveredMessage : Type := mkDelivered { message_id : Z; delivered_hash : str }.

Record RecipientAccount : Type := mkRecipient { ra_id : Z; ra_account_pub : str; ra_key_id : N }.

(** The two stores a delivery writes. *)
Record MailStore : Type := mkMailStore { blobs : BlobStore; metadata : MetadataStore }.

(** The random draws of one delivery. *)
Record DeliverRand : Type := mkDeliverRand { dr_dek : str; dr_nonce : str; dr_hpke : str }.

Definition rand_ok (r : DeliverRand) : Prop :=
  length (dr_dek r) = 32%nat /\ length (dr_nonce r) = NONCE_LEN.

Definition header_value_ids (v : HeaderValue) : list str :=
  match v with Text s => [s] | TextList l => l | OtherValue => [] end.

(** [(!s.is_empty()).then_some(s)]. *)
Definition non_empty (s : str) : option str := match s with [] => None | _ => Some s end.

Section Delivery.
Context `{Primitives} `{BlobHash} `{SqlAny}.
Context (parse : str -> option ParsedMessage).       (* MessageParser::parse *)
Context (to_lowercase : str -> str).                 (* str::to_lowercase *)

Definition seal_for_account (rnd : DeliverRand) (b : BlobStore) (account_pub : str) (key_id : N) (raw : str)
    : Result (str * str) * BlobStore :=
  let sealed_blob := aead_seal (dr_nonce rnd) (dr_dek rnd) 1 raw in
  match write b sealed_blob with
  | (Err e, b') => (Err e, b')
  | (Ok blob_hash, b') =>
      match as_crypto_error (hpke_seal (dr_hpke rnd) account_pub key_id DEK_SEAL_INFO (dr_dek rnd)) with
      | Err e => (Err e, b')
      | Ok dek_wrap => (Ok (blob_hash, dek_wrap), b')
      end
  end.

(** The salted subject hash. *)
Definition subject_hash_of (account : RecipientAccount) (parsed : ParsedMessage) : exec (option str) :=
  match p_subject parsed with
  | None => mret None
  | Some s =>
      normalized ← normalize_subject to_lowercase s;
      mret (Some (hash_hex (ra_account_pub account ++ normalized)))
  end.

Definition new_message (account : RecipientAccount) (envelope : InboundEnvelope) (auth : AuthResults)
    (raw : str) (received : Z) (spam_reason : option str) (scan : ScanMetadata) (parsed : ParsedMessage)
    (subj : option str) (mailbox thread : Z) (hash wrap : str) : NewMessage := {|
  account_id := ra_id account;
  mailbox_id := mailbox;
  thread_id := thread;
  blob_hash := hash;
  dek_wrap := wrap;
  mail_from := ie_mail_from envelope;
  rcpt_to := ie_rcpt_to envelope;
  remote_ip := ie_remote_ip envelope;
  size_bytes := Z.of_nat (length raw);
  spf_result := spf auth;
  dkim_result := dkim auth;
  dmarc_result := dmarc auth;
  received_at := received;
  keywords := match spam_reason with Some _ => KEYWORD_JUNK | None => [] end;
  message_id_header := p_message_id parsed;
  in_reply_to := non_empty (join (# " ") (header_value_ids (p_in_reply_to parsed)));
  references_header := non_empty (join (# " ") (header_value_ids (p_references parsed)));
  subject_hash := subj;
  spam_score := sm_spam_score scan;
  av_clean := sm_av_clean scan
|}.

Definition deliver (rnd : DeliverRand) (account : RecipientAccount) (envelope : InboundEnvelope)
    (auth : AuthResults) (raw : str) (received : Z) (spam_reason : option str) (scan : ScanMetadata)
    : St MailStore (Result DeliveredMessage) :=
  match parse raw with
  | None => mret (Err (Storage (# "unparseable RFC5322 message")))
  | Some parsed =>
      let all_reference_ids :=
        header_value_ids (p_in_reply_to parsed) ++ header_value_ids (p_references parsed) in
      subj ← st_exec (subject_hash_of account parsed);
      s ← st_get;
      let role := match spam_reason with Some _ => ROLE_JUNK | None => ROLE_INBOX end in
      let '(mb, m1) := ensure_mailbox (metadata s) (ra_id account) role in
      _ ← st_put (mkMailStore (blobs s) m1);
      match mb with
      | Err e => mret (Err e)
      | Ok mailbox =>
          let '(thread, m2) := find_or_create_thread m1 (mkThreadMatch (ra_id account) all_reference_ids subj) in
          let '(sealed, b') := seal_for_account rnd (blobs s) (ra_account_pub account) (ra_key_id account) raw in
          _ ← st_put (mkMailStore b' m2);
          match sealed with
          | Err e => mret (Err e)
          | Ok (hash, wrap) =>
              let '(id, m3) := insert_message m2
                (new_message account envelope auth raw received spam_reason scan parsed subj
                   (mb_id mailbox) thread hash wrap) in
              _ ← st_put (mkMailStore b' m3);
              mret (Ok (mkDelivered id hash))
          end
      end
  end.

Definition open_blob (b : BlobStore) (hash wrap account_priv : str) : exec (Result str) :=
  match as_crypto_error (hpke_open account_priv DEK_SEAL_INFO wrap) with
  | Err e => mret (Err e)
  | Ok dek =>
      dek_bytes ← copy_from_slice 32 dek;
      match read b hash with
      | Err e => mret (Err e)
      | Ok sealed_blob => mret (as_crypto_error (aead_open dek_bytes sealed_blob))
      end
  end.

Definition open_message (b : BlobStore) (stored : NewMessage) (account_priv : str) : exec (Result str) :=
  open_blob b (blob_hash stored) (dek_wrap stored) account_priv.

End Delivery.

(** ** Lemmas *)
Section Facts.
Context `{PrimitiveLaws} `{BlobHash} `{SqlAny}.
Context (parse : str -> option ParsedMessage) (to_lowercase : str -> str).

Definition mail_inv (s : MailStore) : Prop := meta_inv (metadata s) /\ intact (blobs s).

Lemma role_of_spam_system (spam : option str) :
  system_role (match spam with Some _ => ROLE_JUNK | None => ROLE_INBOX end).
Proof.
  apply (bool_decide_unpack (system_role _)). destruct spam; vm_compute; done.
Qed.

(** Sealing always succeeds for an account key. *)
Lemma seal_for_account_ok rnd b sk key_id raw :
  length sk = PRIVATE_KEY_LEN ->
  exists wrap, seal_for_account rnd b (hpke_public sk) key_id raw
    = (Ok (hash_hex (aead_seal (dr_nonce rnd) (dr_dek rnd) 1 raw), wrap),
       (write b (aead_seal (dr_nonce rnd) (dr_dek rnd) 1 raw)).2) /\
    hpke_seal (dr_hpke rnd) (hpke_public sk) key_id DEK_SEAL_INFO (dr_dek rnd) = Ok wrap.
Proof.
  intros Hsk. destruct (hpke_seal_to_account (dr_hpke rnd) sk key_id DEK_SEAL_INFO (dr_dek rnd) Hsk)
    as [wrap Ew]. exists wrap. unfold seal_for_account.
  destruct (write_ok b (aead_seal (dr_nonce rnd) (dr_dek rnd) 1 raw)) as [b' Eb].
  by rewrite Eb, Ew.
Qed.

(** What sealing writes, opening reads. *)
Lemma open_sealed rnd b sk key_id raw wrap :
  length sk = PRIVATE_KEY_LEN -> (key_id < 65536)%N -> rand_ok rnd -> intact b ->
  let sealed := aead_seal (dr_nonce rnd) (dr_dek rnd) 1 raw in
  (forall c, read b (hash_hex sealed) = Ok c -> c = sealed) ->
  hpke_seal (dr_hpke rnd) (hpke_public sk) key_id DEK_SEAL_INFO (dr_dek rnd) = Ok wrap ->
  open_blob (write b sealed).2 (hash_hex sealed) wrap sk = Done (Ok raw).
Proof.
  intros Hsk Hk [Hd Hn] Hb sealed Hc Ew. unfold open_blob.
  rewrite (hpke_open_seal_ok _ _ _ _ _ _ Hk Hsk Ew). cbn [as_crypto_error].
  rewrite copy_from_slice_ok by done. unfold mbind, exec_bind.
  rewrite write_read by done. unfold sealed. by rewrite aead_open_seal.
Qed.

Lemma open_blob_kept b bytes h wrap sk raw :
  open_blob b h wrap sk = Done (Ok raw) -> open_blob (write b bytes).2 h wrap sk = Done (Ok raw).
Proof.
  unfold open_blob. destruct (as_crypto_error _) as [dek|]; [|done].
  destruct (copy_from_slice 32 dek) as [k|]; [|done]. unfold mbind, exec_bind.
  destruct (read b h) as [c|] eqn:E; [|done]. by rewrite (write_keeps _ _ _ _ E).
Qed.

(** The successful path of [deliver], step by step. *)
Record delivery_run (rnd : DeliverRand) (account : RecipientAccount) (envelope : InboundEnvelope)
    (auth : AuthResults) (raw : str) (received : Z) (spam : option str) (scan : ScanMetadata)
    (s s' : MailStore) (dm : DeliveredMessage) : Prop := {
  dl_row : exists parsed subj mb th wrap,
    let sealed := aead_seal (dr_nonce rnd) (dr_dek rnd) 1 raw in
    let row := new_message account envelope auth raw received spam scan parsed subj (mb_id mb) th
                 (hash_hex sealed) wrap in
    parse raw = Some parsed /\ subject_hash_of to_lowercase account parsed = Done subj /\
    messages (metadata s') = messages (metadata s) ++ [mkStored (message_id dm) row] /\
    mb ∈ mailboxes (metadata s') /\
    mb_key mb = (ra_id account, match spam with Some _ => ROLE_JUNK | None => ROLE_INBOX end) /\
    hpke_seal (dr_hpke rnd) (ra_account_pub account) (ra_key_id account) DEK_SEAL_INFO (dr_dek rnd) = Ok wrap;
  dl_hash : delivered_hash dm = hash_hex (aead_seal (dr_nonce rnd) (dr_dek rnd) 1 raw);
  dl_blobs : blobs s' = (write (blobs s) (aead_seal (dr_nonce rnd) (dr_dek rnd) 1 raw)).2;
  dl_meta : meta_inv (metadata s')
}.

Lemma deliver_runs rnd account envelope auth raw received spam scan s parsed subj sk :
  meta_inv (metadata s) -> length sk = PRIVATE_KEY_LEN -> ra_account_pub account = hpke_public sk ->
  parse raw = Some parsed -> subject_hash_of to_lowercase account parsed = Done subj ->
  exists dm s', deliver parse to_lowercase rnd account envelope auth raw received spam scan s
                = (Done (Ok dm), s') /\
    delivery_run rnd account envelope auth raw received spam scan s s' dm.
Proof.
  intros Hm Hsk Hpub Ep Esubj.
  unfold deliver. rewrite Ep. unfold mbind, St_bind, st_exec, st_get, st_put. rewrite Esubj.
  destruct (ensure_mailbox_spec (metadata s) (ra_id account) _ Hm (role_of_spam_system spam))
    as (mb & m1 & Emb & Hkey & Hin & Hm1 & _ & _ & Hmsg & _). rewrite Emb.
  set (tm := mkThreadMatch _ _ _). pose proof (find_or_create_thread_spec m1 tm Hm1) as Hth.
  destruct (find_or_create_thread m1 tm) as [th m2]. destruct Hth as (Hm2 & Hown & Hmb2 & Hmsg2 & _).
  destruct (seal_for_account_ok rnd (blobs s) sk (ra_key_id account) raw Hsk) as (wrap & Es & Ew).
  rewrite Hpub, Es. cbn [insert_message]. do 2 eexists. split; [reflexivity|].
  assert (Hok : mailbox_of m2 (ra_id account) (mb_id mb)).
  { exists mb. rewrite Hmb2. split_and!; [done|done|]. unfold mb_key in Hkey. by inv Hkey. }
  split; cbn [metadata blobs message_id delivered_hash]; try done.
  - exists parsed, subj, mb, th, wrap. cbn [messages mailboxes with_messages].
    rewrite Hmsg2, Hmsg, Hmb2, Hpub. split_and!; done.
  - by apply insert_message_inv.
Qed.

(** Whatever happens, a delivery adds at most one message, and that one for
    the recipient. *)
Lemma ensure_mailbox_messages s account role : messages (ensure_mailbox s account role).2 = messages s.
Proof. reflexivity. Qed.

Lemma find_or_create_thread_messages s m : messages (find_or_create_thread s m).2 = messages s.
Proof. unfold find_or_create_thread. by repeat case_match. Qed.

Lemma deliver_appends rnd account envelope auth raw received spam scan s :
  let r := deliver parse to_lowercase rnd account envelope auth raw received spam scan s in
  (messages (metadata r.2) = messages (metadata s) /\ forall dm, r.1 <> Done (Ok dm)) \/
  (exists dm row, r.1 = Done (Ok dm) /\
     messages (metadata r.2) = messages (metadata s) ++ [mkStored (message_id dm) row] /\
     account_id row = ra_id account /\ rcpt_to row = ie_rcpt_to envelope /\ mail_from row = ie_mail_from envelope).
Proof.
  cbn zeta. unfold deliver, mbind, St_bind, st_exec, st_get, st_put.
  destruct (parse raw) as [p|]; [|by left].
  destruct (subject_hash_of to_lowercase account p) as [subj|]; [|by left].
  set (role := match spam with Some _ => _ | None => _ end).
  pose proof (ensure_mailbox_messages (metadata s) (ra_id account) role) as Hm1.
  destruct (ensure_mailbox (metadata s) (ra_id account) role) as [[mb|e] m1]; [|by left].
  set (tm := mkThreadMatch _ _ _). pose proof (find_or_create_thread_messages m1 tm) as Hm2.
  destruct (find_or_create_thread m1 tm) as [th m2]. cbn [snd] in Hm1, Hm2.
  destruct (seal_for_account _ _ _ _ _) as [[[hash wrap]|e] b']; cbn.
  - right. do 2 eexists. split_and!;
      [reflexivity|cbn; by rewrite Hm2, Hm1|reflexivity|reflexivity|reflexivity].
  - left. by rewrite Hm2, Hm1.
Qed.

(** On disk, a delivery at most writes one blob. *)
Lemma seal_for_account_blobs rnd b pk key_id raw :
  exists x, (seal_for_account rnd b pk key_id raw).2 = (write b x).2.
Proof.
  exists (aead_seal (dr_nonce rnd) (dr_dek rnd) 1 raw). unfold seal_for_account.
  destruct (write b _) as [[h|e] b']; [|done]. by destruct (as_crypto_error _).
Qed.

Lemma deliver_blobs rnd account envelope auth raw received spam scan s :
  let b' := blobs (deliver parse to_lowercase rnd account envelope auth raw received spam scan s).2 in
  b' = blobs s \/ exists x, b' = (write (blobs s) x).2.
Proof.
  cbn zeta. unfold deliver, mbind, St_bind, st_exec, st_get, st_put.
  destruct (parse raw) as [p|]; [|by left].
  destruct (subject_hash_of to_lowercase account p) as [subj|]; [|by left].
  destruct (ensure_mailbox _ _ _) as [[mb|e] m1]; [|by left].
  destruct (find_or_create_thread m1 _) as [th m2].
  destruct (seal_for_account_blobs rnd (blobs s) (ra_account_pub account) (ra_key_id account) raw) as [x Hx].
  destruct (seal_for_account _ _ _ _ _) as [[[hash wrap]|e] b']; cbn in Hx |- *; right; by exists x.
Qed.

(** ** Properties *)

(** Delivery has exactly three outcomes: unparseable mail is refused
    with the stores untouched; a subject on which [normalize_subject] panics
    aborts the delivery, again with the stores untouched (and the message is
    lost to the recipient); every other message is delivered. *)
Theorem deliver_outcome (rnd : DeliverRand) (account : RecipientAccount) (envelope : InboundEnvelope)
    (auth : AuthResults) (raw : str) (received : Z) (spam : option str) (scan : ScanMetadata)
    (s : MailStore) (sk : str) :
  meta_inv (metadata s) -> length sk = PRIVATE_KEY_LEN -> ra_account_pub account = hpke_public sk ->
  match parse raw with
  | None => exists e, deliver parse to_lowercase rnd account envelope auth raw received spam scan s
                      = (Done (Err e), s)
  | Some p =>
      match (match p_subject p with Some t => normalize_subject to_lowercase t | None => Done [] end) with
      | Panicked => deliver parse to_lowercase rnd account envelope auth raw received spam scan s
                    = (Panicked, s)
      | Done _ => exists dm s', deliver parse to_lowercase rnd account envelope auth raw received spam scan s
                                = (Done (Ok dm), s')
      end
  end.
Proof.
  intros Hm Hsk Hpub. destruct (parse raw) as [p|] eqn:Ep; [|unfold deliver; rewrite Ep; by eexists].
  assert (Hrun : forall subj, subject_hash_of to_lowercase account p = Done subj ->
    exists dm s', deliver parse to_lowercase rnd account envelope auth raw received spam scan s
                  = (Done (Ok dm), s')).
  { intros subj Es. destruct (deliver_runs rnd account envelope auth raw received spam scan s p subj sk
      Hm Hsk Hpub Ep Es) as (dm & s' & E & _). by exists dm, s'. }
  unfold subject_hash_of in Hrun. destruct (p_subject p) as [t|] eqn:Et; [|by eapply Hrun].
  destruct (normalize_subject to_lowercase t) as [n|] eqn:En; [by eapply Hrun|].
  unfold deliver, subject_hash_of. rewrite Ep, Et. unfold mbind, St_bind, st_exec, exec_bind.
  by rewrite En.
Qed.

(** C8.  What is delivered can be read, and only adds: a successful
    [deliver] appends one message row for the recipient's account, filed
    under the account's Junk mailbox with the junk keyword when there is a
    spam reason and under its Inbox with no keyword otherwise; the
    recipient's private key opens it to exactly the raw bytes received (no
    different blob with the same hash being on disk already); every message
    that could be opened before still can; and the database and blob store
    invariants hold. *)
Theorem deliver_files_and_opens (rnd : DeliverRand) (account : RecipientAccount)
    (envelope : InboundEnvelope) (auth : AuthResults) (raw : str) (received : Z) (spam : option str)
    (scan : ScanMetadata) (s s' : MailStore) (sk : str) (dm : DeliveredMessage) :
  mail_inv s -> rand_ok rnd -> (ra_key_id account < 65536)%N ->
  length sk = PRIVATE_KEY_LEN -> ra_account_pub account = hpke_public sk ->
  let sealed := aead_seal (dr_nonce rnd) (dr_dek rnd) 1 raw in
  (forall c, read (blobs s) (hash_hex sealed) = Ok c -> c = sealed) ->
  deliver parse to_lowercase rnd account envelope auth raw received spam scan s = (Done (Ok dm), s') ->
  mail_inv s' /\
  (exists row mb, messages (metadata s') = messages (metadata s) ++ [mkStored (message_id dm) row] /\
     account_id row = ra_id account /\ blob_hash row = delivered_hash dm /\
     size_bytes row = Z.of_nat (length raw) /\
     keywords row = match spam with Some _ => KEYWORD_JUNK | None => [] end /\
     mb ∈ mailboxes (metadata s') /\ mb_id mb = mailbox_id row /\
     mb_key mb = (ra_id account, match spam with Some _ => ROLE_JUNK | None => ROLE_INBOX end) /\
     open_message (blobs s') row sk = Done (Ok raw)) /\
  (forall row old sk', open_message (blobs s) row sk' = Done (Ok old) ->
     open_message (blobs s') row sk' = Done (Ok old)).
Proof.
  intros [Hm Hb] Hr Hk Hsk Hpub sealed Hc E.
  assert (Hrun : delivery_run rnd account envelope auth raw received spam scan s s' dm).
  { destruct (parse raw) as [p|] eqn:Ep; [|unfold deliver in E; by rewrite Ep in E].
    destruct (subject_hash_of to_lowercase account p) as [subj|] eqn:Es.
    - destruct (deliver_runs rnd account envelope auth raw received spam scan s p subj sk Hm Hsk Hpub Ep Es)
        as (dm' & s'' & E' & Hrun). rewrite E in E'. by inv E'.
    - unfold deliver in E. rewrite Ep in E. unfold mbind, St_bind, st_exec in E. by rewrite Es in E. }
  destruct Hrun as [(parsed & subj & mb & th & wrap & _ & _ & Hmsg & Hin & Hkey & Ew) Hh Hbl Hmeta].
  split_and!.
  - split; [done|]. rewrite Hbl. by apply write_intact.
  - do 2 eexists. split; [exact Hmsg|]. cbn. split_and!; try done.
    unfold open_message. cbn [blob_hash dek_wrap new_message]. rewrite Hbl. rewrite Hpub in Ew.
    by apply (open_sealed rnd (blobs s) sk (ra_key_id account)).
  - intros row old sk' Ho. unfold open_message. rewrite Hbl. by apply open_blob_kept.
Qed.

End Facts.

(** ** Witnesses *)
#[local] Existing Instance toy_primitives.
#[local] Existing Instance toy_laws.
#[local] Existing Instance toy_BlobHash.
#[local] Existing Instance first_row.

(** A parser for the witnesses: the first line is the subject. *)
Definition toy_parse (raw : str) : option ParsedMessage :=
  match split_once LF raw with
  | Some (subject, _) => Some (mkParsed None OtherValue OtherValue (Some subject))
  | None => None
  end.

Definition wit_rand : DeliverRand := mkDeliverRand (pad 32 (# "dek")) (pad 24 []) [].
Definition wit_account : RecipientAccount := mkRecipient 7 (pad 32 (# "priv")) 1.
Definition wit_envelope : InboundEnvelope := mkInbound (# "a@x.org") (# "b@y.org") (# "192.0.2.1").
Definition wit_auth : AuthResults := mkAuthResults (# "pass") (# "pass") (# "pass").
Definition wit_scan : ScanMetadata := mkScanMetadata None None.
Definition wit_empty : MailStore := mkMailStore ∅ empty_store.
Definition wit_deliver (raw : str) (spam : option str) : exec (Result DeliveredMessage) * MailStore :=
  deliver toy_parse to_ascii_lowercase wit_rand wit_account wit_envelope wit_auth raw 5 spam wit_scan wit_empty.

Lemma deliver_outcome_witness : wit_deliver (# "日本語
body") None = (Panicked, wit_empty).
Proof.
  apply (deliver_outcome toy_parse to_ascii_lowercase wit_rand wit_account wit_envelope wit_auth
           (# "日本語
body") 5 None wit_scan wit_empty (pad 32 (# "priv"))); [apply empty_store_inv|reflexivity|reflexivity].
Defined.

Definition wit_raw : str := # "Hi
body".

Lemma wit_empty_inv : mail_inv wit_empty.
Proof.
  split; [apply empty_store_inv|]. intros h p c _ Hc.
  change (blobs wit_empty) with (∅ : BlobStore) in Hc. by rewrite lookup_empty in Hc.
Qed.

Lemma deliver_files_and_opens_witness :
  exists dm s', wit_deliver wit_raw (Some (# "spam")) = (Done (Ok dm), s') /\ mail_inv s'.
Proof.
  assert (Hp : toy_parse wit_raw = Some (mkParsed None OtherValue OtherValue (Some (# "Hi"))))
    by (vm_compute; reflexivity).
  assert (Hs : exists subj, subject_hash_of to_ascii_lowercase wit_account
                 (mkParsed None OtherValue OtherValue (Some (# "Hi"))) = Done subj)
    by (eexists; vm_compute; reflexivity).
  destruct Hs as [subj Hs].
  destruct (deliver_runs toy_parse to_ascii_lowercase wit_rand wit_account wit_envelope wit_auth
    wit_raw 5 (Some (# "spam")) wit_scan wit_empty
    (mkParsed None OtherValue OtherValue (Some (# "Hi"))) subj (pad 32 (# "priv")) (proj1 wit_empty_inv)) as (dm & s' & E & _); [reflexivity|reflexivity|exact Hp|exact Hs|].
  exists dm, s'. split; [exact E|].
  refine (proj1 (deliver_files_and_opens toy_parse to_ascii_lowercase wit_rand wit_account wit_envelope
    wit_auth wit_raw 5 (Some (# "spam")) wit_scan wit_empty s' (pad 32 (# "priv")) dm
    wit_empty_inv _ _ _ _ _ E)).
  - split; reflexivity.
  - reflexivity.
  - reflexivity.
  - reflexivity.
  - vm_compute. done.
Defined.
