(* ===== verification/SmtpIn.v ===== *)
(** * SmtpIn: the inbound SMTP session, [smtp-in]

    src/crates/smtp-in/src/session.rs: the command loop, one definition per
    command, composed with the components it calls -- the line reader of
    Wire, the address checks of Input, the hosted domains of AdminStore, the
    account store of Auth, the scanner of Scan, Delivery, the audit log and the change notifier.  A
    session threads its state through the panic monad [St]. *)

From stdpp Require Import base list strings gmap sorting.
From Stdlib Require Import Ascii ZArith Lia.
From S2P Require Import AdminStore.
From S2P Require Import Prelude RustStr Input Header Limits Wire Scan Store Sealing Auth AuditLog Delivery.

(** ** The mail_auth crate *)
Class MailAuth : Type := {
  SpfOutput : Type;
  AuthMessage : Type;
  DkimOutput : Type;
  DmarcOutput : Type;
  verify_spf : str -> str -> str -> str -> SpfOutput;        (* ip, helo, hostname, mail_from *)
  spf_debug : SpfOutput -> str;                              (* {:?} of the result *)
  am_parse : str -> option AuthMessage;
  verify_dkim : AuthMessage -> list DkimOutput;
  dkim_pass : DkimOutput -> bool;                            (* DkimResult::Pass *)
  verify_dmarc : AuthMessage -> list DkimOutput -> str -> SpfOutput -> DmarcOutput;
  dmarc_debug : DmarcOutput -> str
}.

(** ** Session state *)
Record ResolvedRecipient : Type := mkResolved {
  rr_address : str;
  rr_account_id : Z;
  rr_account_pub : str;
  rr_account_key_id : N
}.

Record Envelope : Type := mkEnvelope {
  helo_domain : option str;
  mail_from : option str;
  rcpt_to : list ResolvedRecipient
}.

Definition env_default : Envelope := mkEnvelope None None [].

Definition env_reset (e : Envelope) : Envelope := mkEnvelope (helo_domain e) None [].

Inductive LoopOutcome : Type := Closed | StartTls.

(** [Deps], with what the outside world answers as functions of the number of
    commands read so far ([se_tick]): the directory may be edited and the
    scanners may change their mind between commands. *)
Record Deps : Type := mkDeps {
  hostname : str;
  max_message_size : nat;
  auth_store : nat -> AuthStore;
  admin_store : nat -> AdminStore;
  tls_acceptor : option (option (list str * bool));
      (* if configured: a failed handshake, or the decrypted stream's reads and how it ends *)
  scanner : nat -> Scanner;
  now_unix : nat -> Z;
  deliver_rand : nat -> nat -> DeliverRand;   (* tick and recipient *)
  audit_rand : nat -> str
}.

Record Session : Type := mkSession {
  se_conn : Conn;
  se_env : Envelope;
  se_mail : MailStore;
  se_audit : AuditStore;
  se_notifier : Changes.ChangeNotifier;
  se_tick : nat
}.

Definition with_conn (c : Conn) (s : Session) : Session :=
  mkSession c (se_env s) (se_mail s) (se_audit s) (se_notifier s) (se_tick s).
Definition with_env (e : Envelope) (s : Session) : Session :=
  mkSession (se_conn s) e (se_mail s) (se_audit s) (se_notifier s) (se_tick s).
Definition with_mail (m : MailStore) (s : Session) : Session :=
  mkSession (se_conn s) (se_env s) m (se_audit s) (se_notifier s) (se_tick s).
Definition with_audit (a : AuditStore) (s : Session) : Session :=
  mkSession (se_conn s) (se_env s) (se_mail s) a (se_notifier s) (se_tick s).
Definition with_notifier (n : Changes.ChangeNotifier) (s : Session) : Session :=
  mkSession (se_conn s) (se_env s) (se_mail s) (se_audit s) n (se_tick s).
Definition with_tick (t : nat) (s : Session) : Session :=
  mkSession (se_conn s) (se_env s) (se_mail s) (se_audit s) (se_notifier s) t.
Definition with_reader (r : Reader) (s : Session) : Session :=
  with_conn (mkConn r (cn_wok (se_conn s)) (cn_out (se_conn s))) s.

(** What handling one command leads to. *)
Inductive Flow : Type := Continue | Leave (o : LoopOutcome).

Section Session.
Context `{Primitives} `{BlobHash} `{SqlAny} `{MailAuth}.
Context (parse : str -> option ParsedMessage) (to_lowercase : str -> str).
Context (fmt1 : f64 -> str) (debug_str : str -> str).
Context (json : str -> result str (RawResponse (F64 := f64))).
Context (deps : Deps) (remote_ip : str).

(** *** Replies *)
Definition reply (code : Z) (text : str) : St Session bool := fun s =>
  let '(ok, c) := write_reply (se_conn s) code text in (Done ok, with_conn c s).

Definition multiline_reply (code : Z) (lines : list str) : St Session bool := fun s =>
  let '(ok, c) := write_multiline_reply (se_conn s) code lines in (Done ok, with_conn c s).

(** [let _ = write_reply(..)] and on with the loop. *)
Definition reply_continue (code : Z) (text : str) : St Session Flow :=
  _ ← reply code text; mret Continue.

Definition set_env (f : Envelope -> Envelope) : St Session unit :=
  st_mod (fun s => with_env (f (se_env s)) s).

(** [let _ = deps.audit.log(..)]: an error is dropped, a panic is not. *)
Definition audit_log (action detail : str) : St Session unit := fun s =>
  let '(r, a) := log (audit_rand deps (se_tick s)) (now_unix deps (se_tick s)) action detail (se_audit s) in
  (match r with Done _ => Done tt | Panicked => Panicked end, with_audit a s).

(** *** HELO, EHLO *)
Definition ehlo_lines (verb : str) (is_tls : bool) : list str :=
  (hostname deps ++ # " Hello")
  :: (if eq_ignore_ascii_case verb (# "EHLO")
      then [(# "SIZE ") ++ dec (Z.of_nat (max_message_size deps)); # "8BITMIME"; # "SMTPUTF8"]
           ++ (if negb is_tls && bool_decide (is_Some (tls_acceptor deps)) then [ # "STARTTLS"] else [])
      else []).

Definition handle_ehlo (is_tls : bool) (verb rest : str) : St Session Flow :=
  let domain := trim rest in
  if negb (valid_helo_domain domain) then reply_continue 501 (# "Syntax error in parameters")
  else
    _ ← set_env (fun _ => mkEnvelope (Some domain) None []);
    ok ← multiline_reply 250 (ehlo_lines verb is_tls);
    mret (if ok : bool then Continue else Leave Closed).

(** *** STARTTLS *)
Definition handle_starttls (is_tls : bool) (rest : str) : St Session Flow :=
  if is_tls then reply_continue 503 (# "Already using TLS")
  else if negb (bool_decide (is_Some (tls_acceptor deps))) then reply_continue 502 (# "STARTTLS not supported")
  else if negb (str_eqb rest []) then reply_continue 501 (# "Syntax error")
  else
    ok ← reply 220 (# "Go ahead");
    mret (Leave (if ok : bool then StartTls else Closed)).

(** *** MAIL *)
Definition handle_mail (rest : str) : St Session Flow :=
  s ← st_get;
  match helo_domain (se_env s) with
  | None => reply_continue 503 (# "Bad sequence of commands")
  | Some _ =>
      addr ← st_exec (parse_addr_param rest (# "FROM:"));
      match addr with
      | Some addr =>
          _ ← set_env (fun e => mkEnvelope (helo_domain e) (Some addr) []);
          reply_continue 250 (# "OK")
      | None => reply_continue 501 (# "Syntax error in parameters")
      end
  end.

(** *** RCPT *)
Definition resolve_recipient (auth : AuthStore) (domains : AdminStore) (addr : str)
    : option ResolvedRecipient :=
  '(local, dom) ← rsplit_once "@"%char addr;
  found ← ok_opt (find_by_address auth local dom);
  account ← (match found with
             | Some account => Some account
             | None =>
                 d ← mjoin (ok_opt (get_domain_by_name domains dom));
                 catch_all ← catch_all_local_part d;
                 mjoin (ok_opt (find_by_address auth catch_all dom))
             end : option Account);
  Some (mkResolved addr (acc_id account) (account_pub account) (acc_key_id account)).

Definition handle_rcpt (rest : str) : St Session Flow :=
  s ← st_get;
  match mail_from (se_env s) with
  | None => reply_continue 503 (# "Bad sequence of commands")
  | Some _ =>
      if (MAX_RECIPIENTS <=? length (rcpt_to (se_env s)))%nat
      then reply_continue 452 (# "Too many recipients")
      else
        addr ← st_exec (parse_addr_param rest (# "TO:"));
        match addr with
        | Some addr =>
            if valid_email_address addr then
              match resolve_recipient (auth_store deps (se_tick s)) (admin_store deps (se_tick s)) addr with
              | Some resolved =>
                  _ ← set_env (fun e => mkEnvelope (helo_domain e) (mail_from e) (rcpt_to e ++ [resolved]));
                  reply_continue 250 (# "OK")
              | None => reply_continue 550 (# "No such user here")
              end
            else reply_continue 501 (# "Syntax error in parameters")
        | None => reply_continue 501 (# "Syntax error in parameters")
        end
  end.

(** *** DATA *)
Definition run_auth_checks (env : Envelope) (raw : str) : AuthResults :=
  let helo := default [] (helo_domain env) in
  let from := default [] (mail_from env) in
  let spf_output := verify_spf remote_ip helo (hostname deps) from in
  let spf_str := to_lowercase (spf_debug spf_output) in
  match am_parse raw with
  | None => mkAuthResults spf_str (# "none") (# "none")
  | Some auth_message =>
      let dkim_outputs := verify_dkim auth_message in
      let dkim_str :=
        match dkim_outputs with
        | [] => # "none"
        | _ => if existsb dkim_pass dkim_outputs then # "pass" else # "fail"
        end in
      let mail_from_domain :=
        match rsplit_once "@"%char from with Some (_, d) => d | None => helo end in
      mkAuthResults spf_str dkim_str
        (to_lowercase (dmarc_debug (verify_dmarc auth_message dkim_outputs mail_from_domain spf_output)))
  end.

Definition scan_request (env : Envelope) (raw : str) : ScanRequest :=
  mkScanRequest remote_ip (default [] (helo_domain env)) (default [] (mail_from env))
    (rr_address <$> rcpt_to env) raw.

Definition deliver_one (n : nat) (rcpt : ResolvedRecipient) (results : AuthResults) (raw : str)
    (received_at : Z) (spam_reason : option str) (scan : ScanMetadata) : St Session (Result unit) := fun s =>
  let env := mkInbound (default [] (mail_from (se_env s))) (rr_address rcpt) remote_ip in
  let account := mkRecipient (rr_account_id rcpt) (rr_account_pub rcpt) (rr_account_key_id rcpt) in
  let '(r, m) := deliver parse to_lowercase (deliver_rand deps (se_tick s) n) account env results raw
                   received_at spam_reason scan (se_mail s) in
  match r with
  | Panicked => (Panicked, with_mail m s)
  | Done (Err e) => (Done (Err e), with_mail m s)
  | Done (Ok _) =>
      (Done (Ok tt), with_notifier (Changes.notify (se_notifier s) (rr_account_id rcpt)) (with_mail m s))
  end.

(** The loop over the recipients: whether any delivery succeeded. *)
Fixpoint deliver_all (n : nat) (rcpts : list ResolvedRecipient) (results : AuthResults) (raw : str)
    (received_at : Z) (spam_reason : option str) (scan : ScanMetadata) (delivered_any : bool)
    : St Session bool :=
  match rcpts with
  | [] => mret delivered_any
  | rcpt :: rcpts =>
      r ← deliver_one n rcpt results raw received_at spam_reason scan;
      deliver_all (S n) rcpts results raw received_at spam_reason scan (is_ok r || delivered_any)
  end.

Fixpoint log_warnings (l : list str) : St Session unit :=
  match l with
  | [] => mret tt
  | w :: l => _ ← audit_log (# "smtp.scan_unreachable") w; log_warnings l
  end.

(** A refused message: audit entry, reply, reset. *)
Definition refuse (action reason : str) (code : Z) (text : str) : St Session Flow :=
  _ ← audit_log action reason;
  _ ← reply code text;
  _ ← set_env env_reset;
  mret Continue.

Definition deliver_message (raw : str) (scan_result : ScanResult (F64 := f64)) (spam_reason : option str)
    : St Session Flow :=
  s ← st_get;
  let results := run_auth_checks (se_env s) raw in
  delivered_any ← deliver_all 0 (rcpt_to (se_env s)) results raw (now_unix deps (se_tick s)) spam_reason
                    (mkScanMetadata (spam_score scan_result) (av_clean scan_result)) false;
  ok ← (if delivered_any : bool then reply 250 (# "OK: message accepted")
        else reply 451 (# "Requested action aborted: local error in processing"));
  if ok : bool then _ ← set_env env_reset; mret Continue else mret (Leave Closed).

Definition accept_message (raw : str) : St Session Flow :=
  s ← st_get;
  let scan_result := scan fmt1 debug_str json (scanner deps (se_tick s)) (scan_request (se_env s) raw) in
  _ ← log_warnings (warnings scan_result);
  match verdict scan_result with
  | VReject reason => refuse (# "smtp.scan_reject") reason 550 (# "Message rejected by content policy")
  | Defer reason =>
      refuse (# "smtp.scan_defer") reason 451 (# "Requested action aborted: try again later")
  | Spam reason => deliver_message raw scan_result (Some reason)
  | Clean => deliver_message raw scan_result None
  end.

Definition handle_data : St Session Flow :=
  s ← st_get;
  match mail_from (se_env s), rcpt_to (se_env s) with
  | None, _ | _, [] => reply_continue 503 (# "Bad sequence of commands")
  | Some _, _ :: _ =>
      ok ← reply 354 (# "Start mail input; end with <CRLF>.<CRLF>");
      if negb ok then mret (Leave Closed)
      else
        s ← st_get;
        let '(r, rd) := read_data (max_message_size deps) (cn_rd (se_conn s)) in
        _ ← st_mod (with_reader rd);
        match r with
        | Ok raw => accept_message raw
        | Err TooLarge =>
            _ ← reply 552 (# "Message size exceeds fixed limit");
            mret (Leave Closed)
        | Err DataIo => mret (Leave Closed)
        end
  end.

(** *** The loop *)
Definition handle_rset : St Session Flow :=
  _ ← set_env env_reset; reply_continue 250 (# "OK").

Definition handle_quit : St Session Flow :=
  _ ← reply 221 (# "Bye"); mret (Leave Closed).

Definition handle_line (is_tls : bool) (line : str) : St Session Flow :=
  let text := trim_end_crlf (from_utf8_lossy line) in
  let '(verb, rest) := split_command text in
  let v := to_ascii_uppercase verb in
  if str_eqb v (# "EHLO") || str_eqb v (# "HELO") then handle_ehlo is_tls verb rest
  else if str_eqb v (# "STARTTLS") then handle_starttls is_tls rest
  else if str_eqb v (# "MAIL") then handle_mail rest
  else if str_eqb v (# "RCPT") then handle_rcpt rest
  else if str_eqb v (# "DATA") then handle_data
  else if str_eqb v (# "RSET") then handle_rset
  else if str_eqb v (# "NOOP") then reply_continue 250 (# "OK")
  else if str_eqb v (# "QUIT") then handle_quit
  else reply_continue 502 (# "Command not implemented").

(** One iteration: [Leave] ends the loop. *)
Definition loop_step (is_tls : bool) : St Session Flow :=
  s ← st_get;
  let '(r, rd) := read_line_bounded MAX_COMMAND_LINE (cn_rd (se_conn s)) in
  _ ← st_put (with_tick (S (se_tick s)) (with_reader rd s));
  match r with
  | LineEof => mret (Leave Closed)
  | LineErr => _ ← reply 500 (# "Line too long"); mret (Leave Closed)
  | LineGot line => handle_line is_tls line
  end.

(** [None] is running out of fuel: one iteration per byte left plus one is
    always enough ([command_loop_total]). *)
Fixpoint run_loop (fuel : nat) (is_tls : bool) : St Session (option LoopOutcome) :=
  match fuel with
  | O => mret None
  | S fuel =>
      flow ← loop_step is_tls;
      match flow with
      | Leave o => mret (Some o)
      | Continue => run_loop fuel is_tls
      end
  end.

Definition command_loop (is_tls : bool) : St Session (option LoopOutcome) :=
  greeted ← (if is_tls then mret true else reply 220 (hostname deps ++ # " ESMTP Litterae"));
  if negb greeted then mret (Some Closed)
  else
    s ← st_get;
    run_loop (S (reader_size (cn_rd (se_conn s)))) is_tls.

Definition handle_connection : St Session unit :=
  _ ← set_env (fun _ => env_default);
  outcome ← command_loop false;
  match outcome with
  | Some StartTls =>
      s ← st_get;
      match rd_buf (cn_rd (se_conn s)) with
      | _ :: _ => mret tt                        (* data pipelined past STARTTLS *)
      | [] =>
          match tls_acceptor deps with
          | None => mret tt
          | Some None => mret tt                 (* handshake failed *)
          | Some (Some (tls_chunks, tls_err)) =>
              _ ← st_mod (with_reader (mkReader [] tls_chunks tls_err));   (* a new BufReader *)
              _ ← set_env (fun _ => env_default);
              _ ← command_loop true;
              mret tt
          end
      end
  | _ => mret tt
  end.

End Session.

(** ** Invariant

    [P env mail] survives everything that touches neither. *)
Section Invariant.
Context `{Primitives} `{BlobHash} `{SqlAny} `{MailAuth}.
Context (parse : str -> option ParsedMessage) (to_lowercase : str -> str).
Context (fmt1 : f64 -> str) (debug_str : str -> str).
Context (json : str -> result str (RawResponse (F64 := f64))).
Context (deps : Deps) (remote_ip : str).

(** Properties of the envelope and the mail store alone. *)
Definition on_env_mail (P : Envelope -> MailStore -> Prop) (s : Session) : Prop := P (se_env s) (se_mail s).

Lemma keeps_reply P code text : keeps (on_env_mail P) (reply code text).
Proof. intros s Hs. unfold reply. by destruct (write_reply _ _ _). Qed.

Lemma keeps_multiline P code lines : keeps (on_env_mail P) (multiline_reply code lines).
Proof. intros s Hs. unfold multiline_reply. by destruct (write_multiline_reply _ _ _). Qed.

Lemma keeps_audit_log P action detail : keeps (on_env_mail P) (audit_log deps action detail).
Proof. intros s Hs. unfold audit_log. by destruct (log _ _ _ _ _). Qed.
#[local] Hint Extern 1 (keeps _ _) => apply keeps_reply : litterae.
#[local] Hint Extern 1 (keeps _ _) => apply keeps_multiline : litterae.
#[local] Hint Extern 1 (keeps _ _) => apply keeps_audit_log : litterae.

Lemma keeps_reply_continue P code text : keeps (on_env_mail P) (reply_continue code text).
Proof. apply keeps_bind; intros; auto with litterae. Qed.

Lemma keeps_log_warnings P l : keeps (on_env_mail P) (log_warnings deps l).
Proof. induction l; cbn; [auto with litterae|]. apply keeps_bind; intros; auto with litterae. Qed.
#[local] Hint Extern 1 (keeps _ _) => apply keeps_reply_continue : litterae.
#[local] Hint Extern 1 (keeps _ _) => apply keeps_log_warnings : litterae.

Lemma keeps_set_env (P : Envelope -> MailStore -> Prop) f :
  (forall e m, P e m -> P (f e) m) -> keeps (on_env_mail P) (set_env f).
Proof. intros Hf. apply keeps_mod. intros s Hs. apply Hf, Hs. Qed.

(** Who a recipient is: an account of the directory, by its own address or
    as the catch-all of the address's domain. *)
Definition local_account (auth : AuthStore) (domains : AdminStore) (addr : str) (a : Account) : Prop :=
  exists local dom, rsplit_once "@"%char addr = Some (local, dom) /\
    (find_by_address auth local dom = Ok (Some a) \/
     (find_by_address auth local dom = Ok None /\
      exists d catch_all, get_domain_by_name domains dom = Ok (Some d) /\
        catch_all_local_part d = Some catch_all /\ find_by_address auth catch_all dom = Ok (Some a))).

Definition resolved_to (r : ResolvedRecipient) (addr : str) (a : Account) : Prop :=
  r = mkResolved addr (acc_id a) (account_pub a) (acc_key_id a).

Lemma resolve_recipient_some auth domains addr r :
  resolve_recipient auth domains addr = Some r ->
  exists a, local_account auth domains addr a /\ resolved_to r addr a.
Proof.
  unfold resolve_recipient, local_account, resolved_to, find_by_address.
  destruct (rsplit_once "@"%char addr) as [[local dom]|]; cbn; [|done].
  destruct (sql_find (has_address local _) (accounts auth)) as [ra|] eqn:Ea; cbn.
  { intros [= <-]. exists (row_account ra). split; [|done]. exists local, dom. rewrite Ea. auto. }
  destruct (get_domain_by_name domains dom) as [[d|]|] eqn:Ed; cbn; [|done..].
  destruct (catch_all_local_part d) as [c|] eqn:Ec; cbn; [|done].
  destruct (sql_find (has_address c _) (accounts auth)) as [ra|] eqn:Ea2; cbn; [|done].
  intros [= <-]. exists (row_account ra). split; [|done]. exists local, dom.
  split; [done|]. right. rewrite Ea. split; [done|]. exists d, c. by rewrite Ed, Ea2.
Qed.

(** A recipient the session accepted. *)
Definition rcpt_ok (r : ResolvedRecipient) : Prop :=
  valid_email_address (rr_address r) = true /\
  exists t a, local_account (auth_store deps t) (admin_store deps t) (rr_address r) a /\
    resolved_to r (rr_address r) a.

(** A well-formed envelope whose recipients satisfy [R]. *)
Record env_with (R : ResolvedRecipient -> Prop) (e : Envelope) : Prop := {
  eo_count : (length (rcpt_to e) <= MAX_RECIPIENTS)%nat;
  eo_rcpts : rcpt_to e <> [] -> is_Some (mail_from e);
  eo_mail : is_Some (mail_from e) -> is_Some (helo_domain e);
  eo_helo : forall h, helo_domain e = Some h -> valid_helo_domain h = true;
  eo_valid : Forall R (rcpt_to e)
}.

Definition env_ok : Envelope -> Prop := env_with rcpt_ok.

(** The messages since [m0] are all for accepted recipients. *)
Definition added_for_rcpts (m0 m : MailStore) : Prop :=
  exists new, Metadata.messages (metadata m) = Metadata.messages (metadata m0) ++ new /\
    Forall (fun x => exists r, rcpt_ok r /\ Metadata.account_id (Metadata.m_row x) = rr_account_id r /\
                      Metadata.rcpt_to (Metadata.m_row x) = rr_address r) new.

(** A property of the mail store that a delivery to an accepted recipient
    keeps, like this one. *)
Definition kept_by_deliveries (R : ResolvedRecipient -> Prop) (Q : MailStore -> Prop) : Prop :=
  forall rcpt env t n results raw received spam scan m, R rcpt -> Q m ->
    Q (deliver parse to_lowercase (deliver_rand deps t n)
         (mkRecipient (rr_account_id rcpt) (rr_account_pub rcpt) (rr_account_key_id rcpt))
         (mkInbound (default [] (mail_from env)) (rr_address rcpt) remote_ip) results raw received spam scan m).2.

Lemma added_kept m0 : kept_by_deliveries rcpt_ok (added_for_rcpts m0).
Proof.
  intros rcpt env t n results raw received spam scan m Hr (new & Hn & Hf).
  set (acc := mkRecipient _ _ _). set (ie := mkInbound _ _ _).
  destruct (deliver_appends parse to_lowercase (deliver_rand deps t n) acc ie results raw received spam scan m)
    as [[Hm _]|(dm & row & _ & Hm & Ha & Hto & _)].
  - exists new. by rewrite Hm.
  - exists (new ++ [Metadata.mkStored (message_id dm) row]). rewrite Hm, Hn, app_assoc. split; [done|].
    apply Forall_app. split; [done|]. constructor; [|constructor]. by exists rcpt.
Qed.

(** A property that every recipient the directory resolves has. *)
Definition holds_when_resolved (R : ResolvedRecipient -> Prop) : Prop := forall t addr r,
  valid_email_address addr = true -> resolve_recipient (auth_store deps t) (admin_store deps t) addr = Some r -> R r.

Lemma rcpt_ok_when_resolved : holds_when_resolved rcpt_ok.
Proof.
  intros t addr r Hv (a & Ha & Hres)%resolve_recipient_some. pose proof Hres as Hres'.
  unfold resolved_to in Hres'. subst r. split; [done|]. by exists t, a.
Qed.

Section Kept.
Context (R : ResolvedRecipient -> Prop) (HR : holds_when_resolved R).
Context (Q : MailStore -> Prop) (HQ : kept_by_deliveries R Q).

Definition session_inv : Session -> Prop := on_env_mail (fun e m => env_with R e /\ Q m).

Lemma env_ok_default : env_with R env_default.
Proof. split; cbn; first [done|apply le_0_n|constructor|by intros [? ?]]. Qed.

Lemma env_ok_reset e : env_with R e -> env_with R (env_reset e).
Proof. intros []. split; cbn; first [done|apply le_0_n|constructor|by intros [? ?]]. Qed.

Lemma added_for_rcpts_refl m : added_for_rcpts m m.
Proof. exists []. by rewrite app_nil_r. Qed.

Lemma keeps_reset : keeps session_inv (set_env env_reset).
Proof. apply keeps_set_env. intros e m [? ?]. split; [by apply env_ok_reset|done]. Qed.
#[local] Hint Resolve keeps_reset : litterae.

Lemma keeps_deliver_one n rcpt results raw received spam scan :
  R rcpt ->
  keeps session_inv (deliver_one parse to_lowercase deps remote_ip n rcpt results raw received spam scan).
Proof.
  intros Hr s [He Hm]. unfold deliver_one.
  pose proof (HQ rcpt (se_env s) (se_tick s) n results raw received spam scan (se_mail s) Hr Hm) as Hd.
  destruct (deliver _ _ _ _ _ _ _ _ _ _ _) as [[[dm|e]|] m]; by split.
Qed.

Lemma keeps_deliver_all rcpts : forall n results raw received spam scan any,
  Forall R rcpts ->
  keeps session_inv
    (deliver_all parse to_lowercase deps remote_ip n rcpts results raw received spam scan any).
Proof.
  induction rcpts as [|r rcpts IH]; intros n results raw received spam scan any Hr; cbn [deliver_all].
  - auto with litterae.
  - inv Hr. apply keeps_bind; [by apply keeps_deliver_one|]. intros. by apply IH.
Qed.

(** *** Each command *)
Lemma keeps_ehlo is_tls verb rest : keeps session_inv (handle_ehlo deps is_tls verb rest).
Proof.
  unfold handle_ehlo. destruct (negb (valid_helo_domain _)) eqn:E; [apply keeps_reply_continue|].
  bool_facts. apply keeps_bind; [|intros []; apply keeps_bind; intros; auto with litterae].
  apply keeps_set_env. intros e m [_ Hm]. split; [|done].
  split; cbn; first [done|apply le_0_n|by intros; simplify_eq|constructor].
Qed.

Lemma keeps_starttls is_tls rest : keeps session_inv (handle_starttls deps is_tls rest).
Proof.
  unfold handle_starttls. repeat case_match; try apply keeps_reply_continue.
Qed.

Lemma keeps_mail rest : keeps session_inv (handle_mail rest).
Proof.
  unfold handle_mail. apply triple_get. intros s [He Hm].
  destruct (helo_domain (se_env s)) as [h|] eqn:Eh.
  2: { intros s' <-. by apply keeps_reply_continue. }
  apply triple_exec_bind; [|by intros ? <-]. intros [addr|] _; [|intros s' <-; by apply keeps_reply_continue].
  eapply (triple_bind _ _ _ (fun _ => session_inv)); [|intros; apply keeps_reply_continue|done].
  intros s' <-. split; cbn; [|done]. split; cbn; first [done|apply le_0_n|by rewrite Eh|apply He|constructor].
Qed.

Lemma keeps_rcpt rest : keeps session_inv (handle_rcpt deps rest).
Proof.
  unfold handle_rcpt. apply triple_get. intros s [He Hm].
  destruct (mail_from (se_env s)) as [f|] eqn:Ef; [|intros s' <-; by apply keeps_reply_continue].
  destruct (_ <=? _)%nat eqn:El; [intros s' <-; by apply keeps_reply_continue|]. bool_facts.
  apply triple_exec_bind; [|by intros ? <-]. intros [addr|] _; [|intros s' <-; by apply keeps_reply_continue].
  destruct (valid_email_address addr) eqn:Ev; [|intros s' <-; by apply keeps_reply_continue].
  destruct (resolve_recipient _ _ addr) as [r|] eqn:Er; [|intros s' <-; by apply keeps_reply_continue].
  eapply (triple_bind _ _ _ (fun _ => session_inv)); [|intros; apply keeps_reply_continue|done].
  intros s' <-. split; cbn; [|done]. destruct He as [Hc Hr Hh Hv Hval]. split; cbn; try done.
  - rewrite length_app. cbn. lia.
  - apply Forall_app. split; [done|]. constructor; [|constructor].
    by apply (HR _ _ _ Ev Er).
Qed.

Lemma keeps_refuse action reason code text : keeps session_inv (refuse deps action reason code text).
Proof.
  unfold refuse. repeat (apply keeps_bind; intros); auto with litterae.
Qed.

Lemma keeps_deliver_message raw sr spam :
  keeps session_inv (deliver_message parse to_lowercase deps remote_ip raw sr spam).
Proof.
  unfold deliver_message. apply keeps_get. intros s [He Hm]. apply keeps_bind.
  - apply keeps_deliver_all, He.
  - intros any. apply keeps_bind; [by destruct any; apply keeps_reply|].
    intros []; [apply keeps_bind; intros; auto with litterae|auto with litterae].
Qed.

Lemma keeps_accept_message raw :
  keeps session_inv (accept_message parse to_lowercase fmt1 debug_str json deps remote_ip raw).
Proof.
  unfold accept_message. apply keeps_get. intros s Hs.
  apply keeps_bind; [apply keeps_log_warnings|]. intros _.
  destruct (verdict _); [apply keeps_deliver_message..|apply keeps_refuse|apply keeps_refuse].
Qed.

Lemma keeps_data : keeps session_inv
  (handle_data parse to_lowercase fmt1 debug_str json deps remote_ip).
Proof.
  unfold handle_data. apply keeps_get. intros s Hs.
  destruct (mail_from (se_env s)); [destruct (rcpt_to (se_env s))|]; try apply keeps_reply_continue.
  apply keeps_bind; [apply keeps_reply|]. intros ok. destruct (negb ok); [auto with litterae|].
  apply keeps_get. intros s1 Hs1. destruct (read_data _ _) as [res rd].
  apply keeps_bind; [by apply keeps_mod|]. intros _.
  destruct res as [raw|[|]]; [apply keeps_accept_message| |auto with litterae].
  apply keeps_bind; [apply keeps_reply|auto with litterae].
Qed.

Lemma keeps_line is_tls line : keeps session_inv
  (handle_line parse to_lowercase fmt1 debug_str json deps remote_ip is_tls line).
Proof.
  unfold handle_line. destruct (split_command _) as [verb rest].
  repeat match goal with |- context [if ?b then _ else _] => destruct b end;
    auto using keeps_ehlo, keeps_starttls, keeps_mail, keeps_rcpt, keeps_data, keeps_reply_continue;
    apply keeps_bind; intros; auto with litterae; apply keeps_reply.
Qed.

Lemma keeps_step is_tls : keeps session_inv
  (loop_step parse to_lowercase fmt1 debug_str json deps remote_ip is_tls).
Proof.
  unfold loop_step. apply triple_get. intros s Hs. destruct (read_line_bounded _ _) as [res rd].
  eapply (triple_bind _ _ _ (fun _ => session_inv)); [by intros s' <-| |done]. intros _.
  destruct res as [|line|]; [apply keeps_ret|apply keeps_line|].
  apply keeps_bind; [apply keeps_reply|intros; apply keeps_ret].
Qed.

Lemma keeps_run_loop is_tls fuel : keeps session_inv
  (run_loop parse to_lowercase fmt1 debug_str json deps remote_ip fuel is_tls).
Proof.
  induction fuel as [|fuel IH]; cbn [run_loop]; [apply keeps_ret|].
  apply keeps_bind; [apply keeps_step|]. intros []; [exact IH|apply keeps_ret].
Qed.

Lemma keeps_command_loop is_tls : keeps session_inv
  (command_loop parse to_lowercase fmt1 debug_str json deps remote_ip is_tls).
Proof.
  unfold command_loop. apply keeps_bind; [destruct is_tls; [apply keeps_ret|apply keeps_reply]|].
  intros ok. destruct (negb ok); [apply keeps_ret|]. apply keeps_get. intros. apply keeps_run_loop.
Qed.

End Kept.

(** ** Termination

    The bytes left to read never grow, and every iteration that continues
    consumes at least one. *)
Definition size_le (n : nat) (s : Session) : Prop := (reader_size (cn_rd (se_conn s)) <= n)%nat.

Lemma multiline_reader lines : forall c code, cn_rd (write_multiline_reply c code lines).2 = cn_rd c.
Proof.
  induction lines as [|t lines IH]; intros c code; cbn; [done|].
  destruct (cn_wok c _); cbn; [by rewrite IH|done].
Qed.

Lemma size_reply n code text : keeps (size_le n) (reply code text).
Proof. intros s Hs. exact Hs. Qed.

Lemma size_multiline n code lines : keeps (size_le n) (multiline_reply code lines).
Proof.
  intros s Hs. unfold multiline_reply. pose proof (multiline_reader lines (se_conn s) code) as E.
  destruct (write_multiline_reply _ _ _) as [ok c]. unfold size_le in *. cbn in *. by rewrite E.
Qed.

Lemma size_audit_log n action detail : keeps (size_le n) (audit_log deps action detail).
Proof. intros s Hs. unfold audit_log. by destruct (log _ _ _ _ _). Qed.

Lemma size_deliver_one n k rcpt results raw received spam scan :
  keeps (size_le n) (deliver_one parse to_lowercase deps remote_ip k rcpt results raw received spam scan).
Proof.
  intros s Hs. unfold deliver_one. destruct (deliver _ _ _ _ _ _ _ _ _ _ _) as [[[dm|e]|] m]; exact Hs.
Qed.

Lemma size_set_env n f : keeps (size_le n) (set_env f).
Proof. by apply keeps_mod. Qed.

Create HintDb size.
#[local] Hint Extern 1 (keeps _ (reply _ _)) => apply size_reply : size.
#[local] Hint Extern 1 (keeps _ (multiline_reply _ _)) => apply size_multiline : size.
#[local] Hint Extern 1 (keeps _ (audit_log _ _ _)) => apply size_audit_log : size.
#[local] Hint Extern 1 (keeps _ (set_env _)) => apply size_set_env : size.
#[local] Hint Extern 1 (keeps _ (deliver_one _ _ _ _ _ _ _ _ _ _ _)) => apply size_deliver_one : size.
#[local] Hint Extern 1 (keeps _ (mret _)) => apply keeps_ret : size.
#[local] Hint Extern 1 (keeps _ (st_exec _)) => apply keeps_exec : size.
#[local] Hint Extern 2 (keeps _ (st_get ≫= _)) => apply keeps_get; intros ? ? : size.
#[local] Hint Extern 3 (keeps _ (_ ≫= _)) => apply keeps_bind; [|intros ?] : size.
#[local] Hint Extern 4 (keeps _ (match ?x with _ => _ end)) => destruct x : size.

Lemma size_reply_continue n code text : keeps (size_le n) (reply_continue code text).
Proof. unfold reply_continue. auto 10 with size. Qed.
#[local] Hint Extern 1 (keeps _ (reply_continue _ _)) => apply size_reply_continue : size.

Lemma size_deliver_all n rcpts : forall k results raw received spam scan any,
  keeps (size_le n) (deliver_all parse to_lowercase deps remote_ip k rcpts results raw received spam scan any).
Proof. induction rcpts; intros; cbn [deliver_all]; auto with size. Qed.
#[local] Hint Extern 1 (keeps _ (deliver_all _ _ _ _ _ _ _ _ _ _ _ _)) => apply size_deliver_all : size.

Lemma size_log_warnings n l : keeps (size_le n) (log_warnings deps l).
Proof. induction l; cbn [log_warnings]; auto with size. Qed.
#[local] Hint Extern 1 (keeps _ (log_warnings _ _)) => apply size_log_warnings : size.

Lemma size_accept_message n raw :
  keeps (size_le n) (accept_message parse to_lowercase fmt1 debug_str json deps remote_ip raw).
Proof. unfold accept_message, deliver_message, refuse. auto 20 with size. Qed.

Lemma size_data n : keeps (size_le n)
  (handle_data parse to_lowercase fmt1 debug_str json deps remote_ip).
Proof.
  unfold handle_data. apply keeps_get. intros s Hs.
  destruct (mail_from (se_env s)); [destruct (rcpt_to (se_env s))|]; try apply size_reply_continue.
  apply keeps_bind; [apply size_reply|]. intros ok. destruct (negb ok); [apply keeps_ret|].
  apply triple_get. intros s1 Hs1.
  pose proof (read_data_size (max_message_size deps) [] (cn_rd (se_conn s1))) as Hrd.
  unfold read_data. destruct (read_data_from _ _ _) as [res rd].
  eapply (triple_bind _ _ _ (fun _ => size_le n)); [|intros _|done].
  - intros s' <-. unfold size_le in *. cbn in *. lia.
  - destruct res as [raw|[|]]; [apply size_accept_message| |apply keeps_ret].
    apply keeps_bind; [apply size_reply|intros; apply keeps_ret].
Qed.

Lemma size_line n is_tls line : keeps (size_le n)
  (handle_line parse to_lowercase fmt1 debug_str json deps remote_ip is_tls line).
Proof.
  unfold handle_line. destruct (split_command _) as [verb rest].
  repeat match goal with |- context [if ?b then _ else _] => destruct b end; try apply size_data;
    unfold handle_ehlo, handle_starttls, handle_mail, handle_rcpt, handle_rset, handle_quit; auto 20 with size.
Qed.

(** An iteration that continues leaves fewer bytes. *)
Lemma loop_step_shrinks is_tls s s' :
  loop_step parse to_lowercase fmt1 debug_str json deps remote_ip is_tls s = (Done Continue, s') ->
  (reader_size (cn_rd (se_conn s')) < reader_size (cn_rd (se_conn s)))%nat.
Proof.
  unfold loop_step, mbind, St_bind, st_get, st_put.
  destruct (read_line_bounded _ _) as [[|line|] rd] eqn:Er; [done| |done].
  apply read_line_size in Er. intros E.
  pose proof (size_line (reader_size rd) is_tls line
    (with_tick (S (se_tick s)) (with_reader rd s)) (le_n _)) as Hk.
  rewrite E in Hk. unfold size_le in Hk. cbn in Hk. lia.
Qed.

Lemma run_loop_total is_tls fuel : forall s,
  (reader_size (cn_rd (se_conn s)) < fuel)%nat ->
  (run_loop parse to_lowercase fmt1 debug_str json deps remote_ip fuel is_tls s).1 <> Done None.
Proof.
  induction fuel as [|fuel IH]; intros s Hs; [lia|]. cbn [run_loop]. unfold mbind, St_bind.
  destruct (loop_step _ _ _ _ _ _ _ _ _) as [[[|o]|] s'] eqn:E; [|done|done].
  apply loop_step_shrinks in E. apply IH. lia.
Qed.

Lemma run_loop_fuel is_tls f1 : forall f2 s,
  (reader_size (cn_rd (se_conn s)) < f1)%nat -> (f1 <= f2)%nat ->
  run_loop parse to_lowercase fmt1 debug_str json deps remote_ip f2 is_tls s =
  run_loop parse to_lowercase fmt1 debug_str json deps remote_ip f1 is_tls s.
Proof.
  induction f1 as [|f1 IH]; intros [|f2] s Hs Hf; [lia..|]. cbn [run_loop]. unfold mbind, St_bind.
  destruct (loop_step _ _ _ _ _ _ _ _ _) as [[[|o]|] s'] eqn:E; [|done|done].
  apply loop_step_shrinks in E. apply IH; lia.
Qed.

(** ** STARTTLS *)
Definition no_starttls (r : exec Flow) : Prop := r <> Done (Leave StartTls).

Lemma no_starttls_reply code text :
  triple (fun _ => True) (reply_continue code text) (fun r _ => no_starttls r).
Proof. by apply triple_bind_any. Qed.

Create HintDb starttls.
#[local] Hint Extern 1 (triple _ (reply_continue _ _) _) => apply no_starttls_reply : starttls.
#[local] Hint Extern 2 (triple _ (mret _) _) => apply triple_ret; intros ? _; repeat case_match; done : starttls.
#[local] Hint Extern 3 (triple _ (_ ≫= _) _) => apply triple_bind_any; [intros ?|done] : starttls.
#[local] Hint Extern 4 (triple _ (match ?x with _ => _ end) _) => destruct x : starttls.

Lemma no_starttls_in_tls line :
  triple (fun _ => True) (handle_line parse to_lowercase fmt1 debug_str json deps remote_ip true line)
    (fun r _ => no_starttls r).
Proof.
  unfold handle_line. destruct (split_command _) as [verb rest].
  repeat match goal with |- context [if ?b then _ else _] => destruct b end; unfold handle_ehlo, handle_starttls, handle_mail, handle_rcpt, handle_data, accept_message,
      deliver_message, refuse, handle_rset, handle_quit; auto 20 with starttls.
Qed.

Lemma tls_loop_never_starttls fuel : forall s,
  (run_loop parse to_lowercase fmt1 debug_str json deps remote_ip fuel true s).1 <> Done (Some StartTls).
Proof.
  induction fuel as [|fuel IH]; intros s; cbn [run_loop]; [done|]. unfold mbind, St_bind.
  assert (Hs : no_starttls (loop_step parse to_lowercase fmt1 debug_str json deps remote_ip true s).1).
  { unfold loop_step, mbind, St_bind, st_get, st_put.
    destruct (read_line_bounded _ _) as [[|line|] rd]; [done| |done]. by apply no_starttls_in_tls. }
  destruct (loop_step _ _ _ _ _ _ _ _ _) as [[[|o]|] s'] eqn:E; [apply IH| |done].
  cbn in Hs |- *. unfold no_starttls in Hs. congruence.
Qed.

(** ** The reference automaton (RFC 5321 section 4.1.4)

    The envelope, seen as the phase of the protocol it is in. *)
Inductive phase : Type := NoHelo | Ready | Sender | Recipients (n : nat).

Definition phase_of (e : Envelope) : phase :=
  match helo_domain e, mail_from e, rcpt_to e with
  | None, _, _ => NoHelo
  | Some _, None, _ => Ready
  | Some _, Some _, [] => Sender
  | Some _, Some _, l => Recipients (length l)
  end.

Inductive verb : Type := VHelo | VStartTls | VMail | VRcpt | VData | VRset | VNoop | VQuit | VOther.

Definition verb_of (line : str) : verb :=
  let v := to_ascii_uppercase (split_command (trim_end_crlf (from_utf8_lossy line))).1 in
  if str_eqb v (# "EHLO") || str_eqb v (# "HELO") then VHelo
  else if str_eqb v (# "STARTTLS") then VStartTls
  else if str_eqb v (# "MAIL") then VMail
  else if str_eqb v (# "RCPT") then VRcpt
  else if str_eqb v (# "DATA") then VData
  else if str_eqb v (# "RSET") then VRset
  else if str_eqb v (# "NOOP") then VNoop
  else if str_eqb v (# "QUIT") then VQuit
  else VOther.

(** Recipients so far, where RCPT is allowed. *)
Definition rcpt_count (p : phase) : option nat :=
  match p with NoHelo | Ready => None | Sender => Some O | Recipients n => Some n end.

(** [rfc_step p v code p']: in phase [p] the command [v] may be answered
    with [code], which leads to phase [p']. *)
Inductive rfc_step : phase -> verb -> Z -> phase -> Prop :=
| rfc_helo p : rfc_step p VHelo 250 Ready
| rfc_helo_bad p : rfc_step p VHelo 501 p
| rfc_starttls p code : code = 501%Z \/ code = 502%Z \/ code = 503%Z -> rfc_step p VStartTls code p
| rfc_mail_early : rfc_step NoHelo VMail 503 NoHelo
| rfc_mail p : p <> NoHelo -> rfc_step p VMail 250 Sender
| rfc_mail_bad p : p <> NoHelo -> rfc_step p VMail 501 p
| rfc_rcpt_early p : rcpt_count p = None -> rfc_step p VRcpt 503 p
| rfc_rcpt p n : rcpt_count p = Some n -> (n < MAX_RECIPIENTS)%nat -> rfc_step p VRcpt 250 (Recipients (S n))
| rfc_rcpt_bad p n code :
    rcpt_count p = Some n -> (n < MAX_RECIPIENTS)%nat -> code = 501%Z \/ code = 550%Z -> rfc_step p VRcpt code p
| rfc_rcpt_full p : rcpt_count p = Some MAX_RECIPIENTS -> rfc_step p VRcpt 452 p
| rfc_data_early p : rcpt_count p = None \/ rcpt_count p = Some O -> rfc_step p VData 503 p
| rfc_data n code : code = 250%Z \/ code = 451%Z \/ code = 550%Z -> rfc_step (Recipients n) VData code Ready
| rfc_rset p : rfc_step p VRset 250 (match p with NoHelo => NoHelo | _ => Ready end)
| rfc_noop p : rfc_step p VNoop 250 p
| rfc_other p : rfc_step p VOther 502 p.

Definition last_reply (s : Session) (code : Z) : Prop :=
  exists text ok, last (cn_out (se_conn s)) = Some (reply_line code text, ok).

(** The answer to [v] given in phase [p] is one the automaton allows. *)
Definition answers (p : phase) (v : verb) (r : exec Flow) (s : Session) : Prop :=
  r = Done Continue -> exists code, last_reply s code /\ rfc_step p v code (phase_of (se_env s)).

Lemma reply_sends code text s :
  exists ok, reply code text s =
    (Done ok, with_conn (mkConn (cn_rd (se_conn s)) (cn_wok (se_conn s))
       (cn_out (se_conn s) ++ [(reply_line code text, ok)])) s).
Proof. by eexists. Qed.

Lemma reply_continue_answers p v code text :
  triple (fun s => rfc_step p v code (phase_of (se_env s))) (reply_continue code text) (answers p v).
Proof.
  intros s Hs. unfold reply_continue, mbind, St_bind. destruct (reply_sends code text s) as [ok ->].
  intros _. exists code. split; [|exact Hs]. exists text, ok. cbn. by rewrite last_snoc.
Qed.

(** The refusing replies: the state read is the state now. *)
Lemma refuses p v code text s :
  rfc_step p v code (phase_of (se_env s)) -> triple (eq s) (reply_continue code text) (answers p v).
Proof. intros Hs s' <-. by apply reply_continue_answers. Qed.

Lemma multiline_last lines : forall c code,
  lines <> [] -> (write_multiline_reply c code lines).1 = true ->
  exists text ok, last (cn_out (write_multiline_reply c code lines).2) = Some (reply_line code text, ok).
Proof.
  induction lines as [|t lines IH]; intros c code Hn E; [done|]. cbn in *.
  destruct lines as [|t' lines].
  - destruct (cn_wok c _) eqn:Ew; cbn; [|done]. exists t. eexists. by rewrite last_snoc.
  - destruct (cn_wok c _); [|done]. by apply IH.
Qed.

Lemma ehlo_answers p tls vb rest :
  triple (fun s => phase_of (se_env s) = p) (handle_ehlo deps tls vb rest) (answers p VHelo).
Proof.
  unfold handle_ehlo. destruct (negb _); intros s Hp.
  { apply reply_continue_answers. rewrite Hp. constructor. }
  unfold set_env, mbind, St_bind, st_mod, multiline_reply.
  set (s1 := with_env _ s). pose proof (multiline_last (ehlo_lines deps vb tls) (se_conn s1) 250 ltac:(done)) as Hl.
  destruct (write_multiline_reply _ _ _) as [[] c]; [|done]. intros _. exists 250%Z. split; [by apply Hl|].
  constructor.
Qed.

Lemma starttls_answers p tls rest :
  triple (fun s => phase_of (se_env s) = p) (handle_starttls deps tls rest) (answers p VStartTls).
Proof.
  unfold handle_starttls. destruct tls; [|destruct (negb _); [|destruct (negb _)]]; intros s Hp.
  1-3: apply reply_continue_answers; rewrite Hp; constructor; auto.
  unfold mbind, St_bind. by destruct (reply_sends 220 (# "Go ahead") s) as [[] ->].
Qed.

Lemma phase_no_helo e : phase_of e = NoHelo <-> helo_domain e = None.
Proof. unfold phase_of. repeat case_match; naive_solver. Qed.

Lemma phase_rcpt_count e :
  env_ok e -> rcpt_count (phase_of e) = (fun _ => length (rcpt_to e)) <$> mail_from e.
Proof.
  intros [_ _ Hm _ _]. unfold phase_of. destruct (mail_from e) as [f|]; cbn.
  - destruct (helo_domain e); [|by destruct Hm]. by destruct (rcpt_to e).
  - by destruct (helo_domain e).
Qed.

Lemma phase_reset e : phase_of (env_reset e) = match phase_of e with NoHelo => NoHelo | _ => Ready end.
Proof. unfold phase_of. cbn. by repeat case_match. Qed.

Lemma mail_answers p rest :
  triple (fun s => phase_of (se_env s) = p) (handle_mail rest) (answers p VMail).
Proof.
  unfold handle_mail. apply triple_get. intros s <-.
  destruct (helo_domain (se_env s)) as [h|] eqn:Eh.
  2: { apply refuses. rewrite (proj2 (phase_no_helo _) Eh). constructor. }
  assert (Hp : phase_of (se_env s) <> NoHelo) by (rewrite phase_no_helo; congruence).
  apply triple_exec_bind; [|done]. intros [addr|] _; [|apply refuses; by constructor].
  eapply (triple_bind _ _ _ (fun r s' => rfc_step (phase_of (se_env s)) VMail 250 (phase_of (se_env s'))));
    [|intros; apply reply_continue_answers|done].
  intros s' <-. cbn. rewrite Eh. by constructor.
Qed.

Lemma rcpt_answers p rest :
  triple (fun s => env_ok (se_env s) /\ phase_of (se_env s) = p) (handle_rcpt deps rest) (answers p VRcpt).
Proof.
  unfold handle_rcpt. apply triple_get. intros s [He <-].
  pose proof (phase_rcpt_count _ He) as Hc. pose proof (eo_count _ _ He) as Hmax.
  destruct (mail_from (se_env s)) as [f|] eqn:Ef; cbn in Hc; [|apply refuses; by constructor].
  destruct (_ <=? _)%nat eqn:El; bool_facts.
  { apply refuses. apply rfc_rcpt_full. rewrite Hc. f_equal. lia. }
  apply triple_exec_bind; [|done].
  assert (Hbad : forall code, code = 501%Z \/ code = 550%Z ->
    rfc_step (phase_of (se_env s)) VRcpt code (phase_of (se_env s))) by (intros; by eapply rfc_rcpt_bad).
  intros [addr|] _; [|apply refuses, Hbad; by left].
  destruct (valid_email_address addr); [|apply refuses, Hbad; by left].
  destruct (resolve_recipient _ _ addr) as [r|]; [|apply refuses, Hbad; by right].
  eapply (triple_bind _ _ _ (fun _ s' => rfc_step (phase_of (se_env s)) VRcpt 250 (phase_of (se_env s'))));
    [|intros; apply reply_continue_answers|done].
  intros s' <-. cbn. destruct (eo_mail _ _ He) as [h Hh]; [by rewrite Ef|].
  assert (Hlen : phase_of (mkEnvelope (helo_domain (se_env s)) (mail_from (se_env s)) (rcpt_to (se_env s) ++ [r]))
                 = Recipients (S (length (rcpt_to (se_env s))))).
  { unfold phase_of. cbn. rewrite Hh, Ef. rewrite <- Nat.add_1_r, <- (length_app _ [r]).
    by destruct (rcpt_to (se_env s)). }
  rewrite Hlen. by eapply rfc_rcpt.
Qed.

(** Delivering writes nothing to the client and keeps the envelope. *)
Lemma deliver_one_quiet n rcpt results raw received spam scan s :
  let s' := (deliver_one parse to_lowercase deps remote_ip n rcpt results raw received spam scan s).2 in
  se_conn s' = se_conn s /\ se_env s' = se_env s /\ se_tick s' = se_tick s.
Proof.
  unfold deliver_one. destruct (deliver _ _ _ _ _ _ _ _ _ _ _) as [[[dm|e]|] m]; done.
Qed.

Lemma deliver_all_quiet rcpts : forall n results raw received spam scan any s,
  let s' := (deliver_all parse to_lowercase deps remote_ip n rcpts results raw received spam scan any s).2 in
  se_conn s' = se_conn s /\ se_env s' = se_env s /\ se_tick s' = se_tick s.
Proof.
  induction rcpts as [|r rcpts IH]; intros n results raw received spam scan any s; [done|].
  cbn [deliver_all]. unfold mbind, St_bind.
  pose proof (deliver_one_quiet n r results raw received spam scan s) as Hq.
  destruct (deliver_one _ _ _ _ _ _ _ _ _ _ _ s) as [[res|] s1]; [|exact Hq].
  cbn [snd] in Hq. destruct Hq as (H1' & H2' & H3').
  destruct (IH (S n) results raw received spam scan (is_ok res || any) s1) as (? & ? & ?).
  split_and!; congruence.
Qed.

Lemma log_warnings_quiet l : forall s,
  let s' := (log_warnings deps l s).2 in
  se_conn s' = se_conn s /\ se_env s' = se_env s /\ se_mail s' = se_mail s /\ se_tick s' = se_tick s.
Proof.
  induction l as [|w l IH]; intros s; [done|]. cbn [log_warnings]. unfold mbind, St_bind, audit_log.
  destruct (log _ _ _ _ _) as [[r|] a]; [|done]. apply (IH (with_audit a s)).
Qed.

(** Every branch after the message is read answers and resets. *)
Lemma finish_answers code text s n :
  phase_of (se_env s) = Recipients n -> code = 250%Z \/ code = 451%Z \/ code = 550%Z ->
  answers (Recipients n) VData (Done Continue)
    ((_ ← reply code text; set_env env_reset) s).2.
Proof.
  intros Hp Hc _. exists code. unfold mbind, St_bind. destruct (reply_sends code text s) as [ok ->]. cbn.
  split; [exists text, ok; cbn; by rewrite last_snoc|]. rewrite phase_reset. rewrite Hp. by constructor.
Qed.

Lemma deliver_message_answers n raw sr spam s r s' :
  phase_of (se_env s) = Recipients n ->
  deliver_message parse to_lowercase deps remote_ip raw sr spam s = (r, s') ->
  answers (Recipients n) VData r s'.
Proof.
  intros Hp. unfold deliver_message, mbind, St_bind, st_get.
  set (m := deliver_all _ _ _ _ _ _ _ _ _ _ _ _). pose proof (deliver_all_quiet (rcpt_to (se_env s)) 0
    (run_auth_checks to_lowercase deps remote_ip (se_env s) raw) raw (now_unix deps (se_tick s)) spam
    (mkScanMetadata (spam_score sr) (av_clean sr)) false s) as Hq.
  cbv zeta in Hq. fold m in Hq. destruct (m s) as [[any|] s1]; [|by intros [= <- <-]].
  cbn [snd] in Hq. destruct Hq as (Hc & He & _). rewrite <- He in Hp.
  destruct any.
  - pose proof (finish_answers 250 (# "OK: message accepted") s1 n Hp ltac:(auto)) as Hf.
    unfold mbind, St_bind in Hf. destruct (reply _ _ s1) as [[[]|] s2]; intros [= <- <-]; done.
  - pose proof (finish_answers 451 (# "Requested action aborted: local error in processing") s1 n Hp ltac:(auto)) as Hf.
    unfold mbind, St_bind in Hf. destruct (reply _ _ s1) as [[[]|] s2]; intros [= <- <-]; done.
Qed.

Lemma refuse_answers n action reason code text s r s' :
  phase_of (se_env s) = Recipients n -> code = 250%Z \/ code = 451%Z \/ code = 550%Z ->
  refuse deps action reason code text s = (r, s') -> answers (Recipients n) VData r s'.
Proof.
  intros Hp Hc. unfold refuse, mbind, St_bind, audit_log.
  destruct (log _ _ _ _ _) as [[x|] a]; [|by intros [= <- <-]].
  pose proof (finish_answers code text (with_audit a s) n Hp Hc) as Hf. unfold mbind, St_bind in Hf.
  destruct (reply code text (with_audit a s)) as [[ok|] s2]; [|by intros [= <- <-]].
  by intros [= <- <-].
Qed.

(** [accept_message] once the scan is done and its warnings are logged. *)
Definition after_scan (raw : str) (sr : ScanResult (F64 := f64)) : St Session Flow :=
  match verdict sr with
  | VReject reason => refuse deps (# "smtp.scan_reject") reason 550 (# "Message rejected by content policy")
  | Defer reason =>
      refuse deps (# "smtp.scan_defer") reason 451 (# "Requested action aborted: try again later")
  | Spam reason => deliver_message parse to_lowercase deps remote_ip raw sr (Some reason)
  | Clean => deliver_message parse to_lowercase deps remote_ip raw sr None
  end.

Definition scan_of (raw : str) (s : Session) : ScanResult (F64 := f64) :=
  scan fmt1 debug_str json (scanner deps (se_tick s)) (scan_request remote_ip (se_env s) raw).

Lemma accept_message_eq raw s :
  accept_message parse to_lowercase fmt1 debug_str json deps remote_ip raw s =
  match log_warnings deps (warnings (scan_of raw s)) s with
  | (Done _, s1) => after_scan raw (scan_of raw s) s1
  | (Panicked, s1) => (Panicked, s1)
  end.
Proof. reflexivity. Qed.

Lemma accept_message_answers n raw :
  triple (fun s => phase_of (se_env s) = Recipients n)
    (accept_message parse to_lowercase fmt1 debug_str json deps remote_ip raw) (answers (Recipients n) VData).
Proof.
  intros s Hp. rewrite accept_message_eq. pose proof (log_warnings_quiet (warnings (scan_of raw s)) s) as Hq.
  destruct (log_warnings _ _ s) as [[x|] s1]; [|done]. cbn [snd] in Hq. destruct Hq as (Hc & He & _).
  rewrite <- He in Hp. unfold after_scan. destruct (verdict _).
  - exact (deliver_message_answers n raw _ None s1 _ _ Hp (surjective_pairing _)).
  - exact (deliver_message_answers n raw _ (Some reason) s1 _ _ Hp (surjective_pairing _)).
  - exact (refuse_answers n _ _ 451 _ s1 _ _ Hp (or_intror (or_introl eq_refl)) (surjective_pairing _)).
  - exact (refuse_answers n _ _ 550 _ s1 _ _ Hp (or_intror (or_intror eq_refl)) (surjective_pairing _)).
Qed.

Lemma data_answers p :
  triple (fun s => env_ok (se_env s) /\ phase_of (se_env s) = p)
    (handle_data parse to_lowercase fmt1 debug_str json deps remote_ip) (answers p VData).
Proof.
  unfold handle_data. apply triple_get. intros s [He <-].
  pose proof (phase_rcpt_count _ He) as Hc. pose proof (eo_mail _ _ He) as Hh.
  destruct (mail_from (se_env s)) as [f|] eqn:Ef; cbn in Hc; [|apply refuses; constructor; by left].
  destruct (rcpt_to (se_env s)) as [|r0 rcpts] eqn:Er; [apply refuses; constructor; by right|].
  assert (Hp : phase_of (se_env s) = Recipients (length (r0 :: rcpts))).
  { unfold phase_of. destruct Hh as [h ->]; [done|]. by rewrite Ef, Er. }
  rewrite Hp. clear He Hc Hh.
  eapply (triple_bind _ _ _ (fun _ s' => phase_of (se_env s') = Recipients (length (r0 :: rcpts))));
    [by intros s' <-| |done].
  intros []; cbn [negb]; [|by apply triple_ret]. apply triple_get. intros s1 Hp1.
  destruct (read_data _ _) as [res rd].
  eapply (triple_bind _ _ _ (fun _ s' => phase_of (se_env s') = Recipients (length (r0 :: rcpts))));
    [by intros s' <-| |done].
  intros _. destruct res as [raw|[|]]; [apply accept_message_answers| |by apply triple_ret].
  intros s2 _. done.
Qed.

Lemma line_answers p tls line :
  triple (fun s => env_ok (se_env s) /\ phase_of (se_env s) = p)
    (handle_line parse to_lowercase fmt1 debug_str json deps remote_ip tls line) (answers p (verb_of line)).
Proof.
  unfold handle_line, verb_of. destruct (split_command _) as [vb rest]. cbn [fst].
  destruct (_ || _).
  { eapply triple_consequence; [apply ehlo_answers|naive_solver|done]. }
  destruct (str_eqb _ (# "STARTTLS")); [eapply triple_consequence; [apply starttls_answers|naive_solver|done]|].
  destruct (str_eqb _ (# "MAIL")); [eapply triple_consequence; [apply mail_answers|naive_solver|done]|].
  destruct (str_eqb _ (# "RCPT")); [apply rcpt_answers|].
  destruct (str_eqb _ (# "DATA")); [apply data_answers|].
  destruct (str_eqb _ (# "RSET")).
  { intros s [_ <-]. apply reply_continue_answers. cbn. rewrite phase_reset. constructor. }
  destruct (str_eqb _ (# "NOOP")); [intros s [_ <-]; apply reply_continue_answers; constructor|].
  destruct (str_eqb _ (# "QUIT")); [by intros s _|].
  intros s [_ <-]. apply reply_continue_answers. constructor.
Qed.

(** ** What DATA's answer means *)
Definition mail_messages (s : Session) : list Metadata.StoredMessage := Metadata.messages (metadata (se_mail s)).

Definition message_for (r : ResolvedRecipient) (x : Metadata.StoredMessage) : Prop :=
  Metadata.account_id (Metadata.m_row x) = rr_account_id r /\
  Metadata.rcpt_to (Metadata.m_row x) = rr_address r.

Lemma deliver_one_adds n rcpt results raw received spam scan s res s' :
  deliver_one parse to_lowercase deps remote_ip n rcpt results raw received spam scan s = (Done res, s') ->
  exists new, mail_messages s' = mail_messages s ++ new /\ Forall (message_for rcpt) new /\
    is_ok res = negb (bool_decide (new = [])).
Proof.
  unfold deliver_one. set (acc := mkRecipient _ _ _). set (env := mkInbound _ _ _).
  pose proof (deliver_appends parse to_lowercase (deliver_rand deps (se_tick s) n) acc env results raw
    received spam scan (se_mail s)) as Hd. cbn zeta in Hd.
  destruct (deliver _ _ _ _ _ _ _ _ _ _ _) as [[[dm|e]|] m]; cbn [fst snd] in Hd; intros [= <- <-];
    destruct Hd as [[Hm Hno]|(dm' & row & Hr & Hm & Ha & Hto & _)]; simplify_eq; unfold mail_messages; cbn.
  - by destruct (Hno dm).
  - eexists. split; [exact Hm|]. split; [|done]. constructor; [|constructor]. done.
  - exists []. rewrite app_nil_r. by split_and!.
Qed.

Lemma deliver_all_adds rcpts : forall n results raw received spam scan any s b s',
  deliver_all parse to_lowercase deps remote_ip n rcpts results raw received spam scan any s = (Done b, s') ->
  exists new, mail_messages s' = mail_messages s ++ new /\
    Forall (fun x => exists r, r ∈ rcpts /\ message_for r x) new /\
    b = any || negb (bool_decide (new = [])).
Proof.
  induction rcpts as [|r rcpts IH]; intros n results raw received spam scan any s b s'.
  { intros [= <- <-]. exists []. rewrite app_nil_r. split_and!; [done|done|by rewrite orb_false_r]. }
  cbn [deliver_all]. unfold mbind, St_bind.
  destruct (deliver_one _ _ _ _ _ _ _ _ _ _ _ s) as [[res|] s1] eqn:E1; [|done].
  apply deliver_one_adds in E1 as (new1 & Hm1 & Hf1 & Hr).
  intros (new2 & Hm2 & Hf2 & ->)%IH. exists (new1 ++ new2). split_and!.
  - by rewrite Hm2, Hm1, app_assoc.
  - apply Forall_app. split; (eapply Forall_impl; [eassumption|]); cbn.
    + intros x Hx. exists r. split; [by left|done].
    + intros x (r' & ? & ?). exists r'. split; [by right|done].
  - rewrite Hr. destruct new1, new2, any; reflexivity.
Qed.

(** What was written to the client. *)
Definition written (s : Session) : list (str * bool) := cn_out (se_conn s).

(** Whether the [n]-th write from now on goes through. *)
Definition next_ok (s : Session) (n : nat) : bool := cn_wok (se_conn s) (length (written s) + n).

Lemma reply_exact code text s :
  reply code text s = (Done (next_ok s 0),
    with_conn (mkConn (cn_rd (se_conn s)) (cn_wok (se_conn s)) (written s ++ [(reply_line code text, next_ok s 0)])) s).
Proof. unfold reply, write_reply, write_all, next_ok, written. by rewrite Nat.add_0_r. Qed.

(** One write later. *)
Lemma next_shift s s1 x : cn_wok (se_conn s1) = cn_wok (se_conn s) -> written s1 = written s ++ [x] ->
  next_ok s1 0 = next_ok s 1 /\
  forall l, written s1 ++ [(l, next_ok s1 0)] = written s ++ [x; (l, next_ok s 1)].
Proof.
  intros Hk Hw. assert (Ho : next_ok s1 0 = next_ok s 1).
  { unfold next_ok. rewrite Hk, Hw, length_app. cbn [length]. by rewrite Nat.add_0_r. }
  split; [done|]. intros l. by rewrite Ho, Hw, <- app_assoc.
Qed.

(** The end of [deliver_message]: 250 when messages were added, else 451. *)
Lemma deliver_message_exact raw sr spam s flow s' :
  deliver_message parse to_lowercase deps remote_ip raw sr spam s = (Done flow, s') ->
  exists new text, mail_messages s' = mail_messages s ++ new /\
    Forall (fun x => exists r, r ∈ rcpt_to (se_env s) /\ message_for r x) new /\
    written s' = written s ++ [(reply_line (if bool_decide (new = []) then 451 else 250) text, next_ok s 0)] /\
    flow = (if next_ok s 0 then Continue else Leave Closed) /\
    se_env s' = (if next_ok s 0 then env_reset (se_env s) else se_env s).
Proof.
  unfold deliver_message, mbind, St_bind, st_get.
  pose proof (deliver_all_quiet (rcpt_to (se_env s)) 0 (run_auth_checks to_lowercase deps remote_ip (se_env s) raw) raw
    (now_unix deps (se_tick s)) spam (mkScanMetadata (spam_score sr) (av_clean sr)) false s) as Hq. cbv zeta in Hq.
  destruct (deliver_all _ _ _ _ _ _ _ _ _ _ _ _ s) as [[b|] s1] eqn:Ed; [|done].
  cbn [snd] in Hq. destruct Hq as (Hc & He & _). apply deliver_all_adds in Ed as (new & Hm & Hf & ->). cbn [orb].
  assert (Hok : next_ok s1 0 = next_ok s 0 /\ written s1 = written s) by (unfold next_ok, written; by rewrite Hc).
  destruct Hok as [Hok Hw]. intros E. exists new.
  destruct (bool_decide (new = [])); cbn [negb] in E; rewrite reply_exact in E; rewrite Hok, Hw in E;
    eexists; destruct (next_ok s 0); injection E as <- <-; (split_and!; [exact Hm|exact Hf|reflexivity|done|]); cbn;
    by rewrite ?He.
Qed.

Lemma refuse_exact action reason code text s flow s' :
  refuse deps action reason code text s = (Done flow, s') ->
  flow = Continue /\ se_mail s' = se_mail s /\ se_env s' = env_reset (se_env s) /\
  written s' = written s ++ [(reply_line code text, next_ok s 0)].
Proof.
  unfold refuse, mbind, St_bind, audit_log. destruct (log _ _ _ _ _) as [[x|] a]; [|done].
  rewrite reply_exact. intros [= <- <-]. done.
Qed.

End Invariant.

(** ** Properties *)
Section Properties.
Context `{PrimitiveLaws} `{BlobHash} `{SqlAny} `{MailAuth}.
Context (parse : str -> option ParsedMessage) (to_lowercase : str -> str).
Context (fmt1 : f64 -> str) (debug_str : str -> str).
Context (json : str -> result str (RawResponse (F64 := f64))).
Context (deps : Deps) (remote_ip : str).

#[local] Abbreviation connection := (handle_connection parse to_lowercase fmt1 debug_str json deps remote_ip).
#[local] Abbreviation cmd_loop := (command_loop parse to_lowercase fmt1 debug_str json deps remote_ip).
#[local] Abbreviation line_handler := (handle_line parse to_lowercase fmt1 debug_str json deps remote_ip).
#[local] Abbreviation data_handler := (handle_data parse to_lowercase fmt1 debug_str json deps remote_ip).

(** A recipient key is an account's HPKE public key. *)
Definition key_ok (r : ResolvedRecipient) : Prop :=
  exists sk, length sk = PRIVATE_KEY_LEN /\ rr_account_pub r = hpke_public sk.

(** The message parses and its subject normalises. *)
Definition deliverable (raw : str) : Prop :=
  exists p, parse raw = Some p /\
    forall t, p_subject p = Some t -> exists n, Subject.normalize_subject to_lowercase t = Done n.

Lemma deliver_one_runs n rcpt results raw received spam scan s :
  Metadata.meta_inv (metadata (se_mail s)) -> key_ok rcpt -> deliverable raw ->
  exists s' row, deliver_one parse to_lowercase deps remote_ip n rcpt results raw received spam scan s
                 = (Done (Ok tt), s') /\
    Metadata.meta_inv (metadata (se_mail s')) /\
    mail_messages s' = mail_messages s ++ [row] /\ message_for rcpt row.
Proof.
  intros Hm (sk & Hsk & Hpub) (p & Hp & Hs). unfold deliver_one.
  set (acc := mkRecipient _ _ _). set (env := mkInbound _ _ _).
  assert (Hsubj : exists subj, subject_hash_of to_lowercase acc p = Done subj).
  { unfold subject_hash_of. destruct (p_subject p) as [t|]; [|by eexists].
    destruct (Hs t eq_refl) as [nn ->]. by eexists. }
  destruct Hsubj as [subj Hsubj].
  destruct (deliver_runs parse to_lowercase (deliver_rand deps (se_tick s) n) acc env results raw received
    spam scan (se_mail s) p subj sk Hm Hsk Hpub Hp Hsubj) as (dm & m & E & Hrun).
  rewrite E. destruct Hrun as [(p' & subj' & mb & th & wrap & _ & _ & Hmsg & _) _ _ Hmeta].
  do 2 eexists. split_and!; [reflexivity|exact Hmeta|exact Hmsg|done].
Qed.

Lemma deliver_all_runs rcpts : forall n results raw received spam scan any s,
  Metadata.meta_inv (metadata (se_mail s)) -> Forall key_ok rcpts -> deliverable raw ->
  exists b s' new, deliver_all parse to_lowercase deps remote_ip n rcpts results raw received spam scan any s
                 = (Done b, s') /\
    mail_messages s' = mail_messages s ++ new /\ Forall2 message_for rcpts new.
Proof.
  induction rcpts as [|r rcpts IH]; intros n results raw received spam scan any s Hm Hk Hd.
  { exists any, s, []. rewrite app_nil_r. by split_and!. }
  inv Hk. cbn [deliver_all]. unfold mbind, St_bind.
  destruct (deliver_one_runs n r results raw received spam scan s Hm) as (s1 & row & E & Hm1 & Hmsg & Hrow);
    [done..|]. rewrite E.
  destruct (IH (S n) results raw received spam scan (is_ok (Ok tt : Result unit) || any) s1)
    as (b & s2 & new & E2 & Hmsg2 & Hf); [done..|].
  exists b, s2, (row :: new). split_and!; [exact E2| |by constructor].
  rewrite Hmsg2, Hmsg, <- app_assoc. done.
Qed.

(** C2.  The server is not an open relay: over a whole connection --
    whatever bytes arrive, in whatever chunks, with writes failing at any
    point, with or without TLS, even if the session panics -- every message
    added to the store is addressed to a recipient that RCPT accepted: a
    valid address that the directory resolved, at the time, to a local
    account (its own or its domain's catch-all), and it is filed under that
    account's id.  The envelope always holds at most 100 such recipients,
    none without a MAIL, no MAIL without a valid HELO. *)
Theorem session_never_relays (s : Session) :
  let s' := (connection s).2 in
  env_ok deps (se_env s') /\ added_for_rcpts deps (se_mail s) (se_mail s').
Proof.
  cbv zeta.
  set (I := session_inv (rcpt_ok deps) (added_for_rcpts deps (se_mail s))).
  pose proof (added_kept parse to_lowercase deps remote_ip (se_mail s)) as Hadd. pose proof (rcpt_ok_when_resolved deps) as Hres.
  assert (Hdef : keeps I (set_env (fun _ => env_default))).
  { apply keeps_set_env. intros e m [_ Hm]. split; [apply env_ok_default|done]. }
  enough (Hi : triple (eq s) connection (fun _ => I)) by exact (Hi s eq_refl).
  unfold handle_connection. eapply (triple_bind _ _ _ (fun _ => I)); [|intros _|done].
  { intros s0 <-. split; [apply env_ok_default|apply added_for_rcpts_refl]. }
  apply keeps_bind; [by apply keeps_command_loop|]. intros [[|]|]; try apply keeps_ret.
  apply keeps_get. intros s1 Hs1. destruct (rd_buf _); [|apply keeps_ret].
  destruct (tls_acceptor deps) as [[[ch er]|]|]; try apply keeps_ret.
  apply keeps_bind; [by apply keeps_mod|]. intros _. apply keeps_bind; [exact Hdef|]. intros _.
  apply keeps_bind; [by apply keeps_command_loop|]. intros _. apply keeps_ret.
Qed.

(** C38.  The command loop terminates on every input: it never runs out of
    the fuel it is given (one iteration per unread byte plus one), because
    every iteration that continues consumes at least a byte. *)
Theorem command_loop_total (is_tls : bool) (s : Session) : (cmd_loop is_tls s).1 <> Done None.
Proof.
  unfold command_loop, mbind, St_bind.
  destruct is_tls; cbn [negb]; [by apply run_loop_total, Nat.lt_succ_diag_r|].
  destruct (reply_sends 220 (hostname deps ++ # " ESMTP Litterae") s) as [[] ->]; cbn [negb]; [|done].
  apply run_loop_total, Nat.lt_succ_diag_r.
Qed.

(** STARTTLS cannot be abused: a command loop over TLS never asks for
    another STARTTLS and its EHLO never offers it; and when the plaintext
    loop ends in STARTTLS with bytes already buffered, the connection ends
    right there -- no reply, no command and no delivery follows; with an
    empty buffer and a successful handshake the TLS loop starts from a fresh
    envelope and reads only the decrypted stream. *)
Theorem starttls_discipline (s s1 : Session) :
  (forall t, (cmd_loop true t).1 <> Done (Some StartTls)) /\
  (forall vb, (# "STARTTLS") ∉ ehlo_lines deps vb true) /\
  (cmd_loop false (with_env env_default s) = (Done (Some StartTls), s1) ->
   (rd_buf (cn_rd (se_conn s1)) <> [] -> connection s = (Done tt, s1)) /\
   (forall chunks err, rd_buf (cn_rd (se_conn s1)) = [] -> tls_acceptor deps = Some (Some (chunks, err)) ->
      (connection s).2 = (cmd_loop true (with_env env_default (with_reader (mkReader [] chunks err) s1))).2)).
Proof.
  split_and!.
  - intros t. unfold command_loop, mbind, St_bind. cbn [negb]. apply tls_loop_never_starttls.
  - intros vb. assert (E : # "STARTTLS" <> hostname deps ++ # " Hello").
    { intros E. apply (f_equal last) in E.
      change (# " Hello") with (# " Hell" ++ ["o"%char]) in E. by rewrite app_assoc, last_snoc in E. }
    unfold ehlo_lines. cbn [negb andb]. rewrite app_nil_r.
    destruct (eq_ignore_ascii_case _ _); rewrite ?not_elem_of_cons; (split_and!; [exact E|done..|apply not_elem_of_nil]).
  - intros E. unfold handle_connection, mbind, St_bind, set_env, st_mod, st_get. cbn [se_env] in *.
    rewrite E. split.
    + by destruct (rd_buf _).
    + intros chunks err Hb Ha. rewrite Hb, Ha.
      by destruct (command_loop _ _ _ _ _ _ _ true _) as [[o|] s2].
Qed.

(** C15.  The session refines the SMTP reference automaton: whatever a
    command line holds, if the loop goes on after it then its last reply
    carries a code the automaton allows in the phase the envelope was in,
    and the envelope is in the phase that code leads to: MAIL needs a HELO,
    RCPT a MAIL, DATA a recipient (503 otherwise, nothing changed); RCPT
    adds exactly one recipient on 250 and none otherwise, and answers 452 at
    100; DATA always ends the transaction. *)
Theorem smtp_refines_automaton (is_tls : bool) (line : str) (s s' : Session) :
  env_ok deps (se_env s) ->
  line_handler is_tls line s = (Done Continue, s') ->
  env_ok deps (se_env s') /\
  exists code, last_reply s' code /\
    rfc_step (phase_of (se_env s)) (verb_of line) code (phase_of (se_env s')).
Proof.
  intros He E. split.
  - pose proof (keeps_line parse to_lowercase fmt1 debug_str json deps remote_ip _ (rcpt_ok_when_resolved deps) _ (added_kept _ _ _ _ (se_mail s)) is_tls line s) as Hk.
    rewrite E in Hk. by apply Hk; split; [|apply added_for_rcpts_refl].
  - pose proof (line_answers parse to_lowercase fmt1 debug_str json deps remote_ip (phase_of (se_env s))
      is_tls line s (conj He eq_refl)) as Ha. rewrite E in Ha. by apply Ha.
Qed.

(** Everyone gets the message: when the database invariant holds, the
    recipients' keys are account keys and the message parses with a subject
    that normalises, [deliver_message] (a Clean or Spam verdict) never
    panics and adds exactly one message for each recipient of the envelope,
    in order. *)
Theorem every_recipient_served (raw : str) (sr : ScanResult (F64 := f64)) (spam : option str) (s : Session) :
  Metadata.meta_inv (metadata (se_mail s)) -> Forall key_ok (rcpt_to (se_env s)) -> deliverable raw ->
  exists flow s' new, deliver_message parse to_lowercase deps remote_ip raw sr spam s = (Done flow, s') /\
    mail_messages s' = mail_messages s ++ new /\ Forall2 message_for (rcpt_to (se_env s)) new /\
    (flow = Continue -> se_env s' = env_reset (se_env s)).
Proof.
  intros Hm Hk Hd.
  destruct (deliver_all_runs (rcpt_to (se_env s)) 0 (run_auth_checks to_lowercase deps remote_ip (se_env s) raw) raw
    (now_unix deps (se_tick s)) spam (mkScanMetadata (spam_score sr) (av_clean sr)) false s Hm Hk Hd)
    as (b & s1 & new & E & Hmsg & Hf).
  pose proof (deliver_all_quiet parse to_lowercase deps remote_ip (rcpt_to (se_env s)) 0
    (run_auth_checks to_lowercase deps remote_ip (se_env s) raw) raw
    (now_unix deps (se_tick s)) spam (mkScanMetadata (spam_score sr) (av_clean sr)) false s) as Hq.
  cbv zeta in Hq. rewrite E in Hq. cbn [snd] in Hq. destruct Hq as (_ & He & _).
  unfold deliver_message, mbind, St_bind, st_get. rewrite E.
  assert (Hr : exists code text, (if b then reply 250 (# "OK: message accepted")
    else reply 451 (# "Requested action aborted: local error in processing")) = reply code text)
    by (destruct b; by do 2 eexists).
  destruct Hr as (code & text & ->). destruct (reply_sends code text s1) as [[] ->];
    do 3 eexists; (split_and!; [reflexivity|exact Hmsg|exact Hf|]); cbn; [by rewrite He|done].
Qed.

Lemma audit_log_done action detail s :
  sliceable (se_audit s) -> exists a, audit_log deps action detail s = (Done tt, with_audit a s) /\ sliceable a.
Proof.
  intros Hs. destruct (log_done (se_audit s) (audit_rand deps (se_tick s)) (now_unix deps (se_tick s)) action detail Hs)
    as (r & a & E & Ha). exists a. unfold audit_log. by rewrite E.
Qed.

Lemma log_warnings_done l : forall s, sliceable (se_audit s) ->
  exists s', log_warnings deps l s = (Done tt, s') /\ sliceable (se_audit s').
Proof.
  induction l as [|w l IH]; intros s Hs; [by exists s|]. cbn [log_warnings]. unfold mbind, St_bind.
  destruct (audit_log_done (# "smtp.scan_unreachable") w s Hs) as (a & -> & Ha). by apply IH.
Qed.

Lemma refuse_never_panics action reason code text s s' :
  sliceable (se_audit s) -> refuse deps action reason code text s <> (Panicked, s').
Proof.
  intros Hs. unfold refuse, mbind, St_bind. destruct (audit_log_done action reason s Hs) as (a & -> & _).
  by rewrite reply_exact.
Qed.

(** A verdict that has the message delivered. *)
Definition passes (v : Verdict) : bool := match v with Spam _ | Clean => true | VReject _ | Defer _ => false end.

(** After the message is read, only its delivery can panic. *)
Lemma accept_message_panics raw s s' :
  sliceable (se_audit s) ->
  accept_message parse to_lowercase fmt1 debug_str json deps remote_ip raw s = (Panicked, s') ->
  passes (verdict (scan_of fmt1 debug_str json deps remote_ip raw s)) = true /\
  ~ (Metadata.meta_inv (metadata (se_mail s)) /\ Forall key_ok (rcpt_to (se_env s)) /\ deliverable raw).
Proof.
  intros Hs. rewrite accept_message_eq. set (sr := scan_of _ _ _ _ _ _ _).
  pose proof (log_warnings_quiet deps (warnings sr) s) as Hq.
  destruct (log_warnings_done (warnings sr) s Hs) as (s1 & E & Hs1). rewrite E in *. cbn [snd] in Hq.
  destruct Hq as (_ & He & Hm & _). unfold after_scan. rewrite <- He, <- Hm.
  assert (Hd : forall spam, deliver_message parse to_lowercase deps remote_ip raw sr spam s1 = (Panicked, s') ->
    ~ (Metadata.meta_inv (metadata (se_mail s1)) /\ Forall key_ok (rcpt_to (se_env s1)) /\ deliverable raw)).
  { intros spam Ep (H1' & H2' & H3').
    destruct (every_recipient_served raw sr spam s1 H1' H2' H3') as (flow & s2 & new & E2 & _). congruence. }
  destruct (verdict sr) as [|reason|reason|reason]; cbn [passes].
  - intros Ep. split; [done|by eapply Hd].
  - intros Ep. split; [done|by eapply Hd].
  - intros Ep. by apply refuse_never_panics in Ep.
  - intros Ep. by apply refuse_never_panics in Ep.
Qed.

(** C11.  DATA's answer is the truth: with a sender and recipients in the
    envelope, a message that cannot be read, because the 354 cannot be sent or
    the stream ends, closes the connection in silence, and one over the limit
    closes it with 552 (so the rest of it can never be read as commands), both
    with nothing delivered; a scanner's Reject is answered 550 and a Defer
    451, each with nothing delivered and the transaction reset; and otherwise
    the messages added are all for recipients of the envelope, the answer is
    250 exactly when at least one was added and 451 when none was, and the
    transaction is reset unless that answer cannot be sent, which closes the
    connection.  Nothing else is written to the client.  The handler panics
    only in delivering a message that passed the scanners, and then only if it
    cannot be parsed or normalised, a key is no account key or the tables are
    broken. *)
Theorem data_answer_honest (s : Session) (f : str) :
  mail_from (se_env s) = Some f -> rcpt_to (se_env s) <> [] ->
  let '(r, s') := data_handler s in
  let go := (reply_line 354 (# "Start mail input; end with <CRLF>.<CRLF>"), next_ok s 0) in
  let refused flow code := flow = Continue /\ se_mail s' = se_mail s /\ se_env s' = env_reset (se_env s) /\
    exists text, written s' = written s ++ [go; (reply_line code text, next_ok s 1)] in
  let content := (read_data (max_message_size deps) (cn_rd (se_conn s))).1 in
  match r with
  | Done flow =>
      if next_ok s 0 then
        match content with
        | Err DataIo => flow = Leave Closed /\ se_mail s' = se_mail s /\ written s' = written s ++ [go]
        | Err TooLarge => flow = Leave Closed /\ se_mail s' = se_mail s /\
            written s' = written s ++ [go; (reply_line 552 (# "Message size exceeds fixed limit"), next_ok s 1)]
        | Ok raw =>
            match verdict (scan_of fmt1 debug_str json deps remote_ip raw s) with
            | VReject _ => refused flow 550%Z
            | Defer _ => refused flow 451%Z
            | Spam _ | Clean => exists new text, mail_messages s' = mail_messages s ++ new /\
                Forall (fun x => exists r, r ∈ rcpt_to (se_env s) /\ message_for r x) new /\
                written s' = written s ++
                  [go; (reply_line (if bool_decide (new = []) then 451 else 250) text, next_ok s 1)] /\
                flow = (if next_ok s 1 then Continue else Leave Closed) /\
                se_env s' = (if next_ok s 1 then env_reset (se_env s) else se_env s)
            end
        end
      else flow = Leave Closed /\ se_mail s' = se_mail s /\ written s' = written s ++ [go]
  | Panicked => sliceable (se_audit s) -> exists raw, content = Ok raw /\
      passes (verdict (scan_of fmt1 debug_str json deps remote_ip raw s)) = true /\
      ~ (Metadata.meta_inv (metadata (se_mail s)) /\ Forall key_ok (rcpt_to (se_env s)) /\ deliverable raw)
  end.
Proof.
  intros Hf Hr. destruct (data_handler s) as [r s'] eqn:E. intros go refused content. revert E.
  unfold handle_data. unfold mbind at 1, St_bind at 1, st_get at 1. rewrite Hf.
  destruct (rcpt_to (se_env s)) as [|r0 rcpts] eqn:Er; [done|].
  unfold mbind at 1, St_bind at 1. rewrite reply_exact. fold go.
  destruct (next_ok s 0) eqn:E0; cbn [negb]; [|by intros [= <- <-]].
  unfold mbind, St_bind, st_get, st_mod. cbn [se_conn with_conn cn_rd]. unfold content.
  destruct (read_data _ _) as [[raw|[|]] rd]; cbn [fst].
  2: { rewrite reply_exact. intros [= <- <-]. split_and!; [done|done|]. by apply (next_shift s _ go). }
  2: { by intros [= <- <-]. }
  set (s0 := with_reader rd _). intros E.
  assert (Hsc : scan_of fmt1 debug_str json deps remote_ip raw s0 = scan_of fmt1 debug_str json deps remote_ip raw s) by done.
  destruct r as [flow|].
  2: { intros Hs. exists raw. split; [done|]. apply accept_message_panics in E; [|exact Hs]. by rewrite <- Er. }
  rewrite accept_message_eq, Hsc in E.
  set (sr := scan_of fmt1 debug_str json deps remote_ip raw s) in *.
  pose proof (log_warnings_quiet deps (warnings sr) s0) as Hq.
  destruct (log_warnings _ _ s0) as [[x|] s1]; [|done]. cbn [snd] in Hq. destruct Hq as (Hc & He & Hm & _).
  destruct (next_shift s s1 go) as [Ho Hw]; [by rewrite Hc|unfold written; by rewrite Hc|].
  unfold after_scan in E. destruct (verdict sr).
  3, 4: apply refuse_exact in E as (-> & Em & Ee & Ew); rewrite Hw in Ew; rewrite Hm in Em; rewrite He in Ee;
    unfold refused; (split_and!; [done..|by eexists]).
  all: apply deliver_message_exact in E as (new & text & En & Hn & Ew & Hfl & Ee);
    rewrite Hw in Ew; rewrite Ho, He in Ee; rewrite Ho in Hfl; rewrite He in Hn; exists new, text;
    unfold mail_messages in *; rewrite Hm in En; rewrite <- Er; by split_and!.
Qed.

End Properties.

(** ** Witnesses *)
#[local] Existing Instance toy_primitives.
#[local] Existing Instance toy_laws.
#[local] Existing Instance Blob.toy_BlobHash.
#[local] Existing Instance first_row.

#[local] Instance toy_mail_auth : MailAuth := {|
  SpfOutput := unit; AuthMessage := unit; DkimOutput := unit; DmarcOutput := unit;
  verify_spf := fun _ _ _ _ => tt; spf_debug := fun _ => # "Pass"; am_parse := fun _ => None;
  verify_dkim := fun _ => []; dkim_pass := fun _ => true; verify_dmarc := fun _ _ _ _ => tt;
  dmarc_debug := fun _ => # "None"
|}.

Definition wit_acct : Account :=
  mkAccount 1 (# "bob") (# "y.org") 1 (pad 16 []) [] (pad 32 (# "priv")) [] 0.

Definition wit_deps : Deps :=
  mkDeps (# "mx.y.org") 100 (fun _ => mkAuthStore [mkAccountRow wit_acct None] []) (fun _ => empty_admin)
    None (fun _ => mkScanner None None) (fun _ => 0%Z)
    (fun _ _ => mkDeliverRand (pad 32 []) (pad 24 []) []) (fun _ => []).

Definition wit_rcpt : ResolvedRecipient := mkResolved (# "bob@y.org") 1 (pad 32 (# "priv")) 1.

Definition wit_session (input : str) (env : Envelope) : Session :=
  mkSession (mkConn (mkReader input [] false) (fun _ => true) []) env
    (mkMailStore ∅ Metadata.empty_store) empty_audit Changes.new 0.

Definition wit_env : Envelope := mkEnvelope (Some (# "x.org")) (Some (# "a@x.org")) [].

Definition wit_handle (line : str) (s : Session) : exec Flow * Session :=
  handle_line toy_parse to_ascii_lowercase (fun _ => []) id (fun _ => Err []) wit_deps (# "192.0.2.1") false line s.

Lemma smtp_refines_automaton_witness :
  let r := wit_handle (# "RCPT TO:<bob@y.org>") (wit_session [] wit_env) in
  env_ok wit_deps (se_env r.2) /\
  exists code, last_reply r.2 code /\ rfc_step Sender VRcpt code (phase_of (se_env r.2)).
Proof.
  intros r. assert (E : r = (Done Continue, r.2)) by (apply pair_with_fst; vm_compute; reflexivity).
  exact (smtp_refines_automaton toy_parse to_ascii_lowercase (fun _ => []) id (fun _ => Err []) wit_deps
    (# "192.0.2.1") false (# "RCPT TO:<bob@y.org>") (wit_session [] wit_env) r.2
    (Build_env_with (rcpt_ok wit_deps) wit_env (le_0_n _) (fun H => match H eq_refl with end) (fun _ => mk_is_Some _ _ eq_refl)
       (fun h H => ltac:(injection H as <-; vm_compute; reflexivity)) (List.Forall_nil _)) E).
Defined.

Definition wit_data_session : Session :=
  wit_session (# "Hi" ++ crlf ++ # "body" ++ crlf ++ # "." ++ crlf)
    (mkEnvelope (Some (# "x.org")) (Some (# "a@x.org")) [wit_rcpt]).

#[local] Abbreviation wit_data :=
  (handle_data toy_parse to_ascii_lowercase (fun _ => []) id (fun _ => Err []) wit_deps (# "192.0.2.1")
     wit_data_session).

Lemma data_answer_honest_witness : exists new text,
  mail_messages wit_data.2 = mail_messages wit_data_session ++ new /\
  Forall (fun x => exists r, r ∈ rcpt_to (se_env wit_data_session) /\ message_for r x) new /\
  written wit_data.2 = written wit_data_session ++
    [(reply_line 354 (# "Start mail input; end with <CRLF>.<CRLF>"), true);
     (reply_line (if bool_decide (new = []) then 451 else 250) text, true)].
Proof.
  pose proof (data_answer_honest toy_parse to_ascii_lowercase (fun _ => []) id (fun _ => Err []) wit_deps
    (# "192.0.2.1") wit_data_session (# "a@x.org") eq_refl ltac:(discriminate)) as Hd.
  assert (E : wit_data = (Done Continue, wit_data.2))
    by (apply pair_with_fst; vm_compute; reflexivity).
  set (s' := wit_data.2) in *. rewrite E in Hd.
  assert (Er : (read_data (max_message_size wit_deps) (cn_rd (se_conn wit_data_session))).1
    = Ok (# "Hi" ++ crlf ++ # "body" ++ crlf)) by (vm_compute; reflexivity).
  rewrite Er in Hd. destruct Hd as (new & text & Hm & Hf & Hw & _). exists new, text. exact (conj Hm (conj Hf Hw)).
Defined.

Lemma every_recipient_served_witness :
  exists flow s' new,
    deliver_message toy_parse to_ascii_lowercase wit_deps (# "192.0.2.1") wit_raw
      (mkScanResult Clean [] None None) None wit_data_session = (Done flow, s') /\
    mail_messages s' = mail_messages wit_data_session ++ new /\
    Forall2 message_for [wit_rcpt] new /\ (flow = Continue -> se_env s' = env_reset (se_env wit_data_session)).
Proof.
  apply (every_recipient_served toy_parse to_ascii_lowercase wit_deps (# "192.0.2.1") wit_raw
    (mkScanResult Clean [] None None) None wit_data_session).
  - apply Metadata.empty_store_inv.
  - constructor; [|constructor]. exists (pad 32 (# "priv")). split; reflexivity.
  - eexists. split; [vm_compute; reflexivity|]. intros t [= <-]. eexists. vm_compute. reflexivity.
Defined.
