(* ===== verification/Backoff.v ===== *)
(** * Backoff: the retry schedule of the outbound queue

    src/crates/queue/src/backoff.rs: the delay before the next attempt, with
    its floating-point jitter computed as the code computes it.  The random
    jitter is an argument. *)

From stdpp Require Import base list strings sets.
From Stdlib Require Import Ascii ZArith Lia.
From S2P Require Import Prelude RustStr.

(** ** [f64] arithmetic

    A finite [f64] is an integer multiple of 2^-1074; it is represented by
    that integer.  Results are rounded to the nearest value with a 53-bit
    significand, ties to even.  (No value here comes near the range's upper
    end.) *)
Definition F64_ONE : Z := 2 ^ 1074.

Definition round_f64 (v : Z) : Z :=
  let a := Z.abs v in
  let u := (2 ^ Z.max 0 (Z.log2 a - 52))%Z in
  let q := (a / u)%Z in
  let r := (a mod u)%Z in
  let up := (u <? 2 * r)%Z || ((2 * r =? u)%Z && Z.odd q) in
  (Z.sgn v * ((if up then q + 1 else q) * u))%Z.

Definition f64_add (a b : Z) : Z := round_f64 (a + b).

(** [n as f64 * b] for an integer the conversion keeps exact. *)
Definition f64_mul_int (n b : Z) : Z := round_f64 (n * b).

(** [v as i64]: towards zero, saturating. *)
Definition f64_as_i64 (v : Z) : Z := Z.max i64_min (Z.min i64_max (Z.quot v F64_ONE)).

(** The literal [0.15]. *)
Definition F64_0_15 : Z := 5404319552844595 * 2 ^ 1019.

(** ** The schedule *)
Definition MAX_LIFETIME_SECS : Z := 5 * 24 * 3600.
Definition DELAYED_DSN_THRESHOLD_SECS : Z := 30 * 60.
Definition SCHEDULE_MINUTES : list Z := [5; 15; 30; 60; 120; 240]%Z.
Definition CAP_MINUTES : Z := 480.

Definition base_minutes (attempts : Z) : Z :=
  if (1 <=? attempts)%Z && (attempts <=? Z.of_nat (length SCHEDULE_MINUTES))%Z
  then nth (Z.to_nat (attempts - 1)) SCHEDULE_MINUTES 0%Z
  else CAP_MINUTES.

(** [jitter_frac] is the draw of [random_range(-0.15..=0.15)]. *)
Definition next_delay_secs (attempts jitter_frac : Z) : Z :=
  let base_secs := (base_minutes attempts * 60)%Z in
  f64_as_i64 (f64_mul_int base_secs (f64_add F64_ONE jitter_frac)).

Definition jitter_ok (j : Z) : Prop := (- F64_0_15 <= j <= F64_0_15)%Z.

(** ** Lemmas *)

(** Half-even division is monotone at a fixed unit. *)
Definition half_even (u a : Z) : Z :=
  if (u <? 2 * (a mod u))%Z || ((2 * (a mod u) =? u)%Z && Z.odd (a / u)) then (a / u + 1)%Z else (a / u)%Z.

Lemma half_even_bounds u a : (0 < u)%Z -> (a / u <= half_even u a <= a / u + 1)%Z.
Proof. intros Hu. unfold half_even. case_match; lia. Qed.

Lemma half_even_mono u a b : (0 < u)%Z -> (a <= b)%Z -> (half_even u a <= half_even u b)%Z.
Proof.
  intros Hu Hab. pose proof (half_even_bounds u a Hu). pose proof (half_even_bounds u b Hu).
  assert (Hq : (a / u <= b / u)%Z) by (apply Z.div_le_mono; lia).
  destruct (decide (a / u < b / u)%Z) as [Hlt|Hge]; [lia|].
  assert (Eq : (a / u = b / u)%Z) by lia. unfold half_even. rewrite <- Eq.
  assert (Hr : (a mod u <= b mod u)%Z).
  { pose proof (Z.div_mod a u ltac:(lia)). pose proof (Z.div_mod b u ltac:(lia)). rewrite <- Eq in *. nia. }
  destruct (_ || _) eqn:Ea; [|case_match; lia].
  destruct (_ || _) eqn:Eb in |- *; [lia|]. exfalso.
  apply orb_false_iff in Eb as [E1 E2]. apply orb_true_iff in Ea as [Ea|Ea]; bool_facts; [lia|].
  apply andb_false_iff in E2 as [E2|E2]; bool_facts; [lia|congruence].
Qed.

Definition unit_of (a : Z) : Z := (2 ^ Z.max 0 (Z.log2 a - 52))%Z.

Lemma round_f64_pos a : (0 <= a)%Z -> round_f64 a = (half_even (unit_of a) a * unit_of a)%Z.
Proof.
  intros Ha. unfold round_f64. rewrite Z.abs_eq by done. fold (unit_of a). fold (half_even (unit_of a) a).
  destruct (decide (a = 0)%Z) as [->|Hne]; [done|]. rewrite Z.sgn_pos by lia. lia.
Qed.

Lemma unit_of_pos a : (0 < unit_of a)%Z.
Proof. unfold unit_of. apply Z.pow_pos_nonneg; lia. Qed.

(** A significand has at most 53 bits, and at least 53 above the smallest
    unit. *)
Lemma significand_bounds a :
  (0 < a)%Z -> (a / unit_of a < 2 ^ 53)%Z /\ ((1 < unit_of a)%Z -> (2 ^ 52 <= a / unit_of a)%Z).
Proof.
  intros Ha. pose proof (Z.log2_spec a Ha) as [Hlo Hhi]. pose proof (Z.log2_nonneg a).
  unfold unit_of. destruct (decide (Z.log2 a <= 52)%Z) as [Hs|Hs].
  - rewrite Z.max_l by lia. rewrite Z.div_1_r. split; [|lia].
    assert (2 ^ Z.succ (Z.log2 a) <= 2 ^ 53)%Z by (apply Z.pow_le_mono_r; lia). lia.
  - rewrite Z.max_r by lia. split; [|intros _].
    + apply Z.div_lt_upper_bound; [apply Z.pow_pos_nonneg; lia|].
      rewrite <- Z.pow_add_r by lia. replace (Z.log2 a - 52 + 53)%Z with (Z.succ (Z.log2 a)) by lia. lia.
    + apply Z.div_le_lower_bound; [apply Z.pow_pos_nonneg; lia|].
      rewrite <- Z.pow_add_r by lia. replace (Z.log2 a - 52 + 52)%Z with (Z.log2 a) by lia. lia.
Qed.

Lemma unit_of_mono a b :
  (0 < a <= b)%Z -> unit_of a = unit_of b \/ (2 * unit_of a <= unit_of b)%Z.
Proof.
  intros Hab. pose proof (Z.log2_le_mono a b ltac:(lia)) as Hl. unfold unit_of.
  set (x := Z.max 0 (Z.log2 a - 52)) in *. set (y := Z.max 0 (Z.log2 b - 52)) in *.
  assert (Hxy : (0 <= x <= y)%Z) by lia. destruct (decide (x = y)) as [->|Hne]; [by left|right].
  rewrite <- Z.pow_succ_r by lia. apply Z.pow_le_mono_r; lia.
Qed.

(** Rounding is monotone. *)
Lemma round_f64_mono a b : (0 <= a <= b)%Z -> (round_f64 a <= round_f64 b)%Z.
Proof.
  intros Hab. rewrite !round_f64_pos by lia. destruct (decide (a = 0)%Z) as [->|Ha].
  { pose proof (half_even_bounds (unit_of b) b (unit_of_pos b)). pose proof (unit_of_pos b).
    pose proof (Z.div_pos b (unit_of b) ltac:(lia) ltac:(lia)). change (half_even _ 0) with 0%Z. nia. }
  pose proof (unit_of_pos a) as Hua. pose proof (unit_of_pos b) as Hub.
  destruct (unit_of_mono a b ltac:(lia)) as [Eu|Hu].
  - rewrite Eu. apply Z.mul_le_mono_nonneg_r; [lia|]. apply half_even_mono; lia.
  - destruct (significand_bounds a ltac:(lia)) as [Hsa _].
    destruct (significand_bounds b ltac:(lia)) as [_ Hsb]. specialize (Hsb ltac:(lia)).
    pose proof (half_even_bounds (unit_of a) a Hua). pose proof (half_even_bounds (unit_of b) b Hub).
    assert (half_even (unit_of a) a <= 2 * 2 ^ 52)%Z by lia.
    assert (2 ^ 52 <= half_even (unit_of b) b)%Z by lia. nia.
Qed.

Lemma f64_as_i64_mono a b : (a <= b)%Z -> (f64_as_i64 a <= f64_as_i64 b)%Z.
Proof.
  intros Hab. unfold f64_as_i64.
  assert (Z.quot a F64_ONE <= Z.quot b F64_ONE)%Z by (apply Z.quot_le_mono; [done|lia]). lia.
Qed.

Lemma next_delay_mono attempts j k :
  (0 <= base_minutes attempts)%Z -> (- F64_ONE <= j <= k)%Z ->
  (next_delay_secs attempts j <= next_delay_secs attempts k)%Z.
Proof.
  intros Hb Hjk. unfold next_delay_secs, f64_mul_int, f64_add. apply f64_as_i64_mono, round_f64_mono.
  assert (H0 : (0 <= round_f64 (F64_ONE + j))%Z).
  { change 0%Z with (round_f64 0). apply round_f64_mono. lia. }
  assert (Hm : (round_f64 (F64_ONE + j) <= round_f64 (F64_ONE + k))%Z) by (apply round_f64_mono; lia).
  split; [nia|]. apply Z.mul_le_mono_nonneg_l; lia.
Qed.

Lemma base_minutes_cases attempts : base_minutes attempts ∈ SCHEDULE_MINUTES ++ [CAP_MINUTES].
Proof.
  unfold base_minutes. destruct (_ && _) eqn:E; [|set_solver]. bool_facts.
  apply elem_of_app. left. change 0%Z with (default 0%Z None).
  apply list_elem_of_In, nth_In. unfold SCHEDULE_MINUTES in *. cbn [length] in *. lia.
Qed.

Lemma base_minutes_range attempts : (5 <= base_minutes attempts <= 480)%Z.
Proof.
  pose proof (base_minutes_cases attempts) as Hc. unfold SCHEDULE_MINUTES, CAP_MINUTES in Hc.
  repeat (apply elem_of_cons in Hc as [->|Hc]; [lia|]). by apply elem_of_nil in Hc.
Qed.

Lemma base_minutes_mono attempts :
  (1 <= attempts)%Z -> (base_minutes attempts <= base_minutes (attempts + 1))%Z.
Proof.
  intros H1. destruct (decide (attempts <= 6)%Z) as [H6|H6].
  - assert (Hall : forallb (fun a => base_minutes a <=? base_minutes (a + 1))%Z [1; 2; 3; 4; 5; 6]%Z = true)
      by reflexivity.
    rewrite forallb_forall in Hall. apply Z.leb_le, Hall. cbn [In]. lia.
  - unfold base_minutes, SCHEDULE_MINUTES. cbn [length].
    by rewrite !andb_false_intro2 by (apply Z.leb_gt; lia).
Qed.

(** The delays at the ends of the jitter's range, for every base. *)
Definition ends_ok (b : Z) : bool :=
  (b * 60 * 85 / 100 <=? f64_as_i64 (f64_mul_int (b * 60) (f64_add F64_ONE (- F64_0_15))))%Z &&
  (f64_as_i64 (f64_mul_int (b * 60) (f64_add F64_ONE F64_0_15)) <=? b * 60 * 115 / 100)%Z.

Lemma schedule_ends_ok : forallb ends_ok (SCHEDULE_MINUTES ++ [CAP_MINUTES]) = true.
Proof. vm_compute. reflexivity. Qed.

(** The delay's window, for every attempt count and draw. *)
Lemma next_delay_window (attempts j : Z) :
  jitter_ok j ->
  let base := (base_minutes attempts * 60)%Z in
  (base * 85 / 100 <= next_delay_secs attempts j <= base * 115 / 100)%Z.
Proof.
  intros [Hlo Hhi] base.
  assert (Hends : ends_ok (base_minutes attempts) = true).
  { pose proof schedule_ends_ok as Hall. rewrite forallb_forall in Hall. apply Hall.
    apply list_elem_of_In, base_minutes_cases. }
  unfold ends_ok in Hends. bool_facts.
  pose proof (base_minutes_range attempts) as Hb.
  assert (Hrange : (- F64_ONE <= - F64_0_15)%Z) by (vm_compute; done).
  pose proof (next_delay_mono attempts (- F64_0_15) j ltac:(lia) ltac:(lia)) as H1.
  pose proof (next_delay_mono attempts j F64_0_15 ltac:(lia) ltac:(lia)) as H2.
  unfold next_delay_secs at 1 in H1. unfold next_delay_secs at 2 in H2. fold base in H, H0, H1, H2. lia.
Qed.

Lemma next_delay_range (attempts j : Z) : jitter_ok j -> (255 <= next_delay_secs attempts j <= 33120)%Z.
Proof.
  intros Hj. pose proof (next_delay_window attempts j Hj) as Hw. cbn zeta in Hw.
  pose proof (base_minutes_range attempts) as Hb.
  assert (255 <= base_minutes attempts * 60 * 85 / 100)%Z by (apply Z.div_le_lower_bound; lia).
  assert (base_minutes attempts * 60 * 115 / 100 <= 33120)%Z by (apply Z.div_le_upper_bound; lia). lia.
Qed.

(** ** Properties *)

(** Retry delays stay within the documented window: for every attempt
    count and every jitter the generator may draw, [next_delay_secs],
    computed in [f64] arithmetic with its rounding, lies between 85% and 115%
    of the scheduled base (both ends whole seconds), so it is at least 255
    seconds and at most 9 hours 12 minutes; and the bases never decrease with
    the attempt count. *)
Theorem retry_delay_bounded (attempts j : Z) :
  jitter_ok j ->
  let base := (base_minutes attempts * 60)%Z in
  (base * 85 / 100 <= next_delay_secs attempts j <= base * 115 / 100)%Z /\
  (255 <= next_delay_secs attempts j <= 33120)%Z /\
  ((1 <= attempts)%Z -> (base_minutes attempts <= base_minutes (attempts + 1))%Z).
Proof.
  intros Hj base. split; [by apply next_delay_window|]. split; [by apply next_delay_range|].
  apply base_minutes_mono.
Qed.

Lemma retry_delay_bounded_witness :
  (255 <= next_delay_secs 1 (- F64_0_15) <= 33120)%Z.
Proof.
  apply (retry_delay_bounded 1 (- F64_0_15)). unfold jitter_ok, F64_0_15. lia.
Defined.
