(* ===== verification/Queue.v ===== *)
(** * Queue: the durable outbound queue, [queue]

    The SQLite tables of src/crates/queue/src/schema.rs and the operations on
    them outside the worker: enqueue.rs, query.rs, scheduled.rs, dkim.rs; the
    reply classification of classify.rs and the bounce of dsn.rs.  SQLite
    statements succeed; the clock and generated keys are arguments. *)

From stdpp Require Import base list strings gmap sorting.
From Stdlib Require Import Ascii ZArith Lia.
From S2P Require Import Prelude RustStr Input Store Backoff.
Import Blob.

(** ** types.rs *)
Inductive RcptState : Type := Ready | Claimed | Deferred | Delivered | Failed | Expired.

#[global] Instance RcptState_eq_dec : EqDecision RcptState.
Proof. solve_decision. Defined.

Definition as_str (s : RcptState) : str :=
  match s with
  | Ready => # "ready"
  | Claimed => # "claimed"
  | Deferred => # "deferred"
  | Delivered => # "delivered"
  | Failed => # "failed"
  | Expired => # "expired"
  end.

Definition from_db_str (s : str) : RcptState :=
  if str_eqb s (# "claimed") then Claimed
  else if str_eqb s (# "deferred") then Deferred
  else if str_eqb s (# "delivered") then Delivered
  else if str_eqb s (# "failed") then Failed
  else if str_eqb s (# "expired") then Expired
  else Ready.

Definition is_terminal (s : RcptState) : bool :=
  match s with Delivered | Failed | Expired => true | _ => false end.

Inductive DsnNotify : Type := Never | Failure | Success | Delay.

Definition notify_as_str (n : DsnNotify) : str :=
  match n with
  | Never => # "NEVER"
  | Failure => # "FAILURE"
  | Success => # "SUCCESS"
  | Delay => # "DELAY"
  end.

Record NewOutbound : Type := mkNewOutbound {
  no_account_id : Z;
  no_envelope_from : str;
  raw_message : str;
  recipients : list str;
  no_is_dsn : bool;
  no_dsn_envid : option str;
  no_dsn_ret : option str
}.

(** A row of [outbound] ([is_dsn] as the boolean its 0 or 1 stands for). *)
Record OutboundMessage : Type := mkOutbound {
  o_id : Z;
  o_account_id : Z;
  message_blob : str;
  envelope_from : str;
  o_created_at : Z;
  expires_at : Z;
  dsn_envid : option str;
  dsn_ret : option str;
  is_dsn : bool
}.

(** A row of [outbound_rcpt]; [state] is the column's text. *)
Record RcptRow : Type := mkRcptRow {
  r_id : Z;
  outbound_id : Z;
  r_rcpt_to : str;
  r_domain : str;
  dsn_notify : str;
  state : str;
  attempts : Z;
  next_attempt_at : Z;
  claimed_by : option str;
  claimed_at : option Z;
  last_code : option Z;
  last_status : option str;
  last_detail : option str;
  delayed_dsn_sent : bool
}.

(** What the queries hand out. *)
Record OutboundRecipient : Type := mkOutboundRecipient {
  or_id : Z;
  or_outbound_id : Z;
  or_rcpt_to : str;
  or_domain : str;
  or_dsn_notify : str;
  or_state : RcptState;
  or_attempts : Z;
  or_next_attempt_at : Z;
  or_last_code : option Z;
  or_last_status : option str;
  or_last_detail : option str;
  or_delayed_dsn_sent : bool
}.

(** ** classify.rs *)
Inductive Outcome : Type :=
| OutDelivered
| Transient (code : option N) (status : option str) (detail : str)
| Permanent (code : option N) (status : option str) (detail : str).

(** [smtp_proto::Response] and the cases of [mail_send::Error] the code tells
    apart. *)
Record Response : Type := mkResponse { rp_code : N; rp_esc : N * N * N; rp_message : str }.

Inductive SendError : Type :=
| UnexpectedReply (r : Response)
| AuthenticationFailed (r : Response)
| MissingStartTls
| OtherSendError (display : str).

(** [Display for mail_send::Error], where the code prints one. *)
Class SendErrorDisplay : Type := { send_error_display : SendError -> str }.

Definition format_esc (esc : N * N * N) : option str :=
  let '(a, b, c) := esc in
  if (a =? 0)%N && (b =? 0)%N && (c =? 0)%N then None
  else Some (dec (Z.of_N a) ++ # "." ++ dec (Z.of_N b) ++ # "." ++ dec (Z.of_N c)).

Definition classify_code (code : N) (status : option str) (detail : str) : Outcome :=
  match (code / 100)%N with
  | 2%N => OutDelivered
  | 4%N => Transient (Some code) status detail
  | 5%N => Permanent (Some code) status detail
  | _ => Transient (Some code) status detail
  end.

Definition classify_send_result `{SendErrorDisplay} (result : result SendError unit) : Outcome :=
  match result with
  | Ok _ => OutDelivered
  | Err (UnexpectedReply resp) | Err (AuthenticationFailed resp) =>
      classify_code (rp_code resp) (format_esc (rp_esc resp)) (rp_message resp)
  | Err e => Transient None None (send_error_display e)
  end.

Definition classify_connect_failure (detail : str) (hard_dns_failure : bool) : Outcome :=
  if hard_dns_failure then Permanent None None detail else Transient None None detail.

Definition classify_dane_failure (detail : str) : Outcome := Permanent None None detail.

(** ** schema.rs *)
Record DomainKey : Type := mkDomainKey {
  dk_domain : str;
  selector : str;
  private_der : str;
  public_der : str
}.

Record DkimRow : Type := mkDkimRow { dk_key : DomainKey; dk_created_at : Z }.

Record StoredScheduledEvent : Type := mkScheduled {
  e_id : Z;
  e_account_id : Z;
  kind : str;
  fire_at : Z;
  e_thread_id : option str;
  payload : option str;
  e_state : str
}.

(** The four tables, each in rowid order. *)
Record QueueStore : Type := mkQueue {
  outbound : list OutboundMessage;
  outbound_rcpt : list RcptRow;
  dkim_keys : list DkimRow;
  scheduled_events : list StoredScheduledEvent
}.

Definition empty_queue : QueueStore := mkQueue [] [] [] [].

Definition with_rcpts (l : list RcptRow) (q : QueueStore) : QueueStore :=
  mkQueue (outbound q) l (dkim_keys q) (scheduled_events q).
Definition with_outbound (l : list OutboundMessage) (q : QueueStore) : QueueStore :=
  mkQueue l (outbound_rcpt q) (dkim_keys q) (scheduled_events q).
Definition with_events (l : list StoredScheduledEvent) (q : QueueStore) : QueueStore :=
  mkQueue (outbound q) (outbound_rcpt q) (dkim_keys q) l.

(** [state IN (..)] and [UPDATE outbound_rcpt SET f WHERE p]. *)
Definition state_in (l : list str) (r : RcptRow) : bool := existsb (str_eqb (state r)) l.

Definition update_rcpts (p : RcptRow -> bool) (f : RcptRow -> RcptRow) (q : QueueStore) : QueueStore :=
  with_rcpts (sql_update p f (outbound_rcpt q)) q.

(** [outbound_rcpt JOIN outbound ON outbound.id = outbound_rcpt.outbound_id]. *)
Definition rcpt_join (q : QueueStore) : list (RcptRow * OutboundMessage) :=
  r ← outbound_rcpt q;
  (fun o => (r, o)) <$> List.filter (fun o => (o_id o =? outbound_id r)%Z) (outbound q).

(** ** dkim.rs *)
Definition SELECTOR : str := # "litterae".
Definition SIGNED_HEADERS : list str := [ # "From"; # "To"; # "Subject"; # "Date"; # "Message-ID"].

(** [mail_auth]'s RSA keys and signer: the outcome of signing with a private
    key, a domain, a selector and a header list, at a time by its clock, which
    the signature may name; the inner result is the key's decoding. *)
Class DkimSigner : Type := {
  dkim_sign : str -> str -> str -> list str -> Z -> str -> result str (result str str)
}.

Definition load_dkim_key (q : QueueStore) (d : str) : option DomainKey :=
  match sql_find (fun r => str_eqb (dk_domain (dk_key r)) d) (dkim_keys q) with
  | Some r => Some (mkDomainKey d (selector (dk_key r)) (private_der (dk_key r)) (public_der (dk_key r)))
  | None => None
  end.

(** [generated] is what [DkimKeyPair::generate_rsa] returns: private and
    public DER. *)
Definition ensure_dkim_key (generated : result str (str * str)) (now : Z) (d : str) (q : QueueStore)
    : Result DomainKey * QueueStore :=
  match load_dkim_key q d with
  | Some key => (Ok key, q)
  | None =>
      match generated with
      | Err e => (Err (Crypto (# "DKIM key generation failed: " ++ e)), q)
      | Ok (private, public) =>
          let key := mkDomainKey d SELECTOR private public in
          (Ok key, mkQueue (outbound q) (outbound_rcpt q) (dkim_keys q ++ [mkDkimRow key now])
                     (scheduled_events q))
      end
  end.

Definition sign `{DkimSigner} (key : DomainKey) (now : Z) (raw : str) : Result str :=
  match dkim_sign (private_der key) (dk_domain key) (selector key) SIGNED_HEADERS now raw with
  | Err e => Err (Crypto (# "invalid DKIM private key: " ++ e))
  | Ok (Err e) => Err (Crypto (# "DKIM signing failed: " ++ e))
  | Ok (Ok header) => Ok header
  end.

(** ** enqueue.rs

    The signer's clock and [now_unix] are read within one call: one reading
    here. *)
Definition RATE_LIMIT_WINDOW_SECS : Z := 3600.
Definition MAX_MESSAGES_PER_WINDOW : Z := 200.
Definition MAX_RECIPIENTS_PER_WINDOW : Z := 500.

Definition valid_envelope (new : NewOutbound) : bool :=
  negb ((negb (bool_decide (no_envelope_from new = [])) && negb (valid_email_address (no_envelope_from new)))
        || bool_decide (recipients new = [])
        || (100 <? length (recipients new))%nat
        || existsb (fun r => negb (valid_email_address r)) (recipients new)).

(** [WHERE account_id = ?1 AND created_at > ?2 AND is_dsn = 0]. *)
Definition counted (account since : Z) (o : OutboundMessage) : bool :=
  (o_account_id o =? account)%Z && (since <? o_created_at o)%Z && negb (is_dsn o).

Definition message_count (account since : Z) (q : QueueStore) : Z :=
  sql_count (counted account since) (outbound q).

Definition recipient_count (account since : Z) (q : QueueStore) : Z :=
  sql_count (fun ro => counted account since ro.2) (rcpt_join q).

Definition rate_limit (new : NewOutbound) (now : Z) (q : QueueStore) : Result unit :=
  if no_is_dsn new then Ok tt
  else
    let since := (now - RATE_LIMIT_WINDOW_SECS)%Z in
    let messages := message_count (no_account_id new) since q in
    if (MAX_MESSAGES_PER_WINDOW <=? messages)%Z
    then Err (RateLimited (# "account has sent " ++ dec messages ++ # " messages in the last hour (limit "
                             ++ dec MAX_MESSAGES_PER_WINDOW ++ # ")"))
    else
      let rcpts := recipient_count (no_account_id new) since q in
      if (MAX_RECIPIENTS_PER_WINDOW <? rcpts + Z.of_nat (length (recipients new)))%Z
      then Err (RateLimited (# "account has addressed " ++ dec rcpts ++ # " recipients in the last hour (limit "
                               ++ dec MAX_RECIPIENTS_PER_WINDOW ++ # ")"))
      else Ok tt.

Definition insert_outbound (new : NewOutbound) (hash : str) (now : Z) (q : QueueStore) : Z * QueueStore :=
  let id := next_rowid (o_id <$> outbound q) in
  (id, with_outbound (outbound q ++
         [mkOutbound id (no_account_id new) hash (no_envelope_from new) now (now + MAX_LIFETIME_SECS)
            (no_dsn_envid new) (no_dsn_ret new) (no_is_dsn new)]) q).

Definition rcpt_domain (rcpt : str) : str :=
  to_ascii_lowercase (match rsplit_once "@"%char rcpt with Some (_, d) => d | None => rcpt end).

(** The columns left out take their defaults. *)
Definition insert_rcpt (outbound_id now : Z) (q : QueueStore) (rcpt : str) : QueueStore :=
  with_rcpts (outbound_rcpt q ++
    [mkRcptRow (next_rowid (r_id <$> outbound_rcpt q)) outbound_id rcpt (rcpt_domain rcpt) (# "FAILURE")
       (# "ready") 0 now None None None None None false]) q.

Definition enqueue `{BlobHash} `{DkimSigner} (key : DomainKey) (new : NewOutbound) (now : Z)
    (q : QueueStore) (b : BlobStore) : Result Z * (QueueStore * BlobStore) :=
  if negb (valid_envelope new) then (Err (Config (# "invalid outbound envelope")), (q, b))
  else
    match sign key now (raw_message new) with
    | Err e => (Err e, (q, b))
    | Ok dkim_header =>
        match write b (dkim_header ++ raw_message new) with
        | (Err e, b') => (Err e, (q, b'))
        | (Ok blob_hash, b') =>
            match rate_limit new now q with
            | Err e => (Err e, (q, b'))
            | Ok _ =>
                let '(id, q1) := insert_outbound new blob_hash now q in
                (Ok id, (foldl (insert_rcpt id now) q1 (recipients new), b'))
            end
        end
    end.

(** ** query.rs *)
Definition get_outbound (q : QueueStore) (id : Z) : option OutboundMessage :=
  sql_find (fun o => (o_id o =? id)%Z) (outbound q).

Definition row_to_recipient (r : RcptRow) : OutboundRecipient :=
  mkOutboundRecipient (r_id r) (outbound_id r) (r_rcpt_to r) (r_domain r) (dsn_notify r)
    (from_db_str (state r)) (attempts r) (next_attempt_at r) (last_code r) (last_status r)
    (last_detail r) (delayed_dsn_sent r).

Definition recipients_for_outbound `{AnyOrder} (q : QueueStore) (id : Z) : list OutboundRecipient :=
  row_to_recipient <$> any_order (List.filter (fun r => (outbound_id r =? id)%Z) (outbound_rcpt q)).

Record QueueMetrics : Type := mkMetrics {
  m_ready : Z; m_claimed : Z; m_deferred : Z; m_delivered : Z; m_failed : Z; m_expired : Z
}.

Definition add_metric (m : QueueMetrics) (row : str * Z) : QueueMetrics :=
  let '(st, n) := row in
  match from_db_str st with
  | Ready => mkMetrics (m_ready m + n) (m_claimed m) (m_deferred m) (m_delivered m) (m_failed m) (m_expired m)
  | Claimed => mkMetrics (m_ready m) (m_claimed m + n) (m_deferred m) (m_delivered m) (m_failed m) (m_expired m)
  | Deferred => mkMetrics (m_ready m) (m_claimed m) (m_deferred m + n) (m_delivered m) (m_failed m) (m_expired m)
  | Delivered => mkMetrics (m_ready m) (m_claimed m) (m_deferred m) (m_delivered m + n) (m_failed m) (m_expired m)
  | Failed => mkMetrics (m_ready m) (m_claimed m) (m_deferred m) (m_delivered m) (m_failed m + n) (m_expired m)
  | Expired => mkMetrics (m_ready m) (m_claimed m) (m_deferred m) (m_delivered m) (m_failed m) (m_expired m + n)
  end.

(** [SELECT state, COUNT( * ) .. GROUP BY state]. *)
Definition group_by_state (l : list RcptRow) : list (str * Z) :=
  (fun st => (st, sql_count (fun r => str_eqb (state r) st) l)) <$> remove_dups (state <$> l).

Definition metrics `{AnyOrder} (q : QueueStore) : QueueMetrics :=
  foldl add_metric (mkMetrics 0 0 0 0 0 0) (any_order (group_by_state (outbound_rcpt q))).

(** [ORDER BY id DESC LIMIT ?1]. *)
Definition recent_failures (q : QueueStore) (limit : Z) : list OutboundRecipient :=
  row_to_recipient <$>
    sql_limit limit (reverse (List.filter (state_in [ # "failed"; # "expired"]) (outbound_rcpt q))).

(** ** scheduled.rs *)
Inductive ScheduledKind : Type := Remind | SnoozeResurface | FollowupNudge.

Definition kind_as_str (k : ScheduledKind) : str :=
  match k with
  | Remind => # "remind"
  | SnoozeResurface => # "snooze_resurface"
  | FollowupNudge => # "followup_nudge"
  end.

Definition kind_from_db_str (s : str) : option ScheduledKind :=
  if str_eqb s (# "remind") then Some Remind
  else if str_eqb s (# "snooze_resurface") then Some SnoozeResurface
  else if str_eqb s (# "followup_nudge") then Some FollowupNudge
  else None.

Record NewScheduledEvent : Type := mkNewScheduled {
  ne_account_id : Z;
  ne_kind : ScheduledKind;
  ne_fire_at : Z;
  ne_thread_id : option str;
  ne_payload : option str
}.

Definition insert_scheduled_event (ev : NewScheduledEvent) (q : QueueStore) : Z * QueueStore :=
  let id := next_rowid (e_id <$> scheduled_events q) in
  (id, with_events (scheduled_events q ++
         [mkScheduled id (ne_account_id ev) (kind_as_str (ne_kind ev)) (ne_fire_at ev) (ne_thread_id ev)
            (ne_payload ev) (# "pending")]) q).

Definition event_due (now : Z) (e : StoredScheduledEvent) : bool :=
  str_eqb (e_state e) (# "pending") && (fire_at e <=? now)%Z.

Definition due_scheduled_events `{AnyOrder} (q : QueueStore) (now : Z) : list StoredScheduledEvent :=
  any_order (List.filter (event_due now) (scheduled_events q)).

Definition pending_events_for_account `{AnyOrder} (q : QueueStore) (account : Z) (k : ScheduledKind)
    : list StoredScheduledEvent :=
  any_order (List.filter (fun e => (e_account_id e =? account)%Z && str_eqb (kind e) (kind_as_str k) &&
                                   str_eqb (e_state e) (# "pending")) (scheduled_events q)).

Definition set_event_state (st : str) (id : Z) (q : QueueStore) : QueueStore :=
  with_events (sql_update (fun e => (e_id e =? id)%Z)
    (fun e => mkScheduled (e_id e) (e_account_id e) (kind e) (fire_at e) (e_thread_id e) (payload e) st)
    (scheduled_events q)) q.

Definition mark_event_fired (id : Z) (q : QueueStore) : QueueStore := set_event_state (# "fired") id q.
Definition mark_event_cancelled (id : Z) (q : QueueStore) : QueueStore := set_event_state (# "cancelled") id q.

(** ** dsn.rs *)
Inductive DsnAction : Type := ActFailed | ActDelayed.

Definition action_as_str (a : DsnAction) : str :=
  match a with ActFailed => # "failed" | ActDelayed => # "delayed" end.

Record FailedRecipient : Type := mkFailed {
  fr_rcpt_to : str;
  fr_action : DsnAction;
  fr_status : option str;
  diagnostic : str
}.

Record DsnInput : Type := mkDsnInput {
  reporting_mta : str;
  original_envelope_from : str;
  original_subject : option str;
  di_recipients : list FailedRecipient;
  original_message : option str
}.

(** What the code hands to [mail_builder]: the message's headers and its
    [multipart/report] parts as content type and text, or raw bytes. *)
Inductive MimePart : Type :=
| TextPart (content_type body : str)
| RawPart (body : str).

Record BuilderInput : Type := mkBuilder {
  b_from : str * str;
  b_to : str;
  b_subject : str;
  b_headers : list (str * str);
  b_content_type : str;
  b_parts : list MimePart
}.

Class MailBuilder : Type := { write_to_vec : BuilderInput -> result str str }.

Definition crlf : str := [CR; LF].

Definition human_part (r : FailedRecipient) : str :=
  match fr_action r with
  | ActFailed => # "Delivery to the following recipient failed permanently:" ++ crlf ++ crlf ++ # "  "
                   ++ fr_rcpt_to r ++ crlf ++ crlf ++ diagnostic r ++ crlf ++ crlf
  | ActDelayed => # "Delivery to the following recipient has been delayed:" ++ crlf ++ crlf ++ # "  "
                   ++ fr_rcpt_to r ++ crlf ++ crlf ++ diagnostic r ++ crlf ++ crlf
  end.

Definition status_part (r : FailedRecipient) : str :=
  # "Final-Recipient: rfc822;" ++ fr_rcpt_to r ++ crlf
    ++ # "Action: " ++ action_as_str (fr_action r) ++ crlf
    ++ (match fr_status r with Some s => # "Status: " ++ s ++ crlf | None => [] end)
    ++ # "Diagnostic-Code: smtp;" ++ diagnostic r ++ crlf ++ crlf.

Definition human_readable (input : DsnInput) : str :=
  # "This is an automatically generated Delivery Status Notification." ++ crlf ++ crlf
    ++ mjoin (human_part <$> di_recipients input).

Definition delivery_status (input : DsnInput) : str :=
  # "Reporting-MTA: dns;" ++ reporting_mta input ++ crlf ++ crlf ++ mjoin (status_part <$> di_recipients input).

Definition dsn_message (input : DsnInput) : BuilderInput := {|
  b_from := (# "Mail Delivery Subsystem", # "mailer-daemon@" ++ reporting_mta input);
  b_to := original_envelope_from input;
  b_subject := match head (di_recipients input) with
               | Some (mkFailed _ ActDelayed _ _) => # "Delivery delayed"
               | _ => # "Delivery Status Notification (Failure)"
               end;
  b_headers := [(# "Auto-Submitted", # "auto-replied")];
  b_content_type := # "multipart/report;report-type=delivery-status";
  b_parts := [TextPart (# "text/plain") (human_readable input);
              TextPart (# "message/delivery-status") (delivery_status input)]
             ++ match original_message input with Some m => [RawPart m] | None => [] end
|}.

Definition build_dsn `{MailBuilder} (input : DsnInput) : Result str :=
  match write_to_vec (dsn_message input) with
  | Ok bytes => Ok bytes
  | Err e => Err (Storage (# "failed to build DSN: " ++ e))
  end.

(** ** Lemmas *)
Lemma from_db_str_as_str s : from_db_str (as_str s) = s.
Proof. by destruct s. Qed.

Lemma as_str_inj s s' : as_str s = as_str s' -> s = s'.
Proof. intros E. by rewrite <- (from_db_str_as_str s), E, from_db_str_as_str. Qed.

Lemma kind_round_trip s k : kind_from_db_str s = Some k <-> s = kind_as_str k.
Proof.
  split; [|intros ->; by destruct k]. unfold kind_from_db_str.
  repeat (case_match; bool_facts; [by intros [= <-]|]). done.
Qed.

(** Rows reference existing messages, ids are distinct and states are those
    the code writes. *)
Record queue_inv (q : QueueStore) : Prop := {
  qi_outbound_ids : NoDup (o_id <$> outbound q);
  qi_rcpt_ids : NoDup (r_id <$> outbound_rcpt q);
  qi_reference r : r ∈ outbound_rcpt q -> exists o, o ∈ outbound q /\ o_id o = outbound_id r;
  qi_state r : r ∈ outbound_rcpt q -> exists s, state r = as_str s
}.

Lemma empty_queue_inv : queue_inv empty_queue.
Proof. split; cbn; try apply NoDup_nil_2; by intros r ?%elem_of_nil. Qed.

Definition new_rcpt_row (id now rid : Z) (rcpt : str) : RcptRow :=
  mkRcptRow rid id rcpt (rcpt_domain rcpt) (# "FAILURE") (# "ready") 0 now None None None None None false.

(** The rows a recipient list adds. *)
Lemma insert_rcpts_spec id now l q :
  NoDup (r_id <$> outbound_rcpt q) ->
  exists ids, length ids = length l /\ NoDup ((r_id <$> outbound_rcpt q) ++ ids) /\
    foldl (insert_rcpt id now) q l
      = with_rcpts (outbound_rcpt q ++ zip_with (new_rcpt_row id now) ids l) q.
Proof.
  revert q. induction l as [|x l IH]; intros q Hnd; cbn [foldl].
  - exists []. rewrite !app_nil_r. by destruct q.
  - set (rid := next_rowid (r_id <$> outbound_rcpt q)).
    assert (Hnd1 : NoDup (r_id <$> outbound_rcpt (insert_rcpt id now q x))).
    { cbn [insert_rcpt outbound_rcpt with_rcpts]. rewrite fmap_app. apply NoDup_snoc; [done|].
      apply next_rowid_fresh. }
    destruct (IH _ Hnd1) as (ids & El & Hids & E). exists (rid :: ids).
    cbn [insert_rcpt outbound_rcpt with_rcpts] in Hids, E. rewrite fmap_app, <- app_assoc in Hids.
    split_and!; [cbn; by rewrite El|exact Hids|]. cbn [insert_rcpt zip_with]. rewrite E.
    unfold with_rcpts. cbn [outbound dkim_keys scheduled_events outbound_rcpt].
    by rewrite <- app_assoc.
Qed.

Lemma elem_of_zip_rows id now ids l r :
  r ∈ zip_with (new_rcpt_row id now) ids l ->
  exists rid rcpt, r = new_rcpt_row id now rid rcpt /\ rid ∈ ids /\ rcpt ∈ l.
Proof. intros (rid & rcpt & E & H1 & H2)%elem_of_zip_with. eauto. Qed.

Section Enqueue.
Context `{BlobHash} `{DkimSigner}.

(** When an envelope is accepted, and when it is within the sender's limits. *)
Definition envelope_ok (new : NewOutbound) : Prop :=
  (no_envelope_from new = [] \/ valid_email_address (no_envelope_from new) = true) /\
  (1 <= length (recipients new) <= 100)%nat /\
  Forall (fun r => valid_email_address r = true) (recipients new).

Definition within_limits (new : NewOutbound) (now : Z) (q : QueueStore) : Prop :=
  no_is_dsn new = true \/
  (message_count (no_account_id new) (now - RATE_LIMIT_WINDOW_SECS) q + 1 <= MAX_MESSAGES_PER_WINDOW /\
   recipient_count (no_account_id new) (now - RATE_LIMIT_WINDOW_SECS) q
     + Z.of_nat (length (recipients new)) <= MAX_RECIPIENTS_PER_WINDOW)%Z.

Lemma valid_envelope_spec new : valid_envelope new = true <-> envelope_ok new.
Proof.
  unfold valid_envelope, envelope_ok. rewrite negb_true_iff, !orb_false_iff, andb_false_iff, !negb_false_iff.
  rewrite bool_decide_eq_true, bool_decide_eq_false, Nat.ltb_ge, Forall_forall.
  assert (He : existsb (fun r => negb (valid_email_address r)) (recipients new) = false <->
               forall x, x ∈ recipients new -> valid_email_address x = true).
  { split.
    - intros Hf x Hx. apply negb_false_iff. exact (existsb_false _ _ x Hf Hx).
    - intros Hf. destruct (existsb _ _) eqn:E; [|done]. apply existsb_exists in E as (x & Hx & Hv).
      rewrite Hf in Hv; [done|]. by apply list_elem_of_In. }
  rewrite He. destruct (recipients new); cbn [length]; naive_solver lia.
Qed.

Lemma rate_limit_spec new now q : is_ok (rate_limit new now q) = true <-> within_limits new now q.
Proof.
  unfold rate_limit, within_limits. destruct (no_is_dsn new); [naive_solver|].
  case_match; bool_facts; [cbn; split; [done|intros [?|?]; [done|lia]]|].
  case_match; bool_facts; cbn; (split; [|intros [?|?]; [done|]]); try done; lia || (intros _; right; lia).
Qed.

Lemma get_outbound_insert new hash now q id :
  let '(nid, q') := insert_outbound new hash now q in
  get_outbound q' id =
    if (nid =? id)%Z
    then Some (mkOutbound nid (no_account_id new) hash (no_envelope_from new) now (now + MAX_LIFETIME_SECS)
                 (no_dsn_envid new) (no_dsn_ret new) (no_is_dsn new))
    else get_outbound q id.
Proof.
  cbn [insert_outbound]. unfold get_outbound. cbn [outbound with_outbound]. rewrite sql_find_app.
  destruct (_ =? id)%Z eqn:E; bool_facts.
  - subst id. rewrite sql_find_absent; [unfold sql_find; cbn; by rewrite Z.eqb_refl|].
    intros x Hx. apply Z.eqb_neq. intros Hc. apply (next_rowid_fresh (o_id <$> outbound q)). rewrite <- Hc.
    by apply list_elem_of_fmap_2.
  - destruct (sql_find _ (outbound q)); [done|]. unfold sql_find. cbn.
    by rewrite (proj2 (Z.eqb_neq _ _) E).
Qed.

(** The queue after a message was accepted. *)
Definition enqueued (new : NewOutbound) (now : Z) (hash : str) (ids : list Z) (q : QueueStore) : QueueStore :=
  let '(id, q1) := insert_outbound new hash now q in
  with_rcpts (outbound_rcpt q ++ zip_with (new_rcpt_row id now) ids (recipients new)) q1.

Definition fresh_ids (q : QueueStore) (ids : list Z) (n : nat) : Prop :=
  length ids = n /\ NoDup ((r_id <$> outbound_rcpt q) ++ ids).

Lemma enqueued_inv new now hash ids q :
  queue_inv q -> fresh_ids q ids (length (recipients new)) -> queue_inv (enqueued new now hash ids q).
Proof.
  intros Hi [Hl Hf]. unfold enqueued. cbn [insert_outbound]. split; cbn [outbound outbound_rcpt with_rcpts with_outbound].
  - rewrite fmap_app. apply NoDup_snoc; [apply (qi_outbound_ids q Hi)|apply next_rowid_fresh].
  - rewrite fmap_app. replace (r_id <$> zip_with _ ids (recipients new)) with ids; [done|].
    by rewrite fmap_zip_with_l by (done || lia).
  - intros r [Hr|Hr]%elem_of_app.
    + destruct (qi_reference q Hi r Hr) as (o & Ho & Eo). exists o. set_solver.
    + apply elem_of_zip_rows in Hr as (rid & rcpt & -> & _). eexists. split; [|].
      { apply elem_of_app. right. apply list_elem_of_singleton. reflexivity. } reflexivity.
  - intros r [Hr|Hr]%elem_of_app; [exact (qi_state q Hi r Hr)|].
    apply elem_of_zip_rows in Hr as (rid & rcpt & -> & _). by exists Ready.
Qed.

Lemma enqueue_cases key new now q b :
  queue_inv q ->
  let r := enqueue key new now q b in
  (is_ok r.1 = true <-> envelope_ok new /\ is_ok (sign key now (raw_message new)) = true /\ within_limits new now q) /\
  match r.1 with
  | Err _ => r.2.1 = q
  | Ok id => exists h ids,
      sign key now (raw_message new) = Ok h /\ id = next_rowid (o_id <$> outbound q) /\
      fresh_ids q ids (length (recipients new)) /\
      r.2 = (enqueued new now (hash_hex (h ++ raw_message new)) ids q, (write b (h ++ raw_message new)).2)
  end.
Proof.
  intros Hi r. subst r. unfold enqueue. rewrite <- valid_envelope_spec, <- rate_limit_spec.
  destruct (valid_envelope new); cbn [negb]; [|naive_solver].
  destruct (sign key now (raw_message new)) as [h|e]; [|cbn; naive_solver].
  destruct (write_ok b (h ++ raw_message new)) as [b' Eb]. rewrite Eb.
  destruct (rate_limit new now q); [|cbn; naive_solver].
  destruct (insert_outbound new _ now q) as [id q1] eqn:E1.
  assert (Er : outbound_rcpt q1 = outbound_rcpt q /\ id = next_rowid (o_id <$> outbound q))
    by (cbn in E1; injection E1; by intros <- <-).
  destruct Er as [Er Eid].
  destruct (insert_rcpts_spec id now (recipients new) q1) as (ids & Hl & Hf & ->).
  { rewrite Er. apply (qi_rcpt_ids q Hi). }
  cbn [fst snd is_ok]. split; [naive_solver|]. exists h, ids. unfold enqueued, fresh_ids.
  rewrite E1, Eb. rewrite Er in Hf |- *. by split_and!.
Qed.

(** ** Properties of enqueueing *)

(** Accepting a message is exact: [enqueue] succeeds if and only if the
    envelope is valid (empty or valid sender, 1 to 100 valid recipients), the
    DKIM key signs, and the account is within its hourly limits; on success
    the new id is unused, [get_outbound] finds a row with the sender, the
    account, the flags and a five-day expiry, its recipients are exactly one
    ready row per address in order, due now, with no attempt made and a fresh
    id, the blob the row names reads back as the signature header followed by
    the raw message, and no other message or recipient row changed; on error
    the queue is untouched. *)
Theorem enqueue_correct (key : DomainKey) (new : NewOutbound) (now : Z) (q : QueueStore) (b : BlobStore) :
  queue_inv q -> intact b ->
  let '(r, (q', b')) := enqueue key new now q b in
  (is_ok r = true <-> envelope_ok new /\ is_ok (sign key now (raw_message new)) = true /\ within_limits new now q) /\
  match r with
  | Err _ => q' = q
  | Ok id => exists h row ids,
      sign key now (raw_message new) = Ok h /\ queue_inv q' /\
      get_outbound q id = None /\ get_outbound q' id = Some row /\
      (forall id', id' <> id -> get_outbound q' id' = get_outbound q id') /\
      envelope_from row = no_envelope_from new /\ o_account_id row = no_account_id new /\
      is_dsn row = no_is_dsn new /\ o_created_at row = now /\
      expires_at row = (now + 5 * 24 * 3600)%Z /\
      outbound_rcpt q' = outbound_rcpt q ++ zip_with (new_rcpt_row id now) ids (recipients new) /\
      length ids = length (recipients new) /\ NoDup ((r_id <$> outbound_rcpt q) ++ ids) /\
      ((forall c, read b (message_blob row) = Ok c -> c = h ++ raw_message new) ->
       read b' (message_blob row) = Ok (h ++ raw_message new))
  end.
Proof.
  intros Hi Hb. pose proof (enqueue_cases key new now q b Hi) as Hc.
  destruct (enqueue key new now q b) as [r [q' b']]. destruct Hc as [Hiff Hr]. cbn [fst snd] in *.
  split; [exact Hiff|]. destruct r as [id|e]; [|exact Hr].
  destruct Hr as (h & ids & Es & Eid & Hf & [= -> ->]).
  pose proof (get_outbound_insert new (hash_hex (h ++ raw_message new)) now q) as Hg.
  exists h. eexists. exists ids. split; [exact Es|]. split; [by apply enqueued_inv|].
  unfold enqueued. cbn [insert_outbound] in *. rewrite <- Eid in *.
  split; [|split; [|split]].
  - apply sql_find_absent. intros x Hx. apply Z.eqb_neq. intros E.
    apply (next_rowid_fresh (o_id <$> outbound q)). rewrite <- Eid, <- E. by apply list_elem_of_fmap_2.
  - specialize (Hg id). rewrite Z.eqb_refl in Hg. exact Hg.
  - intros id' Hne. specialize (Hg id'). rewrite (proj2 (Z.eqb_neq id id')) in Hg by done. exact Hg.
  - cbn. destruct Hf. split_and!; try done. by apply write_read.
Qed.

(** A message refused by the rate limit leaves its plaintext behind:
    the queue is unchanged, yet the signed message is in the blob store under
    a hash no queue row was added for. *)
Theorem rate_limited_blob_leaks (key : DomainKey) (new : NewOutbound) (now : Z) (q : QueueStore) (b : BlobStore)
    (h : str) :
  envelope_ok new -> sign key now (raw_message new) = Ok h -> ~ within_limits new now q ->
  exists e b', enqueue key new now q b = (Err e, (q, b')) /\
    exists_ b' (hash_hex (h ++ raw_message new)) = true.
Proof.
  intros Hv%valid_envelope_spec Hs Hw. unfold enqueue. rewrite Hv, Hs. cbn [negb].
  pose proof (write_exists b (h ++ raw_message new) (hash_hex (h ++ raw_message new))) as He.
  destruct (write_ok b (h ++ raw_message new)) as [b' Eb]. rewrite Eb in *. cbn [snd] in He.
  rewrite <- rate_limit_spec in Hw. destruct (rate_limit new now q) as [|e]; [done|].
  exists e, b'. split; [done|]. rewrite He. by rewrite bool_decide_eq_true_2.
Qed.

(** *** The hourly limits as an invariant *)
Definition in_window (account w : Z) (o : OutboundMessage) : bool :=
  counted account w o && (o_created_at o <=? w + RATE_LIMIT_WINDOW_SECS)%Z.

Definition window_messages (account w : Z) (q : QueueStore) : Z := sql_count (in_window account w) (outbound q).
Definition window_recipients (account w : Z) (q : QueueStore) : Z :=
  sql_count (fun ro => in_window account w ro.2) (rcpt_join q).

Definition rate_ok (q : QueueStore) : Prop := forall account w,
  (window_messages account w q <= MAX_MESSAGES_PER_WINDOW /\
   window_recipients account w q <= MAX_RECIPIENTS_PER_WINDOW)%Z.

Lemma join_old (outb : list OutboundMessage) (o : OutboundMessage) (l : list RcptRow) :
  (forall r, r ∈ l -> outbound_id r <> o_id o) ->
  (l ≫= fun r => (fun o' => (r, o')) <$> List.filter (fun o' => (o_id o' =? outbound_id r)%Z) (outb ++ [o]))
  = (l ≫= fun r => (fun o' => (r, o')) <$> List.filter (fun o' => (o_id o' =? outbound_id r)%Z) outb).
Proof.
  induction l as [|r l IH]; intros Hl; [done|]. cbn [mbind list_bind].
  rewrite IH by (intros r' Hr'; apply Hl; by right). f_equal. f_equal.
  rewrite List.filter_app. cbn [List.filter].
  rewrite (proj2 (Z.eqb_neq _ _)) by (pose proof (Hl r ltac:(by left)); congruence). apply app_nil_r.
Qed.

Lemma join_new (outb : list OutboundMessage) (o : OutboundMessage) (l : list RcptRow) :
  (forall o', o' ∈ outb -> o_id o' <> o_id o) -> (forall r, r ∈ l -> outbound_id r = o_id o) ->
  (l ≫= fun r => (fun o' => (r, o')) <$> List.filter (fun o' => (o_id o' =? outbound_id r)%Z) (outb ++ [o]))
  = (fun r => (r, o)) <$> l.
Proof.
  intros Ho. induction l as [|r l IH]; intros Hl; [done|]. cbn [mbind list_bind fmap list_fmap].
  rewrite IH by (intros r' Hr'; apply Hl; by right).
  rewrite List.filter_app, (Hl r) by (by left). cbn [List.filter]. rewrite Z.eqb_refl.
  replace (List.filter _ outb) with (@nil OutboundMessage); [done|]. symmetry.
  destruct (List.filter _ outb) as [|o' k] eqn:E; [done|].
  assert (Hin : o' ∈ List.filter (fun o' => (o_id o' =? o_id o)%Z) outb) by (rewrite E; by left).
  apply elem_of_filter_list in Hin as [Hin Hid]. bool_facts. by destruct (Ho o' Hin).
Qed.

(** The row a message adds. *)
Definition outbound_row (new : NewOutbound) (now : Z) (hash : str) (q : QueueStore) : OutboundMessage :=
  mkOutbound (next_rowid (o_id <$> outbound q)) (no_account_id new) hash (no_envelope_from new) now
    (now + MAX_LIFETIME_SECS) (no_dsn_envid new) (no_dsn_ret new) (no_is_dsn new).

Lemma old_ids_differ new now hash q o : o ∈ outbound q -> o_id o <> o_id (outbound_row new now hash q).
Proof.
  intros Ho E. apply (next_rowid_fresh (o_id <$> outbound q)). cbn in E. rewrite <- E.
  by apply list_elem_of_fmap_2.
Qed.

Lemma rcpt_join_enqueued new now hash ids q :
  queue_inv q ->
  let o := outbound_row new now hash q in
  rcpt_join (enqueued new now hash ids q)
  = rcpt_join q ++ ((fun r => (r, o)) <$> zip_with (new_rcpt_row (o_id o) now) ids (recipients new)).
Proof.
  intros Hi o. unfold rcpt_join, enqueued. cbn [insert_outbound outbound outbound_rcpt with_rcpts with_outbound].
  fold (outbound_row new now hash q). fold o. rewrite bind_app. f_equal.
  - apply join_old. intros r Hr E. destruct (qi_reference q Hi r Hr) as (o' & Ho' & Eo').
    apply (old_ids_differ new now hash q o' Ho'). by rewrite Eo', E.
  - apply join_new; [intros o'; apply old_ids_differ|].
    intros r Hr. by apply elem_of_zip_rows in Hr as (rid & rcpt & -> & _).
Qed.

Lemma in_window_counted account w o now :
  (w < now <= w + RATE_LIMIT_WINDOW_SECS)%Z -> in_window account w o = true ->
  counted account (now - RATE_LIMIT_WINDOW_SECS) o = true.
Proof.
  intros Hw Hin. unfold in_window, counted in *. bool_facts. rewrite !andb_true_iff, negb_true_iff.
  split_and!; [by apply Z.eqb_eq|apply Z.ltb_lt; lia|done].
Qed.

Lemma enqueued_rate_ok new now hash ids q :
  queue_inv q -> length ids = length (recipients new) -> within_limits new now q ->
  rate_ok q -> rate_ok (enqueued new now hash ids q).
Proof.
  intros Hi Hl Hw Hr account w. destruct (Hr account w) as [Hm Hc].
  unfold window_messages, window_recipients in *. rewrite rcpt_join_enqueued by done.
  set (o := outbound_row new now hash q).
  replace (outbound (enqueued new now hash ids q)) with (outbound q ++ [o]) by done.
  rewrite !sql_count_app.
  assert (Hn : length (zip_with (new_rcpt_row (o_id o) now) ids (recipients new)) = length (recipients new))
    by (rewrite length_zip_with; lia).
  destruct (in_window account w o) eqn:Eo.
  - assert (Hb := Eo). unfold in_window, counted, o, outbound_row in Hb.
    cbn [o_account_id o_created_at is_dsn] in Hb. bool_facts.
    destruct Hw as [?|[Hwm Hwr]]; [congruence|]. unfold message_count, recipient_count in *.
    assert (Hle1 := sql_count_mono (in_window account w) (counted (no_account_id new) (now - RATE_LIMIT_WINDOW_SECS))
      (outbound q) ltac:(intros x _ Hx; subst account; eapply in_window_counted; [|exact Hx]; lia)).
    assert (Hle2 := sql_count_mono (fun ro => in_window account w ro.2)
      (fun ro => counted (no_account_id new) (now - RATE_LIMIT_WINDOW_SECS) ro.2) (rcpt_join q)
      ltac:(intros x _ Hx; subst account; eapply in_window_counted; [|exact Hx]; lia)).
    assert (Hone : sql_count (in_window account w) [o] = 1%Z) by (unfold sql_count; cbn [List.filter]; by rewrite Eo).
    assert (Hadd : forall l : list RcptRow,
      (sql_count (fun ro => in_window account w ro.2) ((fun r => (r, o)) <$> l) <= Z.of_nat (length l))%Z).
    { intros l. unfold sql_count. etrans; [apply Nat2Z.inj_le, List.filter_length_le|]. by rewrite length_fmap. }
    specialize (Hadd (zip_with (new_rcpt_row (o_id o) now) ids (recipients new))). lia.
  - assert (Hone : sql_count (in_window account w) [o] = 0%Z) by (unfold sql_count; cbn [List.filter]; by rewrite Eo).
    assert (Hzero : sql_count (fun ro => in_window account w ro.2)
      ((fun r => (r, o)) <$> zip_with (new_rcpt_row (o_id o) now) ids (recipients new)) = 0%Z).
    { apply sql_count_zero. by intros x (r & -> & _)%list_elem_of_fmap. }
    lia.
Qed.

Lemma insert_rcpts_outbound id now l : forall q, outbound (foldl (insert_rcpt id now) q l) = outbound q.
Proof. induction l as [|x l IH]; intros q; [done|]. cbn [foldl]. by rewrite IH. Qed.

(** What [enqueue] adds to the messages, whatever the queue looked like. *)
Lemma enqueue_outbound key new now q b :
  match (enqueue key new now q b).1 with
  | Err _ => (enqueue key new now q b).2.1 = q
  | Ok _ => exists hash, outbound (enqueue key new now q b).2.1 = outbound q ++ [outbound_row new now hash q]
  end.
Proof.
  unfold enqueue. destruct (negb _); [done|]. destruct (sign _ _ _) as [h|]; [|done].
  destruct (write _ _) as [[hash|] b']; [|done]. destruct (rate_limit _ _ _); [|done].
  destruct (insert_outbound new hash now q) as [id q1] eqn:E. exists hash. cbn [fst snd].
  rewrite insert_rcpts_outbound. cbn [insert_outbound] in E. by injection E as <- <-.
Qed.

(** One request to send: key, message and time. *)
Definition request : Type := DomainKey * NewOutbound * Z.

Definition enqueue_all (reqs : list request) (qb : QueueStore * BlobStore) : QueueStore * BlobStore :=
  foldl (fun qb '(key, new, now) => (enqueue key new now qb.1 qb.2).2) qb reqs.

Lemma enqueue_keeps key new now q b :
  queue_inv q /\ rate_ok q -> queue_inv (enqueue key new now q b).2.1 /\ rate_ok (enqueue key new now q b).2.1.
Proof.
  intros [Hi Hr]. destruct (enqueue_cases key new now q b Hi) as [Hiff Hres].
  destruct (enqueue key new now q b) as [[id|e] [q' b']]; cbn [fst snd is_ok] in *; [|by subst].
  destruct Hres as (h & ids & Es & Eid & Hf & [= -> ->]). destruct (proj1 Hiff eq_refl) as (_ & _ & Hw).
  split; [by apply enqueued_inv|]. apply enqueued_rate_ok; [done|by destruct Hf|done|done].
Qed.

(** C29.  A stolen credential cannot blast mail: whatever is asked of
    [enqueue], in any order and at any clock times (forwards or backwards), no
    account ever has more than 200 accepted non-bounce messages, nor more than
    500 recipients of such messages, with creation times inside one hour. *)
Theorem send_rate_bounded (reqs : list request) (b : BlobStore) (account w : Z) :
  let q := (enqueue_all reqs (empty_queue, b)).1 in
  (window_messages account w q <= 200 /\ window_recipients account w q <= 500)%Z.
Proof.
  intros q. subst q.
  assert (Hgen : forall qb, queue_inv qb.1 /\ rate_ok qb.1 ->
    queue_inv (enqueue_all reqs qb).1 /\ rate_ok (enqueue_all reqs qb).1).
  { unfold enqueue_all. induction reqs as [|[[key new] now] reqs' IH]; intros [q b']; [done|].
    intros Hk. cbn [foldl fst snd]. apply IH. by apply enqueue_keeps. }
  apply (Hgen (empty_queue, b)). split; [apply empty_queue_inv|].
  intros a v. unfold window_messages, window_recipients, sql_count. cbn. unfold MAX_MESSAGES_PER_WINDOW,
    MAX_RECIPIENTS_PER_WINDOW. lia.
Qed.

End Enqueue.

(** ** Metrics *)
Definition metric_of (s : RcptState) (m : QueueMetrics) : Z :=
  match s with
  | Ready => m_ready m
  | Claimed => m_claimed m
  | Deferred => m_deferred m
  | Delivered => m_delivered m
  | Failed => m_failed m
  | Expired => m_expired m
  end.

Definition share (s : RcptState) (row : str * Z) : Z := if decide (from_db_str row.1 = s) then row.2 else 0%Z.

Fixpoint zsum (l : list Z) : Z := match l with [] => 0%Z | x :: l => (x + zsum l)%Z end.

Lemma zsum_perm l k : l ≡ₚ k -> zsum l = zsum k.
Proof. induction 1; cbn; lia. Qed.

Lemma add_metric_share s m row : metric_of s (add_metric m row) = (metric_of s m + share s row)%Z.
Proof.
  destruct row as [st n]. unfold add_metric, share. cbn [fst snd].
  destruct (from_db_str st), s; cbn; case_decide; try congruence; cbn; lia.
Qed.

Lemma add_metrics_sum s l : forall m,
  metric_of s (foldl add_metric m l) = (metric_of s m + zsum (share s <$> l))%Z.
Proof. induction l as [|row l IH]; intros m; cbn; [lia|]. rewrite IH, add_metric_share. lia. Qed.

(** Adding up a count over the groups counts every row once. *)
Lemma group_sum (s : RcptState) (l : list RcptRow) : forall keys,
  NoDup keys -> (forall r, r ∈ l -> state r ∈ keys) ->
  zsum (share s <$> ((fun st => (st, sql_count (fun r => str_eqb (state r) st) l)) <$> keys))
  = sql_count (fun r => bool_decide (from_db_str (state r) = s)) l.
Proof.
  induction l as [|r l IH]; intros keys Hnd Hin.
  - clear Hin Hnd. unfold sql_count. cbn. induction keys as [|k keys IHk]; cbn; [done|].
    unfold share at 1. cbn. case_decide; lia.
  - specialize (IH keys Hnd ltac:(intros r' Hr'; apply Hin; by right)).
    assert (Hone : forall ks, NoDup ks ->
      zsum (share s <$> ((fun st => (st, sql_count (fun r => str_eqb (state r) st) (r :: l))) <$> ks))
      = (zsum (share s <$> ((fun st => (st, sql_count (fun r => str_eqb (state r) st) l)) <$> ks))
         + if decide (state r ∈ ks) then (if decide (from_db_str (state r) = s) then 1 else 0) else 0)%Z).
    { clear IH Hnd Hin. induction ks as [|k ks IHk]; intros Hks; cbn [fmap list_fmap zsum].
      - by rewrite decide_False by (by intros ?%elem_of_nil).
      - apply NoDup_cons in Hks as [Hk Hks]. rewrite (IHk Hks).
        assert (Ec : sql_count (fun r => str_eqb (state r) k) (r :: l)
          = ((if decide (state r = k) then 1 else 0) + sql_count (fun r => str_eqb (state r) k) l)%Z).
        { rewrite sql_count_cons. cbn beta. f_equal. unfold str_eqb.
          rewrite bool_decide_decide. by destruct (decide (state r = k)). }
        rewrite Ec. unfold share at 1 3. cbn [fst snd].
        destruct (decide (state r = k)) as [E|E].
        + subst k. rewrite (decide_False (P := state r ∈ ks)) by done.
          rewrite (decide_True (P := state r ∈ state r :: ks)) by (by left). clear IHk. case_decide; lia.
        + clear IHk. destruct (decide (state r ∈ ks)) as [Hk'|Hk'].
          * rewrite (decide_True (P := state r ∈ k :: ks)) by (by right). repeat case_decide; lia.
          * rewrite (decide_False (P := state r ∈ k :: ks)) by (by intros [?|?]%elem_of_cons).
            repeat case_decide; lia. }
    rewrite Hone, IH, decide_True by (done || apply Hin; by left).
    rewrite sql_count_cons. cbn beta. case_bool_decide; case_decide; try done; lia.
Qed.

(** The admin area's numbers are right: each field of [metrics] is the
    number of recipient rows whose state reads as that [RcptState], whatever
    the order the groups come in, and together they count every row once. *)
Theorem metrics_count_rows `{AnyOrder} (q : QueueStore) (s : RcptState) :
  metric_of s (metrics q)
    = sql_count (fun r => bool_decide (from_db_str (state r) = s)) (outbound_rcpt q) /\
  (m_ready (metrics q) + m_claimed (metrics q) + m_deferred (metrics q) + m_delivered (metrics q)
   + m_failed (metrics q) + m_expired (metrics q))%Z = Z.of_nat (length (outbound_rcpt q)).
Proof.
  assert (Hs : forall s, metric_of s (metrics q)
    = sql_count (fun r => bool_decide (from_db_str (state r) = s)) (outbound_rcpt q)).
  { intros s'. unfold metrics. rewrite add_metrics_sum.
    rewrite (zsum_perm _ (share s' <$> group_by_state (outbound_rcpt q))) by (by rewrite any_order_perm).
    unfold group_by_state. rewrite group_sum; [by destruct s'|apply NoDup_remove_dups|].
    intros r Hr. apply elem_of_remove_dups. by apply list_elem_of_fmap_2. }
  split; [apply Hs|].
  pose proof (Hs Ready) as H1. pose proof (Hs Claimed) as H2. pose proof (Hs Deferred) as H3.
  pose proof (Hs Delivered) as H4. pose proof (Hs Failed) as H5. pose proof (Hs Expired) as H6.
  cbn [metric_of] in *. rewrite H1, H2, H3, H4, H5, H6. clear.
  induction (outbound_rcpt q) as [|r l IH]; [done|]. cbn [length]. rewrite !sql_count_cons. cbn beta.
  assert (Hone : forall x : RcptState, let c y := if bool_decide (x = y) then 1%Z else 0%Z in
    (c Ready + c Claimed + c Deferred + c Delivered + c Failed + c Expired = 1)%Z) by (intros x; by destruct x).
  specialize (Hone (from_db_str (state r))). cbn zeta in Hone. lia.
Qed.

(** ** DKIM keys *)

Lemma ensure_dkim_key_frame g n d q :
  let q1 := (ensure_dkim_key g n d q).2 in
  outbound q1 = outbound q /\ outbound_rcpt q1 = outbound_rcpt q /\ (queue_inv q -> queue_inv q1).
Proof.
  unfold ensure_dkim_key. destruct (load_dkim_key _ _); [done|]. destruct g as [[? ?]|]; [|done].
  cbn. split_and!; [done..|]. by intros [].
Qed.

(** The keys of other domains. *)
Lemma ensure_dkim_key_other g n d q other : other <> d ->
  load_dkim_key (ensure_dkim_key g n d q).2 other = load_dkim_key q other.
Proof.
  intros Ho. unfold ensure_dkim_key. destruct (load_dkim_key q d); [done|]. destruct g as [[? ?]|]; [|done].
  unfold load_dkim_key. cbn [snd dkim_keys]. rewrite sql_find_app. unfold sql_find at 2, str_eqb. cbn.
  rewrite bool_decide_eq_false_2 by congruence. by destruct (sql_find _ _).
Qed.

(** Once a domain has a key, every later [ensure_dkim_key] for it returns that
    key and changes nothing, whatever key generation would give. *)
Lemma dkim_key_stable generated generated' now now' d q key q' :
  ensure_dkim_key generated now d q = (Ok key, q') -> dk_domain key = d /\
  ensure_dkim_key generated' now' d q' = (Ok key, q').
Proof.
  unfold ensure_dkim_key. destruct (load_dkim_key q d) as [k|] eqn:E.
  - intros [= <- <-]. rewrite E. split; [|done]. unfold load_dkim_key in E. case_match; [|done]. by inv E.
  - destruct generated as [[private public]|e]; [|done]. intros [= <- <-]. split; [done|].
    unfold load_dkim_key in *. cbn [dkim_keys]. rewrite sql_find_app.
    destruct (sql_find _ (dkim_keys q)); [done|]. unfold sql_find, str_eqb. cbn.
    by rewrite bool_decide_eq_true_2.
Qed.

(** ** Witnesses *)
Definition toy_signer : DkimSigner :=
  {| dkim_sign := fun _ d s _ _ _ => Ok (Ok (# "DKIM-Signature: d=" ++ d ++ # "; s=" ++ s ++ crlf)) |}.

#[local] Existing Instance toy_BlobHash.
#[local] Existing Instance toy_signer.

Definition wit_key : DomainKey := mkDomainKey (# "example.com") SELECTOR (# "private") (# "public").
Definition wit_new : NewOutbound :=
  mkNewOutbound 1 (# "alice@example.com") (# "From: alice@example.com") [ # "bob@Example.net"; # "carol@example.org"]
    false None None.

Lemma wit_new_ok : envelope_ok wit_new.
Proof. apply valid_envelope_spec. vm_compute. reflexivity. Qed.

Lemma enqueue_correct_witness :
  is_ok (enqueue wit_key wit_new 1000 empty_queue ∅).1 = true.
Proof.
  assert (Hb : intact (∅ : BlobStore)) by (intros ? ? ? _; rewrite lookup_empty; discriminate).
  pose proof (enqueue_correct wit_key wit_new 1000 empty_queue ∅ empty_queue_inv Hb) as Hc.
  destruct (enqueue wit_key wit_new 1000 empty_queue ∅) as [r [q' b']]. apply (proj1 Hc).
  split; [exact wit_new_ok|]. split; [reflexivity|].
  apply rate_limit_spec. vm_compute. reflexivity.
Defined.

Definition full_queue : QueueStore :=
  mkQueue (replicate 200 (mkOutbound 1 1 [] [] 1000 2000 None None false)) [] [] [].

Lemma rate_limited_blob_leaks_witness :
  exists e b', enqueue wit_key wit_new 1000 full_queue ∅ = (Err e, (full_queue, b')) /\
    exists_ b' (hash_hex (# "DKIM-Signature: d=example.com; s=litterae" ++ crlf ++ # "From: alice@example.com")) = true.
Proof.
  apply (rate_limited_blob_leaks wit_key wit_new 1000 full_queue ∅
    (# "DKIM-Signature: d=example.com; s=litterae" ++ crlf)).
  - exact wit_new_ok.
  - reflexivity.
  - intros Hw. apply rate_limit_spec in Hw. vm_compute in Hw. discriminate Hw.
Defined.
