(* ===== verification/Rows.v ===== *)
(** * Rows: what the queries read, [row_to_*]

    The readers of the stores' rows -- store/src/messages.rs, mailboxes.rs,
    uploads.rs and contacts.rs, auth/src/store.rs, queue/src/query.rs and
    scheduled.rs -- on the columns their SELECTs name, and that what they read
    from a file is what the other files of this library call its rows: the
    encodings of Schema are those the code undoes. *)

From stdpp Require Import base list strings gmap.
From Stdlib Require Import Ascii ZArith Lia.
From S2P Require Import Prelude Store Sealing Auth AdminStore Schema Queue.
Import Store.Metadata.

(** ** The SELECTs' columns *)
Definition MESSAGE_COLUMNS : list str :=
  [ # "id"; # "account_id"; # "mailbox_id"; # "thread_id"; # "blob_hash"; # "dek_wrap"; # "mail_from"; # "rcpt_to";
   # "remote_ip"; # "size_bytes"; # "spf_result"; # "dkim_result"; # "dmarc_result"; # "received_at"; # "keywords";
   # "message_id_header"; # "in_reply_to"; # "references_header"; # "subject_hash"; # "spam_score"; # "av_clean"].

Definition MAILBOX_COLUMNS : list str := [ # "id"; # "account_id"; # "role"; # "name"].

Definition UPLOAD_COLUMNS : list str :=
  [ # "id"; # "account_id"; # "blob_hash"; # "dek_wrap"; # "key_id"; # "filename"; # "content_type"; # "size_bytes"; # "created_at"].

Definition CONTACT_COLUMNS : list str := [ # "id"; # "account_id"; # "sealed"; # "created_at"; # "updated_at"].

Definition ACCOUNT_COLUMNS : list str :=
  [ # "id"; # "local_part"; # "domain"; # "key_id"; # "salt"; # "wrapped_amk"; # "account_pub"; # "wrapped_account_priv"; # "created_at"].

Definition OUTBOUND_COLUMNS : list str :=
  [ # "id"; # "account_id"; # "message_blob"; # "envelope_from"; # "created_at"; # "expires_at"; # "dsn_envid"; # "dsn_ret"; # "is_dsn"].

Definition RCPT_COLUMNS : list str :=
  [ # "id"; # "outbound_id"; # "rcpt_to"; # "domain"; # "dsn_notify"; # "state"; # "attempts"; # "next_attempt_at";
   # "last_code"; # "last_status"; # "last_detail"; # "delayed_dsn_sent"].

Definition EVENT_COLUMNS : list str := [ # "id"; # "account_id"; # "kind"; # "fire_at"; # "thread_id"; # "payload"; # "state"].

(** ** The readers *)

(** [i as u16]. *)
Definition as_u16 (n : Z) : N := Z.to_N (n mod 65536).

Section Readers.
Context (f64_of_i64 : Z -> f64).   (* an integer asked for as [f64] *)

Definition as_f64 (v : SqlValue) : result SqlError f64 :=
  match v with Real x => Ok x | Integer n => Ok (f64_of_i64 n) | _ => Err InvalidColumnType end.

Definition row_to_message (row : list SqlValue) : result SqlError StoredMessage :=
  id ← get as_i64 0 row;
  account ← get as_i64 1 row;
  mailbox ← get as_i64 2 row;
  thread ← get as_i64 3 row;
  hash ← get as_string 4 row;
  wrap ← get as_bytes 5 row;
  from ← get as_string 6 row;
  rcpt ← get as_string 7 row;
  ip ← get as_string 8 row;
  size ← get as_i64 9 row;
  spf ← get as_string 10 row;
  dkim ← get as_string 11 row;
  dmarc ← get as_string 12 row;
  received ← get as_i64 13 row;
  kw ← get as_string 14 row;
  mid ← get (as_option as_string) 15 row;
  irt ← get (as_option as_string) 16 row;
  refs ← get (as_option as_string) 17 row;
  subject ← get (as_option as_string) 18 row;
  score ← get (as_option as_f64) 19 row;
  clean ← get (as_option as_bool) 20 row;
  Ok (mkStored id (mkNewMessage account mailbox thread hash wrap from rcpt ip size spf dkim dmarc received kw mid irt refs
        subject score clean)).
End Readers.

Definition row_to_mailbox (row : list SqlValue) : result SqlError Mailbox :=
  id ← get as_i64 0 row;
  account ← get as_i64 1 row;
  role ← get as_string 2 row;
  name ← get as_string 3 row;
  Ok (mkMailbox id account role name).

Definition row_to_upload (row : list SqlValue) : result SqlError StoredUpload :=
  id ← get as_i64 0 row;
  account ← get as_i64 1 row;
  hash ← get as_string 2 row;
  wrap ← get as_bytes 3 row;
  key_id ← get as_i64 4 row;
  filename ← get as_string 5 row;
  content_type ← get as_string 6 row;
  size ← get as_i64 7 row;
  created ← get as_i64 8 row;
  Ok (mkStoredUpload id (mkNewUpload account hash wrap (as_u16 key_id) filename content_type size created)).

Definition row_to_contact (row : list SqlValue) : result SqlError StoredContact :=
  id ← get as_i64 0 row;
  account ← get as_i64 1 row;
  sealed ← get as_bytes 2 row;
  created ← get as_i64 3 row;
  updated ← get as_i64 4 row;
  Ok (mkStoredContact id account sealed created updated).

(** [?] in a function that may panic too. *)
Definition try_get {A B} (r : result SqlError A) (k : A -> exec (result SqlError B)) : exec (result SqlError B) :=
  match r with Ok a => k a | Err e => Done (Err e) end.

(** The two [copy_from_slice] panic on a column of another length. *)
Definition row_to_account (row : list SqlValue) : exec (result SqlError Account) :=
  try_get (get as_bytes 4 row) (fun salt_blob =>
  salt ← copy_from_slice SALT_LEN salt_blob;
  try_get (get as_bytes 6 row) (fun pub_blob =>
  pub ← copy_from_slice PUBLIC_KEY_LEN pub_blob;
  Done (id ← get as_i64 0 row;
        local ← get as_string 1 row;
        dom ← get as_string 2 row;
        key_id ← get as_i64 3 row;
        amk ← get as_bytes 5 row;
        priv ← get as_bytes 7 row;
        created ← get as_i64 8 row;
        Ok (mkAccount id local dom (as_u16 key_id) salt amk pub priv created)))).

Definition row_to_outbound (row : list SqlValue) : result SqlError OutboundMessage :=
  id ← get as_i64 0 row;
  account ← get as_i64 1 row;
  blob ← get as_string 2 row;
  from ← get as_string 3 row;
  created ← get as_i64 4 row;
  expires ← get as_i64 5 row;
  envid ← get (as_option as_string) 6 row;
  ret ← get (as_option as_string) 7 row;
  dsn ← get as_i64 8 row;
  Ok (mkOutbound id account blob from created expires envid ret (negb (dsn =? 0)%Z)).

Definition row_to_recipient (row : list SqlValue) : result SqlError OutboundRecipient :=
  id ← get as_i64 0 row;
  outbound ← get as_i64 1 row;
  rcpt ← get as_string 2 row;
  dom ← get as_string 3 row;
  notify ← get as_string 4 row;
  st ← get as_string 5 row;
  attempts ← get as_i64 6 row;
  next ← get as_i64 7 row;
  code ← get (as_option as_i64) 8 row;
  status ← get (as_option as_string) 9 row;
  detail ← get (as_option as_string) 10 row;
  delayed ← get as_i64 11 row;
  Ok (mkOutboundRecipient id outbound rcpt dom notify (from_db_str st) attempts next code status detail (negb (delayed =? 0)%Z)).

Definition row_to_event (row : list SqlValue) : result SqlError StoredScheduledEvent :=
  id ← get as_i64 0 row;
  account ← get as_i64 1 row;
  kind ← get as_string 2 row;
  fire ← get as_i64 3 row;
  thread ← get (as_option as_string) 4 row;
  payload ← get (as_option as_string) 5 row;
  st ← get as_string 6 row;
  Ok (mkScheduled id account kind fire thread payload st).

(** ** The queue's file *)
Definition flag (b : bool) : SqlValue := Integer (if b then 1 else 0).

Definition encode_outbound (o : OutboundMessage) : list (str * SqlValue) :=
  [(# "id", Integer (o_id o)); (# "account_id", Integer (o_account_id o)); (# "message_blob", Text (message_blob o));
   (# "envelope_from", Text (envelope_from o)); (# "created_at", Integer (o_created_at o));
   (# "expires_at", Integer (expires_at o)); (# "dsn_envid", text_or_null (dsn_envid o)); (# "dsn_ret", text_or_null (dsn_ret o));
   (# "is_dsn", flag (is_dsn o))].

(** The columns of a recipient that are read, and the claim's. *)
Definition encode_rcpt_read (r : RcptRow) : list (str * SqlValue) :=
  [(# "id", Integer (r_id r)); (# "outbound_id", Integer (outbound_id r)); (# "rcpt_to", Text (r_rcpt_to r));
   (# "domain", Text (r_domain r)); (# "dsn_notify", Text (dsn_notify r)); (# "state", Text (state r));
   (# "attempts", Integer (attempts r)); (# "next_attempt_at", Integer (next_attempt_at r));
   (# "last_code", integer_or_null (last_code r)); (# "last_status", text_or_null (last_status r));
   (# "last_detail", text_or_null (last_detail r)); (# "delayed_dsn_sent", flag (delayed_dsn_sent r))].

Definition encode_rcpt (r : RcptRow) : list (str * SqlValue) :=
  encode_rcpt_read r ++ [(# "claimed_by", text_or_null (claimed_by r)); (# "claimed_at", integer_or_null (claimed_at r))].

Definition encode_event (e : StoredScheduledEvent) : list (str * SqlValue) :=
  [(# "id", Integer (e_id e)); (# "account_id", Integer (e_account_id e)); (# "kind", Text (kind e)); (# "fire_at", Integer (fire_at e));
   (# "thread_id", text_or_null (e_thread_id e)); (# "payload", text_or_null (payload e)); (# "state", Text (e_state e))].

(** ** Every reader undoes its encoding *)
Lemma as_u16_small n : (n < 65536)%N -> as_u16 (Z.of_N n) = n.
Proof. intros Hn. unfold as_u16. rewrite Z.mod_small by lia. lia. Qed.

Lemma read_message fl m : row_to_message fl (snd <$> encode_message m) = Ok m.
Proof.
  destruct m as [i [a mb th hash wrap from rcpt ip size spf dkim dmarc rec kw mid irt refs subj score clean]].
  by destruct mid, irt, refs, subj, score, clean as [[]|].
Qed.

Lemma read_mailbox m : row_to_mailbox (snd <$> encode_mailbox m) = Ok m.
Proof. by destruct m. Qed.

Lemma read_upload u : (up_key_id (up_row u) < 65536)%N -> row_to_upload (snd <$> encode_upload u) = Ok u.
Proof.
  intros Hk. destruct u as [i [a hash wrap k name ct size at_]]. cbn in Hk.
  transitivity (Ok (E := SqlError) (mkStoredUpload i (mkNewUpload a hash wrap (as_u16 (Z.of_N k)) name ct size at_))); [done|].
  by rewrite as_u16_small.
Qed.

Lemma read_contact c : row_to_contact (snd <$> encode_contact c) = Ok c.
Proof. by destruct c. Qed.

(** The nine columns that the accounts' SELECTs name. *)
Definition account_read (r : AccountRow) : list (str * SqlValue) := take 9 (encode_account r).

Lemma read_account r : (acc_key_id (row_account r) < 65536)%N -> length (acc_salt (row_account r)) = SALT_LEN ->
  length (account_pub (row_account r)) = PUBLIC_KEY_LEN -> row_to_account (snd <$> account_read r) = Done (Ok (row_account r)).
Proof.
  destruct r as [[i l d k salt wa pub wp at_] sig]. cbn [row_account acc_key_id acc_salt account_pub]. intros Hk Hs Hp.
  transitivity (salt' ← copy_from_slice SALT_LEN salt; pub' ← copy_from_slice PUBLIC_KEY_LEN pub;
    Done (Ok (E := SqlError) (mkAccount i l d (as_u16 (Z.of_N k)) salt' wa pub' wp at_))); [done|].
  unfold copy_from_slice. rewrite Hs, Hp, !Nat.eqb_refl. cbn. by rewrite as_u16_small.
Qed.

Lemma read_outbound o : row_to_outbound (snd <$> encode_outbound o) = Ok o.
Proof. destruct o as [i a b f c e envid ret dsn]. by destruct envid, ret, dsn. Qed.

Lemma read_recipient r : row_to_recipient (snd <$> encode_rcpt_read r) = Ok (Queue.row_to_recipient r).
Proof.
  destruct r as [i o rc d n st at_ next cb ca code status detail delayed]. by destruct code, status, detail, delayed.
Qed.

Lemma read_event e : row_to_event (snd <$> encode_event e) = Ok e.
Proof. destruct e as [i a k f th pl st]. by destruct th, pl. Qed.

(** ** Whole tables *)
Section Read.
Context (sql_error : SqlError -> str) (fl : Z -> f64).

(** [SELECT cs FROM n WHERE id = id]. *)
Definition by_id (id : Z) (t : Table) (row : list SqlValue) : bool := bool_decide (cell t (# "id") row = Some (Integer id)).

Lemma read_where_id {A X} (encode : A -> list (str * SqlValue)) d n t l cs (f : list SqlValue -> result SqlError X) (g : A -> X)
    (key : A -> Z) (read : A -> list (str * SqlValue)) id db :
  tables db !! n = Some t -> # "id" :: cs ⊆ names t -> holds encode d t l ->
  (forall x, x ∈ l -> (# "id", Integer (key x)) ∈ encode x /\ read x ⊆ encode x /\ fst <$> read x = cs /\ f (snd <$> read x) = Ok (g x)) ->
  query sql_error n cs [ # "id"] (by_id id) f db = (Done (Ok (g <$> List.filter (fun x => key x =? id)%Z l)), db).
Proof.
  intros Et Hn Hl Hx. apply (run_query sql_error encode d n t l cs [ # "id"]); [done|set_solver|exact Hl|..].
  - intros row x Hin He. destruct (Hx x Hin) as (Hk & _). unfold by_id.
    rewrite (encodes_cell encode d t row x (# "id") (Integer (key x)) He Hk) by (apply Hn; left).
    destruct (Z.eqb_spec (key x) id) as [->|Hne]; [by rewrite bool_decide_eq_true_2|]. apply bool_decide_eq_false_2. by intros [= ?].
  - intros row x Hin He. destruct (Hx x Hin) as (_ & Hr & <- & Hf). rewrite (select_encoded encode d t row x (read x)); [done..|].
    intros c Hc. apply Hn. by right.
Qed.

(** The same of a file's table. *)
Lemma read_file {A X} (encode : A -> list (str * SqlValue)) d first n l all cs (f : list SqlValue -> result SqlError X) (g : A -> X)
    (key : A -> Z) (read : A -> list (str * SqlValue)) id db :
  stored encode d first (tables db !! n) l -> has_columns db n all -> # "id" :: cs ⊆ col_name <$> all ->
  (forall x, x ∈ l -> (# "id", Integer (key x)) ∈ encode x /\ read x ⊆ encode x /\ fst <$> read x = cs /\ f (snd <$> read x) = Ok (g x)) ->
  query sql_error n cs [ # "id"] (by_id id) f db = (Done (Ok (g <$> List.filter (fun x => key x =? id)%Z l)), db).
Proof.
  intros Hs (t & Et & Hc) Hn Hx. rewrite Et in Hs. destruct Hs as [_ Hl].
  apply (read_where_id encode d n t l cs f g key read id db Et); [by etrans; [exact Hn|exact Hc]|exact Hl|exact Hx].
Qed.

(** C36.  Mail survives a new release.  From the file of any release, opening it
    succeeds, and what [get_message], [get_mailbox], [get_upload] and
    [get_contact] then read from it, by id, are the rows it held before, each
    column at its place; messages from before scanning read with no score and
    no verdict.  (Key numbers are [u16]s.) *)
Theorem old_mail_file_reads (db : Database) (m : MetadataStore) :
  mail_file db m -> (forall u, u ∈ uploads m -> (up_key_id (up_row u) < 65536)%N) ->
  exists db', open_metadata sql_error (Ok tt) db = (Done (Ok tt), db') /\ mail_file db' m /\ forall id,
    query sql_error (# "messages") MESSAGE_COLUMNS [ # "id"] (by_id id) (row_to_message fl) db'
      = (Done (Ok (List.filter (fun x => m_id x =? id)%Z (messages m))), db') /\
    query sql_error (# "mailboxes") MAILBOX_COLUMNS [ # "id"] (by_id id) row_to_mailbox db'
      = (Done (Ok (List.filter (fun x => mb_id x =? id)%Z (mailboxes m))), db') /\
    query sql_error (# "uploads") UPLOAD_COLUMNS [ # "id"] (by_id id) row_to_upload db'
      = (Done (Ok (List.filter (fun x => up_id x =? id)%Z (uploads m))), db') /\
    query sql_error (# "contacts") CONTACT_COLUMNS [ # "id"] (by_id id) row_to_contact db'
      = (Done (Ok (List.filter (fun x => ct_id x =? id)%Z (contacts m))), db').
Proof.
  intros Hf Hk. destruct (mail_file_upgrades sql_error db m Hf) as (db' & E & Hf' & Hc). exists db'. split; [done|]. split; [done|]. intros id.
  destruct Hf' as [F1 _ F3 F5 F6], Hc as [C1 _ C3 C5 C6].
  split_and!; rewrite <- (list_fmap_id (List.filter _ _)).
  - eapply read_file with (read := encode_message); [eassumption|eassumption|by apply included|].
    intros x _. by split_and!; [left| | |apply read_message].
  - eapply read_file with (read := encode_mailbox); [eassumption|eassumption|by apply included|].
    intros x _. by split_and!; [left| | |apply read_mailbox].
  - eapply read_file with (read := encode_upload); [eassumption|eassumption|by apply included|].
    intros x Hx. by split_and!; [left| | |apply read_upload, Hk].
  - eapply read_file with (read := encode_contact); [eassumption|eassumption|by apply included|].
    intros x _. by split_and!; [left| | |apply read_contact].
Qed.

End Read.

(** ** Witnesses *)

(** A file from before scanning, with one message. *)
Definition wit_old_message (score : option f64) : StoredMessage :=
  mkStored 7 (mkNewMessage 1 1 1 (# "hash") (# "wrap") (# "a@b") (# "c@d") (# "::1") 3 (# "none") (# "none") (# "none") 9 []
    None None None (Some (# "s")) score None).
Definition wit_old_mail : Database :=
  mkDatabase {[ # "messages" := mkTable (take 19 messages_columns) [] [take 19 (snd <$> encode_message (wit_old_message None))] ]} ∅.
Definition wit_old_rows : MetadataStore := mkMetadata [] [] [wit_old_message None] ∅ [] [].

Lemma old_mail_file_reads_witness :
  exists db', open_metadata (fun _ => []) (Ok tt) wit_old_mail = (Done (Ok tt), db') /\
    query (fun _ => []) (# "messages") MESSAGE_COLUMNS [ # "id"] (by_id 7) (row_to_message id) db' = (Done (Ok [wit_old_message None]), db').
Proof.
  destruct (old_mail_file_reads (fun _ => []) id wit_old_mail wit_old_rows) as (db' & E & _ & Hr).
  - split; [reflexivity|reflexivity| |reflexivity|reflexivity]. split; [apply included; reflexivity|]. repeat constructor.
  - intros u Hu. apply elem_of_nil in Hu. destruct Hu.
  - exists db'. exact (conj E (proj1 (Hr 7%Z))).
Defined.
