(* ===== verification/Submission.v ===== *)
(** * Submission: authenticated mail submission, [submission]

    src/crates/submission/src/session.rs: the sessions of ports 587 and 465,
    from EHLO over STARTTLS and AUTH PLAIN to a message in the outbound
    queue.  The line, DATA and reply helpers are those of Wire (the crate
    carries its own copies of them).  Base64 is a parameter.

    Sessions share the account store, the login throttle, the queue, the
    blobs and the audit log with the rest of the server.  Whatever else
    happens to these while a session waits for its client is [others], an
    arbitrary function applied once per command; what a command does after
    its input is read is one step. *)

From stdpp Require Import base list strings gmap sorting.
From Stdlib Require Import Ascii ZArith Lia.
From S2P Require Import Prelude RustStr Input Header Limits Wire Store Sealing Auth AuditLog Backoff Queue.
Import Blob.

(** ** State *)
Record Envelope : Type := mkEnvelope {
  helo_domain : option str;
  authenticated : option Account;
  mail_from : option str;
  rcpt_to : list str
}.

Definition env_default : Envelope := mkEnvelope None None None [].

Definition env_reset (e : Envelope) : Envelope := mkEnvelope (helo_domain e) (authenticated e) None [].

Inductive LoopOutcome : Type := Closed | StartTls.

(** What sessions share. *)
Record Shared : Type := mkShared {
  sh_auth : AuthStore;
  sh_throttle : Throttle.LoginThrottle;
  sh_queue : QueueStore;
  sh_blobs : BlobStore;
  sh_audit : AuditStore
}.

(** [Deps]'s plain data, and what the outside gives each command: the clocks,
    random draws and other tasks, by the number of commands read so far. *)
Record Deps : Type := mkDeps {
  hostname : str;
  max_message_size : nat;
  argon2_config : Z * Z * Z;
  tls_acceptor : option (list str * bool);
      (* a failed handshake, or the decrypted stream's reads and how it ends *)
  others : nat -> Shared -> Shared;
  check_instant : nat -> Z;     (* Instant::now() in LoginThrottle::check *)
  failure_instant : nat -> Z;   (* and in record_failure *)
  now_unix : nat -> Z;
  audit_rand : nat -> str;
  generated_key : nat -> result str (str * str)
}.

Record Session : Type := mkSession {
  se_conn : Conn;
  se_env : Envelope;
  se_shared : Shared;
  se_tick : nat
}.

Definition with_conn (c : Conn) (s : Session) : Session := mkSession c (se_env s) (se_shared s) (se_tick s).
Definition with_env (e : Envelope) (s : Session) : Session := mkSession (se_conn s) e (se_shared s) (se_tick s).
Definition with_shared (h : Shared) (s : Session) : Session := mkSession (se_conn s) (se_env s) h (se_tick s).
Definition with_reader (r : Reader) (s : Session) : Session :=
  with_conn (mkConn r (cn_wok (se_conn s)) (cn_out (se_conn s))) s.

Definition with_auth (a : AuthStore) (h : Shared) : Shared :=
  mkShared a (sh_throttle h) (sh_queue h) (sh_blobs h) (sh_audit h).
Definition with_throttle (t : Throttle.LoginThrottle) (h : Shared) : Shared :=
  mkShared (sh_auth h) t (sh_queue h) (sh_blobs h) (sh_audit h).
Definition with_queue (q : QueueStore) (b : BlobStore) (h : Shared) : Shared :=
  mkShared (sh_auth h) (sh_throttle h) q b (sh_audit h).
Definition with_audit (a : AuditStore) (h : Shared) : Shared :=
  mkShared (sh_auth h) (sh_throttle h) (sh_queue h) (sh_blobs h) a.

(** server.rs: the throttle all submission sessions share. *)
Definition THROTTLE_BASE_DELAY : Z := 1 * 10 ^ 9.
Definition THROTTLE_MAX_DELAY : Z := 60 * 10 ^ 9.
Definition login_throttle : Throttle.LoginThrottle := Throttle.new THROTTLE_BASE_DELAY THROTTLE_MAX_DELAY.

Inductive Flow : Type := Continue | Leave (o : LoopOutcome).

(** ** SASL PLAIN *)

(** [splitn(3, |b| b == 0)]: at most three parts, the last one unsplit. *)
Definition parse_sasl_plain (payload : str) : option (str * str) :=
  '(_, rest) ← split_once NUL payload;
  '(authcid, passwd) ← split_once NUL rest;
  authcid ← from_utf8 authcid;
  passwd ← from_utf8 passwd;
  Some (authcid, passwd).

(** ** The listeners, server.rs

    Two accept loops share one semaphore; a session holds its permit until it
    ends or its ten minutes are over. *)
Module Listener.

Definition MAX_CONNECTIONS : Z := 256.

Inductive Port : Type := Starttls | Implicit.

Record Listener : Type := mkListener { permits : Z; live : list Port }.

Definition init : Listener := mkListener MAX_CONNECTIONS [].

(** [try_acquire_owned], then [tokio::spawn]: whether the connection is
    served. *)
Definition accept (l : Listener) (p : Port) : bool * Listener :=
  if (0 <? permits l)%Z then (true, mkListener (permits l - 1) (p :: live l)) else (false, l).

Inductive step : Listener -> Listener -> Prop :=
| step_accept l p : step l (accept l p).2
| step_end n before p after :
    step (mkListener n (before ++ p :: after)) (mkListener (n + 1) (before ++ after)).

Inductive reachable : Listener -> Prop :=
| reachable_init : reachable init
| reachable_step l l' : reachable l -> step l l' -> reachable l'.

(** Both ports together serve at most 256 sessions, and exactly the free
    permits decide who is turned away. *)
Lemma submission_listener_caps l : reachable l ->
  (Z.of_nat (length (live l)) + permits l = MAX_CONNECTIONS /\ 0 <= permits l)%Z.
Proof.
  induction 1 as [|l l' _ [IH1 IH2] Hs]; [done|]. destruct Hs as [l p|n before p after].
  - unfold accept. destruct (0 <? permits l)%Z eqn:E; bool_facts; cbn [snd live permits length]; lia.
  - cbn [live permits] in *. rewrite !length_app in *. cbn [length] in *. lia.
Qed.

End Listener.

Section Session.
Context `{Primitives} `{BlobHash} `{DkimSigner}.
Context (b64decode : str -> option str).
Context (deps : Deps).

Definition reply (code : Z) (text : str) : St Session bool := fun s =>
  let '(ok, c) := write_reply (se_conn s) code text in (Done ok, with_conn c s).

Definition multiline_reply (code : Z) (lines : list str) : St Session bool := fun s =>
  let '(ok, c) := write_multiline_reply (se_conn s) code lines in (Done ok, with_conn c s).

(** [let _ = write_reply(..)] and on with the loop. *)
Definition reply_continue (code : Z) (text : str) : St Session Flow :=
  _ ← reply code text; mret Continue.

Definition set_env (f : Envelope -> Envelope) : St Session unit :=
  st_mod (fun s => with_env (f (se_env s)) s).

Definition set_throttle (f : Throttle.LoginThrottle -> Throttle.LoginThrottle) : St Session unit :=
  st_mod (fun s => with_shared (with_throttle (f (sh_throttle (se_shared s))) (se_shared s)) s).

(** [let _ = deps.audit.log(..)]: an error is dropped, a panic is not. *)
Definition audit_log (action detail : str) : St Session unit := fun s =>
  let '(r, a) := log (audit_rand deps (se_tick s)) (now_unix deps (se_tick s)) action detail
                   (sh_audit (se_shared s)) in
  (match r with Done _ => Done tt | Panicked => Panicked end, with_shared (with_audit a (se_shared s)) s).

(** *** EHLO, HELO *)
Definition ehlo_lines (verb : str) (is_tls : bool) : list str :=
  (hostname deps ++ # " Hello")
  :: (if eq_ignore_ascii_case verb (# "EHLO")
      then [(# "SIZE ") ++ dec (Z.of_nat (max_message_size deps));
            (if is_tls then # "AUTH PLAIN" else # "STARTTLS"); # "8BITMIME"]
      else []).

Definition handle_ehlo (is_tls : bool) (verb rest : str) : St Session Flow :=
  let domain := trim rest in
  if negb (valid_helo_domain domain) then reply_continue 501 (# "Syntax error in parameters")
  else
    _ ← set_env (fun e => mkEnvelope (Some domain) (authenticated e) None []);
    ok ← multiline_reply 250 (ehlo_lines verb is_tls);
    mret (if ok : bool then Continue else Leave Closed).

(** *** STARTTLS *)
Definition handle_starttls (is_tls : bool) (rest : str) : St Session Flow :=
  if is_tls then reply_continue 503 (# "Already using TLS")
  else if negb (str_eqb rest []) then reply_continue 501 (# "Syntax error")
  else
    ok ← reply 220 (# "Go ahead");
    mret (Leave (if ok : bool then StartTls else Closed)).

(** *** AUTH *)

(** [spawn_blocking(..).await.map_err(|_| ())]: a panic of the task is an
    error of the session. *)
Definition spawn_blocking {A} (m : St Session A) : St Session (option A) := fun s =>
  match m s with
  | (Done a, s') => (Done (Some a), s')
  | (Panicked, s') => (Done None, s')
  end.

Definition unlock_task (account : Account) (password : str)
    : St Session (Result (UnlockedAccount * AppPasswordScope)) := fun s =>
  let '(r, a) := unlock_any (now_unix deps (se_tick s)) account password (argon2_config deps)
                   (sh_auth (se_shared s)) in
  (r, with_shared (with_auth a (se_shared s)) s).

(** A failed attempt is throttled and logged. *)
Definition auth_failed (authcid : str) : St Session (result unit (option Account)) :=
  s ← st_get;
  _ ← set_throttle (fun t => Throttle.record_failure t authcid (failure_instant deps (se_tick s)));
  _ ← audit_log (# "auth.submission_failed") authcid;
  mret (Ok None).

(** [handle_auth] from the decoded credentials on. *)
Definition check_credentials (authcid password : str) : St Session (result unit (option Account)) :=
  match split_once "@"%char authcid with
  | None => mret (Ok None)
  | Some (local_part, domain) =>
      s ← st_get;
      match Throttle.check (sh_throttle (se_shared s)) authcid (check_instant deps (se_tick s)) with
      | Err _ => mret (Ok None)
      | Ok _ =>
          match find_by_address (sh_auth (se_shared s)) local_part domain with
          | Ok (Some account) =>
              result ← spawn_blocking (unlock_task account password);
              match result with
              | None => mret (Err tt)
              | Some (Ok _) =>
                  _ ← set_throttle (fun t => Throttle.record_success t authcid);
                  _ ← audit_log (# "auth.submission") authcid;
                  mret (Ok (Some account))
              | Some (Err _) => auth_failed authcid
              end
          | _ => auth_failed authcid
          end
      end
  end.

(** The payload: on the AUTH line, or the next line after a 334. *)
Definition auth_payload (initial : str) : St Session (option str) :=
  match initial with
  | [] =>
      ok ← reply 334 [];
      if negb ok then mret None
      else
        s ← st_get;
        let '(r, rd) := read_line_bounded MAX_COMMAND_LINE (cn_rd (se_conn s)) in
        _ ← st_mod (with_reader rd);
        mret (match r with LineGot line => Some (trim_end_crlf (from_utf8_lossy line)) | _ => None end)
  | _ => mret (Some initial)
  end.

Definition handle_auth (rest : str) : St Session (result unit (option Account)) :=
  let '(mechanism, initial) := split_command rest in
  if negb (eq_ignore_ascii_case mechanism (# "PLAIN")) then
    _ ← reply 504 (# "Unsupported authentication mechanism"); mret (Ok None)
  else
    payload ← auth_payload initial;
    match payload with
    | None => mret (Err tt)
    | Some payload_b64 =>
        match (decoded ← b64decode (trim payload_b64); parse_sasl_plain decoded) with
        | None => mret (Ok None)
        | Some (authcid, password) => check_credentials authcid password
        end
    end.

Definition handle_auth_command (is_tls : bool) (rest : str) : St Session Flow :=
  if negb is_tls then reply_continue 530 (# "Must issue STARTTLS first")
  else
    s ← st_get;
    match authenticated (se_env s) with
    | Some _ => reply_continue 503 (# "Already authenticated")
    | None =>
        r ← handle_auth rest;
        match r with
        | Ok (Some account) =>
            _ ← set_env (fun e => mkEnvelope (helo_domain e) (Some account) (mail_from e) (rcpt_to e));
            reply_continue 235 (# "Authentication successful")
        | Ok None => reply_continue 535 (# "Authentication failed")
        | Err _ => mret (Leave Closed)
        end
    end.

(** *** MAIL, RCPT *)
Definition handle_mail (rest : str) : St Session Flow :=
  s ← st_get;
  match authenticated (se_env s) with
  | None => reply_continue 530 (# "Authentication required")
  | Some account =>
      addr ← st_exec (parse_addr_param rest (# "FROM:"));
      match addr with
      | Some addr =>
          if eq_ignore_ascii_case addr (address account) then
            _ ← set_env (fun e => mkEnvelope (helo_domain e) (authenticated e) (Some addr) []);
            reply_continue 250 (# "OK")
          else reply_continue 553 (# "Sender address does not match authenticated identity")
      | None => reply_continue 501 (# "Syntax error in parameters")
      end
  end.

Definition handle_rcpt (rest : str) : St Session Flow :=
  s ← st_get;
  match mail_from (se_env s) with
  | None => reply_continue 503 (# "Bad sequence of commands")
  | Some _ =>
      addr ← st_exec (parse_addr_param rest (# "TO:"));
      match addr with
      | Some addr =>
          if (MAX_RECIPIENTS <=? length (rcpt_to (se_env s)))%nat
          then reply_continue 452 (# "Too many recipients")
          else if valid_email_address addr then
            _ ← set_env (fun e => mkEnvelope (helo_domain e) (authenticated e) (mail_from e) (rcpt_to e ++ [addr]));
            reply_continue 250 (# "OK")
          else reply_continue 501 (# "Syntax error in parameters")
      | None => reply_continue 501 (# "Syntax error in parameters")
      end
  end.

(** *** DATA *)
Definition new_outbound (account : Account) (e : Envelope) (raw : str) : NewOutbound :=
  mkNewOutbound (acc_id account) (default [] (mail_from e)) raw (rcpt_to e) false None None.

Definition enqueue_submission (account : Account) (e : Envelope) (raw : str) : St Session (Result unit) := fun s =>
  let k := se_tick s in
  let h := se_shared s in
  match ensure_dkim_key (generated_key deps k) (now_unix deps k) (domain account) (sh_queue h) with
  | (Err er, q) => (Done (Err er), with_shared (with_queue q (sh_blobs h) h) s)
  | (Ok domain_key, q) =>
      let '(r, (q', b')) := enqueue domain_key (new_outbound account e raw) (now_unix deps k) q (sh_blobs h) in
      (Done (match r with Ok _ => Ok tt | Err er => Err er end), with_shared (with_queue q' b' h) s)
  end.

(** The reply that ends a transaction; the loop goes on if it was written. *)
Definition answer (code : Z) (text : str) : St Session Flow :=
  ok ← reply code text;
  if ok : bool then _ ← set_env env_reset; mret Continue else mret (Leave Closed).

Definition submit (raw : str) : St Session Flow :=
  s ← st_get;
  account ← st_exec (match authenticated (se_env s) with Some a => Done a | None => Panicked end);
  r ← enqueue_submission account (se_env s) raw;
  match r with
  | Ok _ => answer 250 (# "OK: message queued")
  | Err (RateLimited _) => answer 450 (# "Rate limit exceeded, try again later")
  | Err _ => answer 451 (# "Local error in processing")
  end.

Definition handle_data : St Session Flow :=
  s ← st_get;
  match mail_from (se_env s), rcpt_to (se_env s) with
  | None, _ | _, [] => reply_continue 503 (# "Bad sequence of commands")
  | Some _, _ :: _ =>
      ok ← reply 354 (# "Start mail input; end with <CRLF>.<CRLF>");
      if negb ok then mret (Leave Closed)
      else
        s ← st_get;
        let '(r, rd) := read_data (max_message_size deps) (cn_rd (se_conn s)) in
        _ ← st_mod (with_reader rd);
        match r with
        | Ok raw => submit raw
        | Err TooLarge =>
            _ ← reply 552 (# "Message size exceeds fixed limit");
            mret (Leave Closed)
        | Err DataIo => mret (Leave Closed)
        end
  end.

(** *** The loop *)
Definition handle_rset : St Session Flow :=
  _ ← set_env env_reset; reply_continue 250 (# "OK").

Definition handle_quit : St Session Flow :=
  _ ← reply 221 (# "Bye"); mret (Leave Closed).

Definition handle_line (is_tls : bool) (line : str) : St Session Flow :=
  let text := trim_end_crlf (from_utf8_lossy line) in
  let '(verb, rest) := split_command text in
  let v := to_ascii_uppercase verb in
  if str_eqb v (# "EHLO") || str_eqb v (# "HELO") then handle_ehlo is_tls verb rest
  else if str_eqb v (# "STARTTLS") then handle_starttls is_tls rest
  else if str_eqb v (# "AUTH") then handle_auth_command is_tls rest
  else if str_eqb v (# "MAIL") then handle_mail rest
  else if str_eqb v (# "RCPT") then handle_rcpt rest
  else if str_eqb v (# "DATA") then handle_data
  else if str_eqb v (# "RSET") then handle_rset
  else if str_eqb v (# "NOOP") then reply_continue 250 (# "OK")
  else if str_eqb v (# "QUIT") then handle_quit
  else reply_continue 502 (# "Command not implemented").

(** The state when a command line has arrived: the others have had their
    turn. *)
Definition resume (rd : Reader) (s : Session) : Session :=
  with_reader rd (mkSession (se_conn s) (se_env s) (others deps (se_tick s) (se_shared s)) (S (se_tick s))).

Definition loop_step (is_tls : bool) : St Session Flow :=
  s ← st_get;
  let '(r, rd) := read_line_bounded MAX_COMMAND_LINE (cn_rd (se_conn s)) in
  _ ← st_put (resume rd s);
  match r with
  | LineEof => mret (Leave Closed)
  | LineErr => _ ← reply 500 (# "Line too long"); mret (Leave Closed)
  | LineGot line => handle_line is_tls line
  end.

(** [None] is running out of fuel, which [command_loop] never does
    ([sub_run_loop_total]). *)
Fixpoint run_loop (fuel : nat) (is_tls : bool) : St Session (option LoopOutcome) :=
  match fuel with
  | O => mret None
  | S fuel =>
      flow ← loop_step is_tls;
      match flow with
      | Leave o => mret (Some o)
      | Continue => run_loop fuel is_tls
      end
  end.

Definition command_loop (is_tls greet : bool) : St Session (option LoopOutcome) :=
  greeted ← (if greet then reply 220 (hostname deps ++ # " ESMTP Litterae Submission") else mret true);
  if negb greeted then mret (Some Closed)
  else
    s ← st_get;
    run_loop (S (reader_size (cn_rd (se_conn s)))) is_tls.

(** A new [BufReader] on the decrypted stream, and a new envelope. *)
Definition enter_tls (stream : list str * bool) : St Session unit :=
  st_mod (fun s => with_env env_default (with_reader (mkReader [] stream.1 stream.2) s)).

(** Port 587. *)
Definition handle_starttls_connection : St Session unit :=
  _ ← set_env (fun _ => env_default);
  outcome ← command_loop false true;
  match outcome with
  | Some StartTls =>
      s ← st_get;
      match rd_buf (cn_rd (se_conn s)) with
      | _ :: _ => mret tt                        (* data pipelined past STARTTLS *)
      | [] =>
          match tls_acceptor deps with
          | None => mret tt                      (* handshake failed *)
          | Some stream =>
              _ ← enter_tls stream;
              _ ← command_loop true false;
              mret tt
          end
      end
  | _ => mret tt
  end.

(** Port 465. *)
Definition handle_implicit_connection : St Session unit :=
  match tls_acceptor deps with
  | None => mret tt
  | Some stream =>
      _ ← enter_tls stream;
      _ ← command_loop true true;
      mret tt
  end.

End Session.

(** ** Invariants of a session *)
Section Invariant.
Context `{Primitives} `{BlobHash} `{DkimSigner}.
Context (b64decode : str -> option str).
Context (deps : Deps).

(** Properties of the envelope and the shared stores alone. *)
Definition on_state (P : Envelope -> Shared -> Prop) (s : Session) : Prop := P (se_env s) (se_shared s).

Lemma sub_keeps_reply P code text : keeps (on_state P) (reply code text).
Proof. intros s Hs. exact Hs. Qed.

Lemma sub_keeps_multiline P code lines : keeps (on_state P) (multiline_reply code lines).
Proof. intros s Hs. unfold multiline_reply. by destruct (write_multiline_reply _ _ _). Qed.

Lemma sub_keeps_reply_continue P code text : keeps (on_state P) (reply_continue code text).
Proof. intros s Hs. exact Hs. Qed.

Lemma sub_keeps_set_env (P : Envelope -> Shared -> Prop) f :
  (forall e h, P e h -> P (f e) h) -> keeps (on_state P) (set_env f).
Proof. intros Hf. apply keeps_mod. intros s Hs. apply Hf, Hs. Qed.

Lemma sub_keeps_set_throttle (P : Envelope -> Shared -> Prop) f :
  (forall e h, P e h -> P e (with_throttle (f (sh_throttle h)) h)) -> keeps (on_state P) (set_throttle f).
Proof. intros Hf. apply keeps_mod. intros s Hs. apply Hf, Hs. Qed.

Lemma sub_keeps_audit_log (P : Envelope -> Shared -> Prop) action detail :
  (forall e h a, P e h -> P e (with_audit a h)) -> keeps (on_state P) (audit_log deps action detail).
Proof. intros Hf s Hs. unfold audit_log. destruct (log _ _ _ _ _) as [[r|] a]; apply Hf, Hs. Qed.

Lemma keeps_unlock_task (P : Envelope -> Shared -> Prop) account password :
  (forall e h a, after_unlock (sh_auth h) a -> P e h -> P e (with_auth a h)) ->
  keeps (on_state P) (unlock_task deps account password).
Proof.
  intros Hf s Hs. unfold unlock_task. destruct (unlock_any _ _ _ _ _) as [r a] eqn:E. apply Hf; [|exact Hs].
  right. do 4 eexists. by rewrite E.
Qed.

Lemma keeps_spawn_blocking {A} (P : Session -> Prop) (m : St Session A) : keeps P m -> keeps P (spawn_blocking m).
Proof. intros Hm s Hs. specialize (Hm s Hs). unfold spawn_blocking. by destruct (m s) as [[a|] s']. Qed.

(** What an account is asked to prove: the credentials the client sent. *)
Definition offered_payload (rest : str) (rd : Reader) : option str :=
  let '(mechanism, initial) := split_command rest in
  if eq_ignore_ascii_case mechanism (# "PLAIN") then
    match initial with
    | [] => match (read_line_bounded MAX_COMMAND_LINE rd).1 with
            | LineGot line => Some (trim_end_crlf (from_utf8_lossy line))
            | _ => None
            end
    | _ => Some initial
    end
  else None.

Definition offered_credentials (rest : str) (rd : Reader) : option (str * str) :=
  payload ← offered_payload rest rd; decoded ← b64decode (trim payload); parse_sasl_plain decoded.

(** When the server lets [authcid] in with [password], as [account]: the
    throttle does not hold the name, the directory knows it, and the password
    or one of the account's application passwords unlocks the mailbox. *)
Definition admits (k : nat) (h : Shared) (authcid password : str) (account : Account) : Prop :=
  exists local dom unlocked scope,
    split_once "@"%char authcid = Some (local, dom) /\
    Throttle.check (sh_throttle h) authcid (check_instant deps k) = Ok tt /\
    find_by_address (sh_auth h) local dom = Ok (Some account) /\
    (unlock_any (now_unix deps k) account password (argon2_config deps) (sh_auth h)).1 = Done (Ok (unlocked, scope)).

(** The step from state [s] is a successful login as [account]. *)
Definition logs_in (s : Session) (account : Account) : Prop :=
  exists line rd rest authcid password,
    read_line_bounded MAX_COMMAND_LINE (cn_rd (se_conn s)) = (LineGot line, rd) /\
    rest = (split_command (trim_end_crlf (from_utf8_lossy line))).2 /\
    offered_credentials rest rd = Some (authcid, password) /\
    admits (S (se_tick s)) (others deps (se_tick s) (se_shared s)) authcid password account.

(** The envelope, relative to the accounts [A] that have logged in. *)
Record env_ok (is_tls : bool) (A : Account -> Prop) (e : Envelope) : Prop := {
  eo_tls : is_Some (authenticated e) -> is_tls = true;
  eo_login a : authenticated e = Some a -> A a;
  eo_mail f : mail_from e = Some f ->
    exists a, authenticated e = Some a /\ eq_ignore_ascii_case f (address a) = true;
  eo_rcpts : rcpt_to e <> [] -> is_Some (mail_from e);
  eo_count : (length (rcpt_to e) <= MAX_RECIPIENTS)%nat;
  eo_valid : Forall (fun r => valid_email_address r = true) (rcpt_to e)
}.

(** What the step may have done to the queue [q] it found: nothing, or one
    message of the logged-in account, in its own name. *)
Definition sent_by (A : Account -> Prop) (q q' : QueueStore) : Prop :=
  outbound q' = outbound q \/
  exists o a, outbound q' = outbound q ++ [o] /\ A a /\ o_account_id o = acc_id a /\
    eq_ignore_ascii_case (envelope_from o) (address a) = true /\ is_dsn o = false.

Lemma sub_env_ok_default is_tls A : env_ok is_tls A env_default.
Proof. split; cbn; first [done|apply le_0_n|constructor|by intros [? ?]]. Qed.

Lemma sub_env_ok_reset is_tls A e : env_ok is_tls A e -> env_ok is_tls A (env_reset e).
Proof. intros []. split; cbn; first [done|apply le_0_n|constructor|by intros [? ?]]. Qed.

Lemma env_ok_weaken is_tls (A B : Account -> Prop) e :
  (forall a, A a -> B a) -> env_ok is_tls A e -> env_ok is_tls B e.
Proof. intros Hab []. split; auto. Qed.

(** [on_state] invariants that say nothing of the throttle and the audit log,
    and nothing of the account store that unlocking changes. *)
Definition stores_only (P : Envelope -> Shared -> Prop) : Prop :=
  forall e h h', sh_queue h' = sh_queue h -> sh_blobs h' = sh_blobs h -> after_unlock (sh_auth h) (sh_auth h') -> P e h -> P e h'.

Lemma keeps_auth_failed P authcid : stores_only P -> keeps (on_state P) (auth_failed deps authcid).
Proof.
  intros HP. unfold auth_failed. apply keeps_get. intros s Hs.
  apply keeps_bind; [apply sub_keeps_set_throttle; intros e h; apply HP; [done|done|by left]|]. intros _.
  apply keeps_bind; [apply sub_keeps_audit_log; intros e h au; apply HP; [done|done|by left]|]. intros. apply keeps_ret.
Qed.

Lemma keeps_check_credentials P authcid password :
  stores_only P -> keeps (on_state P) (check_credentials deps authcid password).
Proof.
  intros HP. unfold check_credentials. pose proof (keeps_auth_failed P authcid HP) as Hf.
  destruct (split_once _ _) as [[l d]|]; [|apply keeps_ret]. apply keeps_get. intros s Hs.
  destruct (Throttle.check _ _ _); [|apply keeps_ret].
  destruct (find_by_address _ _ _) as [[account|]|]; [|exact Hf|exact Hf].
  apply keeps_bind; [apply keeps_spawn_blocking, keeps_unlock_task; intros e h au Hu; by apply HP|].
  intros [[|]|]; [|exact Hf|apply keeps_ret].
  apply keeps_bind; [apply sub_keeps_set_throttle; intros e h; apply HP; [done|done|by left]|]. intros _.
  apply keeps_bind; [apply sub_keeps_audit_log; intros e h au; apply HP; [done|done|by left]|]. intros. apply keeps_ret.
Qed.

Lemma keeps_auth_payload P initial : keeps (on_state P) (auth_payload initial).
Proof.
  unfold auth_payload. destruct initial; [|apply keeps_ret].
  apply keeps_bind; [apply sub_keeps_reply|]. intros ok. destruct (negb ok); [apply keeps_ret|].
  apply keeps_get. intros s Hs. destruct (read_line_bounded _ _) as [r rd].
  apply keeps_bind; [by apply keeps_mod|]. intros. apply keeps_ret.
Qed.

Lemma keeps_handle_auth P rest : stores_only P -> keeps (on_state P) (handle_auth b64decode deps rest).
Proof.
  intros HP. unfold handle_auth. destruct (split_command rest) as [m i]. destruct (negb _).
  { apply keeps_bind; [apply sub_keeps_reply|intros; apply keeps_ret]. }
  apply keeps_bind; [apply keeps_auth_payload|]. intros [p|]; [|apply keeps_ret].
  destruct (_ ≫= _) as [[c w]|]; [|apply keeps_ret]. by apply keeps_check_credentials.
Qed.

(** What a step keeps of the accounts, the queue and the blobs: whatever
    unlocking and queuing a message keep. *)
Definition kept_by_submission (P : AuthStore -> QueueStore -> BlobStore -> Prop) : Prop := forall a q b, P a q b ->
  (forall a', after_unlock a a' -> P a' q b) /\
  (forall g now d, P a (ensure_dkim_key g now d q).2 b) /\
  (forall key new now, P a (enqueue key new now q b).2.1 (enqueue key new now q b).2.2).

Section Stores.
Context (P : AuthStore -> QueueStore -> BlobStore -> Prop) (HP : kept_by_submission P).

Abbreviation stores := (on_state (fun _ h => P (sh_auth h) (sh_queue h) (sh_blobs h))).

Lemma stores_is_only : stores_only (fun _ h => P (sh_auth h) (sh_queue h) (sh_blobs h)).
Proof. intros _ h h' -> -> Hu Hs. by apply (HP _ _ _ Hs). Qed.

Lemma stores_enqueue a e raw : keeps stores (enqueue_submission deps a e raw).
Proof.
  intros s Hs. unfold enqueue_submission, on_state in *. destruct (HP _ _ _ Hs) as (_ & Hd & _).
  specialize (Hd (generated_key deps (se_tick s)) (now_unix deps (se_tick s)) (domain a)).
  destruct (ensure_dkim_key _ _ _ _) as [[key|er] q]; [|exact Hd]. destruct (HP _ _ _ Hd) as (_ & _ & He).
  specialize (He key (new_outbound a e raw) (now_unix deps (se_tick s))). by destruct (enqueue _ _ _ _ _) as [r [q' b']].
Qed.

Ltac stores_step :=
  first [st_step | apply sub_keeps_reply | apply sub_keeps_reply_continue | apply sub_keeps_multiline
        | by apply sub_keeps_set_env | by apply keeps_mod | apply stores_enqueue
        | apply keeps_handle_auth, stores_is_only].

Lemma stores_line is_tls line : keeps stores (handle_line b64decode deps is_tls line).
Proof.
  unfold handle_line, handle_ehlo, handle_starttls, handle_auth_command, handle_mail, handle_rcpt, handle_data, handle_rset,
    handle_quit, submit, answer. repeat stores_step.
Qed.

Lemma stores_loop_step is_tls s :
  let h := others deps (se_tick s) (se_shared s) in
  P (sh_auth h) (sh_queue h) (sh_blobs h) -> stores (loop_step b64decode deps is_tls s).2.
Proof.
  cbv zeta. intros Hs. unfold loop_step, mbind at 1, St_bind, st_get. destruct (read_line_bounded _ _) as [r rd].
  unfold mbind at 1, St_bind, st_put. assert (Hr : stores (resume deps rd s)) by exact Hs. revert Hr. generalize (resume deps rd s).
  change (keeps stores (match r with
    | LineEof => mret (Leave Closed)
    | LineErr => _ ← reply 500 (# "Line too long"); mret (Leave Closed)
    | LineGot line => handle_line b64decode deps is_tls line end)).
  destruct r; [apply keeps_ret|apply stores_line|repeat stores_step].
Qed.

End Stores.

(** The account [check_credentials] lets in is one the server admits. *)
Lemma check_credentials_admits authcid password s account s' :
  check_credentials deps authcid password s = (Done (Ok (Some account)), s') ->
  admits (se_tick s) (se_shared s) authcid password account.
Proof.
  assert (Hno : forall x y, auth_failed deps authcid x <> (Done (Ok (Some account)), y)).
  { intros x y. unfold auth_failed, mbind, St_bind, st_get, set_throttle, st_mod.
    by destruct (audit_log _ _ _ _) as [[r|] z]. }
  unfold check_credentials, admits. destruct (split_once _ _) as [[l d]|] eqn:El; [|done].
  unfold mbind, St_bind, st_get. destruct (Throttle.check _ _ _) as [[]|] eqn:Ec; [|done].
  destruct (find_by_address _ _ _) as [[acc|]|] eqn:Ef; [|by intros ?%Hno|by intros ?%Hno].
  unfold spawn_blocking, unlock_task. destruct (unlock_any _ _ _ _ _) as [[[[u sc]|er]|] au] eqn:Eu; [|by intros ?%Hno|done].
  unfold set_throttle, st_mod. destruct (audit_log _ _ _ _) as [[r|] z]; [|done].
  intros [= <- <-]. exists l, d, u, sc. rewrite Eu. done.
Qed.

(** The payload comes from the client's bytes; the shared stores wait. *)
Lemma auth_payload_offered rest mechanism initial s payload s' :
  split_command rest = (mechanism, initial) -> eq_ignore_ascii_case mechanism (# "PLAIN") = true ->
  auth_payload initial s = (Done (Some payload), s') ->
  offered_payload rest (cn_rd (se_conn s)) = Some payload /\ se_shared s' = se_shared s /\ se_tick s' = se_tick s.
Proof.
  intros Er Em. unfold auth_payload, offered_payload. rewrite Er, Em.
  destruct initial as [|b initial]; [|by intros [= <- <-]].
  unfold mbind, St_bind, reply, write_reply, write_all, st_get, st_mod.
  destruct (cn_wok _ _); cbn [negb se_conn with_conn cn_rd]; [|done].
  destruct (read_line_bounded _ _) as [r rd]. cbn. destruct r; by intros [= <- <-].
Qed.

Lemma handle_auth_admits rest s account s' :
  handle_auth b64decode deps rest s = (Done (Ok (Some account)), s') ->
  exists authcid password, offered_credentials rest (cn_rd (se_conn s)) = Some (authcid, password) /\
    admits (se_tick s) (se_shared s) authcid password account.
Proof.
  unfold handle_auth, offered_credentials. destruct (split_command rest) as [mechanism initial] eqn:Er.
  destruct (eq_ignore_ascii_case mechanism _) eqn:Em; cbn [negb].
  2: { unfold mbind, St_bind. by destruct (reply _ _ _) as [[ok|] z]. }
  unfold mbind at 1, St_bind. destruct (auth_payload initial s) as [[[payload|]|] s1] eqn:Ep; [|done..].
  destruct (auth_payload_offered _ _ _ _ _ _ Er Em Ep) as (-> & Es & Et). cbn [mbind option_bind].
  destruct (decoded ← b64decode (trim payload); parse_sasl_plain decoded) as [[authcid password]|]; [|done].
  intros Hc%check_credentials_admits. rewrite Es, Et in Hc. eauto.
Qed.

(** *** The invariant of each command *)
Section Command.
Context (is_tls : bool) (A : Account -> Prop) (q : QueueStore).

Definition quiet : Session -> Prop := on_state (fun e h => env_ok is_tls A e /\ sh_queue h = q).

Lemma stores_only_quiet : stores_only (fun e h => env_ok is_tls A e /\ sh_queue h = q).
Proof. intros e h h' E _ _ [He Hq]. split; [done|congruence]. Qed.

Lemma keeps_quiet_env f : (forall e, env_ok is_tls A e -> env_ok is_tls A (f e)) -> keeps quiet (set_env f).
Proof. intros Hf. apply sub_keeps_set_env. intros e h [He Hq]. auto. Qed.

Lemma sub_keeps_ehlo verb rest : keeps quiet (handle_ehlo deps is_tls verb rest).
Proof.
  unfold handle_ehlo. destruct (negb _); [apply sub_keeps_reply_continue|].
  apply keeps_bind; [|intros _; apply keeps_bind; [apply sub_keeps_multiline|intros; apply keeps_ret]].
  apply keeps_quiet_env. intros e He%sub_env_ok_reset. by destruct He.
Qed.

Lemma sub_keeps_starttls rest : keeps quiet (handle_starttls is_tls rest).
Proof.
  unfold handle_starttls. destruct is_tls; [apply sub_keeps_reply_continue|].
  destruct (negb _); [apply sub_keeps_reply_continue|].
  apply keeps_bind; [apply sub_keeps_reply|intros; apply keeps_ret].
Qed.

Lemma sub_keeps_mail rest : keeps quiet (handle_mail rest).
Proof.
  unfold handle_mail. apply triple_get. intros s [He Hq].
  destruct (authenticated (se_env s)) as [a|] eqn:Ea; [|intros s' <-; by apply sub_keeps_reply_continue].
  apply triple_exec_bind; [|by intros ? <-]. intros [addr|] _; [|intros s' <-; by apply sub_keeps_reply_continue].
  destruct (eq_ignore_ascii_case addr _) eqn:Eq; [|intros s' <-; by apply sub_keeps_reply_continue].
  eapply (triple_bind _ _ _ (fun _ => quiet)); [|intros; apply sub_keeps_reply_continue|done].
  intros s' <-. split; [|done]. cbn. destruct He.
  split; cbn; first [done|apply le_0_n|constructor|idtac]. intros f [= <-]. eauto.
Qed.

Lemma sub_keeps_rcpt rest : keeps quiet (handle_rcpt rest).
Proof.
  unfold handle_rcpt. apply triple_get. intros s [He Hq].
  destruct (mail_from (se_env s)) as [f|] eqn:Ef; [|intros s' <-; by apply sub_keeps_reply_continue].
  apply triple_exec_bind; [|by intros ? <-]. intros [addr|] _; [|intros s' <-; by apply sub_keeps_reply_continue].
  destruct (_ <=? _)%nat eqn:El; [intros s' <-; by apply sub_keeps_reply_continue|]. bool_facts.
  destruct (valid_email_address addr) eqn:Ev; [|intros s' <-; by apply sub_keeps_reply_continue].
  eapply (triple_bind _ _ _ (fun _ => quiet)); [|intros; apply sub_keeps_reply_continue|done].
  intros s' <-. split; [|done]. cbn. destruct He. rewrite Ef in *.
  split; cbn; try done; [rewrite length_app; cbn; lia|].
  apply Forall_app. split; [done|]. by constructor.
Qed.

Lemma keeps_rset : keeps quiet handle_rset.
Proof.
  unfold handle_rset. apply keeps_bind; [|intros; apply sub_keeps_reply_continue].
  apply keeps_quiet_env, sub_env_ok_reset.
Qed.

(** After DATA: no panic, and at most one message, in the sender's name. *)
Definition data_done (r : exec Flow) (s : Session) : Prop :=
  r <> Panicked /\ env_ok is_tls A (se_env s) /\ sent_by A q (sh_queue (se_shared s)).

Lemma sent_by_refl : sent_by A q q.
Proof. by left. Qed.

Lemma quiet_done m : (forall s, (m s).1 <> Panicked) -> keeps quiet m -> triple quiet m data_done.
Proof. intros Hp Hm s Hs. destruct (Hm s Hs) as [He Hq]. split_and!; [apply Hp|done|]. rewrite Hq. by left. Qed.

Lemma enqueue_submission_sends a e raw s :
  A a -> (exists f, mail_from e = Some f /\ eq_ignore_ascii_case f (address a) = true) ->
  sh_queue (se_shared s) = q ->
  let '(r, s') := enqueue_submission deps a e raw s in
  r <> Panicked /\ se_env s' = se_env s /\ sent_by A q (sh_queue (se_shared s')).
Proof.
  intros Ha (f & Ef & Hf) Eq. unfold enqueue_submission.
  assert (Ho : forall g n d, outbound (ensure_dkim_key g n d q).2 = outbound q).
  { intros g n d. unfold ensure_dkim_key. destruct (load_dkim_key _ _); [done|]. by destruct g as [[? ?]|]. }
  rewrite Eq. specialize (Ho (generated_key deps (se_tick s)) (now_unix deps (se_tick s)) (domain a)).
  destruct (ensure_dkim_key _ _ _ _) as [[key|er] q1]; [|split_and!; [done..|by left]]. cbn [snd] in Ho.
  pose proof (enqueue_outbound key (new_outbound a e raw) (now_unix deps (se_tick s)) q1 (sh_blobs (se_shared s))) as Hq.
  destruct (enqueue _ _ _ _ _) as [r [q' b']]. cbn [fst snd] in *. split_and!; [done..|].
  cbn [se_shared with_shared sh_queue with_queue]. destruct r as [id|er]; [|subst q'; by left].
  destruct Hq as (hash & Hq). right. eexists _, a. rewrite Hq, Ho. split_and!; [done|done|done| |done].
  cbn. by rewrite Ef.
Qed.

Lemma finish_done s :
  env_ok is_tls A (se_env s) -> sent_by A q (sh_queue (se_shared s)) -> forall code text,
  data_done (answer code text s).1 (answer code text s).2.
Proof.
  intros He Hq code text. unfold answer, mbind, St_bind, reply, write_reply, write_all.
  destruct (cn_wok _ _); (split; [done|]); cbn; (split; [|done]); [by apply sub_env_ok_reset|done].
Qed.

Lemma submit_done raw :
  triple (fun s => quiet s /\ rcpt_to (se_env s) <> []) (submit deps raw) data_done.
Proof.
  intros s [[He Hq] Hr]. destruct (eo_rcpts _ _ _ He Hr) as [f Ef].
  destruct (eo_mail _ _ _ He f Ef) as (a & Ea & Hf). pose proof (eo_login _ _ _ He a Ea) as Ha.
  unfold submit, mbind, St_bind, st_get, st_exec. rewrite Ea.
  pose proof (enqueue_submission_sends a (se_env s) raw s Ha ltac:(eauto) Hq) as Hs.
  destruct (enqueue_submission _ _ _ _ _) as [[r|] s1]; [|by destruct Hs].
  destruct Hs as (_ & Hs1 & Hs2).
  rewrite <- Hs1 in He. destruct r as [x|[]]; by apply finish_done.
Qed.

Lemma reply_done code text : triple quiet (reply_continue code text) data_done.
Proof. apply quiet_done; [done|apply sub_keeps_reply_continue]. Qed.

Lemma data_step : triple quiet (handle_data deps) data_done.
Proof.
  unfold handle_data. apply triple_get. intros s Hs.
  assert (Hno : triple (eq s) (reply_continue 503 (# "Bad sequence of commands")) data_done).
  { intros s' <-. by apply reply_done. }
  destruct (mail_from (se_env s)); [|exact Hno]. destruct (rcpt_to (se_env s)) as [|r0 rcpts] eqn:Er; [exact Hno|].
  eapply (triple_bind _ _ _ (fun r s' => r <> Panicked /\ quiet s' /\ rcpt_to (se_env s') <> []));
    [intros s' <-; cbn; by rewrite Er| |by intros ? [? _]].
  intros ok. destruct (negb ok).
  { apply triple_ret. intros s' (_ & [He Hq] & _). split_and!; [done..|rewrite Hq; by left]. }
  apply triple_get. intros s1 (_ & Hs1 & Hr). destruct (read_data _ _) as [res rd].
  eapply (triple_bind _ _ _ (fun r s' => r <> Panicked /\ quiet s' /\ rcpt_to (se_env s') <> []));
    [by intros s' <-| |by intros ? [? _]].
  intros []. eapply (triple_consequence _ _ (fun s => quiet s /\ rcpt_to (se_env s) <> [])); [|by intros ? [_ ?]|done].
  destruct res as [raw|[|]]; [apply submit_done| |]; intros s2 [[He Hq] _]; (split_and!; [done..|change (sent_by A q (sh_queue (se_shared s2))); rewrite Hq; by left]).
Qed.

End Command.

Definition set_authenticated (account : Account) (s : Session) : Session :=
  with_env (mkEnvelope (helo_domain (se_env s)) (Some account) (mail_from (se_env s)) (rcpt_to (se_env s))) s.

Lemma handle_auth_command_eq rest s :
  handle_auth_command b64decode deps true rest s =
  match authenticated (se_env s) with
  | Some _ => reply_continue 503 (# "Already authenticated") s
  | None =>
      match handle_auth b64decode deps rest s with
      | (Done (Ok (Some account)), s1) => reply_continue 235 (# "Authentication successful") (set_authenticated account s1)
      | (Done (Ok None), s1) => reply_continue 535 (# "Authentication failed") s1
      | (Done (Err _), s1) => (Done (Leave Closed), s1)
      | (Panicked, s1) => (Panicked, s1)
      end
  end.
Proof.
  unfold handle_auth_command. cbn [negb]. unfold mbind, St_bind, st_get, set_env, st_mod.
  destruct (authenticated (se_env s)); [done|].
  by destruct (handle_auth _ _ _ _) as [[[[account|]|]|] s1].
Qed.

Lemma auth_command_step is_tls A q rest s :
  quiet is_tls A q s ->
  let s' := (handle_auth_command b64decode deps is_tls rest s).2 in
  (exists a authcid password, env_ok is_tls (fun x => A x \/ x = a) (se_env s') /\ sh_queue (se_shared s') = q /\
     offered_credentials rest (cn_rd (se_conn s)) = Some (authcid, password) /\
     admits (se_tick s) (se_shared s) authcid password a) \/ quiet is_tls A q s'.
Proof.
  intros Hs. destruct is_tls; [|right; exact Hs]. rewrite handle_auth_command_eq.
  destruct (authenticated (se_env s)) eqn:Ea; [right; exact Hs|].
  pose proof (keeps_handle_auth (fun e h => e = se_env s /\ sh_queue h = q) rest) as Hk.
  specialize (Hk ltac:(by intros e h h' -> _ _ [-> <-]) s (conj eq_refl (proj2 Hs))).
  destruct (handle_auth _ _ _ _) as [r s1] eqn:Eh. destruct Hk as [He Hq]. cbn [fst snd] in *. destruct Hs as [Hs _].
  assert (Hquiet : quiet true A q s1) by (split; [by rewrite He|done]).
  destruct r as [[[account|]|]|]; [|by right..]. left.
  apply handle_auth_admits in Eh as (authcid & password & Ho & Had). exists account, authcid, password.
  split_and!; [|done..]. change (env_ok true (fun x => A x \/ x = account) (se_env (set_authenticated account s1))).
  unfold set_authenticated. rewrite He. destruct Hs. split; cbn; try done; [intros a [= <-]; by right|].
  intros f Hf. destruct (eo_mail0 f Hf) as (a & Ha & _). congruence.
Qed.

(** What a command line leads to. *)
Definition line_outcome (is_tls : bool) (A : Account -> Prop) (q : QueueStore) (line : str) (s s' : Session) : Prop :=
  sent_by A q (sh_queue (se_shared s')) /\
  (env_ok is_tls A (se_env s') \/
   exists a authcid password, env_ok is_tls (fun x => A x \/ x = a) (se_env s') /\
     offered_credentials (split_command (trim_end_crlf (from_utf8_lossy line))).2 (cn_rd (se_conn s))
       = Some (authcid, password) /\
     admits (se_tick s) (se_shared s) authcid password a).

Lemma quiet_outcome is_tls A q line (m : St Session Flow) s :
  keeps (quiet is_tls A q) m -> quiet is_tls A q s -> line_outcome is_tls A q line s (m s).2.
Proof. intros Hm [He Hq]%Hm. split; [rewrite Hq; by left|by left]. Qed.

Lemma line_step is_tls A q line s :
  quiet is_tls A q s -> line_outcome is_tls A q line s (handle_line b64decode deps is_tls line s).2.
Proof.
  intros Hs. unfold handle_line. destruct (split_command _) as [verb rest] eqn:Ev.
  destruct (_ || _); [by apply quiet_outcome, Hs; apply sub_keeps_ehlo|].
  destruct (str_eqb _ (# "STARTTLS")); [by apply quiet_outcome, Hs; apply sub_keeps_starttls|].
  destruct (str_eqb _ (# "AUTH")).
  { unfold line_outcome. rewrite Ev. cbn [snd].
    destruct (auth_command_step is_tls A q rest s Hs) as [(a & c & w & He & Hq & Ho & Had)|[He Hq]].
    - split; [rewrite Hq; by left|]. right. by exists a, c, w.
    - split; [rewrite Hq; by left|by left]. }
  destruct (str_eqb _ (# "MAIL")); [by apply quiet_outcome, Hs; apply sub_keeps_mail|].
  destruct (str_eqb _ (# "RCPT")); [by apply quiet_outcome, Hs; apply sub_keeps_rcpt|].
  destruct (str_eqb _ (# "DATA")).
  { destruct (data_step is_tls A q s Hs) as (_ & He & Hq). split; [done|by left]. }
  destruct (str_eqb _ (# "RSET")); [by apply quiet_outcome, Hs; apply keeps_rset|].
  destruct (str_eqb _ (# "NOOP")); [by apply quiet_outcome, Hs; apply sub_keeps_reply_continue|].
  destruct (str_eqb _ (# "QUIT")); [|by apply quiet_outcome, Hs; apply sub_keeps_reply_continue].
  apply quiet_outcome, Hs. apply keeps_bind; [apply sub_keeps_reply|intros; apply keeps_ret].
Qed.

(** ** Runs of the command loop *)

(** [reach is_tls s0 h s]: a loop started in [s0] is about to read a command
    in state [s], after commands read in the states [h]. *)
Inductive reach (is_tls : bool) (s0 : Session) : list Session -> Session -> Prop :=
| reach_start : reach is_tls s0 [] s0
| reach_step h s s' :
    reach is_tls s0 h s -> loop_step b64decode deps is_tls s = (Done Continue, s') ->
    reach is_tls s0 (h ++ [s]) s'.

(** The accounts that have logged in during a run. *)
Definition logged_in (h : list Session) (a : Account) : Prop := exists s, s ∈ h /\ logs_in s a.

(** One iteration: what it sends is sent by an account of [A]; the account it
    authenticates, if any, logs in with this command. *)
Lemma loop_step_outcome is_tls A s :
  env_ok is_tls A (se_env s) ->
  let s' := (loop_step b64decode deps is_tls s).2 in
  env_ok is_tls (fun a => A a \/ logs_in s a) (se_env s') /\
  sent_by A (sh_queue (others deps (se_tick s) (se_shared s))) (sh_queue (se_shared s')).
Proof.
  intros He. unfold loop_step, mbind, St_bind, st_get, st_put.
  destruct (read_line_bounded _ _) as [r rd] eqn:Er.
  assert (Hq : quiet is_tls A (sh_queue (others deps (se_tick s) (se_shared s))) (resume deps rd s)) by done.
  assert (Hidle : forall B, env_ok is_tls (fun a => A a \/ B a) (se_env (resume deps rd s)) /\
    sent_by A (sh_queue (others deps (se_tick s) (se_shared s))) (sh_queue (se_shared (resume deps rd s)))).
  { intros B. split; [|by left]. eapply env_ok_weaken; [|exact He]. by left. }
  destruct r as [|line|]; [apply Hidle| |apply Hidle].
  destruct (line_step is_tls A _ line _ Hq) as [Hs [He'|(a & c & w & He' & Ho & Had)]]; (split; [|exact Hs]);
    (eapply env_ok_weaken; [|exact He']); [by left|]. cbn beta.
  intros x [Hx| ->]; [by left|right]. by exists line, rd, (split_command (trim_end_crlf (from_utf8_lossy line))).2, c, w.
Qed.

Lemma reach_env_ok is_tls s0 h s :
  se_env s0 = env_default -> reach is_tls s0 h s -> env_ok is_tls (logged_in h) (se_env s).
Proof.
  intros Hd. induction 1 as [|h s s' _ IH Es]; [rewrite Hd; apply sub_env_ok_default|].
  destruct (loop_step_outcome is_tls (logged_in h) s IH) as [He _]. rewrite Es in He. cbn [snd] in He.
  eapply env_ok_weaken; [|exact He]. intros a [(p & Hp & Ha)|Ha].
  - exists p. split; [apply elem_of_app; by left|done].
  - exists s. split; [apply elem_of_app; right; by apply list_elem_of_singleton|done].
Qed.

Lemma env_ok_tls is_tls A e : env_ok is_tls A e -> env_ok is_tls (fun a => A a /\ is_tls = true) e.
Proof. intros []. split; try done. intros a Ha. split; [by apply eo_login0|apply eo_tls0; by rewrite Ha]. Qed.

(** *** Before TLS *)

(** A step that only talks to its client. *)
Definition talks (h : Shared) (r : exec Flow) (s : Session) : Prop := r <> Panicked /\ se_shared s = h.

Lemma reply_talks code text s : talks (se_shared s) (reply_continue code text s).1 (reply_continue code text s).2.
Proof. done. Qed.

Lemma plain_line A line s :
  env_ok false A (se_env s) ->
  let p := handle_line b64decode deps false line s in talks (se_shared s) p.1 p.2.
Proof.
  intros [Htls _ Hmail _ _ _].
  assert (Ha : authenticated (se_env s) = None) by (destruct (authenticated _); [discriminate (Htls (mk_is_Some _ _ eq_refl))|done]).
  assert (Hm : mail_from (se_env s) = None).
  { destruct (mail_from _) as [f|]; [|done]. destruct (Hmail f eq_refl) as (a & E & _). congruence. }
  unfold handle_line. destruct (split_command _) as [verb rest].
  destruct (_ || _).
  { unfold handle_ehlo. destruct (negb _); [apply reply_talks|].
    unfold mbind, St_bind, set_env, st_mod, multiline_reply.
    destruct (write_multiline_reply _ _ _) as [[] c]; done. }
  destruct (str_eqb _ (# "STARTTLS")).
  { unfold handle_starttls. destruct (negb _); [apply reply_talks|].
    unfold mbind, St_bind, reply, write_reply, write_all. by destruct (cn_wok _ _). }
  destruct (str_eqb _ (# "AUTH")); [apply reply_talks|].
  destruct (str_eqb _ (# "MAIL")).
  { unfold handle_mail, mbind, St_bind, st_get. rewrite Ha. apply reply_talks. }
  destruct (str_eqb _ (# "RCPT")).
  { unfold handle_rcpt, mbind, St_bind, st_get. rewrite Hm. apply reply_talks. }
  destruct (str_eqb _ (# "DATA")).
  { unfold handle_data, mbind, St_bind, st_get. rewrite Hm. apply reply_talks. }
  destruct (str_eqb _ (# "RSET")); [done|].
  destruct (str_eqb _ (# "NOOP")); [apply reply_talks|].
  by destruct (str_eqb _ (# "QUIT")).
Qed.

End Invariant.

(** ** What AUTH and DATA do *)
Section Commands.
Context `{Primitives} `{BlobHash} `{DkimSigner}.
Context (b64decode : str -> option str).
Context (deps : Deps).

Definition last_reply (s : Session) (code : Z) : Prop :=
  exists text ok, last (cn_out (se_conn s)) = Some (reply_line code text, ok).

Lemma sub_reply_sends code text s :
  exists ok, reply code text s =
    (Done ok, with_conn (mkConn (cn_rd (se_conn s)) (cn_wok (se_conn s))
       (cn_out (se_conn s) ++ [(reply_line code text, ok)])) s).
Proof. by eexists. Qed.

Lemma reply_continue_sends code text s : last_reply (reply_continue code text s).2 code.
Proof.
  unfold reply_continue, mbind, St_bind. destruct (sub_reply_sends code text s) as [ok ->].
  exists text, ok. cbn. by rewrite last_snoc.
Qed.

(** The throttle after an attempt the throttle let through. *)
Definition throttle_after (k : nat) (authcid : str) (admitted : bool) (t : Throttle.LoginThrottle)
    : Throttle.LoginThrottle :=
  if admitted then Throttle.record_success t authcid
  else Throttle.record_failure t authcid (failure_instant deps k).

Lemma audit_log_frame action detail s :
  let s' := (audit_log deps action detail s).2 in
  se_conn s' = se_conn s /\ se_env s' = se_env s /\ se_tick s' = se_tick s /\
  sh_auth (se_shared s') = sh_auth (se_shared s) /\ sh_throttle (se_shared s') = sh_throttle (se_shared s) /\
  sh_queue (se_shared s') = sh_queue (se_shared s) /\ sh_blobs (se_shared s') = sh_blobs (se_shared s).
Proof. unfold audit_log. by destruct (log _ _ _ _ _) as [[r|] a]. Qed.

Lemma auth_failed_spec authcid s r s' :
  auth_failed deps authcid s = (Done r, s') ->
  r = Ok None /\ se_conn s' = se_conn s /\ se_env s' = se_env s /\
  sh_throttle (se_shared s') = throttle_after (se_tick s) authcid false (sh_throttle (se_shared s)).
Proof.
  unfold auth_failed, mbind, St_bind, st_get, set_throttle, st_mod.
  match goal with |- context [audit_log _ _ _ ?x] => pose proof (audit_log_frame (# "auth.submission_failed") authcid x) as Hf end.
  destruct (audit_log _ _ _ _) as [[x|] z]; [|done]. intros [= <- <-]. cbn in Hf. by destruct Hf as (-> & -> & _ & _ & -> & _).
Qed.

(** [check_credentials], in full. *)
Lemma check_credentials_spec authcid password s r s' :
  check_credentials deps authcid password s = (Done (Ok r), s') ->
  se_conn s' = se_conn s /\ se_env s' = se_env s /\
  (forall a, r = Some a <-> admits deps (se_tick s) (se_shared s) authcid password a) /\
  match split_once "@"%char authcid, Throttle.check (sh_throttle (se_shared s)) authcid (check_instant deps (se_tick s)) with
  | Some _, Ok _ => sh_throttle (se_shared s') = throttle_after (se_tick s) authcid (bool_decide (is_Some r)) (sh_throttle (se_shared s))
  | _, _ => se_shared s' = se_shared s
  end.
Proof.
  intros E. assert (Hin : forall a, r = Some a -> admits deps (se_tick s) (se_shared s) authcid password a).
  { intros a ->. by eapply check_credentials_admits. }
  revert E. unfold check_credentials, admits in *. destruct (split_once _ _) as [[l d]|].
  2: { intros [= <- <-]. split_and!; [done..| |done]. intros a. split; [done|]. by intros (? & ? & ? & ? & ? & _). }
  unfold mbind, St_bind, st_get. destruct (Throttle.check _ _ _) as [[]|].
  2: { intros [= <- <-]. split_and!; [done..| |done]. intros a. split; [done|]. by intros (? & ? & ? & ? & ? & ? & _). }
  destruct (find_by_address _ l d) as [[acc|]|] eqn:Ef.
  2-3: intros (E & Hc & He & Ht)%auth_failed_spec; injection E as ->; split_and!; [done..| |done];
    intros a; split; [done|]; intros (? & ? & ? & ? & [= <- <-] & _ & Hf & _); by rewrite Ef in Hf.
  unfold spawn_blocking, unlock_task in *.
  destruct (unlock_any _ _ _ _ _) as [[[[u sc]|er]|] au] eqn:Eu; [| |done].
  - unfold set_throttle, st_mod.
    match goal with |- context [audit_log _ _ _ ?x] => pose proof (audit_log_frame (# "auth.submission") authcid x) as Hf end.
    destruct (audit_log _ _ _ _) as [[x|] z]; [|done]. intros [= <- <-]. cbn in Hf.
    destruct Hf as (Hc & He & _ & _ & Ht & _). split_and!; [done|done| |done].
    intros a. split; [apply Hin|]. intros (? & ? & ? & ? & [= <- <-] & _ & Hf & _). rewrite Ef in Hf. congruence.
  - intros (E & Hc & He & Ht)%auth_failed_spec. injection E as ->. split_and!; [done..| |done].
    intros a. split; [done|]. intros (? & ? & ? & ? & [= <- <-] & _ & Hf & Hu). rewrite Ef in Hf.
    injection Hf as <-. by rewrite Eu in Hu.
Qed.

(** With credentials on offer, [handle_auth] is [check_credentials]. *)
Lemma handle_auth_offered rest authcid password s r s' :
  offered_credentials b64decode rest (cn_rd (se_conn s)) = Some (authcid, password) ->
  handle_auth b64decode deps rest s = (Done (Ok r), s') ->
  exists s1, se_shared s1 = se_shared s /\ se_env s1 = se_env s /\ se_tick s1 = se_tick s /\
    check_credentials deps authcid password s1 = (Done (Ok r), s').
Proof.
  unfold offered_credentials, handle_auth. destruct (split_command rest) as [mechanism initial] eqn:Er.
  destruct (eq_ignore_ascii_case mechanism _) eqn:Em; cbn [negb].
  2: { unfold offered_payload. rewrite Er, Em. done. }
  intros Ho. unfold mbind at 1, St_bind.
  pose proof (keeps_auth_payload (fun e h => e = se_env s) initial s eq_refl) as He.
  destruct (auth_payload initial s) as [[[payload|]|] s1] eqn:Ep; [|done..]. cbn [snd] in He.
  destruct (auth_payload_offered _ _ _ _ _ _ Er Em Ep) as (Hp & Es & Et). rewrite Hp in Ho. cbn [mbind option_bind] in Ho.
  rewrite Ho. intros E. by exists s1.
Qed.

(** Why the queue takes or refuses the session's message. *)
Definition verdict (key : Result DomainKey) (new : NewOutbound) (now : Z) (q : QueueStore) : Z :=
  match key with
  | Err _ => 451
  | Ok key =>
      if negb (valid_envelope new) || negb (is_ok (sign key now (raw_message new))) then 451
      else if is_ok (rate_limit new now q) then 250 else 450
  end.

Lemma verdict_spec key new now q :
  (verdict key new now q = 250%Z <->
   exists key', key = Ok key' /\ envelope_ok new /\ is_ok (sign key' now (raw_message new)) = true /\ within_limits new now q) /\
  (verdict key new now q = 450%Z -> ~ within_limits new now q).
Proof.
  unfold verdict. destruct key as [key|]; [|split; [split; [done|]|done]; by intros (? & ? & _)].
  setoid_rewrite <- valid_envelope_spec; setoid_rewrite <- rate_limit_spec.
  destruct (valid_envelope new), (is_ok (sign key _ _)) eqn:Es, (is_ok (rate_limit new now q)); cbn;
    (split; [split; [try done; intros _; by exists key|try done; intros (? & [= <-] & ? & ? & ?); congruence]|try done]).
Qed.

Lemma enqueue_verdict key new now q b :
  let p := enqueue key new now q b in
  match p.1 with
  | Ok _ => verdict (Ok key) new now q = 250%Z
  | Err (RateLimited _) => verdict (Ok key) new now q = 450%Z /\ p.2.1 = q
  | Err _ => verdict (Ok key) new now q = 451%Z /\ p.2.1 = q
  end.
Proof.
  unfold enqueue, verdict. destruct (negb (valid_envelope new)); [done|]. unfold sign.
  destruct (dkim_sign _ _ _ _ _ _) as [[h|]|]; [|done..]. cbn [is_ok orb negb].
  destruct (write_ok b (h ++ raw_message new)) as [b' ->]. unfold rate_limit.
  destruct (no_is_dsn new); [by destruct (insert_outbound _ _ _ _)|].
  destruct (_ <=? _)%Z; [done|]. destruct (_ <? _)%Z; [done|]. by destruct (insert_outbound _ _ _ _).
Qed.

Lemma answer_sends code text s :
  (answer code text s).1 <> Panicked /\ last_reply (answer code text s).2 code /\
  se_shared (answer code text s).2 = se_shared s.
Proof.
  unfold answer, mbind, St_bind. destruct (sub_reply_sends code text s) as [[] ->];
    (split_and!; [done| |done]); exists text; eexists; cbn; by rewrite last_snoc.
Qed.

(** The end of DATA, once the message is read. *)
Lemma submit_spec raw s r s' a :
  authenticated (se_env s) = Some a -> submit deps raw s = (r, s') ->
  let q := sh_queue (se_shared s) in
  let now := now_unix deps (se_tick s) in
  let new := new_outbound a (se_env s) raw in
  let '(key, q1) := ensure_dkim_key (generated_key deps (se_tick s)) now (domain a) q in
  r <> Panicked /\ last_reply s' (verdict key new now q1) /\
  match key with
  | Ok key => sh_queue (se_shared s') = (enqueue key new now q1 (sh_blobs (se_shared s))).2.1 /\
              sh_blobs (se_shared s') = (enqueue key new now q1 (sh_blobs (se_shared s))).2.2 /\
              (is_ok (enqueue key new now q1 (sh_blobs (se_shared s))).1 = true <-> verdict (Ok key) new now q1 = 250%Z)
  | Err _ => sh_queue (se_shared s') = q1
  end.
Proof.
  intros Ha. unfold submit, mbind, St_bind, st_get, st_exec. rewrite Ha. unfold enqueue_submission.
  cbn zeta. destruct (ensure_dkim_key _ _ _ _) as [[key|er] q1] eqn:Ek.
  - pose proof (enqueue_verdict key (new_outbound a (se_env s) raw) (now_unix deps (se_tick s)) q1 (sh_blobs (se_shared s))) as Hv.
    destruct (enqueue _ _ _ _ _) as [er [q' b']]. cbn [fst snd] in *. set (s1 := with_shared _ s).
    assert (Hend : forall code text, answer code text s1 = (r, s') ->
      r <> Panicked /\ last_reply s' code /\ se_shared s' = se_shared s1).
    { intros code text E. destruct (answer_sends code text s1) as (? & ? & ?). by rewrite E in *. }
    destruct er as [id|er]; [intros (? & ? & E)%Hend; rewrite Hv, E; by split_and!|].
    destruct er; destruct Hv as [Hv _]; intros (? & ? & E)%Hend; rewrite Hv, E; by split_and!.
  - set (s1 := with_shared _ s). destruct (answer_sends 451 (# "Local error in processing") s1) as (? & ? & Es).
    assert (Hno : forall d, er <> RateLimited d).
    { unfold ensure_dkim_key in Ek. destruct (load_dkim_key _ _); [done|].
      destruct (generated_key _ _) as [[? ?]|]; [done|]. by injection Ek as <- <-. }
    intros E. assert (E' : answer 451 (# "Local error in processing") s1 = (r, s')) by (by destruct er; [..|destruct (Hno detail)]).
    rewrite E' in *. cbn [fst snd] in *. rewrite Es. by split_and!.
Qed.

Lemma new_outbound_ok is_tls A a e raw :
  env_ok is_tls A e -> rcpt_to e <> [] ->
  (envelope_ok (new_outbound a e raw) <->
   default [] (mail_from e) = [] \/ valid_email_address (default [] (mail_from e)) = true).
Proof.
  clear b64decode deps. intros He Hr. unfold envelope_ok. cbn. pose proof (eo_count _ _ _ He). pose proof (eo_valid _ _ _ He).
  unfold MAX_RECIPIENTS in *. destruct (rcpt_to e); [done|]. cbn in *.
  split; [by intros [? _]|]. intros Hf. split_and!; [done|lia|lia|done].
Qed.

End Commands.

(** ** Termination: every iteration that continues consumes input *)
Section Termination.
Context `{Primitives} `{BlobHash} `{DkimSigner}.
Context (b64decode : str -> option str).
Context (deps : Deps).

Definition size_le (n : nat) (s : Session) : Prop := (reader_size (cn_rd (se_conn s)) <= n)%nat.

Lemma sub_size_multiline n code lines : keeps (size_le n) (multiline_reply code lines).
Proof.
  intros s Hs. unfold multiline_reply.
  assert (E : forall c, cn_rd (write_multiline_reply c code lines).2 = cn_rd c).
  { induction lines as [|t l IH]; intros c; [done|]. cbn. destruct (cn_wok c _); cbn; [by rewrite IH|done]. }
  specialize (E (se_conn s)). destruct (write_multiline_reply _ _ _) as [ok c].
  unfold size_le in *. cbn in *. by rewrite E.
Qed.

Lemma sub_size_audit_log n action detail : keeps (size_le n) (audit_log deps action detail).
Proof. intros s Hs. unfold audit_log. by destruct (log _ _ _ _ _) as [[r|] a]. Qed.

Lemma size_unlock_task n account password : keeps (size_le n) (unlock_task deps account password).
Proof. intros s Hs. unfold unlock_task. by destruct (unlock_any _ _ _ _ _). Qed.

Lemma size_enqueue n a e raw : keeps (size_le n) (enqueue_submission deps a e raw).
Proof.
  intros s Hs. unfold enqueue_submission. destruct (ensure_dkim_key _ _ _ _) as [[k|er] q]; [|done].
  by destruct (enqueue _ _ _ _ _) as [r [q' b]].
Qed.

(** Reading shrinks what is left. *)
Lemma size_auth_payload n initial : keeps (size_le n) (auth_payload initial).
Proof.
  unfold auth_payload. destruct initial; [|apply keeps_ret]. apply keeps_bind; [by intros s Hs|].
  intros ok. destruct (negb ok); [apply keeps_ret|]. apply triple_get. intros s Hs.
  pose proof (read_line_size_le MAX_COMMAND_LINE (cn_rd (se_conn s))) as Hle.
  destruct (read_line_bounded _ _) as [r rd]. cbn [snd] in Hle.
  eapply (triple_bind _ _ _ (fun _ => size_le n)); [|intros; apply keeps_ret|done].
  intros s' <-. unfold size_le in *. cbn. lia.
Qed.

Create HintDb size.
#[local] Hint Extern 1 (keeps _ (reply _ _)) => (intros ? ?; assumption) : size.
#[local] Hint Extern 1 (keeps _ (multiline_reply _ _)) => apply sub_size_multiline : size.
#[local] Hint Extern 1 (keeps _ (audit_log _ _ _)) => apply sub_size_audit_log : size.
#[local] Hint Extern 1 (keeps _ (unlock_task _ _ _)) => apply size_unlock_task : size.
#[local] Hint Extern 1 (keeps _ (enqueue_submission _ _ _ _)) => apply size_enqueue : size.
#[local] Hint Extern 1 (keeps _ (auth_payload _)) => apply size_auth_payload : size.
#[local] Hint Extern 1 (keeps _ (set_env _)) => (apply keeps_mod; intros ? ?; assumption) : size.
#[local] Hint Extern 1 (keeps _ (set_throttle _)) => (apply keeps_mod; intros ? ?; assumption) : size.
#[local] Hint Extern 1 (keeps _ (spawn_blocking _)) => apply keeps_spawn_blocking : size.
#[local] Hint Extern 1 (keeps _ (mret _)) => apply keeps_ret : size.
#[local] Hint Extern 1 (keeps _ (st_exec _)) => apply keeps_exec : size.
#[local] Hint Extern 2 (keeps _ (st_get ≫= _)) => apply keeps_get; intros ? ? : size.
#[local] Hint Extern 3 (keeps _ (_ ≫= _)) => apply keeps_bind; [|intros ?] : size.
#[local] Hint Extern 4 (keeps _ (match ?x with _ => _ end)) => destruct x : size.

Lemma size_auth n is_tls rest : keeps (size_le n) (handle_auth_command b64decode deps is_tls rest).
Proof.
  unfold handle_auth_command, reply_continue. destruct (negb is_tls); [auto with size|].
  apply keeps_get. intros s Hs. destruct (authenticated _); [auto with size|].
  apply keeps_bind; [|intros [[a|]|]; auto 10 with size].
  unfold handle_auth. destruct (split_command rest) as [m i]. destruct (negb _); [auto with size|].
  apply keeps_bind; [auto with size|]. intros [p|]; [|auto with size].
  destruct (_ ≫= _) as [[c w]|]; [|auto with size]. unfold check_credentials, auth_failed. auto 30 with size.
Qed.

Lemma size_submit n raw : keeps (size_le n) (submit deps raw).
Proof. unfold submit, answer. auto 30 with size. Qed.

Lemma sub_size_data n : keeps (size_le n) (handle_data deps).
Proof.
  unfold handle_data, reply_continue. apply keeps_get. intros s Hs.
  destruct (mail_from (se_env s)); [destruct (rcpt_to (se_env s))|]; [auto with size| |auto with size].
  apply keeps_bind; [auto with size|]. intros ok. destruct (negb ok); [apply keeps_ret|].
  apply triple_get. intros s1 Hs1.
  pose proof (read_data_size (max_message_size deps) [] (cn_rd (se_conn s1))) as Hrd.
  unfold read_data. destruct (read_data_from _ _ _) as [res rd].
  eapply (triple_bind _ _ _ (fun _ => size_le n)); [|intros []|done].
  - intros s' <-. unfold size_le in *. cbn in *. lia.
  - destruct res as [raw|[|]]; [apply size_submit|by intros s2 Hs2|by intros s2 Hs2].
Qed.

Lemma sub_size_line n is_tls line : keeps (size_le n) (handle_line b64decode deps is_tls line).
Proof.
  unfold handle_line. destruct (split_command _) as [verb rest].
  repeat match goal with |- context [if ?b then _ else _] => destruct b end;
    try apply sub_size_data; try apply size_auth;
    unfold handle_ehlo, handle_starttls, handle_mail, handle_rcpt, handle_rset, handle_quit, reply_continue;
    auto 30 with size.
Qed.

Lemma sub_loop_step_shrinks is_tls s s' :
  loop_step b64decode deps is_tls s = (Done Continue, s') ->
  (reader_size (cn_rd (se_conn s')) < reader_size (cn_rd (se_conn s)))%nat.
Proof.
  unfold loop_step, mbind, St_bind, st_get, st_put.
  destruct (read_line_bounded _ _) as [[|line|] rd] eqn:Er; [done| |done].
  apply read_line_size in Er. intros E.
  pose proof (sub_size_line (reader_size rd) is_tls line (resume deps rd s) (le_n _)) as Hk.
  rewrite E in Hk. unfold size_le in Hk. cbn in Hk. lia.
Qed.

Lemma sub_run_loop_total is_tls fuel : forall s,
  (reader_size (cn_rd (se_conn s)) < fuel)%nat ->
  (run_loop b64decode deps fuel is_tls s).1 <> Done None.
Proof.
  induction fuel as [|fuel IH]; intros s Hs; [lia|]. cbn [run_loop]. unfold mbind, St_bind.
  destruct (loop_step _ _ _ _) as [[[|o]|] s'] eqn:E; [|done|done].
  apply sub_loop_step_shrinks in E. apply IH. lia.
Qed.

(** The loop ends for every client: with its fuel it closes, upgrades or
    panics, but never runs out. *)
Lemma command_loop_ends is_tls greet s : (command_loop b64decode deps is_tls greet s).1 <> Done None.
Proof.
  unfold command_loop. unfold mbind at 1, St_bind at 1.
  destruct greet; [destruct (sub_reply_sends 220 (hostname deps ++ # " ESMTP Litterae Submission") s) as [[] ->]|];
    cbn [negb mret St_ret]; try done; apply sub_run_loop_total; cbn; lia.
Qed.

End Termination.

(** ** Properties *)
Section Properties.
Context `{Primitives} `{BlobHash} `{DkimSigner}.
Context (b64decode : str -> option str).
Context (deps : Deps).

#[local] Abbreviation step := (loop_step b64decode deps).
#[local] Abbreviation connection := (handle_starttls_connection b64decode deps).

(** C4.  Nobody sends in another's name: in every state a submission session
    can reach, whatever other tasks do to the shared stores meanwhile, the next
    command either leaves the queue's messages as it found them or adds exactly
    one, and then the session is under TLS, an earlier command of this same
    session sent credentials that the throttle, the directory and the key
    derivation all admitted at that moment, the message is charged to that
    account, and its envelope sender is the account's address up to ASCII
    case. *)
Theorem only_account_holders_send (is_tls : bool) (s0 s : Session) (h : list Session) :
  se_env s0 = env_default -> reach b64decode deps is_tls s0 h s ->
  let q := sh_queue (others deps (se_tick s) (se_shared s)) in
  let q' := sh_queue (se_shared (step is_tls s).2) in
  outbound q' = outbound q \/
  is_tls = true /\ exists o a, outbound q' = outbound q ++ [o] /\
    logged_in b64decode deps h a /\ o_account_id o = acc_id a /\ is_dsn o = false /\
    eq_ignore_ascii_case (envelope_from o) (address a) = true.
Proof.
  intros Hd Hr q q'. pose proof (env_ok_tls _ _ _ (reach_env_ok b64decode deps _ _ _ _ Hd Hr)) as He.
  destruct (loop_step_outcome b64decode deps is_tls _ s He) as [_ [Hs|(o & a & Hs & [Ha Ht] & Hi & Hf & Hn)]].
  - by left.
  - right. split; [done|]. by exists o, a.
Qed.

(** C32.  Before TLS there is nothing to attack: on a plaintext connection,
    in every reachable state, a command never panics and leaves the account
    store, the throttle, the queue, the blobs and the audit log exactly as the
    other tasks left them; and when STARTTLS ends the plaintext phase, bytes
    already buffered close the connection, while otherwise the encrypted phase
    starts with an empty buffer, only the decrypted stream to read and no
    trace of the plaintext envelope. *)
Theorem plaintext_phase_is_inert (s0 s : Session) (h : list Session) :
  se_env s0 = env_default -> reach b64decode deps false s0 h s ->
  ((step false s).1 <> Panicked /\
   se_shared (step false s).2 = others deps (se_tick s) (se_shared s)) /\
  forall s1, command_loop b64decode deps false true s0 = (Done (Some StartTls), s1) ->
    (rd_buf (cn_rd (se_conn s1)) <> [] -> connection s0 = (Done tt, s1)) /\
    (forall chunks err, rd_buf (cn_rd (se_conn s1)) = [] -> tls_acceptor deps = Some (chunks, err) ->
       (connection s0).2 = (command_loop b64decode deps true false
                              (with_env env_default (with_reader (mkReader [] chunks err) s1))).2).
Proof.
  intros Hd Hr. split.
  - pose proof (reach_env_ok b64decode deps _ _ _ _ Hd Hr) as He.
    unfold loop_step, mbind, St_bind, st_get, st_put. destruct (read_line_bounded _ _) as [[|line|] rd]; [done| |done].
    exact (plain_line b64decode deps _ line (resume deps rd s) He).
  - intros s1 E. unfold handle_starttls_connection, mbind, St_bind, set_env, st_mod, st_get.
    assert (Hs : with_env env_default s0 = s0) by (destruct s0; cbn in *; by rewrite Hd).
    rewrite Hs, E. split; [by destruct (rd_buf _)|]. intros chunks err Hb Ht. rewrite Hb, Ht.
    unfold enter_tls, st_mod. cbn [fst snd]. set (p := command_loop b64decode deps true false _). by destruct p as [[o|] s2].
Qed.

(** C17.  AUTH decides exactly: under TLS, given decodable credentials, the
    session is authenticated as [a] if and only if the throttle lets the name
    through, the directory has it and the password or an application password
    unlocks [a], and the answer is 235 then and 535 otherwise.  A locked name is
    turned away before any key derivation, with no store changed; otherwise
    success clears the name's failures, failure locks it for at least the base
    delay, and no other name's lock moves. *)
Theorem auth_decides (rest authcid password : str) (s s' : Session) :
  authenticated (se_env s) = None ->
  offered_credentials b64decode rest (cn_rd (se_conn s)) = Some (authcid, password) ->
  handle_auth_command b64decode deps true rest s = (Done Continue, s') ->
  let k := se_tick s in
  let t := sh_throttle (se_shared s) in
  let t' := sh_throttle (se_shared s') in
  (forall a, authenticated (se_env s') = Some a <-> admits deps k (se_shared s) authcid password a) /\
  last_reply s' (if bool_decide (is_Some (authenticated (se_env s'))) then 235 else 535) /\
  match split_once "@"%char authcid, Throttle.check t authcid (check_instant deps k) with
  | Some _, Ok _ =>
      (forall now, authenticated (se_env s') <> None -> Throttle.check t' authcid now = Ok tt) /\
      (forall now, authenticated (se_env s') = None ->
         (0 <= Throttle.base_delay t <= Throttle.DURATION_MAX)%Z ->
         (now < failure_instant deps k + Z.min (Throttle.base_delay t) (Throttle.max_delay t))%Z ->
         is_ok (Throttle.check t' authcid now) = false) /\
      (forall key now, key <> authcid -> Throttle.check t' key now = Throttle.check t key now)
  | _, _ => se_shared s' = se_shared s
  end.
Proof.
  intros Ha Ho. rewrite handle_auth_command_eq, Ha.
  destruct (handle_auth _ _ _ _) as [[[r|]|] s1] eqn:Eh; [|done..].
  destruct (handle_auth_offered b64decode deps _ _ _ _ _ _ Ho Eh) as (s2 & Es & Ee & Et & Ec).
  apply check_credentials_spec in Ec as (Hc & He & Hadm & Hrest). rewrite Es, Et in *. rewrite Ee in He.
  intros E. cbn zeta.
  assert (Hs' : se_shared s' = se_shared s1 /\ authenticated (se_env s') = r /\
    last_reply s' (if bool_decide (is_Some r) then 235 else 535)).
  { destruct r as [account|]; injection E as <-.
    - split_and!; [done..|apply (reply_continue_sends 235 _ (set_authenticated account s1))].
    - split_and!; [done|by rewrite <- Ha, <- He|apply (reply_continue_sends 535 _ s1)]. }
  destruct Hs' as (Hs & -> & Hl). rewrite Hs. split_and!; [exact Hadm|exact Hl|].
  destruct (split_once _ _); [|exact Hrest]. destruct (Throttle.check _ _ _); [|exact Hrest].
  rewrite Hrest. clear. destruct r as [account|]; cbn [throttle_after]; split_and!; try done.
  - intros now _. apply Throttle.check_after_success.
  - intros key now Hk. by apply Throttle.check_other_success.
  - intros now _. apply Throttle.check_after_failure.
  - intros key now Hk. by apply Throttle.check_other_failure.
Qed.

(** DATA's answer is the queue's verdict: with recipients in the
    envelope of a reachable session, DATA never panics (its [expect] cannot
    fail); either the connection closes with no store changed, or the message
    was read and the answer is 250 exactly when the domain's key is available,
    the sender is a valid address, the key signs and the account is within its
    hourly limits; then the queue holds one new message with one ready row per
    recipient, and the blob it names reads back as the signed message.  450 is
    only sent over the limit, and on any answer but 250 no message or recipient
    row is added. *)
Theorem submission_answer_honest (is_tls : bool) (A : Account -> Prop) (s s' : Session) (r : exec Flow) :
  env_ok is_tls A (se_env s) -> queue_inv (sh_queue (se_shared s)) -> intact (sh_blobs (se_shared s)) ->
  rcpt_to (se_env s) <> [] -> handle_data deps s = (r, s') ->
  r <> Panicked /\
  ((r = Done (Leave Closed) /\ se_shared s' = se_shared s) \/
   exists raw rd a code, read_data (max_message_size deps) (cn_rd (se_conn s)) = (Ok raw, rd) /\
     authenticated (se_env s) = Some a /\ last_reply s' code /\
     let q := sh_queue (se_shared s) in
     let q' := sh_queue (se_shared s') in
     let now := now_unix deps (se_tick s) in
     let new := new_outbound a (se_env s) raw in
     let '(key, q1) := ensure_dkim_key (generated_key deps (se_tick s)) now (domain a) q in
     (code = 250%Z <-> exists k, key = Ok k /\
        (default [] (mail_from (se_env s)) = [] \/ valid_email_address (default [] (mail_from (se_env s))) = true) /\
        is_ok (sign k now raw) = true /\ within_limits new now q1) /\
     (code = 450%Z -> ~ within_limits new now q1) /\
     (code <> 250%Z -> outbound q' = outbound q /\ outbound_rcpt q' = outbound_rcpt q) /\
     (code = 250%Z -> exists k h ids, key = Ok k /\ sign k now raw = Ok h /\
        fresh_ids q1 ids (length (rcpt_to (se_env s))) /\
        q' = enqueued new now (hash_hex (h ++ raw)) ids q1 /\
        ((forall c, read (sh_blobs (se_shared s)) (hash_hex (h ++ raw)) = Ok c -> c = h ++ raw) ->
         read (sh_blobs (se_shared s')) (hash_hex (h ++ raw)) = Ok (h ++ raw)))).
Proof.
  intros He Hq Hb Hr. destruct (eo_rcpts _ _ _ He Hr) as [f Ef].
  destruct (eo_mail _ _ _ He f Ef) as (a & Ea & _).
  unfold handle_data. unfold mbind at 1, St_bind at 1, st_get at 1. rewrite Ef.
  destruct (rcpt_to (se_env s)) as [|r0 rcpts] eqn:Er; [done|].
  unfold mbind at 1, St_bind at 1.
  destruct (sub_reply_sends 354 (# "Start mail input; end with <CRLF>.<CRLF>") s) as [ok ->].
  destruct ok; cbn [negb]; [|intros [= <- <-]; split; [done|by left]].
  unfold mbind, St_bind, st_get, st_mod. cbn [se_conn with_conn cn_rd].
  destruct (read_data _ _) as [[raw|[|]] rd] eqn:Ed; [|intros [= <- <-]; split; [done|by left]..].
  set (s0 := with_reader rd _). intros E. pose proof (submit_spec deps raw s0 r s' a Ea E) as Hs. cbn zeta in Hs.
  change (se_env s0) with (se_env s) in Hs. change (se_tick s0) with (se_tick s) in Hs.
  change (se_shared s0) with (se_shared s) in Hs.
  pose proof (new_outbound_ok is_tls A a (se_env s) raw He ltac:(by rewrite Er)) as Henv. rewrite Ef in *. cbn [default] in *.
  pose proof (ensure_dkim_key_frame (generated_key deps (se_tick s)) (now_unix deps (se_tick s)) (domain a)
    (sh_queue (se_shared s))) as Hf.
  destruct (ensure_dkim_key _ _ _ _) as [key q1] eqn:Ek. cbn [snd] in Hf. destruct Hf as (Hf1 & Hf2 & Hf3).
  destruct Hs as (Hp & Hl & Hs). split; [exact Hp|right].
  exists raw, rd, a. eexists. split_and!; [done|done|exact Hl|]. cbn zeta. rewrite Ek.
  destruct (verdict_spec key (new_outbound a (se_env s) raw) (now_unix deps (se_tick s)) q1) as [H250 H450].
  split_and!.
  - rewrite H250. by setoid_rewrite Henv.
  - exact H450.
  - intros Hn. destruct key as [k|]; [|by rewrite Hs].
    destruct Hs as (Hs & _ & Hv).
    pose proof (enqueue_verdict k (new_outbound a (se_env s) raw) (now_unix deps (se_tick s)) q1 (sh_blobs (se_shared s))) as He'.
    rewrite Hs. destruct (enqueue _ _ _ _ _) as [[id|[]] [q2 b2]]; cbn [fst snd] in *; [by destruct Hn|by destruct He' as [_ ->]..].
  - intros Hv. destruct key as [k|]; [|done]. destruct Hs as (Hs & Hbl & Hiff).
    pose proof (enqueue_cases k (new_outbound a (se_env s) raw) (now_unix deps (se_tick s)) q1 (sh_blobs (se_shared s)) (Hf3 Hq)) as [_ Hc].
    destruct (enqueue _ _ _ _ _) as [[id|er] p]; cbn [fst snd is_ok] in *; [|by apply Hiff in Hv].
    destruct Hc as (h & ids & Hh & _ & Hids & ->). cbn [fst snd] in *. exists k, h, ids. rewrite Hs, Hbl.
    cbn [raw_message new_outbound recipients] in *. rewrite Er in Hids. split_and!; try done. by apply write_read.
Qed.

(** A flaw the model exposes: the throttle is keyed by the login name as
    sent, but the directory ignores the ASCII case of the domain.  Two
    spellings of one mailbox that differ only in the domain's case find the same
    account, and no number of failures, at any times, under one spelling
    affects whether the other is let through: each of the [2^n] spellings of a
    domain with [n] letters has its own allowance of guesses. *)
Theorem case_variants_evade_throttle (auth : AuthStore) (t : Throttle.LoginThrottle) (local dom dom' : str)
    (failures : list Z) (now : Z) :
  to_ascii_lowercase dom = to_ascii_lowercase dom' -> dom <> dom' ->
  find_by_address auth local dom = find_by_address auth local dom' /\
  Throttle.check (foldl (fun t n => Throttle.record_failure t (local ++ # "@" ++ dom) n) t failures)
    (local ++ # "@" ++ dom') now
  = Throttle.check t (local ++ # "@" ++ dom') now.
Proof.
  intros El Hd. split; [unfold find_by_address; by rewrite El|].
  revert t. induction failures as [|n l IH]; intros t; [done|]. cbn [foldl]. rewrite IH.
  apply Throttle.check_other_failure. intros E. by apply app_inv_head, app_inv_head in E.
Qed.

(** An AUTH with a mechanism other than PLAIN is answered twice, 504 and then
    535, so the client's next reply belongs to this command. *)
Lemma unsupported_mechanism_answered_twice (rest : str) (s s' : Session) (flow : Flow) :
  authenticated (se_env s) = None -> eq_ignore_ascii_case (split_command rest).1 (# "PLAIN") = false ->
  handle_auth_command b64decode deps true rest s = (Done flow, s') ->
  exists ok1 ok2, cn_out (se_conn s') = cn_out (se_conn s) ++
    [(reply_line 504 (# "Unsupported authentication mechanism"), ok1); (reply_line 535 (# "Authentication failed"), ok2)].
Proof.
  intros Ha Em. rewrite handle_auth_command_eq, Ha. unfold handle_auth.
  destruct (split_command rest) as [m i]. cbn [fst] in Em. rewrite Em. cbn [negb]. unfold mbind, St_bind.
  destruct (sub_reply_sends 504 (# "Unsupported authentication mechanism") s) as [ok1 ->]. cbn [mret St_ret].
  unfold reply_continue, mbind, St_bind.
  match goal with |- context [reply 535 _ ?x] => destruct (sub_reply_sends 535 (# "Authentication failed") x) as [ok2 ->] end.
  intros [= <- <-]. exists ok1, ok2. cbn. by rewrite <- app_assoc.
Qed.

End Properties.

(** ** Witnesses *)
#[local] Existing Instance toy_primitives.
#[local] Existing Instance toy_BlobHash.
#[local] Existing Instance toy_signer.

Definition wit_b64 (_ : str) : option str := Some (NUL :: # "alice@example.com" ++ (NUL :: # "pw")).

Definition wit_deps : Deps :=
  mkDeps (# "mx.example.com") 100 wit_cfg (Some ([], false)) (fun _ h => h) Z.of_nat Z.of_nat Z.of_nat
    (fun _ => []) (fun _ => Ok (# "private", # "public")).

Definition wit_shared : Shared :=
  mkShared wit_provisioned.2 login_throttle empty_queue ∅ empty_audit.

Definition wit_start (input : str) : Session :=
  mkSession (mkConn (mkReader input [] false) (fun _ => true) []) env_default wit_shared 0.

Definition wit_input : str :=
  # "AUTH PLAIN abc" ++ crlf ++ # "MAIL FROM:<Alice@example.com>" ++ crlf ++ # "RCPT TO:<bob@example.net>" ++ crlf
    ++ # "DATA" ++ crlf ++ # "Hi" ++ crlf ++ # "." ++ crlf.

Fixpoint wit_after (n : nat) : Session :=
  match n with O => wit_start wit_input | S n => (loop_step wit_b64 wit_deps true (wit_after n)).2 end.

Lemma wit_step n : (loop_step wit_b64 wit_deps true (wit_after n)).1 = Done Continue ->
  loop_step wit_b64 wit_deps true (wit_after n) = (Done Continue, wit_after (S n)).
Proof. apply pair_with_fst. Qed.

(** A login, a sender, a recipient and a message: it is Alice's. *)
Lemma only_account_holders_send_witness :
  exists o a, outbound (sh_queue (se_shared (wit_after 4))) = [o] /\ o_account_id o = acc_id a /\
    eq_ignore_ascii_case (envelope_from o) (address a) = true.
Proof.
  assert (Hr : reach wit_b64 wit_deps true (wit_after 0) [wit_after 0; wit_after 1; wit_after 2] (wit_after 3)).
  { apply (reach_step _ _ _ _ [wit_after 0; wit_after 1] (wit_after 2)); [|apply wit_step; vm_compute; reflexivity].
    apply (reach_step _ _ _ _ [wit_after 0] (wit_after 1)); [|apply wit_step; vm_compute; reflexivity].
    apply (reach_step _ _ _ _ [] (wit_after 0)); [apply reach_start|apply wit_step; vm_compute; reflexivity]. }
  destruct (only_account_holders_send wit_b64 wit_deps true (wit_after 0) (wit_after 3) _ eq_refl Hr)
    as [E|(_ & o & a & E & _ & Hi & _ & Hf)].
  - exfalso. vm_compute in E. discriminate E.
  - exists o, a. split; [|split; [exact Hi|exact Hf]].
    change (wit_after 4) with (loop_step wit_b64 wit_deps true (wit_after 3)).2. rewrite E.
    replace (outbound _) with (@nil OutboundMessage) by (vm_compute; reflexivity). reflexivity.
Defined.

Lemma plaintext_phase_is_inert_witness :
  se_shared (loop_step wit_b64 wit_deps false (wit_start (# "AUTH PLAIN abc" ++ crlf))).2 = wit_shared.
Proof.
  exact (proj2 (proj1 (plaintext_phase_is_inert wit_b64 wit_deps (wit_start (# "AUTH PLAIN abc" ++ crlf))
    (wit_start (# "AUTH PLAIN abc" ++ crlf)) [] eq_refl (reach_start _ _ _ _)))).
Defined.

Lemma auth_decides_witness :
  authenticated (se_env (handle_auth_command wit_b64 wit_deps true (# "PLAIN abc") (wit_start [])).2) = Some wit_account
    <-> admits wit_deps 0 wit_shared (# "alice@example.com") (# "pw") wit_account.
Proof.
  refine (proj1 (auth_decides wit_b64 wit_deps (# "PLAIN abc") (# "alice@example.com") (# "pw") (wit_start [])
    (handle_auth_command wit_b64 wit_deps true (# "PLAIN abc") (wit_start [])).2 eq_refl _ _) wit_account).
  - vm_compute. reflexivity.
  - apply pair_with_fst. vm_compute. reflexivity.
Defined.

Lemma submission_answer_honest_witness :
  (handle_data wit_deps (wit_after 3)).1 <> Panicked.
Proof.
  refine (proj1 (submission_answer_honest wit_deps true (fun _ => True) (wit_after 3) _ _ _ _ _ _ (surjective_pairing _))).
  - replace (se_env (wit_after 3)) with (mkEnvelope None (Some wit_account) (Some (# "Alice@example.com"))
      [ # "bob@example.net"]) by (vm_compute; reflexivity).
    apply Build_env_ok; cbn [authenticated mail_from rcpt_to].
    + reflexivity.
    + intros; exact I.
    + intros f [= <-]. exists wit_account. split; vm_compute; reflexivity.
    + intros _. by eexists.
    + unfold MAX_RECIPIENTS. cbn. lia.
    + constructor; [vm_compute; reflexivity|constructor].
  - replace (sh_queue (se_shared (wit_after 3))) with empty_queue by (vm_compute; reflexivity). apply empty_queue_inv.
  - replace (sh_blobs (se_shared (wit_after 3))) with (∅ : BlobStore) by (vm_compute; reflexivity).
    intros ? ? ? _. rewrite lookup_empty. discriminate.
  - vm_compute. discriminate.
Defined.

Lemma case_variants_evade_throttle_witness :
  find_by_address wit_provisioned.2 (# "alice") (# "example.com") = find_by_address wit_provisioned.2 (# "alice") (# "Example.com") /\
  Throttle.check (foldl (fun t n => Throttle.record_failure t (# "alice" ++ # "@" ++ # "example.com") n) login_throttle [1; 2; 3]%Z)
    (# "alice" ++ # "@" ++ # "Example.com") 4 = Throttle.check login_throttle (# "alice" ++ # "@" ++ # "Example.com") 4.
Proof.
  apply (case_variants_evade_throttle wit_provisioned.2 login_throttle (# "alice") (# "example.com") (# "Example.com") [1; 2; 3]%Z 4);
    [reflexivity|discriminate].
Defined.
