(* ===== verification/Dane.v ===== *)
(** * Dane: DNS lookups and certificate pinning

    src/crates/dns/src/lib.rs: MX, TLSA and TXT resolution over the answers of
    the resolver library; src/crates/queue/src/dane.rs: the TLSA verifier of
    an outbound TLS handshake.  The DNS library, X.509 parsing and SHA-256 are
    parameters. *)

From stdpp Require Import base list strings gmap sorting.
From Stdlib Require Import Ascii ZArith Lia.
From S2P Require Import Prelude RustStr.

(** ** The resolver library's answers *)
Inductive DnssecProof : Type := Secure | Insecure | Bogus | Indeterminate.

#[global] Instance DnssecProof_eq_dec : EqDecision DnssecProof.
Proof. solve_decision. Defined.

Record MxRecord : Type := mkMx { preference : Z; exchange : str }.

Record TlsaRecord : Type := mkTlsa { cert_usage : N; tlsa_selector : N; matching : N; cert_data : str }.

Inductive RData : Type :=
| RMx (r : MxRecord)
| RTlsa (r : TlsaRecord)
| RTxt (chunks : list str)
| ROther.

Record DnsAnswer : Type := mkAnswer { an_data : RData; an_proof : DnssecProof }.

Inductive NetError : Type :=
| NoRecordsFound
| Nsec (proof : DnssecProof)
| OtherNetError (detail : str).

Inductive RecordType : Type := MX | TLSA | TXT.

Class DnsLibrary : Type := {
  lookup_dns : str -> RecordType -> result NetError (list DnsAnswer);
  net_error_display : NetError -> str
}.

Section Resolver.
Context `{DnsLibrary}.

Definition resolve_err (shown : str) : Error := Config (# "DNS resolution failed: " ++ shown).

Definition as_mx (a : DnsAnswer) : option MxRecord := match an_data a with RMx r => Some r | _ => None end.
Definition as_tlsa (a : DnsAnswer) : option TlsaRecord := match an_data a with RTlsa r => Some r | _ => None end.
Definition as_txt (a : DnsAnswer) : option str :=
  match an_data a with RTxt chunks => Some (mjoin (from_utf8_lossy <$> chunks)) | _ => None end.

Definition resolve_mx (d : str) : Result (list MxRecord) :=
  let fqdn := trim_end_byte "."%char d ++ # "." in
  match lookup_dns fqdn MX with
  | Err e => Err (resolve_err (net_error_display e))
  | Ok answers =>
      let records := omap as_mx answers in
      let records := match records with [] => [mkMx 0 fqdn] | _ => records end in
      Ok (merge_sort (key_le preference) records)
  end.

Definition is_bogus (a : DnsAnswer) : bool := bool_decide (an_proof a = Bogus).
Definition is_secure (a : DnsAnswer) : bool := bool_decide (an_proof a = Secure).

Definition resolve_tlsa (port : Z) (hostname : str) : Result (list TlsaRecord) :=
  let name := # "_" ++ dec port ++ # "._tcp." ++ trim_end_byte "."%char hostname ++ # "." in
  match lookup_dns name TLSA with
  | Err NoRecordsFound => Ok []
  | Err (Nsec proof) =>
      if bool_decide (proof = Bogus) then Err (resolve_err (net_error_display (Nsec proof))) else Ok []
  | Err e => Err (resolve_err (net_error_display e))
  | Ok answers =>
      if existsb is_bogus answers
      then Err (Config (# "DNSSEC validation failed for TLSA records on " ++ hostname))
      else Ok (omap as_tlsa (List.filter is_secure answers))
  end.

Definition resolve_txt (hostname : str) : Result (list str) :=
  let fqdn := trim_end_byte "."%char hostname ++ # "." in
  match lookup_dns fqdn TXT with
  | Err _ => Ok []
  | Ok answers => Ok (omap as_txt answers)
  end.

End Resolver.

(** ** The verifier, dane.rs *)
Definition USAGE_DANE_EE : N := 3.
Definition SELECTOR_SPKI : N := 1.
Definition MATCHING_SHA256 : N := 1.

Inductive TlsError : Type := BadEncoding | ApplicationVerificationFailure.

(** [x509_parser]: the SubjectPublicKeyInfo bytes of a certificate; and
    [sha2]. *)
Class CertLibrary : Type := {
  x509_spki : str -> option str;
  sha256 : str -> str
}.

(** The list of expected hashes. *)
Record DaneVerifier : Type := mkVerifier { expected_spki_sha256 : list str }.

Definition usable (r : TlsaRecord) : bool :=
  (cert_usage r =? USAGE_DANE_EE)%N && (tlsa_selector r =? SELECTOR_SPKI)%N
  && (matching r =? MATCHING_SHA256)%N && (length (cert_data r) =? 32)%nat.

Definition verifier_new (records : list TlsaRecord) : option DaneVerifier :=
  match records with
  | [] => None
  | _ => Some (mkVerifier (cert_data <$> List.filter usable records))
  end.

Definition verify_server_cert `{CertLibrary} (v : DaneVerifier) (end_entity : str) : result TlsError unit :=
  match x509_spki end_entity with
  | None => Err BadEncoding
  | Some spki =>
      if existsb (fun expected => str_eqb expected (sha256 spki)) (expected_spki_sha256 v)
      then Ok tt else Err ApplicationVerificationFailure
  end.

(** ** Lemmas *)
Section Facts.
Context `{DnsLibrary} `{CertLibrary}.

Lemma verify_exact v cert :
  verify_server_cert v cert = Ok tt <->
  exists spki, x509_spki cert = Some spki /\ sha256 spki ∈ expected_spki_sha256 v.
Proof.
  unfold verify_server_cert. destruct (x509_spki cert) as [spki|]; [|split; [done|intros (? & ? & _); done]].
  destruct (existsb _ _) eqn:E.
  - split; [intros _|done]. exists spki. split; [done|].
    apply existsb_exists in E as (x & Hx & Ex). bool_facts. subst x. by apply list_elem_of_In.
  - split; [done|]. intros (s & [= <-] & Hs). pose proof (existsb_false _ _ _ E Hs) as Hf. cbn beta in Hf. bool_facts. done.
Qed.

(** An answer that says nothing reliable: a bogus proof or record, or a
    lookup that failed for any reason other than the records' absence. *)
Definition unreliable (answer : result NetError (list DnsAnswer)) : Prop :=
  match answer with
  | Err NoRecordsFound => False
  | Err (Nsec proof) => proof = Bogus
  | Err (OtherNetError _) => True
  | Ok answers => exists a, a ∈ answers /\ an_proof a = Bogus
  end.

(** A secure TLSA record among the answers. *)
Definition published (answer : result NetError (list DnsAnswer)) (r : TlsaRecord) : Prop :=
  exists answers, answer = Ok answers /\ mkAnswer (RTlsa r) Secure ∈ answers.

Lemma resolve_tlsa_exact port hostname :
  let answer := lookup_dns (# "_" ++ dec port ++ # "._tcp." ++ trim_end_byte "."%char hostname ++ # ".") TLSA in
  match resolve_tlsa port hostname with
  | Err _ => unreliable answer
  | Ok records => ~ unreliable answer /\ forall r, r ∈ records <-> published answer r
  end.
Proof.
  intros answer. assert (Hnone : forall e, answer = Err e -> forall r, r ∈ @nil TlsaRecord <-> published answer r).
  { intros e E r. rewrite E. split; [by intros ?%elem_of_nil|by intros (? & ? & _)]. }
  unfold resolve_tlsa. fold answer. destruct answer as [answers|[|proof|detail]] eqn:El; cbn [unreliable].
  - destruct (existsb is_bogus answers) eqn:Eb.
    + apply existsb_exists in Eb as (a & Ha & Hb). unfold is_bogus in Hb. bool_facts. exists a.
      split; [by apply list_elem_of_In|done].
    + split.
      { intros (a & Ha & Hp). pose proof (existsb_false _ _ a Eb Ha) as Hf. unfold is_bogus in Hf. by bool_facts. }
      intros r. unfold published, is_secure. rewrite list_elem_of_omap. split.
      * intros ([d p] & [Ha Hs]%elem_of_filter_list & Ea). bool_facts. cbn in *. subst p. exists answers. split; [done|].
        unfold as_tlsa in Ea. cbn in Ea. destruct d; try done. by injection Ea as ->.
      * intros (? & [= <-] & Ha). exists (mkAnswer (RTlsa r) Secure). split; [|done].
        apply elem_of_filter_list. split; [done|]. by apply bool_decide_eq_true.
  - split; [tauto|by eapply Hnone].
  - case_bool_decide; [done|]. split; [done|by eapply Hnone].
  - done.
Qed.

(** C37.  DANE pins exactly the published key and never degrades silently.
    [resolve_tlsa] fails on every unreliable answer (a bogus record or denial,
    a lookup that timed out or was refused) and on no other; when it succeeds,
    the host is treated as unprotected exactly when the answer holds no secure
    TLSA record; otherwise the verifier built from the records accepts a
    certificate if and only if the SHA-256 of its public key is the 32-byte
    payload of a secure 3 1 1 record among the answers, so that records of
    other profiles make every certificate fail. *)
Theorem dane_pins_certificate (port : Z) (hostname cert : str) :
  let answer := lookup_dns (# "_" ++ dec port ++ # "._tcp." ++ trim_end_byte "."%char hostname ++ # ".") TLSA in
  match resolve_tlsa port hostname with
  | Err _ => unreliable answer
  | Ok records => ~ unreliable answer /\
      match verifier_new records with
      | None => forall r, ~ published answer r
      | Some v => (exists r, published answer r) /\
          (verify_server_cert v cert = Ok tt <->
           exists r spki, published answer r /\
             cert_usage r = 3%N /\ tlsa_selector r = 1%N /\ matching r = 1%N /\
             length (cert_data r) = 32%nat /\ x509_spki cert = Some spki /\ sha256 spki = cert_data r)
      end
  end.
Proof.
  intros answer. pose proof (resolve_tlsa_exact port hostname) as Hx. cbv zeta in Hx. fold answer in Hx.
  destruct (resolve_tlsa port hostname) as [records|]; [|done]. destruct Hx as [Hr Hp]. split; [done|].
  destruct (verifier_new records) as [v|] eqn:Ev.
  2: { assert (records = []) as -> by by destruct records. intros r Hin. by apply Hp, elem_of_nil in Hin. }
  assert (Es : expected_spki_sha256 v = cert_data <$> List.filter usable records)
    by (destruct records; [done|]; by injection Ev as <-).
  split.
  { destruct records as [|r records]; [done|]. exists r. apply Hp. by left. }
  rewrite verify_exact, Es. split.
  - intros (spki & Ep & (r & Eh & [Hin Hu]%elem_of_filter_list)%list_elem_of_fmap).
    unfold usable, USAGE_DANE_EE, SELECTOR_SPKI, MATCHING_SHA256 in Hu. bool_facts.
    exists r, spki. split_and!; try done. by apply Hp.
  - intros (r & spki & Hin & E1 & E2 & E3 & E4 & Ep & Eh).
    exists spki. split; [done|]. apply list_elem_of_fmap. exists r. split; [done|].
    apply elem_of_filter_list. split; [by apply Hp|]. unfold usable. by rewrite E1, E2, E3, E4.
Qed.

(** The MX list starts with the most preferred host and is never empty. *)
Lemma resolve_mx_sorted d records :
  resolve_mx d = Ok records -> records <> [] /\ StronglySorted (key_le preference) records.
Proof.
  unfold resolve_mx. destruct (lookup_dns _ MX) as [answers|]; [|done]. intros [= <-]. split.
  - intros E. set (l := match omap as_mx answers with [] => _ | _ => _ end) in E.
    assert (Hp : merge_sort (key_le preference) l ≡ₚ l) by apply merge_sort_Permutation.
    rewrite E in Hp. apply Permutation_nil_l in Hp. subst l. by destruct (omap as_mx answers).
  - apply Sorted_StronglySorted; [apply _|]. apply Sorted_merge_sort; apply _.
Qed.

End Facts.
