(* ===== verification/Admin.v ===== *)
(** * Admin: the administration API, [admin]

    src/crates/admin/src: the session registry (session.rs), TOTP and recovery
    codes (mfa.rs), every HTTP handler (handlers.rs) and the routes
    (router.rs).  A handler is one step on the stores it uses; what HTTP, JSON
    decoding of requests and serialisation of responses do is library code.
    Clocks and random draws come with the request. *)

From stdpp Require Import base list strings gmap sorting.
From Stdlib Require Import Ascii ZArith Lia.
From S2P Require Import Prelude RustStr Input Header Limits Store Sealing Auth AdminStore AuditLog Backoff Queue Dane.
Import Blob.

(** ** Session tokens, session.rs *)
Module Sessions.

Record Session : Type := mkSession {
  s_admin_id : Z;
  s_wrap_key : str;
  s_must_change : bool;
  s_mfa_pending : bool;
  last_seen : Z
}.

Record Registry : Type := mkRegistry { sessions : gmap str Session; idle_timeout : Z }.

Definition new (idle_timeout : Z) : Registry := mkRegistry ∅ idle_timeout.

(** [bytes] is the random token, [now] the [Instant::now()] of the call. *)
Definition create (bytes : str) (now : Z) (g : Registry) (admin_id : Z) (wrap_key : str)
    (must_change_password mfa_pending : bool) : str * Registry :=
  let token := hex_encode bytes in
  (token, mkRegistry (<[token := mkSession admin_id wrap_key must_change_password mfa_pending now]> (sessions g))
            (idle_timeout g)).

(** [elapsed] is zero when the clock went back. *)
Definition touch (now : Z) (g : Registry) (token : str) : option Session * Registry :=
  match sessions g !! token with
  | None => (None, g)
  | Some s =>
      if (idle_timeout g <? Z.max 0 (now - last_seen s))%Z
      then (None, mkRegistry (delete token (sessions g)) (idle_timeout g))
      else
        let s' := mkSession (s_admin_id s) (s_wrap_key s) (s_must_change s) (s_mfa_pending s) now in
        (Some s', mkRegistry (<[token := s']> (sessions g)) (idle_timeout g))
  end.

Definition complete_password_change (now : Z) (g : Registry) (token : str) (admin_id : Z) (new_wrap_key : str)
    : bool * Registry :=
  match sessions g !! token with
  | None => (false, g)
  | Some s =>
      if negb (s_admin_id s =? admin_id)%Z then (false, g)
      else
        (true, mkRegistry {[token := mkSession (s_admin_id s) new_wrap_key false (s_mfa_pending s) now]}
                 (idle_timeout g))
  end.

Definition complete_mfa (now : Z) (g : Registry) (token : str) (admin_id : Z) : bool * Registry :=
  match sessions g !! token with
  | None => (false, g)
  | Some s =>
      if negb (s_admin_id s =? admin_id)%Z then (false, g)
      else
        (true, mkRegistry (<[token := mkSession (s_admin_id s) (s_wrap_key s) (s_must_change s) false now]> (sessions g))
                 (idle_timeout g))
  end.

Definition remove (g : Registry) (token : str) : Registry :=
  mkRegistry (delete token (sessions g)) (idle_timeout g).

End Sessions.
Import Sessions.

(** ** TOTP and recovery codes, mfa.rs *)
Definition SECRET_LEN : nat := 20.
Definition RECOVERY_CODE_COUNT : nat := 8.
Definition RECOVERY_CODE_BYTES : nat := 10.

(** The totp_rs crate, at the parameters [totp_for] fixes. *)
Class TotpLibrary : Type := {
  totp_accepts : str -> str -> str -> bool;      (* TOTP::new(secret, issuer, account) is Ok *)
  totp_url : str -> str -> str -> str;
  totp_base32 : str -> str;
  totp_check : str -> str -> Z -> bool           (* secret, code, unix time *)
}.

Section Mfa.
Context `{TotpLibrary} `{BlobHash}.

(** [TOTP::new(..).expect(..)]. *)
Definition totp_for (secret issuer username : str) : exec unit :=
  if totp_accepts secret issuer username then Done tt else Panicked.

Definition provisioning_uri (secret issuer username : str) : exec str :=
  _ ← totp_for secret issuer username; mret (totp_url secret issuer username).

Definition secret_base32 (secret issuer username : str) : exec str :=
  _ ← totp_for secret issuer username; mret (totp_base32 secret).

Definition check_code (now : Z) (secret issuer username code : str) : exec bool :=
  _ ← totp_for secret issuer username; mret (totp_check secret code now).

(** Hex SHA-256, as the blob store computes it. *)
Definition hash_recovery_code (code : str) : str := hash_hex code.

(** [raw] are the random draws. *)
Definition generate_recovery_codes (raw : nat -> str) : list str * list str :=
  let plaintext := (fun i => hex_encode (raw i)) <$> List.seq 0 RECOVERY_CODE_COUNT in
  (plaintext, hash_recovery_code <$> plaintext).

Fixpoint position (p : str -> bool) (l : list str) : option nat :=
  match l with
  | [] => None
  | x :: l => if p x then Some O else S <$> position p l
  end.

Definition match_recovery_code (candidate : str) (hashed : list str) : option nat :=
  let candidate_hash := hash_recovery_code candidate in
  position (fun stored => str_eqb stored candidate_hash) hashed.

End Mfa.

(** ** State and requests *)
Record AppState : Type := mkAppState {
  admin_store : AdminStore;
  auth_store : AuthStore;
  queue_store : QueueStore;
  audit_store : AuditStore;
  sessions_ : Registry;
  login_throttle : Throttle.LoginThrottle
}.

Definition with_admin (x : AdminStore) (s : AppState) : AppState :=
  mkAppState x (auth_store s) (queue_store s) (audit_store s) (sessions_ s) (login_throttle s).
Definition with_auth (x : AuthStore) (s : AppState) : AppState :=
  mkAppState (admin_store s) x (queue_store s) (audit_store s) (sessions_ s) (login_throttle s).
Definition with_queue (x : QueueStore) (s : AppState) : AppState :=
  mkAppState (admin_store s) (auth_store s) x (audit_store s) (sessions_ s) (login_throttle s).
Definition with_audit (x : AuditStore) (s : AppState) : AppState :=
  mkAppState (admin_store s) (auth_store s) (queue_store s) x (sessions_ s) (login_throttle s).
Definition with_sessions (x : Registry) (s : AppState) : AppState :=
  mkAppState (admin_store s) (auth_store s) (queue_store s) (audit_store s) x (login_throttle s).
Definition with_throttle (x : Throttle.LoginThrottle) (s : AppState) : AppState :=
  mkAppState (admin_store s) (auth_store s) (queue_store s) (audit_store s) (sessions_ s) x.

(** router.rs *)
Definition DEFAULT_IDLE_TIMEOUT : Z := 30 * 60 * 10 ^ 9.
Definition THROTTLE_BASE_DELAY : Z := 1 * 10 ^ 9.
Definition THROTTLE_MAX_DELAY : Z := 60 * 10 ^ 9.

Definition new_state (a : AdminStore) (u : AuthStore) (q : QueueStore) (l : AuditStore) : AppState :=
  mkAppState a u q l (Sessions.new DEFAULT_IDLE_TIMEOUT) (Throttle.new THROTTLE_BASE_DELAY THROTTLE_MAX_DELAY).

(** What a request brings besides its body: the Authorization header as text
    (none when absent or not text), the readings of the monotone clock in
    order, the wall clock, and the random draws. *)
Record Context_ : Type := mkContext {
  authorization : option str;
  instant : nat -> Z;
  now_unix : Z;
  token_bytes : str;
  salt_bytes : str;
  nonce_bytes : nat -> str;
  secret_bytes : str;
  domain_token_bytes : str;
  code_bytes : nat -> str;
  audit_rand : str;
  provision_rand : ProvisionRand;
  generated_key : result str (str * str)
}.

(** Status codes. *)
Definition UNAUTHORIZED : Z := 401.
Definition FORBIDDEN : Z := 403.
Definition NOT_FOUND : Z := 404.
Definition CONFLICT : Z := 409.
Definition UNPROCESSABLE_ENTITY : Z := 422.
Definition TOO_MANY_REQUESTS : Z := 429.
Definition BAD_REQUEST : Z := 400.
Definition INTERNAL_SERVER_ERROR : Z := 500.

Record DomainResponse : Type := mkDomainResponse {
  rd_id : Z; rd_name : str; rd_catch_all : option str; rd_token : str; rd_verified : bool
}.

Definition domain_response (d : Domain) : DomainResponse :=
  mkDomainResponse (dom_id d) (dom_name d) (catch_all_local_part d) (verification_token d)
    (bool_decide (is_Some (verified_at d))).

Record AccountResponse : Type := mkAccountResponse { ra_id : Z; ra_address : str; ra_created_at : Z }.

Definition account_response (a : Account) : AccountResponse :=
  mkAccountResponse (acc_id a) (address a) (acc_created_at a).

Record RecentFailure : Type := mkRecentFailure {
  rf_id : Z; rf_rcpt_to : str; rf_domain : str; rf_attempts : Z;
  rf_code : option Z; rf_status : option str; rf_detail : option str
}.

Definition recent_failure (r : OutboundRecipient) : RecentFailure :=
  mkRecentFailure (or_id r) (or_rcpt_to r) (or_domain r) (or_attempts r) (or_last_code r) (or_last_status r)
    (or_last_detail r).

Inductive Response : Type :=
| RStatus (has_admin : bool) (domain_count account_count : Z)
| RLogin (token : str) (must_change_password mfa_required : bool)
| RNoContent
| RMfaVerify (must_change_password : bool)
| RMfaEnroll (secret otpauth_url : str)
| RMfaConfirm (recovery_codes : list str)
| RDomains (l : list DomainResponse)
| RDomain (d : DomainResponse)
| RDkim (domain selector record_name record_value : str)
| RVerify (verified : bool) (record_name record_value : str)
| RAccounts (l : list AccountResponse)
| RAccount (a : AccountResponse)
| RQueue (m : QueueMetrics) (recent : list RecentFailure)
| RAudit (l : list AuditEntry)
| RLogs (l : list str).

(** serde_json, the time crate and [str::to_uppercase], as [logs] uses them;
    a JSON value is its text, an [OffsetDateTime] its nanoseconds. *)
Class LogLibrary : Type := {
  json_from_str : str -> option str;
  json_get_str : str -> str -> option str;       (* value.get(key)?.as_str() *)
  rfc3339_parse : str -> option Z;
  to_uppercase : str -> str;
  datetime_ok : Z -> bool                        (* from_unix_timestamp is Ok *)
}.

Abbreviation Handler A := (St AppState (result Z A)).

Section Handlers.
Context `{Primitives} `{BlobHash} `{SqlAny} `{AnyOrder} `{TotpLibrary} `{StringListJson} `{DnsLibrary} `{LogLibrary}.
Context (utf8_error : str -> str).
Context (spki_of_pkcs1 : str -> option str) (base64_encode : str -> str).   (* the rsa and base64 crates *)
Context (argon2_config : Z * Z * Z) (server_domain : str).
Context (log_dir : option (result unit (list (str * option str)))).
    (* the log directory, if configured: its files' names and contents, or an I/O error *)

(** *** Parts of handlers *)
Definition bearer_token (c : Context_) : option str := authorization c ≫= strip_prefix (# "Bearer ").

Definition touch_session (now : Z) (token : str) : St AppState (option Session) :=
  st_zoom sessions_ with_sessions (fun g => let '(r, g') := touch now g token in (Done r, g')).

(** [let _ = audit_store.log(..)]. *)
Definition audit (c : Context_) (action detail : str) : St AppState unit := fun s =>
  let '(r, a) := log (audit_rand c) (now_unix c) action detail (audit_store s) in
  (match r with Done _ => Done tt | Panicked => Panicked end, with_audit a s).

(** A store operation whose error becomes a status. *)
Definition on_admin {A} (e : Z) (f : AdminStore -> Result A * AdminStore) : Handler A := fun s =>
  let '(r, a) := f (admin_store s) in (Done (map_err e r), with_admin a s).
Definition on_auth {A} (e : Z) (f : AuthStore -> Result A * AuthStore) : Handler A := fun s =>
  let '(r, a) := f (auth_store s) in (Done (map_err e r), with_auth a s).

Definition read_admin {A} (f : AdminStore -> Result A) : Handler A := fun s =>
  (Done (map_err INTERNAL_SERVER_ERROR (f (admin_store s))), s).
Definition read_auth {A} (f : AuthStore -> Result A) : Handler A := fun s =>
  (Done (map_err INTERNAL_SERVER_ERROR (f (auth_store s))), s).

(** The token and its admin, from clock reading [i]. *)
Definition session_admin (c : Context_) (i : nat) : Handler (str * Z) :=
  token ←? mret (ok_or UNAUTHORIZED (bearer_token c));
  s ← touch_session (instant c i) token;
  admin_id ←? mret (ok_or UNAUTHORIZED (s_admin_id <$> s));
  mret (Ok (token, admin_id)).

(** Readings 0, 1 and 2 of the clock. *)
Definition require_admin (c : Context_) : Handler Z :=
  ta ←? session_admin c 0;
  s1 ← touch_session (instant c 1) ta.1;
  if negb (bool_decide (s_mfa_pending <$> s1 = Some false)) then mret (Err FORBIDDEN)
  else
    s2 ← touch_session (instant c 2) ta.1;
    if negb (bool_decide (s_must_change <$> s2 = Some false)) then mret (Err FORBIDDEN)
    else mret (Ok ta.2).

Definition session_wrap_key (c : Context_) (i : nat) (token : str) : Handler str :=
  s ← touch_session (instant c i) token; mret (ok_or UNAUTHORIZED (s_wrap_key <$> s)).

Definition require_username (admin_id : Z) : Handler str :=
  u ←? read_admin (fun a => username_for_id a admin_id); mret (ok_or UNAUTHORIZED u).

(** *** Status, login, logout *)
Definition status : Handler Response :=
  has ←? read_admin has_admin;
  ds ←? read_admin list_domains;
  accounts ←? read_auth list_accounts;
  mret (Ok (RStatus has (Z.of_nat (length ds)) (Z.of_nat (length accounts)))).

Definition set_throttle (f : Throttle.LoginThrottle -> Throttle.LoginThrottle) : St AppState unit :=
  st_mod (fun s => with_throttle (f (login_throttle s)) s).

Definition throttle_check (now : Z) (key : str) : Handler unit := fun s =>
  (Done (map_err TOO_MANY_REQUESTS (Throttle.check (login_throttle s) key now)), s).

Definition create_session (c : Context_) (now : Z) (admin_id : Z) (wrap_key : str) (must_change pending : bool)
    : St AppState str := fun s =>
  let '(token, g) := create (token_bytes c) now (sessions_ s) admin_id wrap_key must_change pending in
  (Done token, with_sessions g s).

Definition login (c : Context_) (username password : str) : Handler Response :=
  _ ←? throttle_check (instant c 0) username;
  outcome ←? read_admin (fun a => verify_login a username password argon2_config);
  match outcome with
  | None =>
      _ ← set_throttle (fun t => Throttle.record_failure t username (instant c 1));
      _ ← audit c (# "auth.login_failed") username;
      mret (Err UNAUTHORIZED)
  | Some (admin, wrap_key) =>
      _ ← set_throttle (fun t => Throttle.record_success t username);
      token ← create_session c (instant c 1) (ad_id admin) wrap_key (ad_must_change_password admin) (ad_totp_enabled admin);
      _ ← audit c (# "auth.login") (ad_username admin);
      mret (Ok (RLogin token (ad_must_change_password admin) (ad_totp_enabled admin)))
  end.

Definition logout (c : Context_) : Handler Response :=
  match bearer_token c with
  | None => mret (Ok RNoContent)
  | Some token =>
      s ← touch_session (instant c 0) token;
      _ ← match s with
          | Some s => audit c (# "session.close") (dec (s_admin_id s))
          | None => mret tt
          end;
      _ ← st_mod (fun s => with_sessions (Sessions.remove (sessions_ s) token) s);
      mret (Ok RNoContent)
  end.

(** *** Password change *)
Definition change_keys (c : Context_) (admin_id : Z) (username current_password new_password : str)
    : Handler (str * str) :=
  outcome ←? read_admin (fun a => verify_login a username current_password argon2_config);
  match outcome with
  | None => mret (Err UNAUTHORIZED)
  | Some (_, old_wrap_key) =>
      new_wrap_key ←? on_admin INTERNAL_SERVER_ERROR (fun a =>
        AdminStore.change_password (salt_bytes c) a admin_id new_password argon2_config);
      mret (Ok (old_wrap_key, new_wrap_key))
  end.

Definition rewrap_audit (c : Context_) (old_wrap_key new_wrap_key : str) : Handler unit := fun s =>
  let '(r, a) := rewrap_audit_key (nonce_bytes c 0) (audit_store s) old_wrap_key new_wrap_key in
  (Done (map_err INTERNAL_SERVER_ERROR r), with_audit a s).

Definition change_password (c : Context_) (current_password new_password : str) : Handler Response :=
  if (length new_password <? 12)%nat then mret (Err UNPROCESSABLE_ENTITY)
  else
    ta ←? session_admin c 0;
    let '(token, admin_id) := ta : str * Z in
    s1 ← touch_session (instant c 1) token;
    if negb (bool_decide (s_mfa_pending <$> s1 = Some false)) then mret (Err FORBIDDEN)
    else
      username ←? require_username admin_id;
      keys ←? change_keys c admin_id username current_password new_password;
      let '(old_wrap_key, new_wrap_key) := keys : str * str in
      _ ←? rewrap_audit c old_wrap_key new_wrap_key;
      _ ←? on_admin INTERNAL_SERVER_ERROR (fun a =>
        rewrap_totp_secret (nonce_bytes c 1) a admin_id old_wrap_key new_wrap_key);
      done ← st_zoom sessions_ with_sessions (fun g =>
        let '(r, g') := complete_password_change (instant c 2) g token admin_id new_wrap_key in (Done r, g'));
      if negb done then mret (Err UNAUTHORIZED)
      else
        _ ← audit c (# "admin.password_change") username;
        mret (Ok RNoContent).

(** *** Second factor *)

(** A recovery code that matches is struck off the list. *)
Definition try_recovery_code (admin_id : Z) (code : str) : Handler bool :=
  codes ←? read_admin (fun a => recovery_codes a admin_id);
  match match_recovery_code code codes with
  | None => mret (Ok false)
  | Some idx =>
      _ ←? on_admin INTERNAL_SERVER_ERROR (fun a => set_recovery_codes a admin_id (delete idx codes));
      mret (Ok true)
  end.

Definition mfa_throttle_key (admin_id : Z) : str := # "mfa:" ++ dec admin_id.

Definition mfa_verify (c : Context_) (code : str) : Handler Response :=
  ta ←? session_admin c 0;
  let '(token, admin_id) := ta : str * Z in
  s1 ← touch_session (instant c 1) token;
  if negb (bool_decide (s_mfa_pending <$> s1 = Some true)) then mret (Err BAD_REQUEST)
  else
    wrap_key ←? session_wrap_key c 2 token;
    username ←? require_username admin_id;
    let throttle_key := mfa_throttle_key admin_id in
    _ ←? throttle_check (instant c 3) throttle_key;
    secret ←? read_admin (fun a => totp_secret a admin_id wrap_key);
    live ← match secret with
           | Some secret => st_exec (check_code (now_unix c) secret server_domain username code)
           | None => mret false
           end;
    used_recovery_code ←? (if live : bool then mret (Ok false) else try_recovery_code admin_id code);
    if negb (live || used_recovery_code) then
      _ ← set_throttle (fun t => Throttle.record_failure t throttle_key (instant c 4));
      _ ← audit c (# "auth.mfa_failed") username;
      mret (Err UNAUTHORIZED)
    else
      _ ← set_throttle (fun t => Throttle.record_success t throttle_key);
      s2 ← touch_session (instant c 4) token;
      done ← st_zoom sessions_ with_sessions (fun g =>
        let '(r, g') := complete_mfa (instant c 5) g token admin_id in (Done r, g'));
      if negb done then mret (Err UNAUTHORIZED)
      else
        _ ← audit c (if used_recovery_code : bool then # "auth.mfa_recovery_used" else # "auth.mfa_verified") username;
        mret (Ok (RMfaVerify (default false (s_must_change <$> s2)))).

Definition mfa_enroll (c : Context_) : Handler Response :=
  admin_id ←? require_admin c;
  enabled ←? read_admin (fun a => is_totp_enabled a admin_id);
  if enabled : bool then mret (Err CONFLICT)
  else
    token ←? mret (ok_or UNAUTHORIZED (bearer_token c));
    wrap_key ←? session_wrap_key c 3 token;
    username ←? require_username admin_id;
    let secret := secret_bytes c in
    _ ←? on_admin INTERNAL_SERVER_ERROR (fun a => set_pending_totp (nonce_bytes c 0) a admin_id wrap_key secret);
    b32 ← st_exec (secret_base32 secret server_domain username);
    url ← st_exec (provisioning_uri secret server_domain username);
    _ ← audit c (# "admin.mfa_enroll_started") username;
    mret (Ok (RMfaEnroll b32 url)).

Definition mfa_confirm (c : Context_) (code : str) : Handler Response :=
  admin_id ←? require_admin c;
  token ←? mret (ok_or UNAUTHORIZED (bearer_token c));
  wrap_key ←? session_wrap_key c 3 token;
  username ←? require_username admin_id;
  secret ←? read_admin (fun a => totp_secret a admin_id wrap_key);
  secret ←? mret (ok_or CONFLICT secret);
  live ← st_exec (check_code (now_unix c) secret server_domain username code);
  if negb live then mret (Err UNAUTHORIZED)
  else
    let '(plaintext, hashed) := generate_recovery_codes (code_bytes c) in
    _ ←? on_admin INTERNAL_SERVER_ERROR (fun a => confirm_totp a admin_id hashed);
    _ ← audit c (# "admin.mfa_enabled") username;
    mret (Ok (RMfaConfirm plaintext)).

Definition mfa_disable (c : Context_) (password : str) : Handler Response :=
  admin_id ←? require_admin c;
  username ←? require_username admin_id;
  verified ←? read_admin (fun a => verify_login a username password argon2_config);
  match verified with
  | None => mret (Err UNAUTHORIZED)
  | Some _ =>
      _ ←? on_admin INTERNAL_SERVER_ERROR (fun a => disable_totp a admin_id);
      _ ← audit c (# "admin.mfa_disabled") username;
      mret (Ok RNoContent)
  end.

(** *** Domains *)
Definition list_domains (c : Context_) : Handler Response :=
  _ ←? require_admin c;
  ds ←? read_admin AdminStore.list_domains;
  mret (Ok (RDomains (domain_response <$> ds))).

Definition bad_catch_all (catch_all : option str) : bool :=
  match catch_all with Some v => negb (valid_local_part v) | None => false end.

Definition create_domain (c : Context_) (name : str) (catch_all : option str) : Handler Response :=
  _ ←? require_admin c;
  if negb (valid_domain_name name) || bad_catch_all catch_all then mret (Err UNPROCESSABLE_ENTITY)
  else
    d ←? on_admin CONFLICT (fun a => AdminStore.create_domain (domain_token_bytes c) (now_unix c) a name catch_all);
    _ ← audit c (# "admin.domain_create") (dom_name d);
    mret (Ok (RDomain (domain_response d))).

Definition update_domain (c : Context_) (id : Z) (catch_all : option str) : Handler Response :=
  _ ←? require_admin c;
  if bad_catch_all catch_all then mret (Err UNPROCESSABLE_ENTITY)
  else
    _ ←? on_admin INTERNAL_SERVER_ERROR (fun a => set_catch_all a id catch_all);
    _ ← audit c (# "admin.domain_update") (dec id);
    mret (Ok RNoContent).

Definition delete_domain (c : Context_) (id : Z) : Handler Response :=
  _ ←? require_admin c;
  _ ←? on_admin INTERNAL_SERVER_ERROR (fun a => AdminStore.delete_domain a id);
  _ ← audit c (# "admin.domain_delete") (dec id);
  mret (Ok RNoContent).

Definition require_domain (id : Z) : Handler Domain :=
  d ←? read_admin (fun a => get_domain a id); mret (ok_or NOT_FOUND d).

Definition dkim_key (c : Context_) (name : str) : Handler DomainKey := fun s =>
  let '(r, q) := ensure_dkim_key (generated_key c) (now_unix c) name (queue_store s) in
  (Done (map_err INTERNAL_SERVER_ERROR r), with_queue q s).

(** dkim.rs: both [expect]s are the library's refusal of the stored key. *)
Definition dns_txt_record (key : DomainKey) : exec str :=
  match spki_of_pkcs1 (public_der key) with
  | Some spki => Done (# "v=DKIM1; k=rsa; p=" ++ base64_encode spki)
  | None => Panicked
  end.

Definition domain_dkim (c : Context_) (id : Z) : Handler Response :=
  _ ←? require_admin c;
  d ←? require_domain id;
  key ←? dkim_key c (dom_name d);
  record ← st_exec (dns_txt_record key);
  mret (Ok (RDkim (dom_name d) (selector key) (selector key ++ # "._domainkey." ++ dom_name d) record)).

Definition VERIFICATION_LABEL : str := # "_litterae-challenge".

Definition verify_domain (c : Context_) (id : Z) : Handler Response :=
  _ ←? require_admin c;
  d ←? require_domain id;
  let record_name := VERIFICATION_LABEL ++ # "." ++ dom_name d in
  let expected := # "litterae-verify=" ++ verification_token d in
  let records := default [] (ok_opt (resolve_txt record_name)) in
  let verified := existsb (fun r => str_eqb (trim r) expected) records in
  if verified then
    _ ←? on_admin INTERNAL_SERVER_ERROR (fun a => mark_domain_verified a id (now_unix c));
    _ ← audit c (# "admin.domain_verified") (dom_name d);
    mret (Ok (RVerify true record_name expected))
  else mret (Ok (RVerify false record_name expected)).

(** *** Accounts *)
Definition list_accounts (c : Context_) : Handler Response :=
  _ ←? require_admin c;
  l ←? read_auth Auth.list_accounts;
  mret (Ok (RAccounts (account_response <$> l))).

Definition create_account (c : Context_) (local_part domain password : str) : Handler Response :=
  _ ←? require_admin c;
  if negb (valid_local_part local_part) || negb (valid_domain_name domain) || (length password <? 12)%nat
  then mret (Err UNPROCESSABLE_ENTITY)
  else
    known ←? read_admin (fun a => get_domain_by_name a domain);
    match known with
    | None => mret (Err UNPROCESSABLE_ENTITY)
    | Some _ =>
        account ←? on_auth CONFLICT (fun u =>
          provision (provision_rand c) (now_unix c) u local_part domain password argon2_config);
        _ ← audit c (# "admin.account_create") (address account);
        mret (Ok (RAccount (account_response account)))
    end.

Definition delete_account (c : Context_) (id : Z) : Handler Response :=
  _ ←? require_admin c;
  _ ←? on_auth INTERNAL_SERVER_ERROR (fun u => Auth.delete_account u id);
  _ ← audit c (# "admin.account_delete") (dec id);
  mret (Ok RNoContent).

(** *** Monitoring *)
Definition queue_status (c : Context_) : Handler Response :=
  _ ←? require_admin c;
  s ← st_get;
  mret (Ok (RQueue (metrics (queue_store s)) (recent_failure <$> recent_failures (queue_store s) 20))).

(** Not [require_admin]: a valid token is enough. *)
Definition audit_log (c : Context_) : Handler Response :=
  ta ←? session_admin c 0;
  wrap_key ←? session_wrap_key c 1 ta.1;
  s ← st_get;
  entries ← st_exec (read_recent utf8_error (audit_store s) wrap_key 100);
  mret (match entries with Ok l => Ok (RAudit l) | Err _ => Err INTERNAL_SERVER_ERROR end).

Record LogQuery : Type := mkLogQuery {
  lq_since : option Z; lq_until : option Z; lq_level : option str; lq_limit : option nat
}.

Definition DEFAULT_LOG_LIMIT : nat := 200.
Definition MAX_LOG_LIMIT : nat := 1000.
Definition DEFAULT_LOG_WINDOW_SECS : Z := 24 * 60 * 60.

Definition parse_log_line (line : str) : option (Z * str * str) :=
  value ← json_from_str line;
  timestamp ← json_get_str value (# "timestamp");
  ts ← rfc3339_parse timestamp;
  level ← to_uppercase <$> json_get_str value (# "level");
  Some (ts, level, value).

(** The loop over one file's lines, newest first. *)
Fixpoint collect_lines (since until : Z) (level : option str) (limit : nat) (ls : list str) (results : list str)
    : list str :=
  match ls with
  | [] => results
  | line :: ls =>
      if (limit <=? length results)%nat then results
      else
        match parse_log_line line with
        | Some (ts, lvl, value) =>
            if ((ts <? since) || (until <? ts))%Z
               || (match level with Some want => negb (str_eqb lvl want) | None => false end)
            then collect_lines since until level limit ls results
            else collect_lines since until level limit ls (results ++ [value])
        | None => collect_lines since until level limit ls results
        end
  end.

Fixpoint collect_files (since until : Z) (level : option str) (limit : nat) (files : list (option str))
    (results : list str) : list str :=
  match files with
  | [] => results
  | None :: files => collect_files since until level limit files results
  | Some content :: files =>
      collect_files since until level limit files
        (collect_lines since until level limit (reverse (lines content)) results)
  end.

Definition file_name_le (a b : str * option str) : Prop := str_leb a.1 b.1 = true.
#[global] Instance file_name_le_dec a b : Decision (file_name_le a b).
Proof. unfold file_name_le. apply _. Defined.

(** Wrapping [i64] subtraction. *)
Definition wrap_i64 (v : Z) : Z := ((v + 2 ^ 63) mod 2 ^ 64 - 2 ^ 63)%Z.

Definition logs (c : Context_) (query : LogQuery) : Handler Response :=
  _ ←? require_admin c;
  match log_dir with
  | None => mret (Ok (RLogs []))
  | Some dir =>
      let until := default (now_unix c) (lq_until query) in
      let since := default (wrap_i64 (until - DEFAULT_LOG_WINDOW_SECS)) (lq_since query) in
      let level_filter := to_uppercase <$> lq_level query in
      let limit := Nat.min (default DEFAULT_LOG_LIMIT (lq_limit query)) MAX_LOG_LIMIT in
      let since_dt := ((if datetime_ok since then since else 0) * 10 ^ 9)%Z in
      let until_dt := ((if datetime_ok until then until else now_unix c) * 10 ^ 9)%Z in
      match dir with
      | Err _ => mret (Err INTERNAL_SERVER_ERROR)
      | Ok files =>
          let files := List.filter (fun f => starts_with (# "litterae.log") f.1) files in
          let files := reverse (merge_sort file_name_le files) in
          mret (Ok (RLogs (collect_files since_dt until_dt level_filter limit (snd <$> files) [])))
      end
  end.

(** ** The routes, router.rs *)
Inductive Call : Type :=
| CStatus
| CLogin (username password : str)
| CLogout
| CChangePassword (current_password new_password : str)
| CMfaVerify (code : str)
| CMfaEnroll
| CMfaConfirm (code : str)
| CMfaDisable (password : str)
| CListDomains
| CCreateDomain (name : str) (catch_all : option str)
| CUpdateDomain (id : Z) (catch_all : option str)
| CDeleteDomain (id : Z)
| CDomainDkim (id : Z)
| CVerifyDomain (id : Z)
| CListAccounts
| CCreateAccount (local_part domain password : str)
| CDeleteAccount (id : Z)
| CQueueStatus
| CAuditLog
| CLogs (query : LogQuery).

Definition handle (c : Context_) (call : Call) : Handler Response :=
  match call with
  | CStatus => status
  | CLogin u p => login c u p
  | CLogout => logout c
  | CChangePassword cur new => change_password c cur new
  | CMfaVerify code => mfa_verify c code
  | CMfaEnroll => mfa_enroll c
  | CMfaConfirm code => mfa_confirm c code
  | CMfaDisable p => mfa_disable c p
  | CListDomains => list_domains c
  | CCreateDomain n ca => create_domain c n ca
  | CUpdateDomain id ca => update_domain c id ca
  | CDeleteDomain id => delete_domain c id
  | CDomainDkim id => domain_dkim c id
  | CVerifyDomain id => verify_domain c id
  | CListAccounts => list_accounts c
  | CCreateAccount l d p => create_account c l d p
  | CDeleteAccount id => delete_account c id
  | CQueueStatus => queue_status c
  | CAuditLog => audit_log c
  | CLogs q => logs c q
  end.

End Handlers.

(** ** Sessions under a request

    Every handler reaches the registry through the few operations below; the
    rest of a handler leaves it alone. *)

(** [x'] is [x] but for the time it was last seen. *)
Definition same_standing (x x' : Session) : Prop :=
  s_admin_id x' = s_admin_id x /\ s_wrap_key x' = s_wrap_key x /\ s_must_change x' = s_must_change x /\
  s_mfa_pending x' = s_mfa_pending x.

(** No session is added, none changes its standing. *)
Definition fades (g g' : Registry) : Prop :=
  idle_timeout g' = idle_timeout g /\
  forall t x', sessions g' !! t = Some x' -> exists x, sessions g !! t = Some x /\ same_standing x x'.

#[global] Instance fades_preorder : PreOrder fades.
Proof.
  split.
  - intros g. split; [done|]. intros t x Hx. by exists x.
  - intros g1 g2 g3 [E1 H1] [E2 H2]. split; [by etrans|]. intros t x3 H3.
    destruct (H2 t x3 H3) as (x2 & Hx2 & S2). destruct (H1 t x2 Hx2) as (x1 & Hx1 & S1).
    exists x1. split; [done|]. unfold same_standing in *. destruct_and!. split_and!; congruence.
Qed.

Lemma touch_fades now g t : fades g (touch now g t).2.
Proof.
  unfold touch. destruct (sessions g !! t) as [x|] eqn:Ex; [|reflexivity].
  destruct (_ <? _)%Z; cbn; (split; [done|]); cbn; intros t' x'.
  - intros [_ Hx]%lookup_delete_Some. by exists x'.
  - intros [[<- <-]|[_ Hx]]%lookup_insert_Some; [by exists x|by exists x'].
Qed.

Lemma touch_some now g t x' :
  (touch now g t).1 = Some x' ->
  exists x, sessions g !! t = Some x /\ same_standing x x' /\
    (Z.max 0 (now - last_seen x) <= idle_timeout g)%Z /\ last_seen x' = now.
Proof.
  unfold touch. destruct (sessions g !! t) as [x|] eqn:Ex; [|done].
  destruct (_ <? _)%Z eqn:El; cbn; [done|]. intros [= <-]. bool_facts. by exists x.
Qed.

(** [a] to [b] is within the idle timeout. *)
Definition within (g : Registry) (a b : Z) : bool := (Z.max 0 (b - a) <=? idle_timeout g)%Z.

Definition seen (now : Z) (x : Session) : Session :=
  mkSession (s_admin_id x) (s_wrap_key x) (s_must_change x) (s_mfa_pending x) now.

Lemma touch_session_eq now t s :
  touch_session now t s = (Done (touch now (sessions_ s) t).1, with_sessions (touch now (sessions_ s) t).2 s).
Proof. unfold touch_session, st_zoom. by destruct (touch _ _ _). Qed.

Lemma touch_session_none now t s :
  sessions (sessions_ s) !! t = None -> touch_session now t s = (Done None, with_sessions (sessions_ s) s).
Proof. intros E. rewrite touch_session_eq. unfold touch. by rewrite E. Qed.

(** A request names a session it finds: a live one answers and is marked as
    seen, an idle one is removed. *)
Lemma touch_session_some now t s x :
  sessions (sessions_ s) !! t = Some x ->
  exists g, fades (sessions_ s) g /\
    if within (sessions_ s) (last_seen x) now
    then touch_session now t s = (Done (Some (seen now x)), with_sessions g s) /\ sessions g !! t = Some (seen now x)
    else touch_session now t s = (Done None, with_sessions g s) /\ sessions g !! t = None.
Proof.
  intros E. exists (touch now (sessions_ s) t).2. split; [apply touch_fades|].
  rewrite touch_session_eq. unfold touch, within. rewrite E, Z.leb_antisym.
  destruct (_ <? _)%Z; cbn [negb fst snd sessions].
  - by rewrite lookup_delete_eq.
  - by rewrite lookup_insert_eq.
Qed.

(** *** Standing, stated on the registry *)

(** The admin on whose behalf the request acts, when the session is live at
    the clock readings 0, 1 and 2, past its second factor and not waiting for
    a password change. *)
Definition standing (c : Context_) (s : AppState) : option Z :=
  t ← bearer_token c;
  x ← sessions (sessions_ s) !! t;
  let g := sessions_ s in
  if within g (last_seen x) (instant c 0) && within g (instant c 0) (instant c 1) && within g (instant c 1) (instant c 2)
     && negb (s_mfa_pending x) && negb (s_must_change x)
  then Some (s_admin_id x) else None.

Lemma within_fades g g' a b : fades g g' -> within g' a b = within g a b.
Proof. intros [E _]. unfold within. by rewrite E. Qed.

Lemma decide_some_false b : bool_decide (Some b = Some false) = negb b.
Proof. by destruct b. Qed.

Lemma decide_some_true b : bool_decide (Some b = Some true) = b.
Proof. by destruct b. Qed.

(** [require_admin] grants exactly the standing. *)
Lemma require_admin_standing c s :
  exists g, fades (sessions_ s) g /\
    match standing c s with
    | Some id => require_admin c s = (Done (Ok id), with_sessions g s)
    | None => exists e, (e = UNAUTHORIZED \/ e = FORBIDDEN) /\ require_admin c s = (Done (Err e), with_sessions g s)
    end.
Proof.
  unfold standing, require_admin, session_admin, st_try, mbind, St_bind, mret, St_ret.
  destruct (bearer_token c) as [t|]; cbn [ok_or option_bind];
    [|exists (sessions_ s); split; [reflexivity|]; exists UNAUTHORIZED; split; [by left|]; by destruct s].
  destruct (sessions (sessions_ s) !! t) as [x|] eqn:Ex; cbn [option_bind];
    [|rewrite touch_session_none by done; eexists; split; [reflexivity|]; exists UNAUTHORIZED; split; [by left|done]].
  destruct (touch_session_some (instant c 0) t s x Ex) as (g0 & F0 & H0).
  destruct (within _ (last_seen x) _); destruct H0 as [-> E0]; cbn [fmap option_fmap option_map ok_or];
    [|exists g0; split; [done|]; exists UNAUTHORIZED; split; [by left|done]].
  pose proof (touch_session_some (instant c 1) t (with_sessions g0 s) _ E0) as (g1 & F1 & H1).
  cbn [sessions_ with_sessions fst snd seen last_seen s_admin_id] in *. rewrite (within_fades _ _ _ _ F0) in H1.
  destruct (within _ (instant c 0) _); destruct H1 as [-> E1]; cbn [fmap option_fmap option_map negb andb];
    [|exists g1; split; [by etrans|]; exists FORBIDDEN; split; [by right|done]].
  pose proof (touch_session_some (instant c 2) t (with_sessions g1 s) _ E1) as (g2 & F2 & H2).
  cbn [sessions_ with_sessions fst snd seen last_seen s_admin_id s_mfa_pending] in *.
  rewrite (within_fades _ _ _ _ F1), (within_fades _ _ _ _ F0) in H2. rewrite decide_some_false, negb_involutive.
  destruct (s_mfa_pending x); cbn [negb andb];
    [rewrite andb_false_r; cbn [andb]; exists g1; split; [by etrans|]; exists FORBIDDEN; split; [by right|done]|].
  change (with_sessions g1 (with_sessions g0 s)) with (with_sessions g1 s).
  exists g2. split; [etrans; [|exact F2]; by etrans|].
  destruct (within _ (instant c 1) _); destruct H2 as [-> E2]; cbn [fmap option_fmap option_map negb andb];
    [|exists FORBIDDEN; split; [by right|done]].
  cbn [seen s_must_change]. rewrite decide_some_false. destruct (s_must_change x); cbn [negb]; [|done].
  exists FORBIDDEN. split; [by right|done].
Qed.

(** The endpoints behind [require_admin]. *)
Definition gated (call : Call) : bool :=
  match call with
  | CStatus | CLogin _ _ | CLogout | CChangePassword _ _ | CMfaVerify _ | CAuditLog => false
  | _ => true
  end.

Section Theorems.
Context `{Primitives} `{BlobHash} `{SqlAny} `{AnyOrder} `{TotpLibrary} `{StringListJson} `{DnsLibrary} `{LogLibrary}.
Context (utf8_error : str -> str).
Context (spki_of_pkcs1 : str -> option str) (base64_encode : str -> str).
Context (argon2_config : Z * Z * Z) (server_domain : str).
Context (log_dir : option (result unit (list (str * option str)))).

Abbreviation handle_ :=
  (handle utf8_error spki_of_pkcs1 base64_encode argon2_config server_domain log_dir).

Lemma gated_requires c call :
  gated call = true -> exists k : Z -> Handler Response, forall s, handle_ c call s = st_try (require_admin c) k s.
Proof. destruct call; cbn [gated]; intros E; try discriminate E; eexists; intros s; reflexivity. Qed.

(** C18.  Every administrative endpoint but the status, login, logout,
    password-change, second-factor and audit-log ones acts only for an admin
    in good standing: a request whose session is missing, idle, waiting for
    its second factor or for a password change is answered 401 or 403, and
    nothing but the idle bookkeeping of the sessions changes -- no store, no
    throttle, no audit entry, no session added or promoted.  A request in
    good standing gets exactly its session's admin. *)
Theorem admin_gate (c : Context_) (call : Call) (s : AppState) :
  gated call = true ->
  match standing c s with
  | None => exists e g, (e = UNAUTHORIZED \/ e = FORBIDDEN) /\
      handle_ c call s = (Done (Err e), with_sessions g s) /\ fades (sessions_ s) g
  | Some id => exists g, require_admin c s = (Done (Ok id), with_sessions g s) /\ fades (sessions_ s) g
  end.
Proof.
  intros Hg. destruct (require_admin_standing c s) as (g & Hf & Hr).
  destruct (standing c s) as [id|]; [by exists g|]. destruct Hr as (e & He & Er).
  destruct (gated_requires c call Hg) as [k Hk]. exists e, g. split; [done|]. split; [|done].
  rewrite Hk. unfold st_try, mbind, St_bind. by rewrite Er.
Qed.

(** *** What a handler leaves alone *)
Section Keeps.
Context (I : AppState -> Prop).

Lemma keeps_audit c action detail :
  (forall a s, I s -> I (with_audit a s)) -> keeps I (audit c action detail).
Proof. intros Hi s Hs. unfold audit. destruct (log _ _ _ _ _) as [r a]. cbn. by apply Hi. Qed.

Lemma keeps_on_admin {A} e (f : AdminStore -> Result A * AdminStore) :
  (forall s, I s -> I (with_admin (f (admin_store s)).2 s)) -> keeps I (on_admin e f).
Proof. intros Hi s Hs. unfold on_admin. specialize (Hi s Hs). by destruct (f (admin_store s)). Qed.

Lemma keeps_on_auth {A} e (f : AuthStore -> Result A * AuthStore) :
  (forall s, I s -> I (with_auth (f (auth_store s)).2 s)) -> keeps I (on_auth e f).
Proof. intros Hi s Hs. unfold on_auth. specialize (Hi s Hs). by destruct (f (auth_store s)). Qed.

Lemma keeps_read_admin {A} (f : AdminStore -> Result A) : keeps I (read_admin f).
Proof. intros s Hs. exact Hs. Qed.

Lemma keeps_read_auth {A} (f : AuthStore -> Result A) : keeps I (read_auth f).
Proof. intros s Hs. exact Hs. Qed.

Lemma keeps_throttle_check now key : keeps I (throttle_check now key).
Proof. intros s Hs. exact Hs. Qed.

Lemma keeps_set_throttle f : (forall t s, I s -> I (with_throttle t s)) -> keeps I (set_throttle f).
Proof. intros Hi. apply keeps_mod. intros s. apply Hi. Qed.

Lemma keeps_dkim_key c name :
  (forall g now s, I s -> I (with_queue (ensure_dkim_key g now name (queue_store s)).2 s)) -> keeps I (dkim_key c name).
Proof.
  intros Hi s Hs. unfold dkim_key. specialize (Hi (generated_key c) (now_unix c) s Hs). by destruct (ensure_dkim_key _ _ _ _).
Qed.

Lemma keeps_rewrap_audit c k k' : (forall a s, I s -> I (with_audit a s)) -> keeps I (rewrap_audit c k k').
Proof. intros Hi s Hs. unfold rewrap_audit. destruct (rewrap_audit_key _ _ _ _). by apply Hi. Qed.

Lemma keeps_registry {A} (f : Registry -> A * Registry) :
  (forall s, I s -> I (with_sessions (f (sessions_ s)).2 s)) ->
  keeps I (st_zoom sessions_ with_sessions (fun g => let '(r, g') := f g in (Done r, g'))).
Proof. intros Hi s Hs. unfold st_zoom. specialize (Hi s Hs). by destruct (f (sessions_ s)). Qed.

Lemma keeps_create c now id k m p :
  (forall s, I s -> I (with_sessions (create (token_bytes c) now (sessions_ s) id k m p).2 s)) ->
  keeps I (create_session c now id k m p).
Proof. intros Hi s Hs. unfold create_session. specialize (Hi s Hs). by destruct (create _ _ _ _ _ _ _). Qed.

End Keeps.

(** One step through a handler's text; side conditions left to the caller. *)
Ltac keeps_step :=
  match goal with
  | |- keeps _ (st_try _ _) => apply keeps_try; [|intros ?]
  | |- keeps _ (mbind _ _) => first [apply keeps_get; intros ? _ | apply keeps_bind; [|intros ?]]
  | |- keeps _ (mret _) => apply keeps_ret
  | |- keeps _ (st_exec _) => apply keeps_exec
  | |- keeps _ (st_mod _) => apply keeps_mod; intros ? ?
  | |- keeps _ (read_admin _) => apply keeps_read_admin
  | |- keeps _ (read_auth _) => apply keeps_read_auth
  | |- keeps _ (throttle_check _ _) => apply keeps_throttle_check
  | |- keeps _ (set_throttle _) => apply keeps_set_throttle; intros ? ? ?
  | |- keeps _ (audit _ _ _) => apply keeps_audit; intros ? ? ?
  | |- keeps _ (on_admin _ _) => apply keeps_on_admin; intros ? ?
  | |- keeps _ (on_auth _ _) => apply keeps_on_auth; intros ? ?
  | |- keeps _ (dkim_key _ _) => apply keeps_dkim_key; intros ? ? ? ?
  | |- keeps _ (rewrap_audit _ _ _) => apply keeps_rewrap_audit; intros ? ? ?
  | |- keeps _ (touch_session _ _) => apply keeps_registry; intros ? ?
  | |- keeps _ (st_zoom sessions_ with_sessions _) => apply keeps_registry; intros ? ?
  | |- keeps _ (create_session _ _ _ _ _ _) => apply keeps_create; intros ? ?
  | |- keeps _ (match ?x with _ => _ end) => destruct x eqn:?
  end.

(** Every call but a second-factor check of [t]'s own keeps [t] pending. *)
Definition pending_at (t : str) (s : AppState) : Prop :=
  forall x, sessions (sessions_ s) !! t = Some x -> s_mfa_pending x = true.

Lemma pending_fades t g s : fades (sessions_ s) g -> pending_at t s -> pending_at t (with_sessions g s).
Proof.
  intros [_ Hf] Hp x' Hx'. destruct (Hf t x' Hx') as (x & Hx & _ & _ & _ & ->). by apply Hp.
Qed.

Lemma pending_create t c now s id k m p :
  hex_encode (token_bytes c) <> t -> pending_at t s ->
  pending_at t (with_sessions (create (token_bytes c) now (sessions_ s) id k m p).2 s).
Proof. intros Hn Hp x. cbn. rewrite lookup_insert_ne by done. apply Hp. Qed.

Lemma pending_change t now s t' id k :
  pending_at t s -> pending_at t (with_sessions (complete_password_change now (sessions_ s) t' id k).2 s).
Proof.
  intros Hp. unfold complete_password_change. destruct (sessions (sessions_ s) !! t') as [y|] eqn:Ey; [|exact Hp].
  destruct (negb _); [exact Hp|]. intros x. cbn. intros [<- <-]%lookup_singleton_Some. cbn. by apply Hp.
Qed.

Lemma pending_remove t s t' : pending_at t s -> pending_at t (with_sessions (Sessions.remove (sessions_ s) t') s).
Proof. intros Hp x. cbn. intros [_ Hx]%lookup_delete_Some. by apply Hp. Qed.

Lemma pending_complete_mfa t now s t' id :
  t' <> t -> pending_at t s -> pending_at t (with_sessions (complete_mfa now (sessions_ s) t' id).2 s).
Proof.
  intros Hn Hp. unfold complete_mfa. destruct (sessions (sessions_ s) !! t') as [y|] eqn:Ey; [|exact Hp].
  destruct (negb _); [exact Hp|]. intros x. cbn. rewrite lookup_insert_ne by done. apply Hp.
Qed.

Ltac pending_tac :=
  repeat (keeps_step; try eassumption);
  first [ by (apply pending_fades; [apply touch_fades|])
        | by apply pending_create | by apply pending_change | by apply pending_remove
        | by apply pending_complete_mfa | idtac ].

Lemma require_admin_pending t c : keeps (pending_at t) (require_admin c).
Proof. unfold require_admin, session_admin. pending_tac. Qed.

(** The session a request's token names. *)
Lemma session_admin_run c i s :
  exists r g, session_admin c i s = (Done r, with_sessions g s) /\ fades (sessions_ s) g /\
    forall t id, r = Ok (t, id) ->
      bearer_token c = Some t /\ exists x, sessions (sessions_ s) !! t = Some x /\ id = s_admin_id x.
Proof.
  unfold session_admin, st_try, mbind, St_bind, mret, St_ret. destruct (bearer_token c) as [t|]; cbn [ok_or].
  - rewrite touch_session_eq. pose proof (touch_fades (instant c i) (sessions_ s) t) as Hf.
    pose proof (touch_some (instant c i) (sessions_ s) t) as Ht.
    destruct (touch _ _ _) as [[x'|] g]; cbn [fst snd fmap option_fmap option_map ok_or] in *; do 2 eexists;
      (split_and!; [reflexivity|exact Hf|]); [|done].
    intros t' id [= <- <-]. split; [done|]. destruct (Ht x' eq_refl) as (x & Hx & Hs & _). exists x.
    split; [done|apply Hs].
  - exists (Err UNAUTHORIZED), (sessions_ s). split_and!; [by destruct s|reflexivity|done].
Qed.

Lemma touch_run now t s :
  exists o g, touch_session now t s = (Done o, with_sessions g s) /\ fades (sessions_ s) g /\
    forall x', o = Some x' -> exists x, sessions (sessions_ s) !! t = Some x /\ same_standing x x'.
Proof.
  rewrite touch_session_eq. do 2 eexists. split; [reflexivity|]. split; [apply touch_fades|].
  intros x' Hx'. destruct (touch_some _ _ _ _ Hx') as (x & Hx & Hs & _). by exists x.
Qed.

Lemma keeps_session_admin {B} (I : AppState -> Prop) c i (f : str * Z -> Handler B) :
  (forall g s, fades (sessions_ s) g -> I s -> I (with_sessions g s)) ->
  (forall t id, bearer_token c = Some t -> keeps I (f (t, id))) ->
  keeps I (st_try (session_admin c i) f).
Proof.
  intros Hi Hk s Hs. unfold st_try, mbind, St_bind.
  destruct (session_admin_run c i s) as (r & g & -> & Hf & Hr). specialize (Hi g s Hf Hs).
  destruct r as [[t id]|e]; [|exact Hi]. destruct (Hr t id eq_refl) as [Ht _]. by apply (Hk t id Ht).
Qed.

(** What a successful second factor has shown, in the state before the call
    and the one after. *)
Record second_factor_shown (c : Context_) (code : str) (id : Z) (wrap_key : str) (s s' : AppState) : Prop := {
  sf_throttle : Throttle.check (login_throttle s) (mfa_throttle_key id) (instant c 3) = Ok tt;
  sf_code :
    (exists secret, totp_secret (admin_store s) id wrap_key = Ok (Some secret) /\
       totp_check secret code (now_unix c) = true) \/
    (exists codes idx, recovery_codes (admin_store s) id = Ok codes /\
       codes !! idx = Some (hash_recovery_code code) /\
       recovery_codes (admin_store s') id = Ok (delete idx codes))
}.

Lemma handle_pending t c call :
  hex_encode (token_bytes c) <> t ->
  (forall code, call = CMfaVerify code -> bearer_token c <> Some t) ->
  keeps (pending_at t) (handle_ c call).
Proof.
  intros Hn Hv. destruct call; cbn [handle];
    unfold status, login, logout, change_password, mfa_verify, mfa_enroll, mfa_confirm, mfa_disable, list_domains,
      create_domain, update_domain, delete_domain, domain_dkim, verify_domain, list_accounts, create_account,
      delete_account, queue_status, audit_log, logs, session_wrap_key, require_username, change_keys,
      try_recovery_code, require_domain.
  all: try (apply keeps_try; [apply require_admin_pending|intros ?]).
  all: try (apply keeps_session_admin; [intros; by apply pending_fades|intros t' id Ht']).
  all: unfold session_admin; pending_tac.
  apply pending_complete_mfa; [|done]. intros ->. by apply (Hv code).
Qed.

(** The queue's rows are not an administrator's business: only signing keys
    are added. *)
Definition queue_rows (q : QueueStore) (s : AppState) : Prop :=
  outbound (queue_store s) = outbound q /\ outbound_rcpt (queue_store s) = outbound_rcpt q.

Lemma handle_queue_rows q c call : keeps (queue_rows q) (handle_ c call).
Proof.
  destruct call; cbn [handle];
    unfold status, login, logout, change_password, mfa_verify, mfa_enroll, mfa_confirm, mfa_disable, list_domains,
      create_domain, update_domain, delete_domain, domain_dkim, verify_domain, list_accounts, create_account,
      delete_account, queue_status, audit_log, logs, session_wrap_key, require_username, change_keys,
      try_recovery_code, require_domain, require_admin, session_admin.
  all: repeat (keeps_step; try eassumption).
  all: match goal with |- context [ensure_dkim_key ?g ?n ?d (queue_store ?s)] =>
    destruct (ensure_dkim_key_frame g n d (queue_store s)) as (E1 & E2 & _) end.
  all: unfold queue_rows in *; cbn [queue_store with_queue] in *; by rewrite E1, E2.
Qed.

Lemma position_some p l i : position p l = Some i -> exists x, l !! i = Some x /\ p x = true.
Proof.
  revert i. induction l as [|y l IH]; intros i; cbn; [done|]. destruct (p y) eqn:Ep.
  - intros [= <-]. by exists y.
  - destruct (position p l) as [j|]; [|done]. intros [= <-]. by apply IH.
Qed.

(** A code accepted from the list is one of it, and is gone afterwards. *)
Lemma try_recovery_code_run id code s :
  exists r a, try_recovery_code id code s = (Done r, with_admin a s) /\
    (r = Ok true -> exists codes idx, recovery_codes (admin_store s) id = Ok codes /\
       codes !! idx = Some (hash_recovery_code code) /\ recovery_codes a id = Ok (delete idx codes)).
Proof.
  unfold try_recovery_code, st_try, mbind, St_bind, read_admin, mret, St_ret.
  destruct (recovery_codes (admin_store s) id) as [codes|e] eqn:Ec; cbn [map_err];
    [|exists (Err INTERNAL_SERVER_ERROR), (admin_store s); split; [by destruct s|done]].
  unfold match_recovery_code. destruct (position _ codes) as [idx|] eqn:Ep;
    [|exists (Ok false), (admin_store s); split; [by destruct s|done]].
  cbn. do 2 eexists. split; [reflexivity|]. intros _. exists codes, idx. split; [done|].
  apply position_some in Ep as (x & Hx & Hh). bool_facts. subst x. split; [done|].
  unfold recovery_codes in *. destruct (find_admin (admin_store s) id) as [r|] eqn:Er; [|done].
  erewrite find_update_same; [|done|exact Er]. cbn.
  by rewrite strings_json_round_trip.
Qed.

Section SecondFactor.
Context (c : Context_) (code t : str) (x : Session) (s0 : AppState).
Context (Hb : bearer_token c = Some t) (Hx : sessions (sessions_ s0) !! t = Some x) (Hp : s_mfa_pending x = true).

(** Nothing has happened but idle bookkeeping. *)
Definition stale_state (s : AppState) : Prop := exists g, fades (sessions_ s0) g /\ s = with_sessions g s0.

(** What holds of every outcome. *)
Definition promoted_rightly {A} (_ : exec A) (s' : AppState) : Prop :=
  forall x', sessions (sessions_ s') !! t = Some x' -> s_mfa_pending x' = false ->
  second_factor_shown c code (s_admin_id x) (s_wrap_key x) s0 s'.

Lemma not_promoted {A} (r : exec A) g s' : fades (sessions_ s0) g -> sessions_ s' = g -> promoted_rightly r s'.
Proof.
  intros [_ Hf] <- x' Hx' Hp'. destruct (Hf t x' Hx') as (y & Hy & _ & _ & _ & E). simplify_eq. congruence.
Qed.

Lemma stale_promoted {A} (r : exec A) s : stale_state s -> promoted_rightly r s.
Proof. intros (g & Hf & ->). by eapply not_promoted. Qed.

Lemma stale_touch now {A} (Q : option Session -> St AppState A) R :
  (forall o, (forall y, o = Some y -> same_standing x y) -> triple stale_state (Q o) R) ->
  triple stale_state (touch_session now t ≫= Q) R.
Proof.
  intros HQ s (g & Hf & ->). unfold mbind, St_bind.
  destruct (touch_run now t (with_sessions g s0)) as (o & g' & -> & Hf' & Ho). apply HQ; [|by exists g'; split; [etrans|]].
  intros y ->. destruct (Ho y eq_refl) as (z & Hz & Sz). destruct (proj2 Hf t z Hz) as (w & Hw & Sw).
  simplify_eq. unfold same_standing in *. destruct_and!. split_and!; congruence.
Qed.

Lemma stale_read {A B} (f : AdminStore -> Result A) (k : A -> Handler B) :
  (forall a, f (admin_store s0) = Ok a -> triple stale_state (k a) promoted_rightly) ->
  triple stale_state (st_try (read_admin f) k) promoted_rightly.
Proof.
  intros Hk. eapply (triple_try _ _ _ (fun a s => f (admin_store s0) = Ok a /\ stale_state s)).
  - intros s (g & Hf & ->). unfold read_admin. cbn [fst snd admin_store with_sessions].
    destruct (f (admin_store s0)); cbn [map_err]; [split; [done|]; by exists g|]. by eapply not_promoted.
  - intros a s [Ha Hs]. by apply (Hk a Ha).
Qed.

Lemma faded_keeps {A} (m : Handler A) (P : AppState -> Prop) :
  (forall s, P s -> fades (sessions_ s0) (sessions_ s)) ->
  keeps (fun s => fades (sessions_ s0) (sessions_ s)) m -> triple P m promoted_rightly.
Proof.
  intros HP Hk s Hs. exact (not_promoted _ _ _ (Hk s (HP s Hs)) eq_refl).
Qed.

Lemma shown_keeps {A} (m : Handler A) (P : AppState -> Prop) :
  (forall s, P s -> second_factor_shown c code (s_admin_id x) (s_wrap_key x) s0 s) ->
  keeps (second_factor_shown c code (s_admin_id x) (s_wrap_key x) s0) m -> triple P m promoted_rightly.
Proof. intros HP Hk s Hs x' _ _. exact (Hk s (HP s Hs)). Qed.

Lemma stale_faded s : stale_state s -> fades (sessions_ s0) (sessions_ s).
Proof. by intros (g & Hf & ->). Qed.

Lemma faded_sessions g s :
  fades (sessions_ s) g -> fades (sessions_ s0) (sessions_ s) -> fades (sessions_ s0) (sessions_ (with_sessions g s)).
Proof. intros H1' H2'. by etrans. Qed.

Lemma shown_admin s s' :
  admin_store s' = admin_store s -> second_factor_shown c code (s_admin_id x) (s_wrap_key x) s0 s ->
  second_factor_shown c code (s_admin_id x) (s_wrap_key x) s0 s'.
Proof. intros E [S1 S2]. split; [done|]. by rewrite E. Qed.

(** The whole call: the session is promoted only for a code shown. *)
Lemma mfa_verify_shown : triple (eq s0) (mfa_verify server_domain c code) promoted_rightly.
Proof.
  unfold mfa_verify.
  eapply (triple_try _ _ _ (fun ta s => ta = (t, s_admin_id x) /\ stale_state s)).
  { intros s <-. destruct (session_admin_run c 0 s0) as (r & g & -> & Hf & Hr). cbn [fst snd].
    destruct r as [[t' id]|e]; [|by eapply not_promoted].
    destruct (Hr t' id eq_refl) as (Ht & y & Hy & ->). simplify_eq. split; [done|]. by exists g. }
  intros [t' id]. apply triple_fact. intros [= -> ->]. apply stale_touch. intros o1 _.
  destruct (negb _); [intros s; apply stale_promoted|]. unfold session_wrap_key.
  eapply (triple_try _ _ _ (fun wk s => wk = s_wrap_key x /\ stale_state s)).
  { apply stale_touch. intros [y|] Ho s Hs; cbn; [|by apply stale_promoted].
    split; [|done]. by destruct (Ho y eq_refl) as (_ & -> & _). }
  intros wk. apply triple_fact. intros ->. unfold require_username.
  eapply (triple_try _ _ _ (fun _ => stale_state)).
  { eapply (triple_try _ _ _ (fun _ => stale_state)).
    - intros s Hs. exact Hs.
    - intros [u|] s Hs; cbn; [done|by apply stale_promoted]. }
  intros username.
  eapply (triple_try _ _ _ (fun _ s =>
    Throttle.check (login_throttle s0) (mfa_throttle_key (s_admin_id x)) (instant c 3) = Ok tt /\ stale_state s)).
  { intros s (g & Hf & ->). cbn. destruct (Throttle.check _ _ _) as [[]|]; cbn; [split; [done|by exists g]|].
    by eapply not_promoted. }
  intros _. apply triple_fact. intros Hth. apply stale_read. intros secret Hsec.
  eapply (triple_bind _ _ _ (fun r s => stale_state s /\ (r = Done true -> exists sec,
    secret = Some sec /\ totp_check sec code (now_unix c) = true))).
  { intros s Hs. destruct secret as [sec|]; cbn; [|done]. split; [done|].
    unfold check_code, mbind, exec_bind. destruct (totp_for _ _ _); [|done]. intros [= E]. by exists sec. }
  2: { intros s [Hs _]. by apply stale_promoted. }
  intros live. eapply (triple_try _ _ _ (fun used s => fades (sessions_ s0) (sessions_ s) /\
    (live || used = true -> second_factor_shown c code (s_admin_id x) (s_wrap_key x) s0 s))).
  { intros s [Hs Hl]. destruct live.
    - cbn. split; [by apply stale_faded|]. intros _. split; [done|]. left.
      destruct (Hl eq_refl) as (sec & -> & Hc). by exists sec.
    - destruct Hs as (g & Hf & ->). cbn [with_sessions].
      destruct (try_recovery_code_run (s_admin_id x) code (with_sessions g s0)) as (r & a & -> & Hr).
      cbn [fst snd]. destruct r as [used|e]; [|by eapply not_promoted]. split; [done|].
      cbn. intros ->. split; [done|]. right. exact (Hr eq_refl). }
  intros used. destruct (live || used) eqn:El; cbn [negb].
  - eapply shown_keeps; [intros s [_ Hs]; by apply Hs|].
    repeat keeps_step; by (eapply shown_admin; [|eassumption]).
  - eapply faded_keeps; [by intros s [Hs _]|]. repeat keeps_step; done.
Qed.

End SecondFactor.
(** C19.  The second factor cannot be skipped: a session waiting for it
    stays waiting, or goes, under every request of any client (whose fresh
    token is another one), except a code check made with that very token
    which the throttle allows and whose code is a live TOTP code of the
    admin's secret -- opened with the session's key -- or one of its stored
    recovery codes, which is then struck off the list. *)
Theorem second_factor_gate (c : Context_) (call : Call) (t : str) (x : Session) (s : AppState) :
  sessions (sessions_ s) !! t = Some x -> s_mfa_pending x = true -> hex_encode (token_bytes c) <> t ->
  let s' := (handle_ c call s).2 in
  forall x', sessions (sessions_ s') !! t = Some x' -> s_mfa_pending x' = false ->
  exists code, call = CMfaVerify code /\ bearer_token c = Some t /\
    second_factor_shown c code (s_admin_id x) (s_wrap_key x) s s'.
Proof.
  intros Hx Hp Hn s' x' Hx' Hp'.
  assert (Hcase : (exists code, call = CMfaVerify code /\ bearer_token c = Some t) \/
    forall code, call = CMfaVerify code -> bearer_token c <> Some t).
  { destruct (decide (bearer_token c = Some t)) as [Hb|Hb]; [|by right].
    destruct call as [| | | |code| | | | | | | | | | | | | | |]; try (right; intros ? ?; discriminate).
    left. by exists code. }
  destruct Hcase as [(code & -> & Hb)|Hno].
  - exists code. split_and!; [done..|].
    exact (mfa_verify_shown c code t x s Hb Hx Hp s eq_refl x' Hx' Hp').
  - exfalso. assert (Hk : keeps (pending_at t) (handle_ c call)).
    { by apply handle_pending. }
    assert (Hs : pending_at t s) by (intros y Hy; simplify_eq; done).
    specialize (Hk s Hs x' Hx'). congruence.
Qed.

(** *** The database invariant *)
Section AdminTables.
Context (catch_all : str -> Prop) (Hcatch : forall v, valid_local_part v = true -> catch_all v).

Definition admin_ok (s : AppState) : Prop := admin_inv_with catch_all (admin_store s) /\ auth_inv (auth_store s).

Ltac admin_ok_tac :=
  repeat (keeps_step; try assumption);
  try (unfold admin_ok in *;
       cbn [admin_store auth_store with_admin with_sessions with_auth with_queue with_audit with_throttle];
       match goal with Hs : _ /\ _ |- _ => destruct Hs end; split; auto with litterae).

Lemma require_admin_ok c : keeps admin_ok (require_admin c).
Proof. unfold require_admin, session_admin. admin_ok_tac. Qed.

Lemma checked_catch_all ca : bad_catch_all ca = false -> catch_all_ok catch_all ca.
Proof. destruct ca; cbn; [|done]. intros Hv%negb_false_iff. by apply Hcatch. Qed.

(** Enrolment is confirmed with the secret at hand. *)
Lemma mfa_confirm_ok c code : keeps admin_ok (mfa_confirm server_domain c code).
Proof.
  unfold mfa_confirm, session_wrap_key, require_username. apply keeps_try; [apply require_admin_ok|intros id].
  do 3 (apply keeps_try; [admin_ok_tac|intros ?]).
  set (I := fun (sec : option str) s => admin_ok s /\ (is_Some sec -> exists r, find_admin (admin_store s) id = Some r /\
              is_Some (totp_wrapped_secret r))).
  eapply (triple_try _ _ _ I).
  { intros s Hs. cbn. destruct (totp_secret _ _ _) as [sec|] eqn:Es; cbn; [|done]. split; [done|].
    unfold totp_secret in Es. destruct (find_admin _ _) as [r|]; [|done]. intros Hsec. exists r. split; [done|].
    destruct (totp_wrapped_secret r); [done|]. simplify_eq. by destruct Hsec. }
  intros [sec|]; [|by intros s [Hs _]]. eapply (triple_try _ _ _ (fun _ => I (Some sec))); [by intros s Hs|].
  intros sec'. eapply (triple_bind _ _ _ (fun _ => I (Some sec))); [by intros s Hs| |by intros s [Hs _]].
  intros live. destruct (negb live); [by intros s [Hs _]|]. destruct (generate_recovery_codes _) as [pt hashed].
  eapply (triple_try _ _ _ (fun _ => admin_ok)).
  - intros s [Hs Hr]. destruct (Hr ltac:(by eexists)) as (r & Er & Hw). destruct Hs as [Hs Ha]. split; [|exact Ha].
    by apply (confirm_totp_inv _ _ _ _ r).
  - intros []. match goal with |- triple _ ?m _ => change (keeps admin_ok m) end. admin_ok_tac.
Qed.

Lemma handle_admin_ok c call : keeps admin_ok (handle_ c call).
Proof.
  destruct call; cbn [handle];
    unfold status, login, logout, change_password, mfa_verify, mfa_enroll, mfa_disable, list_domains,
      create_domain, update_domain, delete_domain, domain_dkim, verify_domain, list_accounts, create_account,
      delete_account, queue_status, audit_log, logs, session_wrap_key, require_username, change_keys,
      try_recovery_code, require_domain, session_admin.
  all: try apply mfa_confirm_ok.
  all: try (apply keeps_try; [apply require_admin_ok|intros ?]).
  all: admin_ok_tac.
  - bool_facts. by apply create_domain_inv; [apply checked_catch_all|].
  - by apply set_catch_all_inv; [apply checked_catch_all|].
Qed.

End AdminTables.

(** The admin and account databases stay well formed under every request: ids and
    user names of admins, ids and (lower-case) names of domains stay unique,
    TOTP is enabled only with a wrapped secret and a list of recovery codes,
    a wrapped secret always comes with its key number, every domain has a
    challenge token and its catch-all is a valid local part; and so do the
    accounts: ids and addresses stay unique, and the ids of application
    passwords. *)
Theorem requests_keep_admin_inv (calls : list (Context_ * Call)) (s : AppState) :
  admin_inv (admin_store s) -> auth_inv (auth_store s) ->
  let s' := foldl (fun s r => (handle_ r.1 r.2 s).2) s calls in
  admin_inv (admin_store s') /\ auth_inv (auth_store s').
Proof.
  revert s. induction calls as [|[c call] calls IH]; intros s Hs Ha; [done|]. cbn [foldl fst snd].
  apply IH; by apply (handle_admin_ok (fun v => valid_local_part v = true) ltac:(done) c call s).
Qed.

(** *** The log reader *)

(** A line that passes the filters, as the reader reports it. *)
Definition log_match (since until : Z) (level : option str) (line : str) : option str :=
  '(ts, lvl, value) ← parse_log_line line;
  if (since <=? ts)%Z && (ts <=? until)%Z && (match level with Some want => str_eqb lvl want | None => true end)
  then Some value else None.

Definition newest_lines (files : list (option str)) : list str :=
  mjoin ((fun f => match f with Some content => reverse (lines content) | None => [] end) <$> files).

Lemma collect_lines_spec since until level limit ls results :
  (length results <= limit)%nat ->
  collect_lines since until level limit ls results
  = results ++ take (limit - length results) (omap (log_match since until level) ls).
Proof.
  revert results. induction ls as [|line ls IH]; intros results Hl; cbn [collect_lines omap list_omap];
    [by rewrite take_nil, app_nil_r|].
  destruct (limit <=? length results)%nat eqn:El; bool_facts.
  { replace (limit - length results)%nat with 0%nat by lia. by rewrite take_0, app_nil_r. }
  unfold log_match at 1. destruct (parse_log_line line) as [[[ts lvl] value]|]; cbn; [|by apply IH].
  rewrite !Z.ltb_antisym, <- negb_andb.
  destruct ((since <=? ts)%Z && (ts <=? until)%Z); cbn; [|by apply IH].
  destruct level as [want|]; [destruct (str_eqb lvl want)|]; cbn; try (by apply IH);
    (rewrite IH by (rewrite length_app; cbn; lia));
    rewrite length_app, <- (assoc_L (++)); cbn; f_equal;
    (replace (limit - length results)%nat with (S (limit - (length results + 1))) by lia); done.
Qed.

(** The log reader is equivalent to its reference: of all readable
    files, newest first, and in each the lines from the last to the first, it
    reports the entries inside the time window and of the wanted level, the
    first [limit] of them, in that order. *)
Theorem collect_files_reference (since until : Z) (level : option str) (limit : nat) (files : list (option str)) :
  collect_files since until level limit files []
  = take limit (omap (log_match since until level) (newest_lines files)).
Proof.
  enough (Hgen : forall results, (length results <= limit)%nat ->
    collect_files since until level limit files results
    = results ++ take (limit - length results) (omap (log_match since until level) (newest_lines files))).
  { rewrite (Hgen [] ltac:(cbn; lia)). cbn. by rewrite Nat.sub_0_r. }
  unfold newest_lines. induction files as [|[content|] files IH]; intros results Hl; cbn [collect_files fmap list_fmap mjoin list_join].
  - cbn. by rewrite take_nil, app_nil_r.
  - rewrite collect_lines_spec by done. rewrite omap_app, take_app. rewrite IH.
    + rewrite <- (assoc_L (++)). do 2 f_equal. rewrite length_app, length_take. f_equal. lia.
    + rewrite length_app, length_take. lia.
  - by apply IH.
Qed.

(** *** Password changes *)
Lemma touch_live now t s x :
  sessions (sessions_ s) !! t = Some x -> within (sessions_ s) (last_seen x) now = true ->
  exists g, touch_session now t s = (Done (Some (seen now x)), with_sessions g s) /\
    sessions g !! t = Some (seen now x) /\ idle_timeout g = idle_timeout (sessions_ s).
Proof.
  intros Hx Hl. destruct (touch_session_some now t s x Hx) as (g & [Hi _] & Hg). rewrite Hl in Hg.
  destruct Hg as [Hg1 Hg2]. by exists g.
Qed.

(** The session whose password is being changed, and the admin it is for. *)
Record password_session (c : Context_) (t : str) (x : Session) (r : AdminRow) (s : AppState) : Prop := {
  ps_token : bearer_token c = Some t;
  ps_session : sessions (sessions_ s) !! t = Some x;
  ps_pending : s_mfa_pending x = false;
  ps_live0 : within (sessions_ s) (last_seen x) (instant c 0) = true;
  ps_live1 : within (sessions_ s) (instant c 0) (instant c 1) = true;
  ps_admin : find_admin (admin_store s) (s_admin_id x) = Some r
}.

(** The start of the call: the session is live and names its admin. *)
Lemma change_password_starts c t x r s cur new :
  password_session c t x r s -> (12 <= length new)%nat ->
  exists g, sessions g !! t = Some (seen (instant c 1) (seen (instant c 0) x)) /\
    idle_timeout g = idle_timeout (sessions_ s) /\
    change_password argon2_config c cur new s = (
      keys ←? change_keys argon2_config c (s_admin_id x) (adm_username r) cur new;
      let '(old_wrap_key, new_wrap_key) := keys : str * str in
      _ ←? rewrap_audit c old_wrap_key new_wrap_key;
      _ ←? on_admin INTERNAL_SERVER_ERROR (fun a =>
        rewrap_totp_secret (nonce_bytes c 1) a (s_admin_id x) old_wrap_key new_wrap_key);
      done ← st_zoom sessions_ with_sessions (fun g =>
        let '(r, g') := complete_password_change (instant c 2) g t (s_admin_id x) new_wrap_key in (Done r, g'));
      if negb done then mret (Err UNAUTHORIZED)
      else
        _ ← audit c (# "admin.password_change") (adm_username r);
        mret (Ok RNoContent)) (with_sessions g s).
Proof.
  intros [Hb Hx Hp L0 L1 Ha] Hn.
  destruct (touch_live (instant c 0) t s x Hx L0) as (g0 & E0 & G0 & I0).
  assert (L1' : within (sessions_ (with_sessions g0 s)) (last_seen (seen (instant c 0) x)) (instant c 1) = true)
    by (unfold within in *; cbn; by rewrite I0).
  destruct (touch_live (instant c 1) t (with_sessions g0 s) _ G0 L1') as (g1 & E1 & G1 & I1).
  exists g1. split; [done|]. split; [by rewrite I1|].
  unfold change_password. rewrite (proj2 (Nat.ltb_ge _ _)) by done.
  assert (Es : session_admin c 0 s = (Done (Ok (t, s_admin_id x)), with_sessions g0 s)).
  { unfold session_admin. rewrite (run_try _ _ s s t) by by rewrite Hb. rewrite (run_bind _ _ _ _ _ E0). done. }
  cbv iota. rewrite (run_try _ _ _ _ _ Es), (run_bind _ _ _ _ _ E1). cbn [fmap option_fmap option_map seen s_mfa_pending].
  rewrite Hp, decide_some_false. cbn [negb]. change (with_sessions g1 (with_sessions g0 s)) with (with_sessions g1 s).
  rewrite (run_try _ _ _ (with_sessions g1 s) (adm_username r)); [done|].
  unfold require_username, st_try, read_admin, username_for_id, mbind, St_bind. cbn [admin_store with_sessions].
  by rewrite Ha.
Qed.

(** C20.  A password change moves everything the old password unlocked to
    the new one, in one step.  For a live session past its second factor, the
    right current password and a new one of at least 12 bytes: the call
    succeeds; the new password logs in, with no further change demanded; the
    audit log holds the same entries and one more, all readable with the new
    key; the TOTP secret opens under the new key as it did under the old;
    and of all sessions only the caller's remains, holding the new key. *)
Theorem password_change_rekeys (c : Context_) (t : str) (x : Session) (r : AdminRow) (s : AppState) (sp : AuditSpec)
    `{!PrimitiveLaws} (cur new wk : str) :
  password_session c t x r s -> (12 <= length new)%nat ->
  admin_inv (admin_store s) -> length (adm_salt r) = SALT_LEN -> length (salt_bytes c) = SALT_LEN ->
  derive_pk cur (adm_salt r) argon2_config = Ok (derived_key r) ->
  derive_pk new (salt_bytes c) argon2_config = Ok wk ->
  refines (audit_store s) sp -> sp_key sp = derived_key r ->
  (forall w, totp_wrapped_secret r = Some w -> is_ok (committing_open (derived_key r) w) = true) ->
  length (nonce_bytes c 0) = NONCE_LEN -> length (nonce_bytes c 1) = NONCE_LEN ->
  exists s' sp', handle_ c (CChangePassword cur new) s = (Done (Ok RNoContent), s') /\
    verify_login (admin_store s') (adm_username r) new argon2_config
    = Ok (Some (mkAdmin (s_admin_id x) (adm_username r) false (adm_created_at r) (negb (totp_enabled r =? 0)%Z), wk)) /\
    refines (audit_store s') sp' /\ sp_key sp' = wk /\
    sp_entries sp' = sp_entries sp ++ [mkAuditEntry (sp_next sp) (now_unix c) (# "admin.password_change") (adm_username r)] /\
    totp_secret (admin_store s') (s_admin_id x) wk = totp_secret (admin_store s) (s_admin_id x) (derived_key r) /\
    sessions (sessions_ s') = {[t := mkSession (s_admin_id x) wk false false (instant c 2)]}.
Proof.
  intros Hps Hn Hinv Hsalt Hsalt' Hcur Hnew Hr Hkey Ho Hn0 Hn1.
  destruct (change_password_starts c t x r s cur new Hps Hn) as (g & Hg & _ & E). cbn [handle]. rewrite E. clear E.
  destruct Hps as [Hb Hx Hp _ _ Ha].
  set (f := fun r0 => mkAdminRow (adm_id r0) (adm_username r0) (salt_bytes c) wk 0 (adm_created_at r0)
             (totp_wrapped_secret r0) (totp_key_id r0) (totp_enabled r0) (totp_recovery_codes r0)).
  set (a1 := update_admin (s_admin_id x) f (admin_store s)).
  assert (Ha1 : find_admin a1 (s_admin_id x) = Some (f r)) by by apply find_update_same.
  assert (Hinv1 : admin_inv a1) by by apply update_admin_inv.
  assert (Hok : admin_row_ok (f r)).
  { destruct (find_admin_in _ _ _ Ha1) as [Hin _]. pose proof (av_admins _ _ Hinv1) as Hall.
    rewrite Forall_forall in Hall. by apply Hall. }
  destruct (rewrap_refines _ _ (nonce_bytes c 0) wk Hr Hn0) as (l1 & El & Hr1). rewrite Hkey in El.
  destruct (rewrap_totp_secret_ok (nonce_bytes c 1) a1 (s_admin_id x) (f r) (derived_key r) wk Hn1 Ha1 Hok Ho)
    as (h & Hhid & Eh & Hsec & Hh).
  destruct (log_refines _ _ (audit_rand c) (now_unix c) (# "admin.password_change") (adm_username r) Hr1) as (l2 & El2 & Hr2).
  set (s1 := with_admin a1 (with_sessions g s)). set (s2 := with_audit l1 s1).
  set (s3 := with_admin (update_admin (s_admin_id x) h a1) s2).
  set (g' := mkRegistry {[t := mkSession (s_admin_id x) wk false false (instant c 2)]} (idle_timeout g)).
  exists (with_audit l2 (with_sessions g' s3)). eexists. split.
  { rewrite (run_try _ _ _ s1 (derived_key r, wk)).
    2: { unfold change_keys. rewrite (run_try _ _ _ (with_sessions g s) (Some (mkAdmin (s_admin_id x) (adm_username r)
           (negb (must_change r =? 0)%Z) (adm_created_at r) (negb (totp_enabled r =? 0)%Z), derived_key r))).
         - rewrite (run_try _ _ _ s1 wk); [done|]. unfold on_admin, AdminStore.change_password. by rewrite Hnew.
         - unfold read_admin. cbn [admin_store with_sessions]. by rewrite (verify_login_ok (catch_all := fun v => valid_local_part v = true) _ (s_admin_id x) r). }
    rewrite (run_try _ _ _ s2 tt) by (unfold rewrap_audit; cbn [s1 audit_store with_admin with_sessions]; by rewrite El).
    rewrite (run_try _ _ _ s3 tt) by (unfold on_admin; cbn [s2 s1 admin_store with_admin with_audit]; by rewrite Eh).
    rewrite (run_bind _ _ _ (with_sessions g' s3) true).
    2: { unfold st_zoom, complete_password_change. cbn [s3 s2 s1 sessions_ with_admin with_audit with_sessions].
         rewrite Hg. cbn [seen s_admin_id s_mfa_pending]. by rewrite Z.eqb_refl, Hp. }
    cbn [negb]. rewrite (run_bind _ _ _ (with_audit l2 (with_sessions g' s3)) tt); [done|].
    unfold audit. cbn [s3 s2 s1 audit_store with_admin with_audit with_sessions]. by rewrite El2. }
  split; [|split_and!; try done].
  - cbn [admin_store with_audit with_sessions s3 with_admin].
    assert (Hx3 : find_admin (update_admin (s_admin_id x) h a1) (s_admin_id x) = Some (h (f r)))
      by by apply find_update_same.
    pose proof (rewrap_totp_secret_inv _ (nonce_bytes c 1) a1 (s_admin_id x) (derived_key r) wk Hinv1) as Hinv3.
    rewrite Eh in Hinv3. cbn [snd] in Hinv3.
    pose proof (verify_login_ok _ _ _ new argon2_config Hinv3 Hx3) as Hv. rewrite (Hh (f r)) in Hv.
    by apply Hv.
  - etrans; [exact Hsec|]. unfold totp_secret. by rewrite Ha1, Ha.
Qed.

Lemma audit_run c action detail s : exists r a, audit c action detail s = (r, with_audit a s).
Proof. unfold audit. destruct (log _ _ _ _ _) as [r a]. eauto. Qed.

(** A login attempt under a name no admin has. *)
Lemma login_unknown c u pw s :
  (forall r, r ∈ admins (admin_store s) -> adm_username r <> u) ->
  Throttle.check (login_throttle s) u (instant c 0) = Ok tt ->
  exists r a, login argon2_config c u pw s =
    (r, with_audit a (with_throttle (Throttle.record_failure (login_throttle s) u (instant c 1)) s)).
Proof.
  intros Hu Ht. unfold login. rewrite (run_try _ _ _ s tt) by (unfold throttle_check; by rewrite Ht).
  rewrite (run_try _ _ _ s None) by (unfold read_admin; by rewrite verify_login_unknown).
  rewrite (run_bind _ _ s (with_throttle (Throttle.record_failure (login_throttle s) u (instant c 1)) s) tt)
    by reflexivity.
  match goal with |- context [(audit c ?a ?d ≫= ?k) ?s] => destruct (audit_run c a d s) as (r & a' & Ea) end.
  unfold mbind, St_bind. rewrite Ea. destruct r; by do 2 eexists.
Qed.

(** The second factor shares the login throttle after all: a login
    attempt as "mfa:<id>" -- which needs no credentials -- locks the code
    check of the admin with that id for at least the base delay; until then
    not even the right code completes the login. *)
Theorem login_locks_second_factor (c c' : Context_) (id : Z) (pw code t : str) (x : Session) (s : AppState) :
  (forall r, r ∈ admins (admin_store s) -> adm_username r <> mfa_throttle_key id) ->
  let tr := login_throttle s in
  (0 <= Throttle.base_delay tr <= Throttle.DURATION_MAX)%Z ->
  Throttle.check tr (mfa_throttle_key id) (instant c 0) = Ok tt ->
  sessions (sessions_ s) !! t = Some x -> s_mfa_pending x = true -> s_admin_id x = id ->
  bearer_token c' = Some t ->
  (instant c' 3 < instant c 1 + Z.min (Throttle.base_delay tr) (Throttle.max_delay tr))%Z ->
  let s1 := (handle_ c (CLogin (mfa_throttle_key id) pw) s).2 in
  sessions (sessions_ s1) !! t = Some x /\
  forall x', sessions (sessions_ (handle_ c' (CMfaVerify code) s1).2) !! t = Some x' -> s_mfa_pending x' = true.
Proof.
  intros Hu tr Hb Hc Hx Hp Hid Ht' Hn. cbn [handle].
  destruct (login_unknown c (mfa_throttle_key id) pw s Hu Hc) as (r & a & ->). cbn [snd].
  split; [exact Hx|]. intros x' Hx'. destruct (s_mfa_pending x') eqn:Ep; [done|]. exfalso.
  pose proof (mfa_verify_shown c' code t x (with_audit a (with_throttle _ s)) Ht' Hx Hp _ eq_refl x' Hx' Ep) as [Hs _].
  rewrite Hid in Hs. cbn [login_throttle with_audit with_throttle] in Hs.
  pose proof (Throttle.check_after_failure tr (mfa_throttle_key id) (instant c 1) (instant c' 3) Hb Hn) as Hf.
  unfold tr in Hf. by rewrite Hs in Hf.
Qed.

(** The audit log does not ask for the second factor: whatever the
    session still waits for -- its second factor, a forced password change --
    a live token reads the last hundred entries with the key the password
    alone yielded. *)
Theorem audit_log_open_to_pending (c : Context_) (t : str) (x : Session) (s : AppState) (l : list AuditEntry) :
  bearer_token c = Some t -> sessions (sessions_ s) !! t = Some x ->
  within (sessions_ s) (last_seen x) (instant c 0) = true -> within (sessions_ s) (instant c 0) (instant c 1) = true ->
  read_recent utf8_error (audit_store s) (s_wrap_key x) 100 = Done (Ok l) ->
  (handle_ c CAuditLog s).1 = Done (Ok (RAudit l)).
Proof.
  intros Hb Hx L0 L1 Hl. cbn [handle]. unfold audit_log.
  destruct (touch_live (instant c 0) t s x Hx L0) as (g0 & E0 & G0 & I0).
  assert (L1' : within (sessions_ (with_sessions g0 s)) (last_seen (seen (instant c 0) x)) (instant c 1) = true)
    by (unfold within in *; cbn; by rewrite I0).
  destruct (touch_live (instant c 1) t (with_sessions g0 s) _ G0 L1') as (g1 & E1 & G1 & I1).
  rewrite (run_try _ _ _ (with_sessions g0 s) (t, s_admin_id x)).
  2: { unfold session_admin. rewrite (run_try _ _ s s t) by by rewrite Hb. by rewrite (run_bind _ _ _ _ _ E0). }
  rewrite (run_try _ _ _ (with_sessions g1 s) (s_wrap_key x)).
  2: { unfold session_wrap_key. cbn [fst]. by rewrite (run_bind _ _ _ _ _ E1). }
  rewrite (run_bind st_get _ _ (with_sessions g1 s) (with_sessions g1 s) eq_refl).
  rewrite (run_bind _ _ _ (with_sessions g1 s) (Ok l)); [done|]. unfold st_exec.
  cbn [audit_store with_sessions]. by rewrite Hl.
Qed.

End Theorems.


(** ** Witnesses *)

(** A concrete coding of a list of strings, in bits. *)
Fixpoint bits_of (p : positive) : str :=
  match p with xH => [] | xO p => "0"%char :: bits_of p | xI p => "1"%char :: bits_of p end.
Fixpoint of_bits (s : str) : positive :=
  match s with [] => xH | c :: s => if Ascii.eqb c "0" then xO (of_bits s) else xI (of_bits s) end.

Lemma of_bits_of p : of_bits (bits_of p) = p.
Proof. induction p as [p IH|p IH|]; cbn; by rewrite ?IH. Qed.

#[local] Instance toy_json : StringListJson.
Proof.
  refine {| strings_to_json := fun l => bits_of (countable.encode l); strings_from_json := fun s => countable.decode (of_bits s) |}.
  intros l. by rewrite of_bits_of, decode_encode.
Defined.

#[local] Instance toy_totp : TotpLibrary := {|
  totp_accepts := fun _ _ _ => true;
  totp_url := fun secret _ _ => secret;
  totp_base32 := fun secret => secret;
  totp_check := fun secret code _ => str_eqb secret code
|}.

#[local] Instance no_dns : DnsLibrary := {| lookup_dns := fun _ _ => Ok []; net_error_display := fun _ => [] |}.

#[local] Instance no_logs : LogLibrary := {|
  json_from_str := fun _ => None; json_get_str := fun _ _ => None; rfc3339_parse := fun _ => None;
  to_uppercase := fun s => s; datetime_ok := fun _ => true
|}.

#[local] Existing Instance toy_primitives.
#[local] Existing Instance toy_laws.
#[local] Existing Instance toy_BlobHash.
#[local] Existing Instance first_row.
#[local] Existing Instance as_listed.

Definition wit_config : Z * Z * Z := (65536, 3, 4)%Z.
Definition wit_user : str := # "root".
Definition wit_key : str := pad 32 (# "first password" ++ pad 16 []).
Definition wit_admins : AdminStore :=
  (AdminStore.bootstrap (pad 16 []) 1 empty_admin wit_user (# "first password") wit_config).2.
Definition wit_admins_mfa : AdminStore :=
  (confirm_totp (set_pending_totp (pad 24 []) wit_admins 1 wit_key (# "123456")).2 1 [hash_recovery_code (# "rescue")]).2.
Definition wit_audit : AuditStore :=
  (bootstrap_keys (pad 32 (# "priv")) (pad 32 (# "seed")) (pad 32 []) (pad 24 []) empty_audit wit_key).2.
Definition wit_state (a : AdminStore) : AppState := new_state a empty_auth empty_queue wit_audit.
Definition wit_ctx (bytes : str) (auth : option str) (clock : Z) : Context_ :=
  mkContext auth (fun i => clock + Z.of_nat i)%Z 100 bytes (pad 16 (# "s")) (fun _ => pad 24 []) (# "secret")
    (# "domain") (fun _ => # "raw") (pad 32 []) (mkProvisionRand [] [] [] [] []) (Err []).
Definition wit_token : str := hex_encode (# "token").
Definition wit_bearer : option str := Some (# "Bearer " ++ wit_token).

Abbreviation wit_handle :=
  (handle (fun s => s) Some (fun s => s) wit_config (# "example.com") None).

(** Logged in with the password, the second factor pending. *)
Definition wit_pending : AppState :=
  (wit_handle (wit_ctx (# "token") None 0) (CLogin wit_user (# "first password")) (wit_state wit_admins_mfa)).2.

Definition wit_session (a : AdminStore) (pending : bool) : AppState :=
  with_sessions (mkRegistry {[wit_token := mkSession 1 wit_key true pending 0]} DEFAULT_IDLE_TIMEOUT) (wit_state a).

Lemma admin_gate_witness :
  exists e g, (e = UNAUTHORIZED \/ e = FORBIDDEN) /\
    wit_handle (wit_ctx [] wit_bearer 5) (CDeleteAccount 1) wit_pending = (Done (Err e), with_sessions g wit_pending) /\
    fades (sessions_ wit_pending) g.
Proof.
  assert (E : standing (wit_ctx [] wit_bearer 5) wit_pending = None) by (vm_compute; reflexivity).
  pose proof (admin_gate (fun s => s) Some (fun s => s) wit_config (# "example.com") None (wit_ctx [] wit_bearer 5) (CDeleteAccount 1) wit_pending eq_refl) as Hg.
  rewrite E in Hg. exact Hg.
Defined.

(** The recovery code lets the session through and is used up. *)
Definition wit_rescued : AppState :=
  (wit_handle (wit_ctx [] wit_bearer 5) (CMfaVerify (# "rescue")) (wit_session wit_admins_mfa true)).2.

Lemma second_factor_gate_witness :
  recovery_codes (admin_store wit_rescued) 1 = Ok [] /\
  exists code, CMfaVerify (# "rescue") = CMfaVerify code /\ authorization (wit_ctx [] wit_bearer 5) ≫= strip_prefix (# "Bearer ") = Some wit_token /\
    second_factor_shown (wit_ctx [] wit_bearer 5) code 1 wit_key (wit_session wit_admins_mfa true) wit_rescued.
Proof.
  split; [vm_compute; reflexivity|].
  exact (second_factor_gate (fun s => s) Some (fun s => s) wit_config (# "example.com") None (wit_ctx [] wit_bearer 5) (CMfaVerify (# "rescue")) wit_token (mkSession 1 wit_key true true 0)
    (wit_session wit_admins_mfa true) ltac:(vm_compute; reflexivity) eq_refl
    ltac:(vm_compute; discriminate) (mkSession 1 wit_key true false 10)
    ltac:(vm_compute; reflexivity) eq_refl).
Defined.

Lemma wit_admins_inv : admin_inv wit_admins.
Proof. apply bootstrap_inv, empty_admin_inv. Qed.

Definition wit_calls : list (Context_ * Call) :=
               [(wit_ctx (# "token") None 0, CLogin wit_user (# "first password"));
                (wit_ctx [] wit_bearer 5, CChangePassword (# "first password") (# "second password"));
                (wit_ctx [] wit_bearer 15, CMfaEnroll);
                (wit_ctx [] wit_bearer 25, CMfaConfirm (# "secret"));
                (wit_ctx [] wit_bearer 35, CCreateDomain (# "Example.com") (Some (# "info")))].
Definition wit_served : AppState := foldl (fun s r => (wit_handle r.1 r.2 s).2) (wit_state wit_admins) wit_calls.

Lemma requests_keep_admin_inv_witness :
  is_totp_enabled (admin_store wit_served) 1 = Ok true /\ (dr_name <$> domains (admin_store wit_served)) = [ # "example.com"] /\
  admin_inv (admin_store wit_served).
Proof.
  split; [vm_compute; reflexivity|]. split; [vm_compute; reflexivity|].
  apply requests_keep_admin_inv; [exact wit_admins_inv|apply empty_auth_inv].
Defined.

Lemma password_change_rekeys_witness :
  exists s', wit_handle (wit_ctx [] wit_bearer 5) (CChangePassword (# "first password") (# "second password"))
               (wit_session wit_admins false) = (Done (Ok RNoContent), s') /\
    sessions (sessions_ s') = {[wit_token := mkSession 1 (pad 32 (# "second password" ++ pad 16 (# "s"))) false false 7]}.
Proof.
  set (r := mkAdminRow 1 wit_user (pad 16 []) wit_key 1 1 None None 0 None).
  assert (Hps : password_session (wit_ctx [] wit_bearer 5) wit_token (mkSession 1 wit_key true false 0) r
                  (wit_session wit_admins false)) by (split; vm_compute; reflexivity).
  assert (Hr : refines (audit_store (wit_session wit_admins false)) (mkSpec wit_key [] []))
    by (apply bootstrap_refines; reflexivity).
  destruct (password_change_rekeys (fun s => s) Some (fun s => s) wit_config (# "example.com") None (wit_ctx [] wit_bearer 5) wit_token (mkSession 1 wit_key true false 0) r
    (wit_session wit_admins false) (mkSpec wit_key [] []) (# "first password") (# "second password")
    (pad 32 (# "second password" ++ pad 16 (# "s"))) Hps ltac:(cbn; lia) wit_admins_inv eq_refl eq_refl
    ltac:(vm_compute; reflexivity) ltac:(vm_compute; reflexivity)
    Hr eq_refl ltac:(intros w [=]) eq_refl eq_refl)
    as (s' & sp' & E & _ & _ & _ & _ & _ & Hs).
  exists s'. split; [exact E|exact Hs].
Defined.

Definition wit_locked : AppState :=
  (wit_handle (wit_ctx [] None 5) (CLogin (# "mfa:1") []) (wit_session wit_admins_mfa true)).2.

Lemma login_locks_second_factor_witness :
  (sessions (sessions_ wit_locked) !! wit_token = Some (mkSession 1 wit_key true true 0)) /\
  forall x', sessions (sessions_ (wit_handle (wit_ctx [] wit_bearer 9) (CMfaVerify (# "rescue")) wit_locked).2) !! wit_token = Some x' ->
    s_mfa_pending x' = true.
Proof.
  apply (login_locks_second_factor (fun s => s) Some (fun s => s) wit_config (# "example.com") None (wit_ctx [] None 5) (wit_ctx [] wit_bearer 9) 1 [] (# "rescue") wit_token
    (mkSession 1 wit_key true true 0) (wit_session wit_admins_mfa true));
    try (vm_compute; reflexivity).
  - change (admins (admin_store (wit_session wit_admins_mfa true))) with (admins wit_admins_mfa).
    intros r Hr. assert (Ht : forallb (fun r => negb (str_eqb (adm_username r) (# "mfa:1"))) (admins wit_admins_mfa) = true)
      by (vm_compute; reflexivity).
    rewrite forallb_forall in Ht. specialize (Ht r (proj1 (list_elem_of_In _ _) Hr)). by bool_facts.
  - split; vm_compute; discriminate.
Defined.

Lemma audit_log_open_to_pending_witness :
  (wit_handle (wit_ctx [] wit_bearer 5) CAuditLog wit_pending).1
  = Done (Ok (RAudit [mkAuditEntry 1 100 (# "auth.login") wit_user])).
Proof.
  apply (audit_log_open_to_pending (fun s => s) Some (fun s => s) wit_config (# "example.com") None (wit_ctx [] wit_bearer 5) wit_token (mkSession 1 wit_key true true 1));
    vm_compute; reflexivity.
Defined.
