(* ===== verification/Startup.v ===== *)
(** * Startup: the binary, [server]

    src/crates/server/src/main.rs: what the process does before it serves
    (configuration, stores, the first administrator and the audit log's keys,
    TLS), its command-line subcommands, and how it ends; the sockets and the
    runtime are outside the model.  A run of the process reads the file named
    by the environment, works on the stores of one database and writes to its
    two output streams; it ends with an exit code, or panics. *)

From stdpp Require Import base list strings gmap sorting.
From Stdlib Require Import Ascii ZArith Lia.
From S2P Require Import Prelude RustStr Config Input Header Limits Scan Store Sealing Auth DnsRecords AdminStore AuditLog Delivery Backoff Queue Dane Admin.
Import Store.Blob Store.Metadata.

(** ** What a run works on *)
Record Disk : Type := mkDisk {
  dk_auth : AuthStore;
  dk_admin : AdminStore;
  dk_audit : AuditStore;
  dk_queue : QueueStore;
  dk_mail : MailStore
}.

(** The stores, and what was written to the streams. *)
Record World : Type := mkWorld { disk : Disk; stdout : str; stderr : str }.

Definition with_disk (d : Disk) (w : World) : World := mkWorld d (stdout w) (stderr w).
Definition put_auth (x : AuthStore) (d : Disk) : Disk := mkDisk x (dk_admin d) (dk_audit d) (dk_queue d) (dk_mail d).
Definition put_admin (x : AdminStore) (d : Disk) : Disk := mkDisk (dk_auth d) x (dk_audit d) (dk_queue d) (dk_mail d).
Definition put_audit (x : AuditStore) (d : Disk) : Disk := mkDisk (dk_auth d) (dk_admin d) x (dk_queue d) (dk_mail d).
Definition put_queue (x : QueueStore) (d : Disk) : Disk := mkDisk (dk_auth d) (dk_admin d) (dk_audit d) x (dk_mail d).

(** The clock and the random values a run draws. *)
Record StartRand : Type := mkStartRand {
  sr_now : Z;
  sr_admin_salt : str;
  sr_audit_priv : str; sr_audit_seed : str; sr_audit_chain : str; sr_audit_nonce : str;
  sr_account : ProvisionRand;
  sr_rsa : result str (str * str);
  sr_token : str;
  sr_backfill : nat -> str
}.

(** [process::exit(code)] is [Err code]. *)
Abbreviation Process A := (St World (result Z A)).

Definition println (line : str) : Process unit := fun w =>
  (Done (Ok tt), mkWorld (disk w) (stdout w ++ line ++ [LF]) (stderr w)).
Definition print (text : str) : Process unit := fun w =>
  (Done (Ok tt), mkWorld (disk w) (stdout w ++ text) (stderr w)).
Definition eprintln (line : str) : Process unit := fun w =>
  (Done (Ok tt), mkWorld (disk w) (stdout w) (stderr w ++ line ++ [LF])).
Definition exit {A} (code : Z) : Process A := mret (Err code).

(** [eprintln!(..); process::exit(code)]. *)
Definition fail {A} (code : Z) (line : str) : Process A := _ ←? eprintln line; exit code.

Definition insecure_bootstrap_password (password : str) : bool :=
  str_eqb password (# "change-me-please") || str_eqb password (# "REPLACE_WITH_A_STRONG_UNIQUE_PASSWORD")
  || (length password <? 12)%nat.

Section Run.
Context `{Primitives} `{Sha256} `{TomlLibrary} `{TlsLibrary}.
Context (spki_of_pkcs1 : str -> option str) (base64_encode : str -> str).   (* the rsa and base64 crates *)
Context (rnd : StartRand).
Context (open_fails : str -> bool).     (* which [open] or [new] reports an error: a panic *)

(** [Store::open(..).expect(..)]. *)
Definition open (what : str) : Process unit := if open_fails what then st_exec Panicked else mret (Ok tt).

(** Opening the domains table fills in missing verification tokens. *)
Definition open_admin (what : str) : Process unit :=
  _ ←? open what;
  _ ← st_mod (fun w => with_disk (put_admin (migrate_domains_columns (sr_backfill rnd) (dk_admin (disk w))) (disk w)) w);
  mret (Ok tt).

Definition on_auth {A} (f : AuthStore -> Result A * AuthStore) : St World (Result A) := fun w =>
  let '(r, a) := f (dk_auth (disk w)) in (Done r, with_disk (put_auth a (disk w)) w).
Definition on_admin {A} (f : AdminStore -> Result A * AdminStore) : St World (Result A) := fun w =>
  let '(r, a) := f (dk_admin (disk w)) in (Done r, with_disk (put_admin a (disk w)) w).
Definition on_queue {A} (f : QueueStore -> Result A * QueueStore) : St World (Result A) := fun w =>
  let '(r, q) := f (dk_queue (disk w)) in (Done r, with_disk (put_queue q (disk w)) w).

(** ** Subcommands *)
Definition provision (c : Config.Config) (args : list str) : Process unit :=
  match args with
  | [local_part; dom; password] =>
      _ ←? open (# "auth store");
      r ← on_auth (fun a => Auth.provision (sr_account rnd) (sr_now rnd) a local_part dom password (costs (Config.argon2 c)));
      match r with
      | Ok account => println (# "provisioned " ++ address account ++ # " (id " ++ dec (acc_id account) ++ # ")")
      | Err e => fail 1 (# "failed to provision account: " ++ error_display e)
      end
  | _ => fail 2 (# "usage: litterae provision <local_part> <domain> <password>")
  end.

Definition dkim_init (args : list str) : Process unit :=
  match args with
  | [dom] =>
      _ ←? open (# "queue store");
      r ← on_queue (ensure_dkim_key (sr_rsa rnd) (sr_now rnd) dom);
      match r with
      | Ok key =>
          _ ←? println (# "DKIM key ready for " ++ dom ++ # " (selector: " ++ selector key ++ # ")");
          _ ←? println (# "Publish this TXT record:");
          record ← st_exec (dns_txt_record spki_of_pkcs1 base64_encode key);
          println (# "  " ++ selector key ++ # "._domainkey." ++ dom ++ # "  IN TXT  " ++ quote ++ record ++ quote)
      | Err e => fail 1 (# "failed to generate DKIM key: " ++ error_display e)
      end
  | _ => fail 2 (# "usage: litterae dkim-init <domain>")
  end.

Definition sts_policy (c : Config.Config) : MtaStsPolicy :=
  mkPolicy (sts_mode (Config.mta_sts c)) (default (Config.domain (Config.server c)) (sts_mx (Config.mta_sts c))) 604800.

Definition mta_sts_init (c : Config.Config) (args : list str) : Process unit :=
  match args with
  | [dom] =>
      let policy := sts_policy c in
      _ ←? println (# "Save this as a static file served at https://mta-sts." ++ dom ++ # "/.well-known/mta-sts.txt:");
      _ ←? println (# "---");
      _ ←? print (policy_file_body policy);
      _ ←? println (# "---");
      _ ←? println [];
      _ ←? println (# "Publish this TXT record:");
      println (# "  " ++ sts_txt_record policy dom)
  | _ => fail 2 (# "usage: litterae mta-sts-init <domain>")
  end.

Definition tls_rpt_init (c : Config.Config) (args : list str) : Process unit :=
  match args with
  | [dom] =>
      let local_part := rua_local_part (Config.tls_rpt c) in
      _ ←? println (# "Publish this TXT record:");
      _ ←? println (# "  " ++ rpt_txt_record dom local_part);
      _ ←? println [];
      println (# "Reports will arrive as ordinary inbound mail to " ++ local_part ++ # "@" ++ dom
               ++ # " -- make sure that address resolves to a real account or catch-all.")
  | _ => fail 2 (# "usage: litterae tls-rpt-init <domain>")
  end.

Definition domain_usage : Process unit :=
  _ ←? eprintln (# "usage:");
  _ ←? eprintln (# "  litterae domain add <name> [catch_all_local_part]");
  _ ←? eprintln (# "  litterae domain list");
  _ ←? eprintln (# "  litterae domain set-catchall <name> <local_part|none>");
  exit 2.

Definition domain_add (name : str) (catch_all : option str) : Process unit :=
  r ← on_admin (fun a => AdminStore.create_domain (sr_token rnd) (sr_now rnd) a name catch_all);
  match r with
  | Ok d => println (# "hosting " ++ dom_name d
                     ++ match catch_all with Some ca => # " (catch-all: " ++ ca ++ # ")" | None => [] end)
  | Err e => fail 1 (# "failed to add domain: " ++ error_display e)
  end.

Fixpoint print_domains (ds : list Domain) : Process unit :=
  match ds with
  | [] => mret (Ok tt)
  | d :: ds =>
      _ ←? println (dom_name d ++ # "  (catch-all: " ++ default (# "none") (catch_all_local_part d) ++ # ")");
      print_domains ds
  end.

Definition domain_list : Process unit :=
  w ← st_get;
  match AdminStore.list_domains (dk_admin (disk w)) with
  | Ok [] => println (# "no domains hosted yet")
  | Ok ds => print_domains ds
  | Err e => fail 1 (# "failed to list domains: " ++ error_display e)
  end.

Definition domain_set_catchall (name local_part : str) : Process unit :=
  let catch_all := if str_eqb local_part (# "none") then None else Some local_part in
  w ← st_get;
  match get_domain_by_name (dk_admin (disk w)) name with
  | Ok (Some d) =>
      r ← on_admin (fun a => set_catch_all a (dom_id d) catch_all);
      match r with
      | Ok _ => println (# "updated catch-all for " ++ name)
      | Err e => fail 1 (# "failed to update catch-all: " ++ error_display e)
      end
  | _ => fail 1 (# "no such hosted domain: " ++ name)
  end.

Definition domain_cli (args : list str) : Process unit :=
  _ ←? open_admin (# "admin store");
  match args with
  | [cmd; name] => if str_eqb cmd (# "add") then domain_add name None else domain_usage
  | [cmd; name; x] =>
      if str_eqb cmd (# "add") then domain_add name (Some x)
      else if str_eqb cmd (# "set-catchall") then domain_set_catchall name x
      else domain_usage
  | [cmd] => if str_eqb cmd (# "list") then domain_list else domain_usage
  | _ => domain_usage
  end.

(** ** Before serving *)

(** Two commits: the administrator, then the audit log's keys. *)
Definition bootstrap_admin (c : Config.Config) (user pass : str) : St World (Result (option str)) :=
  on_admin (fun a => bootstrap (sr_admin_salt rnd) (sr_now rnd) a user pass (costs (Config.argon2 c))).

Definition bootstrap_audit (pk : str) : St World unit :=
  st_mod (fun w => with_disk (put_audit
    (bootstrap_keys (sr_audit_priv rnd) (sr_audit_seed rnd) (sr_audit_chain rnd) (sr_audit_nonce rnd) (dk_audit (disk w)) pk).2
    (disk w)) w).

Definition admin_bootstrap (c : Config.Config) : Process unit :=
  match bootstrap_credentials (Config.admin c) with
  | None => mret (Ok tt)
  | Some (user, pass) =>
      w ← st_get;
      match has_admin (dk_admin (disk w)) with
      | Ok true | Err _ => mret (Ok tt)
      | Ok false =>
          if insecure_bootstrap_password pass then exit 1
          else
            r ← bootstrap_admin c user pass;
            _ ← match r with Ok (Some pk) => bootstrap_audit pk | _ => mret tt end;
            mret (Ok tt)
      end
  end.

(** A listener's TLS, loaded before it serves. *)
Definition listener (cert key : option str) : St World (result Z (option TlsConfig)) :=
  mret (match listener_tls cert key with Ok t => Ok t | Err _ => Err 1%Z end).

(** What then runs side by side. *)
Record Services : Type := mkServices {
  sv_config : Config.Config;
  sv_jmap_tls : option TlsConfig;
  sv_admin_tls : option TlsConfig;
  sv_scanner : option str * option str      (* rspamd's and clamd's endpoints *)
}.

Definition serve (c : Config.Config) : Process Services :=
  _ ←? open (# "blob store");
  _ ←? open (# "metadata store");
  _ ←? open (# "auth store");
  _ ←? open (# "queue store");
  _ ←? open_admin (# "admin store");
  _ ←? open (# "audit store");
  _ ←? admin_bootstrap c;
  jmap_tls ←? listener (jmap_tls_cert_path (Config.jmap c)) (jmap_tls_key_path (Config.jmap c));
  _ ←? open (# "DNS resolver for admin");
  admin_tls ←? listener (adm_tls_cert_path (Config.admin c)) (adm_tls_key_path (Config.admin c));
  _ ←? open (# "DNS resolver");
  _ ←? open (# "queue store for worker");
  _ ←? open (# "blob store for worker");
  _ ←? open (# "metadata store for worker");
  _ ←? open (# "auth store for worker");
  mret (Ok (mkServices c jmap_tls admin_tls (spam_endpoint (Config.antispam c), av_endpoint (Config.antivirus c)))).

(** [submission_result]: none is a future that never completes. *)
Definition submission_service (c : Config.Config) : option (Result TlsConfig) :=
  if bool_decide (sub_tls_cert_path (Config.submission c) = None) || bool_decide (sub_tls_key_path (Config.submission c) = None)
  then None else Some (load_submission_acceptor (Config.submission c)).

(** [main] up to the [select!]: the services, or none after a subcommand. *)
Definition main (env_config : option str) (read_file : str -> result str str) (args : list str) : Process (option Services) :=
  let config_path := default (# "litterae.toml") env_config in
  match load (read_file config_path) with
  | Err _ => exit 1
  | Ok config =>
      let run (m : Process unit) : Process (option Services) := _ ←? m; mret (Ok None) in
      match args with
      | command :: rest =>
          if str_eqb command (# "provision") then run (provision config rest)
          else if str_eqb command (# "dkim-init") then run (dkim_init rest)
          else if str_eqb command (# "domain") then run (domain_cli rest)
          else if str_eqb command (# "mta-sts-init") then run (mta_sts_init config rest)
          else if str_eqb command (# "tls-rpt-init") then run (tls_rpt_init config rest)
          else s ←? serve config; mret (Ok (Some s))
      | [] => s ←? serve config; mret (Ok (Some s))
      end
  end.

(** What ends the [select!], and the exit code. *)
Inductive Ending : Type :=
| SmtpExited (r : Result unit)
| JmapExited (r : Result unit)
| AdminExited (r : Result unit)
| SubmissionExited (r : Result unit)
| Interrupted
| Terminated.

Definition exit_code (e : Ending) : Z :=
  match e with
  | SmtpExited (Err _) | JmapExited (Err _) | AdminExited (Err _) | SubmissionExited (Err _) => 1
  | _ => 0
  end.

End Run.

Arguments Services {_}.
Arguments mkServices {_}.
Arguments sv_config {_}.
Arguments sv_jmap_tls {_}.
Arguments sv_admin_tls {_}.
Arguments sv_scanner {_}.

(** ** Lemmas *)
Section Facts.
Context `{PrimitiveLaws} `{Sha256} `{TomlLibrary} `{TlsLibrary}.
Context (spki_of_pkcs1 : str -> option str) (base64_encode : str -> str).

Abbreviation main_ := (main spki_of_pkcs1 base64_encode).

(** A property of the stores survives what does not write them. *)
Section KeptDisk.
Context (P : Disk -> Prop) (rnd : StartRand) (open_fails : str -> bool).
Abbreviation I := (fun w => P (disk w)).

Lemma kd_println line : keeps I (println line).
Proof. by intros w Hw. Qed.
Lemma kd_print line : keeps I (print line).
Proof. by intros w Hw. Qed.
Lemma kd_eprintln line : keeps I (eprintln line).
Proof. by intros w Hw. Qed.
Lemma kd_fail {A} code line : keeps I (fail (A := A) code line).
Proof. by intros w Hw. Qed.
Lemma kd_open what : keeps I (open open_fails what).
Proof. unfold open. destruct (open_fails what); [apply keeps_exec|apply keeps_ret]. Qed.
Lemma kd_open_admin what :
  (forall d, P d -> P (put_admin (migrate_domains_columns (sr_backfill rnd) (dk_admin d)) d)) ->
  keeps I (open_admin rnd open_fails what).
Proof. intros Hp. unfold open_admin. repeat st_step; [apply kd_open|]. apply keeps_mod. intros w. apply Hp. Qed.
Lemma kd_on_auth {A} (f : AuthStore -> Result A * AuthStore) :
  (forall d, P d -> P (put_auth (f (dk_auth d)).2 d)) -> keeps I (on_auth f).
Proof. intros Hp w Hw. unfold on_auth. specialize (Hp _ Hw). by destruct (f _). Qed.
Lemma kd_on_admin {A} (f : AdminStore -> Result A * AdminStore) :
  (forall d, P d -> P (put_admin (f (dk_admin d)).2 d)) -> keeps I (on_admin f).
Proof. intros Hp w Hw. unfold on_admin. specialize (Hp _ Hw). by destruct (f _). Qed.
Lemma kd_on_queue {A} (f : QueueStore -> Result A * QueueStore) :
  (forall d, P d -> P (put_queue (f (dk_queue d)).2 d)) -> keeps I (on_queue f).
Proof. intros Hp w Hw. unfold on_queue. specialize (Hp _ Hw). by destruct (f _). Qed.

End KeptDisk.

Ltac kd_step :=
  match goal with
  | |- keeps _ (println _) => apply kd_println
  | |- keeps _ (print _) => apply kd_print
  | |- keeps _ (eprintln _) => apply kd_eprintln
  | |- keeps _ (fail _ _) => apply kd_fail
  | |- keeps _ (exit _) => apply keeps_ret
  | |- keeps _ (open _ _) => apply kd_open
  | |- _ => st_step
  end.

Lemma kd_serve (P : Disk -> Prop) rnd open_fails c :
  (forall d, P d -> P (put_admin (migrate_domains_columns (sr_backfill rnd) (dk_admin d)) d)) ->
  keeps (fun w => P (disk w)) (admin_bootstrap rnd c) -> keeps (fun w => P (disk w)) (serve rnd open_fails c).
Proof.
  intros Hm Hb. unfold serve, listener. repeat (kd_step; try (by apply kd_open_admin); try exact Hb).
Qed.

(** ** Runs of the process *)

(** What a run is given: its draws, what cannot be opened, the environment's
    path, the files and the arguments. *)
Record Run : Type := mkRun {
  run_rand : StartRand;
  run_open_fails : str -> bool;
  run_env : option str;
  run_files : str -> result str str;
  run_args : list str
}.

Definition main_run (r : Run) : Process (option Services) :=
  main_ (run_rand r) (run_open_fails r) (run_env r) (run_files r) (run_args r).

Definition commands : list str := [ # "provision"; # "dkim-init"; # "domain"; # "mta-sts-init"; # "tls-rpt-init"].

(** The arguments of a server, not of a subcommand. *)
Definition serves (r : Run) : bool :=
  match run_args r with [] => true | c :: _ => negb (existsb (str_eqb c) commands) end.

Definition run_config (r : Run) : Result Config.Config := load (run_files r (default (# "litterae.toml") (run_env r))).

Lemma main_serves r w : serves r = true ->
  main_run r w = match run_config r with
                 | Err _ => (Done (Err 1%Z), w)
                 | Ok c => st_try (serve (run_rand r) (run_open_fails r) c) (fun s => mret (Ok (Some s))) w
                 end.
Proof.
  unfold serves, main_run, main, run_config. intros Hs. destruct (load _) as [c|e]; [|done].
  destruct (run_args r) as [|cmd rest]; [done|]. unfold commands in Hs. cbn [existsb] in Hs.
  apply negb_true_iff in Hs. repeat (apply orb_false_iff in Hs as [-> Hs]). done.
Qed.

(** The process after some runs, whatever they ended in. *)
Definition after_runs (w : World) (rs : list Run) : World := foldl (fun w r => (main_run r w).2) w rs.

(** A start with an administrator in place changes no store. *)
Lemma restart_same r w : serves r = true -> admins (dk_admin (disk w)) <> [] ->
  Forall (fun d => is_Some (dr_token d)) (domains (dk_admin (disk w))) -> disk (main_run r w).2 = disk w.
Proof.
  intros Hs Ha Ht. rewrite main_serves by done. destruct (run_config r) as [c|e]; [|done].
  assert (Hk : keeps (fun w' => disk w' = disk w) (st_try (serve (run_rand r) (run_open_fails r) c) (fun s => mret (Ok (Some s))))).
  { st_step; [|st_step]. apply (kd_serve (fun d => d = disk w)).
    - intros d ->. rewrite migrate_idle by done. by destruct (disk w).
    - unfold admin_bootstrap. destruct (bootstrap_credentials _) as [[u p]|]; [|apply keeps_ret].
      apply keeps_get. intros w1 Hw1. unfold has_admin. rewrite Hw1.
      destruct (admins (dk_admin (disk w))); [done|]. apply keeps_ret. }
  by apply (Hk w).
Qed.

(** *** The gap between the two commits *)

(** What the command line does to the domains. *)
Inductive domain_step (s : AdminStore) : AdminStore -> Prop :=
| domain_created bytes now name ca : domain_step s (AdminStore.create_domain bytes now s name ca).2
| domain_catch_all id ca : domain_step s (set_catch_all s id ca).2
| domain_tokens tokens : domain_step s (migrate_domains_columns tokens s).

Lemma domain_step_admins s s' : domain_step s s' -> admins s' = admins s.
Proof. destruct 1; [unfold AdminStore.create_domain; by repeat case_match|done|apply migrate_admins]. Qed.

(** What subcommands write. *)
Lemma kd_commands (P : Disk -> Prop) r (w : World) :
  serves r = false ->
  (forall d x, P d -> auth_step (dk_auth d) x -> P (put_auth x d)) -> (forall d g n dom, P d -> P (put_queue (ensure_dkim_key g n dom (dk_queue d)).2 d)) ->
  (forall d a, P d -> domain_step (dk_admin d) a -> P (put_admin a d)) ->
  P (disk w) -> P (disk (main_run r w).2).
Proof.
  intros Hs Hauth Hqueue Hadmin. apply (fun H => (H : keeps (fun w => P (disk w)) (main_run r)) w).
  unfold main_run, main. destruct (load _) as [c|e]; [|apply keeps_ret].
  unfold serves in Hs. destruct (run_args r) as [|cmd rest]; [done|]. apply negb_false_iff in Hs.
  destruct (str_eqb cmd _) eqn:E1 in |- *.
  { unfold provision. repeat kd_step. apply kd_on_auth. intros. apply Hauth; [done|constructor]. }
  destruct (str_eqb cmd (# "dkim-init")) eqn:E2.
  { unfold dkim_init. repeat kd_step. apply kd_on_queue. intros. by apply Hqueue. }
  destruct (str_eqb cmd (# "domain")) eqn:E3.
  { unfold domain_cli, domain_usage, domain_add, domain_list, domain_set_catchall.
    repeat (kd_step; try (apply kd_open_admin; intros d Hd; apply Hadmin; [done|constructor])).
    all: try (apply kd_on_admin; intros dk Hdk; apply Hadmin; [done|constructor]).
    match goal with |- keeps _ (print_domains ?l) => generalize l end. intros ds. by induction ds; cbn [print_domains]; repeat kd_step. }
  destruct (str_eqb cmd (# "mta-sts-init")) eqn:E4; [unfold mta_sts_init; repeat kd_step|].
  destruct (str_eqb cmd (# "tls-rpt-init")) eqn:E5; [unfold tls_rpt_init; repeat kd_step|].
  unfold commands in Hs. cbn [existsb] in Hs. by rewrite E1, E2, E3, E4, E5 in Hs.
Qed.

(** Neither a start nor a subcommand gives keys to an audit log whose
    administrator is there already. *)
Lemma gap_run r w : admins (dk_admin (disk w)) <> [] ->
  admins (dk_admin (disk (main_run r w).2)) <> [] /\ dk_audit (disk (main_run r w).2) = dk_audit (disk w).
Proof.
  intros Ha. set (P := fun d => admins (dk_admin d) <> [] /\ dk_audit d = dk_audit (disk w)).
  change (P (disk (main_run r w).2)). assert (Hw : P (disk w)) by done.
  destruct (serves r) eqn:Hs.
  - rewrite main_serves by done. destruct (run_config r) as [c|e]; [|done].
    apply (fun H => (H : keeps (fun w => P (disk w)) (st_try (serve (run_rand r) (run_open_fails r) c) (fun s => mret (Ok (Some s))))) w); [|done].
    st_step; [|st_step]. apply (kd_serve P).
    + intros d [Hd E]. split; [|done]. cbn. by rewrite migrate_admins.
    + unfold admin_bootstrap. destruct (bootstrap_credentials _) as [[u p]|]; [|apply keeps_ret].
      apply keeps_get. intros w1 [Hw1 _]. unfold has_admin. destruct (admins (dk_admin (disk w1))); [done|]. apply keeps_ret.
  - apply (kd_commands P); [done|by intros|by intros| |done]. intros d a [Hd E] Ea%domain_step_admins. split; [|done]. cbn. by rewrite Ea.
Qed.

(** An audit log that missed its keys never gets any.  The administrator and
    the log's keys are two commits of the first start; when the process dies
    between them, or the second fails, every later start sees the
    administrator and skips both: whatever runs follow, with whatever
    configuration, the log has no keys, and every entry to be logged is
    refused and lost. *)
Theorem audit_gap_is_permanent (c : Config.Config) (rnd : StartRand) (user pass pk : str) (w w' : World) (rs : list Run) :
  audit_keys (dk_audit (disk w)) = None -> bootstrap_admin rnd c user pass w = (Done (Ok (Some pk)), w') ->
  let a := dk_audit (disk (after_runs w' rs)) in
  a = dk_audit (disk w) /\ has_keys a = false /\
  forall rand now action detail, log rand now action detail a = (Done (Err not_bootstrapped), a).
Proof.
  intros Hk Hb. assert (H' : admins (dk_admin (disk w')) <> [] /\ dk_audit (disk w') = dk_audit (disk w)).
  { unfold bootstrap_admin, on_admin, bootstrap in Hb. destruct (has_admin _) as [[|]|]; try (by injection Hb).
    destruct (as_crypto_error _) as [k|]; [|by injection Hb]. destruct (existsb _ _); [by injection Hb|].
    injection Hb as _ <-. cbn. split; [by destruct (admins _)|done]. }
  assert (Ha : dk_audit (disk (after_runs w' rs)) = dk_audit (disk w)).
  { destruct H' as [Hn Ha]. unfold after_runs. clear Hb. revert w' Hn Ha.
    induction rs as [|r rs IH]; intros w' Hn Ha; [done|]. cbn [foldl].
    destruct (gap_run r w' Hn) as [Hn' Ha']. apply IH; [done|congruence]. }
  cbn zeta. rewrite Ha. split; [done|]. unfold has_keys. rewrite Hk. split; [done|].
  intros rand now action detail.
  assert (El : load_keys (dk_audit (disk w)) = Done (Err not_bootstrapped)) by (unfold load_keys; by rewrite Hk).
  unfold log, mbind, St_bind, st_get, st_exec. by rewrite El.
Qed.

(** *** The first start *)
Record start_rand_ok (rnd : StartRand) : Prop := {
  sro_salt : length (sr_admin_salt rnd) = SALT_LEN;
  sro_priv : length (sr_audit_priv rnd) = PRIVATE_KEY_LEN;
  sro_seed : length (sr_audit_seed rnd) = PRIVATE_KEY_LEN;
  sro_chain : length (sr_audit_chain rnd) = CHAIN_KEY_LEN;
  sro_nonce : length (sr_audit_nonce rnd) = NONCE_LEN
}.

(** A start on a database without an administrator. *)
Definition first_start (r : Run) (c : Config.Config) (user pass : str) (w : World) : Prop :=
  serves r = true /\ run_config r = Ok c /\ bootstrap_credentials (Config.admin c) = Some (user, pass) /\
  admins (dk_admin (disk w)) = [] /\ (forall what, run_open_fails r what = false).

(** The stores as the bootstrap finds them. *)
Definition opened (r : Run) (w : World) : World :=
  with_disk (put_admin (migrate_domains_columns (sr_backfill (run_rand r)) (dk_admin (disk w))) (disk w)) w.

Lemma run_open fails (f : unit -> Process Services) w : (forall what, fails what = false) ->
  forall what, st_try (open fails what) f w = f tt w.
Proof. intros Hf what. unfold open. by rewrite Hf. Qed.

Lemma run_serve r c w : (forall what, run_open_fails r what = false) ->
  exists r', serve (run_rand r) (run_open_fails r) c w =
  match admin_bootstrap (run_rand r) c (opened r w) with
  | (Done (Ok _), w') => (r', w')
  | (Done (Err e), w') => (Done (Err e), w')
  | (Panicked, w') => (Panicked, w')
  end /\ match r' with Done (Err e) => e = 1%Z | Done (Ok _) => True | Panicked => False end.
Proof.
  intros Hf. unfold serve. rewrite !run_open by done.
  erewrite run_try; [|unfold open_admin, open; rewrite Hf; reflexivity]. rewrite run_open by done. cbn [fst snd].
  fold (opened r w). unfold st_try at 1, mbind at 1, St_bind at 1.
  destruct (admin_bootstrap _ _ _) as [[[[]|e]|] w'].
  2, 3: by exists (Done (Err 1%Z)).
  unfold listener. destruct (listener_tls (jmap_tls_cert_path _) _) as [t1|e1].
  2: { exists (Done (Err 1%Z)). by rewrite (run_try_err _ _ w' w' 1%Z). }
  rewrite (run_try _ _ w' w' t1), run_open by done. destruct (listener_tls (adm_tls_cert_path _) _) as [t2|e2].
  2: { exists (Done (Err 1%Z)). by rewrite (run_try_err _ _ w' w' 1%Z). }
  rewrite (run_try _ _ w' w' t2), !run_open by done. by eexists.
Qed.

Lemma run_bootstrap r c user pass w : first_start r c user pass w ->
  let o := opened r w in
  admin_bootstrap (run_rand r) c o =
  if insecure_bootstrap_password pass then (Done (Err 1%Z), o)
  else match bootstrap (sr_admin_salt (run_rand r)) (sr_now (run_rand r)) (dk_admin (disk o)) user pass (costs (Config.argon2 c)) with
       | (Ok (Some pk), a) => (Done (Ok tt), (bootstrap_audit (run_rand r) pk (with_disk (put_admin a (disk o)) o)).2)
       | (_, a) => (Done (Ok tt), with_disk (put_admin a (disk o)) o)
       end.
Proof.
  intros (_ & _ & Hb & Ha & _) o. unfold admin_bootstrap. rewrite Hb. unfold mbind at 1, St_bind at 1, st_get at 1.
  assert (Ea : admins (dk_admin (disk o)) = []) by (cbn; by rewrite migrate_admins).
  unfold has_admin. rewrite Ea. change (0 <? Z.of_nat (length (@nil AdminRow)))%Z with false. cbv iota.
  destruct (insecure_bootstrap_password pass); [done|]. unfold bootstrap_admin, on_admin, mbind, St_bind.
  by destruct (bootstrap _ _ _ _ _ _) as [[[pk|]|e] a].
Qed.

(** A weak password is refused: a start that would create the first
    administrator with one of the two sample passwords, or one of less than
    twelve bytes, exits with code 1; there is no administrator, no audit key,
    and nothing but missing verification tokens has been written. *)
Theorem insecure_bootstrap_refused (r : Run) (c : Config.Config) (user pass : str) (w : World) :
  first_start r c user pass w -> insecure_bootstrap_password pass = true ->
  main_run r w = (Done (Err 1%Z), opened r w) /\ admins (dk_admin (disk (opened r w))) = [] /\
  dk_audit (disk (opened r w)) = dk_audit (disk w).
Proof.
  intros Hf Hi. pose proof Hf as (Hs & Hc & _ & Ha & Ho). rewrite main_serves, Hc by done.
  destruct (run_serve r c w Ho) as (r' & E & _). pose proof (run_bootstrap r c user pass w Hf) as Eb. cbn zeta in Eb.
  rewrite Hi in Eb. rewrite Eb in E. split; [by apply run_try_err|]. split; [cbn; by rewrite migrate_admins|done].
Qed.

(** C25.  The first administrator is created once.  The first start with secure
    credentials creates exactly one administrator, who must change the
    password; logging in works with that password and with no other that
    derives another key; the audit log is empty and readable with the key that
    login yields; accounts, queue and mail are untouched.  All this holds
    after any number of further starts, whatever their configuration --
    another password included -- and however they end. *)
Theorem first_start_once (r : Run) (c : Config.Config) (user pass pk : str) (w : World) (rs : list Run) :
  first_start r c user pass w -> start_rand_ok (run_rand r) -> dk_audit (disk w) = empty_audit ->
  insecure_bootstrap_password pass = false ->
  derive_pk pass (sr_admin_salt (run_rand r)) (costs (Config.argon2 c)) = Ok pk ->
  Forall (fun r' => serves r' = true) rs ->
  let d := disk (after_runs (main_run r w).2 rs) in
  dk_auth d = dk_auth (disk w) /\ dk_queue d = dk_queue (disk w) /\ dk_mail d = dk_mail (disk w) /\
  (exists row, admins (dk_admin d) = [row] /\ adm_username row = user) /\
  (exists id at_, verify_login (dk_admin d) user pass (costs (Config.argon2 c)) = Ok (Some (mkAdmin id user true at_ false, pk))) /\
  (forall other k, derive_pk other (sr_admin_salt (run_rand r)) (costs (Config.argon2 c)) = Ok k -> k <> pk ->
     verify_login (dk_admin d) user other (costs (Config.argon2 c)) = Ok None) /\
  refines (dk_audit d) (mkSpec pk [] []).
Proof.
  intros Hf [Hsalt Hpriv Hseed Hchain Hnonce] Haudit Hi Hpk Hrs. pose proof Hf as (Hs & Hc & _ & Ha & Ho).
  set (o := opened r w). set (s0 := dk_admin (disk o)).
  assert (Ea : admins s0 = []) by (cbn; by rewrite migrate_admins).
  set (row := mkAdminRow 1 user (sr_admin_salt (run_rand r)) pk 1 (sr_now (run_rand r)) None None 0 None).
  set (d1 := put_audit (bootstrap_keys (sr_audit_priv (run_rand r)) (sr_audit_seed (run_rand r)) (sr_audit_chain (run_rand r))
                (sr_audit_nonce (run_rand r)) (dk_audit (disk w)) pk).2 (put_admin (mkAdminStore [row] (domains s0)) (disk o))).
  assert (E1 : disk (main_run r w).2 = d1).
  { rewrite main_serves, Hc by done. destruct (run_serve r c w Ho) as (r' & E & Hr').
    pose proof (run_bootstrap r c user pass w Hf) as Eb. cbn zeta in Eb. fold o in Eb. rewrite Hi in Eb. fold o in E. rewrite Eb in E.
    unfold bootstrap, has_admin in E. fold s0 in E. rewrite Ea in E.
    change (0 <? Z.of_nat (length (@nil AdminRow)))%Z with false in E. cbn [existsb] in E.
    rewrite Hpk in E. cbn [as_crypto_error] in E. unfold st_try, mbind, St_bind. rewrite E.
    by destruct r' as [[sv|e]|]. }
  assert (E2 : disk (after_runs (main_run r w).2 rs) = d1).
  { assert (Ht : Forall (fun d => is_Some (dr_token d)) (domains (dk_admin d1))) by apply migrate_tokens.
    assert (Hn : admins (dk_admin d1) <> []) by done. revert E1. generalize (main_run r w).2 as w1.
    unfold after_runs. induction Hrs as [|r2 rs Hs2 _ IH]; intros w1 E1; [done|]. cbn [foldl]. apply IH.
    rewrite <- E1 in Ht, Hn |- *. by apply restart_same. }
  cbn zeta. rewrite E2. split; [done|]. split; [done|]. split; [done|]. split; [by exists row|].
  assert (El : forall p k, derive_pk p (sr_admin_salt (run_rand r)) (costs (Config.argon2 c)) = Ok k ->
    verify_login (dk_admin d1) user p (costs (Config.argon2 c))
    = if negb (str_eqb k pk) then Ok None else Ok (Some (mkAdmin 1 user true (sr_now (run_rand r)) false, k))).
  { intros p k Ek. unfold verify_login, sql_find. cbn [d1 put_audit put_admin dk_admin admins]. unfold str_eqb at 1. cbn.
    rewrite bool_decide_eq_true_2 by done. cbn [adm_salt row]. rewrite Hsalt, Nat.eqb_refl. cbn [negb]. by rewrite Ek. }
  split; [exists 1%Z, (sr_now (run_rand r)); rewrite (El pass pk Hpk); unfold str_eqb; by rewrite bool_decide_eq_true_2|].
  split; [intros p k Ek Hne; rewrite (El p k Ek); unfold str_eqb; by rewrite bool_decide_eq_false_2|].
  cbn [d1 put_audit dk_audit]. rewrite Haudit. by apply bootstrap_refines.
Qed.

(** *** Subcommands *)
Lemma run_command cmd rest c r w : run_args r = cmd :: rest -> run_config r = Ok c ->
  main_run r w =
  (if str_eqb cmd (# "provision") then st_try (provision (run_rand r) (run_open_fails r) c rest) (fun _ => mret (Ok None))
   else if str_eqb cmd (# "dkim-init")
   then st_try (dkim_init spki_of_pkcs1 base64_encode (run_rand r) (run_open_fails r) rest) (fun _ => mret (Ok None))
   else if str_eqb cmd (# "domain") then st_try (domain_cli (run_rand r) (run_open_fails r) rest) (fun _ => mret (Ok None))
   else if str_eqb cmd (# "mta-sts-init") then st_try (mta_sts_init c rest) (fun _ => mret (Ok None))
   else if str_eqb cmd (# "tls-rpt-init") then st_try (tls_rpt_init c rest) (fun _ => mret (Ok None))
   else st_try (serve (run_rand r) (run_open_fails r) c) (fun s => mret (Ok (Some s)))) w.
Proof.
  unfold main_run, main, run_config. intros -> ->. destruct (str_eqb cmd (# "provision")); [done|].
  destruct (str_eqb cmd (# "dkim-init")); [done|]. destruct (str_eqb cmd (# "domain")); [done|].
  destruct (str_eqb cmd (# "mta-sts-init")); [done|]. by destruct (str_eqb cmd (# "tls-rpt-init")).
Qed.

(** What dkim-init prints. *)
Definition dkim_text (dom : str) (key : DomainKey) (record : str) : str :=
  (# "DKIM key ready for " ++ dom ++ # " (selector: " ++ selector key ++ # ")") ++ [LF]
  ++ # "Publish this TXT record:" ++ [LF]
  ++ (# "  " ++ selector key ++ # "._domainkey." ++ dom ++ # "  IN TXT  " ++ quote ++ record ++ quote) ++ [LF].

(** The record printed is the key mail is signed with.  When `litterae
    dkim-init <domain>` ends well it has printed the record of the key that
    every later request for that domain's key gets, whatever it would have
    drawn -- the queue before signing, the admin's page, a second run.  The
    keys of every other name are untouched, of the same name in another case
    too. *)
Theorem published_key_signs (r : Run) (dom : str) (w w' : World) (o : option Services) :
  run_args r = [ # "dkim-init"; dom] -> main_run r w = (Done (Ok o), w') ->
  exists key record, dns_txt_record spki_of_pkcs1 base64_encode key = Done record /\
    stdout w' = stdout w ++ dkim_text dom key record /\
    (forall g now, ensure_dkim_key g now dom (dk_queue (disk w')) = (Ok key, dk_queue (disk w'))) /\
    (forall other, other <> dom -> load_dkim_key (dk_queue (disk w')) other = load_dkim_key (dk_queue (disk w)) other).
Proof.
  intros Ha Hr. destruct (run_config r) as [c|e] eqn:Hc.
  2: { unfold main_run, main in Hr. unfold run_config in Hc. by rewrite Hc in Hr. }
  rewrite (run_command _ _ c) in Hr by done. change (str_eqb (# "dkim-init") (# "provision")) with false in Hr.
  change (str_eqb (# "dkim-init") (# "dkim-init")) with true in Hr. cbv iota in Hr.
  unfold dkim_init, open in Hr. destruct (run_open_fails r (# "queue store")); [done|].
  set (q := dk_queue (disk w)) in *.
  destruct (ensure_dkim_key (sr_rsa (run_rand r)) (sr_now (run_rand r)) dom q) as [[key|e] q'] eqn:Ee.
  2: { unfold st_try, on_queue, mbind, St_bind in Hr. cbn in Hr. fold q in Hr. by rewrite Ee in Hr. }
  unfold st_try, on_queue, mbind, St_bind in Hr. cbn in Hr. fold q in Hr. rewrite Ee in Hr. cbn in Hr.
  destruct (dns_txt_record spki_of_pkcs1 base64_encode key) as [record|] eqn:Er; [|done]. injection Hr as _ <-.
  exists key, record. cbn [stdout disk with_disk put_queue dk_queue]. split; [done|].
  split; [unfold dkim_text; cbn; repeat (progress (rewrite <- ?app_assoc; cbn [app])); reflexivity|]. split.
  - intros g now. by apply (dkim_key_stable (sr_rsa (run_rand r)) g (sr_now (run_rand r)) now dom q).
  - intros other Ho. change q' with (@Ok Error DomainKey key, q').2. rewrite <- Ee. by apply ensure_dkim_key_other.
Qed.

(** An exit with a code leaves the stores as they were opened, and has
    printed nothing on the standard output. *)
Definition unharmed (rnd : StartRand) (w w' : World) : Prop :=
  stdout w' = stdout w /\
  (disk w' = disk w \/ disk w' = put_admin (migrate_domains_columns (sr_backfill rnd) (dk_admin (disk w))) (disk w)).

Definition fails_clean {A} (rnd : StartRand) (m : Process A) : Prop := forall w e w',
  m w = (Done (Err e), w') -> (e = 1 \/ e = 2)%Z /\ unharmed rnd w w'.

Lemma put_auth_same d : put_auth (dk_auth d) d = d.
Proof. by destruct d. Qed.
Lemma put_admin_same d : put_admin (dk_admin d) d = d.
Proof. by destruct d. Qed.
Lemma put_queue_same d : put_queue (dk_queue d) d = d.
Proof. by destruct d. Qed.

Lemma fc_fail {A} rnd code line : (code = 1 \/ code = 2)%Z -> fails_clean rnd (fail (A := A) code line).
Proof. intros Hc w e w' [= <- <-]. split; [done|]. split; [done|by left]. Qed.

(** Commands that only print. *)
Definition prints {A} (m : Process A) : Prop := forall w, exists a w', m w = (Done (Ok a), w') /\ disk w' = disk w.

Lemma prints_println line : prints (println line).
Proof. intros w. by eexists _, _. Qed.
Lemma prints_print line : prints (print line).
Proof. intros w. by eexists _, _. Qed.
Lemma prints_try {A B} (m : Process A) (f : A -> Process B) : prints m -> (forall a, prints (f a)) -> prints (st_try m f).
Proof.
  intros Hm Hf w. destruct (Hm w) as (a & w1 & E & E1). destruct (Hf a w1) as (b & w2 & E' & E2).
  exists b, w2. split; [by rewrite (run_try _ _ w w1 a)|congruence].
Qed.
Lemma prints_clean {A} rnd (m : Process A) : prints m -> fails_clean rnd m.
Proof. intros Hm w e w' E. destruct (Hm w) as (a & w1 & E1 & _). congruence. Qed.
Lemma prints_domains ds : prints (print_domains ds).
Proof.
  induction ds as [|d ds IH]; cbn [print_domains]; [intros w; by eexists _, _|].
  apply prints_try; [apply prints_println|by intros _].
Qed.

Lemma provision_err rn now s l d p cfg e s' : Auth.provision rn now s l d p cfg = (Err e, s') -> s' = s.
Proof. unfold Auth.provision. by repeat case_match; intros [= _ <-]. Qed.

Lemma create_domain_err tk now s n ca e s' : AdminStore.create_domain tk now s n ca = (Err e, s') -> s' = s.
Proof. unfold AdminStore.create_domain. by repeat case_match; intros [= _ <-]. Qed.

Lemma dkim_key_err g now d q e q' : ensure_dkim_key g now d q = (Err e, q') -> q' = q.
Proof. unfold ensure_dkim_key. by repeat case_match; intros [= _ <-]. Qed.

Lemma fc_provision rnd fails c args : fails_clean rnd (provision rnd fails c args).
Proof.
  unfold provision. destruct args as [|l [|d [|p [|]]]]; try (apply fc_fail; by right).
  intros w e w'. unfold open. destruct (fails _); [done|]. unfold st_try, mbind, St_bind, on_auth. cbn [mret St_ret].
  destruct (Auth.provision _ _ _ _ _ _ _) as [[a|er] s'] eqn:E; [done|]. apply provision_err in E as ->.
  intros Hf. rewrite put_auth_same in Hf. unfold with_disk in Hf.
  destruct w. exact (fc_fail rnd 1 _ ltac:(by left) _ _ _ Hf).
Qed.

Lemma fc_dkim rnd fails args : fails_clean rnd (dkim_init spki_of_pkcs1 base64_encode rnd fails args).
Proof.
  unfold dkim_init. destruct args as [|d [|]]; try (apply fc_fail; by right).
  intros w e w'. unfold open. destruct (fails _); [done|]. unfold st_try, mbind, St_bind, on_queue. cbn [mret St_ret].
  destruct (ensure_dkim_key _ _ _ _) as [[a|er] s'] eqn:E.
  { cbn. by destruct (dns_txt_record _ _ _). }
  apply dkim_key_err in E as ->. intros Hf. rewrite put_queue_same in Hf. unfold with_disk in Hf.
  destruct w. exact (fc_fail rnd 1 _ ltac:(by left) _ _ _ Hf).
Qed.

Lemma fc_domain rnd fails args : fails_clean rnd (domain_cli rnd fails args).
Proof.
  set (opens := fun w => with_disk (put_admin (migrate_domains_columns (sr_backfill rnd) (dk_admin (disk w))) (disk w)) w).
  assert (Hafter : forall (m : Process unit), (forall w e w', m w = (Done (Err e), w') -> (e = 1 \/ e = 2)%Z /\ stdout w' = stdout w /\ disk w' = disk w) ->
    forall w e w', m (opens w) = (Done (Err e), w') -> (e = 1 \/ e = 2)%Z /\ unharmed rnd w w').
  { intros m Hm w e w' E. destruct (Hm _ _ _ E) as (He & Eo & Ed). split; [done|]. split; [done|right]. by rewrite Ed. }
  assert (Husage : forall w e w', domain_usage w = (Done (Err e), w') -> (e = 1 \/ e = 2)%Z /\ stdout w' = stdout w /\ disk w' = disk w).
  { intros w e w' [= <- <-]. split; [by right|done]. }
  assert (Hadd : forall n ca w e w', domain_add rnd n ca w = (Done (Err e), w') -> (e = 1 \/ e = 2)%Z /\ stdout w' = stdout w /\ disk w' = disk w).
  { intros n ca w e w'. unfold domain_add, on_admin, mbind, St_bind.
    destruct (AdminStore.create_domain _ _ _ _ _) as [[a|er] s'] eqn:E; [done|]. apply create_domain_err in E as ->.
    intros [= <- <-]. split; [by left|]. split; [done|]. cbn. apply put_admin_same. }
  assert (Hlist : forall w e w', domain_list w = (Done (Err e), w') -> (e = 1 \/ e = 2)%Z /\ stdout w' = stdout w /\ disk w' = disk w).
  { intros w e w'. unfold domain_list, mbind, St_bind, st_get. destruct (AdminStore.list_domains _) as [[|d l]|er]; [done| |].
    - destruct (prints_domains (d :: l) w) as (a & w1 & E1 & _). congruence.
    - intros [= <- <-]. split; [by left|done]. }
  assert (Hset : forall n lp w e w', domain_set_catchall n lp w = (Done (Err e), w') -> (e = 1 \/ e = 2)%Z /\ stdout w' = stdout w /\ disk w' = disk w).
  { intros n lp w e w'. unfold domain_set_catchall, mbind, St_bind, st_get.
    destruct (get_domain_by_name _ _) as [[d|]|er]; [done| |]; (intros [= <- <-]; split; [by left|done]). }
  intros w e w'. unfold domain_cli, open_admin, open. destruct (fails _); [done|].
  erewrite run_try by reflexivity. fold (opens w).
  destruct args as [|cmd [|n [|x [|]]]]; try (by apply (Hafter domain_usage)).
  - destruct (str_eqb _ _); [by apply (Hafter domain_list)|by apply (Hafter domain_usage)].
  - destruct (str_eqb _ _); [apply (Hafter _ (Hadd n None))|by apply (Hafter domain_usage)].
  - destruct (str_eqb _ _); [apply (Hafter _ (Hadd n (Some x)))|].
    destruct (str_eqb _ _); [apply (Hafter _ (Hset n x))|by apply (Hafter domain_usage)].
Qed.

(** A subcommand that fails changes nothing.  It exits with code 1 (2 for a
    misuse), having printed nothing on the standard output, and the stores
    are what they were, but for verification tokens filled in by opening the
    domains table. *)
Theorem failed_command_changes_nothing (r : Run) (w w' : World) (e : Z) :
  serves r = false -> main_run r w = (Done (Err e), w') -> (e = 1 \/ e = 2)%Z /\ unharmed (run_rand r) w w'.
Proof.
  intros Hs Hr. destruct (run_config r) as [c|er] eqn:Hc.
  2: { unfold main_run, main in Hr. unfold run_config in Hc. rewrite Hc in Hr. injection Hr as <- <-.
       split; [by left|]. split; [done|by left]. }
  unfold serves in Hs. destruct (run_args r) as [|cmd rest] eqn:Ha; [done|]. rewrite (run_command cmd rest c) in Hr by done.
  assert (Htry : forall (m : Process unit), fails_clean (run_rand r) m ->
    st_try m (fun _ => (mret (Ok None) : Process (option Services))) w = (Done (Err e), w') -> (e = 1 \/ e = 2)%Z /\ unharmed (run_rand r) w w').
  { intros m Hm E. unfold st_try, mbind, St_bind in E. destruct (m w) as [[[u|e']|] w1] eqn:Em; [done| |done].
    injection E as -> ->. by apply (Hm w). }
  destruct (str_eqb cmd (# "provision")) eqn:E1; [apply (Htry _ (fc_provision _ _ c rest) Hr)|].
  destruct (str_eqb cmd (# "dkim-init")) eqn:E2; [apply (Htry _ (fc_dkim _ _ rest) Hr)|].
  destruct (str_eqb cmd (# "domain")) eqn:E3; [apply (Htry _ (fc_domain _ _ rest) Hr)|].
  destruct (str_eqb cmd (# "mta-sts-init")) eqn:E4.
  { apply (Htry (mta_sts_init c rest)); [|exact Hr]. destruct rest as [|d [|]]; try (apply fc_fail; by right).
    apply prints_clean. unfold mta_sts_init. repeat (apply prints_try; [apply prints_println || apply prints_print|intros _]). apply prints_println. }
  destruct (str_eqb cmd (# "tls-rpt-init")) eqn:E5.
  { apply (Htry (tls_rpt_init c rest)); [|exact Hr]. destruct rest as [|d [|]]; try (apply fc_fail; by right).
    apply prints_clean. unfold tls_rpt_init. repeat (apply prints_try; [apply prints_println|intros _]). apply prints_println. }
  unfold commands in Hs. cbn [existsb] in Hs. by rewrite E1, E2, E3, E4, E5 in Hs.
Qed.

(** The policy that `litterae mta-sts-init` prints is the configured one: the
    file between the dashes reads back as a version-1 policy with the mode and
    host of the configuration (the server's own domain by default) and one
    week's age; no store is touched. *)
Theorem printed_policy_reads_back (r : Run) (c : Config.Config) (dom : str) (w : World) :
  run_args r = [ # "mta-sts-init"; dom] -> run_config r = Ok c ->
  LF ∉ mode (sts_policy c) -> LF ∉ mx (sts_policy c) ->
  exists pre post w', main_run r w = (Done (Ok None), w') /\ disk w' = disk w /\
    stdout w' = stdout w ++ (pre ++ # "---" ++ [LF]) ++ policy_file_body (sts_policy c) ++ (# "---" ++ [LF]) ++ post /\
    read_policy (policy_file_body (sts_policy c)) = Some (sts_policy c).
Proof.
  intros Ha Hc Hm Hx. rewrite (run_command _ _ c) by done.
  set (pre := (# "Save this as a static file served at https://mta-sts." ++ dom ++ # "/.well-known/mta-sts.txt:") ++ [LF]).
  set (post := [LF] ++ (# "Publish this TXT record:" ++ [LF]) ++ (# "  " ++ sts_txt_record (sts_policy c) dom) ++ [LF]).
  exists pre, post. eexists. split; [reflexivity|]. split; [done|]. split.
  - unfold pre, post. cbn [stdout]. repeat (progress (rewrite <- ?app_assoc; cbn [app])). reflexivity.
  - apply policy_file_round_trip. split_and!; [done|done|cbn; lia|cbn; lia].
Qed.

(** The command line takes any catch-all, which the admin's page would not. *)
Lemma cli_catch_all_unchecked rnd fails name ca w :
  fails (# "admin store") = false -> valid_domain_name name = true ->
  (forall d, d ∈ domains (dk_admin (disk w)) -> dr_name d <> to_ascii_lowercase name) ->
  Forall (fun d => is_Some (dr_token d)) (domains (dk_admin (disk w))) ->
  exists d, d ∈ domains (dk_admin (disk (domain_cli rnd fails [ # "add"; name; ca] w).2)) /\ dr_catch_all d = Some ca.
Proof.
  intros Hf Hv Hn Ht. unfold domain_cli, open_admin, open. rewrite Hf. erewrite run_try by reflexivity.
  change (str_eqb (# "add") (# "add")) with true. cbv iota. rewrite migrate_idle by done.
  unfold domain_add, on_admin, AdminStore.create_domain, mbind, St_bind. cbn [disk with_disk dk_admin put_admin]. rewrite Hv. cbn [negb].
  assert (Ee : existsb (fun d => str_eqb (dr_name d) (to_ascii_lowercase name)) (domains (dk_admin (disk w))) = false).
  { apply not_true_iff_false. rewrite existsb_exists. intros (d & Hd%list_elem_of_In & E). bool_facts. by apply (Hn d). }
  rewrite Ee. eexists. split; [cbn; apply elem_of_app; right; apply list_elem_of_singleton; reflexivity|]. reflexivity.
Qed.

End Facts.

(** ** Witnesses *)
#[local] Existing Instance toy_primitives.
#[local] Existing Instance toy_laws.
#[local] Existing Instance toy_sha256.

(** One configuration, whatever the text. *)
Definition wit_table : Config.Table :=
  [(# "server", TTable [(# "domain", TString (# "mail.example.com"))]);
   (# "storage", TTable [(# "blob_dir", TString (# "blobs")); (# "sqlite_path", TString (# "db"))]);
   (# "admin", TTable [(# "username", TString (# "root")); (# "password", TString (# "correct horse"))])].
#[local] Instance one_toml : TomlLibrary := {| toml_table := fun _ => Some wit_table; toml_error := fun _ => [] |}.
#[local] Instance no_tls : TlsLibrary := {|
  TlsConfig := unit; pem_file_iter := fun _ => Err []; key_from_pem_file := fun _ => Err []; with_single_cert := fun _ _ => Err []
|}.

Definition wit_start_rand : StartRand :=
  mkStartRand 7 (pad 16 []) (pad 32 (# "audit")) (pad 32 (# "seed")) (pad 32 (# "chain")) (pad 24 []) Auth.wit_rand
    (Ok (# "private", # "public")) (# "token") (fun _ => # "token").
Definition wit_run (args : list str) : Run := mkRun wit_start_rand (fun _ => false) None (fun _ => Ok []) args.
Definition wit_disk : Disk := mkDisk empty_auth empty_admin empty_audit empty_queue (mkMailStore ∅ empty_store).
Definition wit_world : World := mkWorld wit_disk [] [].
Definition wit_boot_config : Config.Config := default (mkConfig (mkServerConfig []) (mkStorageConfig [] []) default_argon2 default_smtp default_jmap
  default_submission default_admin default_antispam default_antivirus default_mta_sts default_tls_rpt) (de_config wit_table).

Abbreviation wit_main := (main_run (fun _ => Some (# "spki")) (fun s => s)).

Lemma wit_first pass : pass = # "correct horse" -> first_start (wit_run []) wit_boot_config (# "root") pass wit_world.
Proof. intros ->. by split_and!. Qed.

Lemma first_start_once_witness :
  exists id at_, verify_login (dk_admin (disk (after_runs (fun _ => Some (# "spki")) (fun s => s) (wit_main (wit_run []) wit_world).2
      [wit_run []; wit_run []]))) (# "root") (# "correct horse") wit_cfg
    = Ok (Some (mkAdmin id (# "root") true at_ false, pad 32 (# "correct horse" ++ pad 16 []))).
Proof.
  apply (first_start_once (fun _ => Some (# "spki")) (fun s => s) (wit_run []) wit_boot_config (# "root") (# "correct horse")
    (pad 32 (# "correct horse" ++ pad 16 [])) wit_world [wit_run []; wit_run []]).
  - by apply wit_first.
  - split; reflexivity.
  - reflexivity.
  - vm_compute. reflexivity.
  - reflexivity.
  - by repeat constructor.
Defined.

(** A configuration with one of the sample passwords. *)
Definition wit_sample_table : Config.Table :=
  [(# "server", TTable [(# "domain", TString (# "mail.example.com"))]);
   (# "storage", TTable [(# "blob_dir", TString (# "blobs")); (# "sqlite_path", TString (# "db"))]);
   (# "admin", TTable [(# "username", TString (# "root")); (# "password", TString (# "change-me-please"))])].
#[local] Instance sample_toml : TomlLibrary := {| toml_table := fun _ => Some wit_sample_table; toml_error := fun _ => [] |}.
Definition wit_sample_config : Config.Config := default wit_boot_config (de_config wit_sample_table).

Lemma insecure_bootstrap_refused_witness :
  admins (dk_admin (disk (opened (wit_run []) wit_world))) = [] /\
  main_run (fun _ => Some (# "spki")) (fun s => s) (wit_run []) wit_world = (Done (Err 1%Z), opened (wit_run []) wit_world).
Proof.
  destruct (insecure_bootstrap_refused (fun _ => Some (# "spki")) (fun s => s) (wit_run []) wit_sample_config (# "root")
    (# "change-me-please") wit_world) as (E & Ea & _); [by split_and!|reflexivity|]. split; [exact Ea|exact E].
Defined.

#[local] Existing Instance one_toml.

Lemma audit_gap_is_permanent_witness :
  has_keys (dk_audit (disk (after_runs (fun _ => Some (# "spki")) (fun s => s)
    (bootstrap_admin wit_start_rand wit_boot_config (# "root") (# "correct horse") wit_world).2 [wit_run []; wit_run []]))) = false.
Proof.
  apply (audit_gap_is_permanent (fun _ => Some (# "spki")) (fun s => s) wit_boot_config wit_start_rand (# "root") (# "correct horse")
    (pad 32 (# "correct horse" ++ pad 16 [])) wit_world _ [wit_run []; wit_run []]); vm_compute; reflexivity.
Defined.

Lemma published_key_signs_witness : exists key record,
  dns_txt_record (fun _ => Some (# "spki")) (fun s => s) key = Done record /\
  forall g now, ensure_dkim_key g now (# "example.com") (dk_queue (disk (wit_main (wit_run [ # "dkim-init"; # "example.com"]) wit_world).2))
    = (Ok key, dk_queue (disk (wit_main (wit_run [ # "dkim-init"; # "example.com"]) wit_world).2)).
Proof.
  destruct (published_key_signs (fun _ => Some (# "spki")) (fun s => s) (wit_run [ # "dkim-init"; # "example.com"]) (# "example.com")
    wit_world (wit_main (wit_run [ # "dkim-init"; # "example.com"]) wit_world).2 None) as (key & record & Er & _ & Hk & _);
    [reflexivity|vm_compute; reflexivity|]. exists key, record. split; [exact Er|exact Hk].
Defined.

Lemma failed_command_changes_nothing_witness :
  unharmed wit_start_rand wit_world (wit_main (wit_run [ # "domain"; # "add"; # "not a domain"]) wit_world).2.
Proof.
  apply (failed_command_changes_nothing (fun _ => Some (# "spki")) (fun s => s) (wit_run [ # "domain"; # "add"; # "not a domain"])
    wit_world _ 1%Z); vm_compute; reflexivity.
Defined.

Lemma printed_policy_reads_back_witness :
  read_policy (policy_file_body (sts_policy wit_boot_config)) = Some (mkPolicy (# "testing") (# "mail.example.com") 604800).
Proof.
  destruct (printed_policy_reads_back (fun _ => Some (# "spki")) (fun s => s) (wit_run [ # "mta-sts-init"; # "example.com"]) wit_boot_config
    (# "example.com") wit_world) as (pre & post & w' & _ & _ & _ & E); [reflexivity|reflexivity|vm_compute..|exact E];
    intros Hin; repeat (apply elem_of_cons in Hin as [Hin|Hin]; [discriminate Hin|]); by apply elem_of_nil in Hin.
Defined.
