(* ===== verification/Worker.v ===== *)
(** * Worker: the outbound worker, [queue::worker]

    src/crates/queue/src/worker.rs: claiming due recipients, connecting to a
    domain's MX hosts, the envelope, classification and the commit of each
    recipient's next state, bounces, and the scheduled events that share the
    loop.  Clock readings, random draws and the network's behaviour are
    arguments; a remote server is an arbitrary function of the commands it
    has received. *)

From stdpp Require Import base list strings gmap sorting.
From Stdlib Require Import Ascii ZArith Lia.
From S2P Require Import Prelude RustStr Limits Store Sealing Auth AuditLog Delivery Backoff Queue Dane.
Import Blob.

Definition KEYWORD_SNOOZED : str := # "$snoozed".
Definition KEYWORD_NUDGE : str := # "$nudge".
Definition BATCH_SIZE : Z := 100.
Definition LEASE_TTL_SECS : Z := 300.
Definition COOLDOWN_SECS : Z := 60.
Definition WORKER_ID : str := # "worker-1".

(** An [Instant], in nanoseconds. *)
Abbreviation Instant := Z.
Definition from_secs (n : Z) : Z := n * 1000000000.

Record ClaimedRcpt : Type := mkClaimedRcpt {
  c_id : Z;
  c_rcpt_to : str;
  c_domain : str;
  c_dsn_notify : str;
  c_attempts : Z;
  c_delayed_dsn_sent : bool
}.

Record OutboundRow : Type := mkOutboundRow {
  ow_id : Z;
  ow_message_blob : str;
  ow_envelope_from : str;
  ow_is_dsn : bool;
  ow_created_at : Z;
  ow_expires_at : Z;
  ow_account_id : Z
}.

(** The stores the worker holds and its cooldowns. *)
Record Worker : Type := mkWorker {
  queue : QueueStore;
  mail : MailStore;
  auth_store : AuthStore;
  audit : AuditStore;
  cooldowns : gmap str Instant;
  notifier : Changes.ChangeNotifier
}.

Definition with_queue (q : QueueStore) (w : Worker) : Worker :=
  mkWorker q (mail w) (auth_store w) (audit w) (cooldowns w) (notifier w).
Definition with_mail (m : MailStore) (w : Worker) : Worker :=
  mkWorker (queue w) m (auth_store w) (audit w) (cooldowns w) (notifier w).
Definition with_audit (a : AuditStore) (w : Worker) : Worker :=
  mkWorker (queue w) (mail w) (auth_store w) a (cooldowns w) (notifier w).
Definition with_cooldowns (c : gmap str Instant) (w : Worker) : Worker :=
  mkWorker (queue w) (mail w) (auth_store w) (audit w) c (notifier w).
Definition with_notifier (n : Changes.ChangeNotifier) (w : Worker) : Worker :=
  mkWorker (queue w) (mail w) (auth_store w) (audit w) (cooldowns w) n.

Definition on_queue (f : QueueStore -> QueueStore) (w : Worker) : Worker := with_queue (f (queue w)) w.
Definition on_metadata (f : Metadata.MetadataStore -> Metadata.MetadataStore) (w : Worker) : Worker :=
  with_mail (mkMailStore (blobs (mail w)) (f (metadata (mail w)))) w.
Definition notify (account : Z) (w : Worker) : Worker := with_notifier (Changes.notify (notifier w) account) w.

(** Clock readings and random draws of one [finalize]. *)
Record FinalizeEnv : Type := mkFinalizeEnv {
  fe_now : Z;
  fe_jitter : Z;
  fe_audit_now : Z;
  fe_audit_rand : str;
  fe_dsn_now : Z;
  fe_dsn_rand : DeliverRand
}.

(** ** The network *)
Inductive SmtpCmd : Type := MailFrom (sender : str) | RcptTo (rcpt : str) | Data (raw : str) | Quit.

(** A connected server: its answer to the last of the commands received. *)
Definition Remote : Type := list SmtpCmd -> result SendError unit.

Inductive Connected : Type := CTls (client : Remote) | CPlain (client : Remote).

Inductive ConnectOutcome : Type :=
| CoConnected (c : Connected)
| CoFailed (dane_required : bool).

(** What the resolver and [mail_send]'s client builder do during one send:
    [builder_ok] is whether the builder accepts a host, [connect] a STARTTLS
    connection with or without a pinning verifier, [connect_plain] one
    without TLS. *)
Record Net : Type := mkNet {
  net_mx : str -> Result (list MxRecord);
  net_tlsa : str -> Result (list TlsaRecord);
  builder_ok : str -> bool;
  connect : str -> option DaneVerifier -> result SendError Remote;
  connect_plain : str -> result SendError Remote
}.

(** ** Claims *)
Definition set_state (st : RcptState) (r : RcptRow) : RcptRow :=
  mkRcptRow (r_id r) (outbound_id r) (r_rcpt_to r) (r_domain r) (dsn_notify r) (as_str st) (attempts r)
    (next_attempt_at r) (claimed_by r) (claimed_at r) (last_code r) (last_status r) (last_detail r)
    (delayed_dsn_sent r).
Definition set_claim (by_ : option str) (at_ : option Z) (r : RcptRow) : RcptRow :=
  mkRcptRow (r_id r) (outbound_id r) (r_rcpt_to r) (r_domain r) (dsn_notify r) (state r) (attempts r)
    (next_attempt_at r) by_ at_ (last_code r) (last_status r) (last_detail r) (delayed_dsn_sent r).

Definition release_row (r : RcptRow) : RcptRow := set_claim None (claimed_at r) (set_state Ready r).
Definition claim_row (now : Z) (r : RcptRow) : RcptRow :=
  set_claim (Some WORKER_ID) (Some now) (set_state Claimed r).

Definition claimable (now : Z) (r : RcptRow) : bool :=
  state_in [ # "ready"; # "deferred"] r && (next_attempt_at r <=? now)%Z.

Definition claimed_rcpt (r : RcptRow) : Z * ClaimedRcpt :=
  (outbound_id r, mkClaimedRcpt (r_id r) (r_rcpt_to r) (r_domain r) (dsn_notify r) (attempts r)
                    (delayed_dsn_sent r)).

Definition id_in (ids : list Z) (r : RcptRow) : bool := existsb (Z.eqb (r_id r)) ids.

Section Claims.
Context `{AnyOrder}.

(** The subquery, and the [UPDATE .. RETURNING] (rows in any order). *)
Definition due_ids (now limit : Z) (q : QueueStore) : list Z :=
  r_id <$> sql_limit limit (order_by next_attempt_at (List.filter (claimable now) (outbound_rcpt q))).

Definition claim_batch (now limit : Z) (q : QueueStore) : list (Z * ClaimedRcpt) * QueueStore :=
  let ids := due_ids now limit q in
  let q' := update_rcpts (id_in ids) (claim_row now) q in
  (any_order (claimed_rcpt <$> List.filter (id_in ids) (outbound_rcpt q')), q').

(** [claimed_at < ?1], never true of NULL. *)
Definition stale (now : Z) (r : RcptRow) : bool :=
  state_in [ # "claimed"] r &&
  match claimed_at r with Some t => (t <? now - LEASE_TTL_SECS)%Z | None => false end.

Definition reap_stale_claims (now : Z) (q : QueueStore) : QueueStore :=
  update_rcpts (stale now) release_row q.

Definition overdue (now : Z) (q : QueueStore) (r : RcptRow) : bool :=
  state_in [ # "ready"; # "deferred"] r &&
  existsb (Z.eqb (outbound_id r)) (o_id <$> List.filter (fun o => (expires_at o <? now)%Z) (outbound q)).

Definition expire_overdue (now : Z) (q : QueueStore) : QueueStore :=
  update_rcpts (overdue now q) (set_state Expired) q.

Definition release_to_ready (rcpts : list ClaimedRcpt) (q : QueueStore) : QueueStore :=
  foldl (fun q c => update_rcpts (fun r => (r_id r =? c_id c)%Z) release_row q) q rcpts.

Definition mark_row (r : RcptRow) : RcptRow :=
  mkRcptRow (r_id r) (outbound_id r) (r_rcpt_to r) (r_domain r) (dsn_notify r) (state r) (attempts r)
    (next_attempt_at r) (claimed_by r) (claimed_at r) (last_code r) (last_status r) (last_detail r) true.

Definition mark_delayed_dsn_sent (id : Z) (q : QueueStore) : QueueStore :=
  update_rcpts (fun r => (r_id r =? id)%Z) mark_row q.

End Claims.

(** ** Cooldowns *)
Definition is_cooling_down (instant : Instant) (d : str) (w : Worker) : bool :=
  match cooldowns w !! d with Some until => (instant <? until)%Z | None => false end.

Definition set_cooldown (instant : Instant) (d : str) (w : Worker) : Worker :=
  with_cooldowns (<[d := (instant + from_secs COOLDOWN_SECS)%Z]> (cooldowns w)) w.

Definition load_outbound (id : Z) (q : QueueStore) : option OutboundRow :=
  (fun o => mkOutboundRow id (message_blob o) (envelope_from o) (is_dsn o) (o_created_at o) (expires_at o)
              (o_account_id o)) <$> sql_find (fun o => (o_id o =? id)%Z) (outbound q).

(** ** The envelope *)
Definition send (remote : Remote) (c : SmtpCmd) (sent : list SmtpCmd) : result SendError unit * list SmtpCmd :=
  (remote (sent ++ [c]), sent ++ [c]).

Section Envelope.
Context `{SendErrorDisplay}.

(** The loop over the recipients: the accepted indices in order and the
    outcomes filled in so far. *)
Fixpoint rcpt_phase (remote : Remote) (i : nat) (rcpts : list ClaimedRcpt) (accepted : list nat)
    (outcomes : list (option Outcome)) (sent : list SmtpCmd)
    : list nat * list (option Outcome) * list SmtpCmd :=
  match rcpts with
  | [] => (accepted, outcomes, sent)
  | rcpt :: rcpts =>
      let '(r, sent) := send remote (RcptTo (c_rcpt_to rcpt)) sent in
      match r with
      | Ok _ => rcpt_phase remote (S i) rcpts (accepted ++ [i]) outcomes sent
      | Err e =>
          rcpt_phase remote (S i) rcpts accepted (<[i := Some (classify_send_result (Err e))]> outcomes) sent
      end
  end.

Definition no_outcome : Outcome := Transient None None (# "internal: no outcome computed").

Definition run_envelope (remote : Remote) (sender : str) (rcpts : list ClaimedRcpt) (raw : str)
    : list Outcome * list SmtpCmd :=
  match send remote (MailFrom sender) [] with
  | (Err e, sent) =>
      let outcome := classify_send_result (Err e) in ((fun _ => outcome) <$> rcpts, sent)
  | (Ok _, sent) =>
      let '(accepted, outcomes, sent) :=
        rcpt_phase remote 0 rcpts [] (replicate (length rcpts) None) sent in
      let '(outcomes, sent) :=
        match accepted with
        | [] => (outcomes, sent)
        | _ =>
            let '(data_result, sent) := send remote (Data raw) sent in
            let outcome := classify_send_result data_result in
            (foldl (fun os i => <[i := Some outcome]> os) outcomes accepted, sent)
        end in
      let '(_, sent) := send remote Quit sent in
      (default no_outcome <$> outcomes, sent)
  end.

End Envelope.

(** ** Connecting *)
Fixpoint connect_hosts (net : Net) (mx_records : list MxRecord) (dane_required : bool) : ConnectOutcome :=
  match mx_records with
  | [] => CoFailed dane_required
  | mx :: rest =>
      let host := trim_end_byte "."%char (exchange mx) in
      if bool_decide (host = []) then connect_hosts net rest dane_required
      else if negb (builder_ok net host) then connect_hosts net rest dane_required
      else
        match net_tlsa net host with
        | Err _ => connect_hosts net rest true
        | Ok records =>
            match verifier_new records with
            | Some verifier =>
                match connect net host (Some verifier) with
                | Ok client => CoConnected (CTls client)
                | Err _ => connect_hosts net rest true
                end
            | None =>
                match connect net host None with
                | Ok client => CoConnected (CTls client)
                | Err MissingStartTls =>
                    match connect_plain net host with
                    | Ok client => CoConnected (CPlain client)
                    | Err _ => connect_hosts net rest dane_required
                    end
                | Err _ => connect_hosts net rest dane_required
                end
            end
        end
  end.

Definition connect_opportunistic (net : Net) (mx_records : list MxRecord) : ConnectOutcome :=
  connect_hosts net mx_records false.

(** [mx_records.len() == 1 && mx_records[0].exchange == "."]. *)
Definition null_mx (mx_records : list MxRecord) : bool :=
  match mx_records with [m] => str_eqb (exchange m) (# ".") | _ => false end.

(** ** Committing a recipient's next state *)
Definition commit_row (st : RcptState) (next increment : Z) (code : option N) (status : option str)
    (detail : str) (r : RcptRow) : RcptRow :=
  mkRcptRow (r_id r) (outbound_id r) (r_rcpt_to r) (r_domain r) (dsn_notify r) (as_str st)
    (attempts r + increment) next None (claimed_at r) (Z.of_N <$> code) status (Some detail)
    (delayed_dsn_sent r).

(** The state, next attempt, code, status and detail [finalize] commits. *)
Definition next_state (env : FinalizeEnv) (rcpt : ClaimedRcpt) (outbound : OutboundRow) (outcome : Outcome)
    : RcptState * Z * option N * option str * str :=
  let now := fe_now env in
  match outcome with
  | OutDelivered => (Delivered, now, None, None, [])
  | Permanent code status detail => (Failed, now, code, status, detail)
  | Transient code status detail =>
      let attempts := (c_attempts rcpt + 1)%Z in
      if (ow_expires_at outbound <=? now)%Z then (Expired, now, code, status, detail)
      else (Deferred, (now + next_delay_secs attempts (fe_jitter env))%Z, code, status, detail)
  end.

Definition audit_action (st : RcptState) : exec str :=
  match st with
  | Delivered => Done (# "queue.delivered")
  | Failed => Done (# "queue.failed")
  | Expired => Done (# "queue.expired")
  | _ => Panicked
  end.

(** [WHERE o.message_blob = ?1 AND r.state NOT IN (..)]. *)
Definition active_reference (hash : str) (ro : RcptRow * OutboundMessage) : bool :=
  str_eqb (message_blob ro.2) hash && negb (state_in [ # "delivered"; # "failed"; # "expired"] ro.1).

Definition cleanup_terminal_message (outbound : OutboundRow) (w : Worker) : Worker :=
  if (sql_count (active_reference (ow_message_blob outbound)) (rcpt_join (queue w)) =? 0)%Z
  then with_mail (mkMailStore (remove (blobs (mail w)) (ow_message_blob outbound)).2 (metadata (mail w))) w
  else w.

Section Finalize.
Context `{Primitives} `{BlobHash} `{SqlAny} `{MailBuilder}.
Context (parse : str -> option ParsedMessage) (to_lowercase : str -> str) (hostname : str).

Definition dsn_input (rcpt : ClaimedRcpt) (outbound : OutboundRow) (action : DsnAction)
    (code : option N) (status : option str) (detail : str) : DsnInput :=
  let status_string := match status with
                       | Some s => s
                       | None => match code with Some c => dec (Z.of_N c) | None => [] end
                       end in
  let diagnostic := match detail with [] => # "delivery failed" | _ => detail end in
  mkDsnInput hostname (ow_envelope_from outbound) None
    [mkFailed (c_rcpt_to rcpt) action (non_empty status_string) diagnostic] None.

Definition maybe_send_dsn (env : FinalizeEnv) (rcpt : ClaimedRcpt) (outbound : OutboundRow)
    (action : DsnAction) (code : option N) (status : option str) (detail : str) : St Worker unit :=
  if bool_decide (ow_envelope_from outbound = []) || ow_is_dsn outbound
     || str_eqb (c_dsn_notify rcpt) (# "NEVER")
  then mret tt
  else
    match build_dsn (dsn_input rcpt outbound action code status detail) with
    | Err _ => mret tt
    | Ok dsn_bytes =>
        w ← st_get;
        match find_by_id (auth_store w) (ow_account_id outbound) with
        | Ok (Some account) =>
            r ← st_zoom mail with_mail
              (deliver parse to_lowercase (fe_dsn_rand env)
                 (mkRecipient (acc_id account) (account_pub account) (acc_key_id account))
                 (mkInbound [] (ow_envelope_from outbound) (# "127.0.0.1"))
                 (mkAuthResults (# "n/a") (# "n/a") (# "n/a"))
                 dsn_bytes (fe_dsn_now env) None (mkScanMetadata None None));
            match r with
            | Ok _ => st_mod (notify (acc_id account))
            | Err _ => mret tt
            end
        | _ => mret tt
        end
    end.

Definition log_terminal (env : FinalizeEnv) (rcpt : ClaimedRcpt) (st : RcptState) : St Worker unit :=
  if is_terminal st then
    action ← st_exec (audit_action st);
    _ ← st_zoom audit with_audit (log (fe_audit_rand env) (fe_audit_now env) action (c_rcpt_to rcpt));
    mret tt
  else mret tt.

Definition finalize (env : FinalizeEnv) (outbound : OutboundRow) (rcpt : ClaimedRcpt) (outcome : Outcome)
    : St Worker unit :=
  let '(st, next_attempt_at, code, status, detail) := next_state env rcpt outbound outcome in
  let attempts_increment := match outcome with OutDelivered => 0%Z | _ => 1%Z end in
  _ ← st_mod (on_queue (update_rcpts (fun r => (r_id r =? c_id rcpt)%Z)
                (commit_row st next_attempt_at attempts_increment code status detail)));
  _ ← log_terminal env rcpt st;
  _ ← (if is_terminal st && negb (bool_decide (st = Delivered)) then
         maybe_send_dsn env rcpt outbound ActFailed code status detail
       else if bool_decide (st = Deferred) && negb (c_delayed_dsn_sent rcpt)
               && contains (# "DELAY") (c_dsn_notify rcpt)
               && (DELAYED_DSN_THRESHOLD_SECS <=? fe_now env - ow_created_at outbound)%Z then
         _ ← st_mod (on_queue (mark_delayed_dsn_sent (c_id rcpt)));
         maybe_send_dsn env rcpt outbound ActDelayed code status detail
       else mret tt);
  st_mod (cleanup_terminal_message outbound).

(** ** Sending one unit: a message's recipients at one domain *)
Context `{SendErrorDisplay}.

(** [env] gives each recipient's readings; [instant] is the time of the
    cooldown. *)
Definition send_unit (net : Net) (instant : Instant) (env : ClaimedRcpt -> FinalizeEnv)
    (outbound_id : Z) (d : str) (rcpts : list ClaimedRcpt) : St Worker unit :=
  w ← st_get;
  match load_outbound outbound_id (queue w) with
  | None => mret tt
  | Some outbound =>
      let all outcome := st_for (fun rcpt => finalize (env rcpt) outbound rcpt outcome) rcpts in
      match read (blobs (mail w)) (ow_message_blob outbound) with
      | Err _ => all (Transient None None (# "local storage error"))
      | Ok raw =>
          match net_mx net d with
          | Err e => all (classify_connect_failure (error_display e) false)
          | Ok mx_records =>
              if null_mx mx_records then
                all (classify_connect_failure
                       (# "domain publishes a null MX (RFC 7505): does not accept mail") true)
              else
                match connect_opportunistic net mx_records with
                | CoConnected (CTls client) | CoConnected (CPlain client) =>
                    let outcomes := (run_envelope client (ow_envelope_from outbound) rcpts raw).1 in
                    st_for (fun ro => finalize (env ro.1) outbound ro.1 ro.2) (zip rcpts outcomes)
                | CoFailed dane_required =>
                    _ ← st_mod (set_cooldown instant d);
                    all (if dane_required
                         then classify_dane_failure
                                (# "no certificate offered by any MX host matched its DNSSEC-validated TLSA record")
                         else classify_connect_failure (# "could not connect to any MX host") false)
                end
          end
      end
  end.

End Finalize.

(** ** Scheduled events *)
Definition scheduled_message_row_id (ev : StoredScheduledEvent) : option Z :=
  p ← payload ev; n ← strip_prefix (# "m") p; parse_i64 n.

(** [split(',').filter(|k| !k.is_empty())]. *)
Definition keyword_list (keywords : str) : list str :=
  List.filter (fun k => negb (bool_decide (k = []))) (split_on ","%char keywords).

Definition set_message_keywords (row_id : Z) (kept : list str) (w : Worker) : Worker :=
  on_metadata (fun s => Metadata.update_message s row_id None (Some (join (# ",") kept))) w.

Definition fire_snooze_resurface (ev : StoredScheduledEvent) (w : Worker) : Worker :=
  let w' :=
    match scheduled_message_row_id ev with
    | None => w
    | Some row_id =>
        match Metadata.get_message (metadata (mail w)) row_id with
        | Ok (Some msg) =>
            let kept := List.filter (fun k => negb (str_eqb k KEYWORD_SNOOZED))
                          (keyword_list (Metadata.keywords (Metadata.m_row msg))) in
            notify (e_account_id ev) (set_message_keywords row_id kept w)
        | _ => w
        end
    end in
  on_queue (mark_event_fired (e_id ev)) w'.

(** [ensure_mailbox(..).ok()], keeping the mailboxes it creates. *)
Definition ensure_role (account : Z) (role : str) (w : Worker) : option Metadata.Mailbox * Worker :=
  let '(r, s) := Metadata.ensure_mailbox (metadata (mail w)) account role in
  (ok_opt r, on_metadata (fun _ => s) w).

Definition outside (mb : option Metadata.Mailbox) (m : Metadata.StoredMessage) : bool :=
  match mb with
  | None => true
  | Some mb => negb (Metadata.mailbox_id (Metadata.m_row m) =? Metadata.mb_id mb)%Z
  end.

Definition fire_followup_nudge (ev : StoredScheduledEvent) (w : Worker) : Worker :=
  match (t ← e_thread_id ev; parse_i64 t) with
  | None => on_queue (mark_event_fired (e_id ev)) w
  | Some thread_id =>
      match scheduled_message_row_id ev with
      | None => on_queue (mark_event_fired (e_id ev)) w
      | Some row_id =>
          match Metadata.get_message (metadata (mail w)) row_id with
          | Ok (Some msg) =>
              let '(sent, w1) := ensure_role (e_account_id ev) Metadata.ROLE_SENT w in
              let '(drafts, w2) := ensure_role (e_account_id ev) Metadata.ROLE_DRAFTS w1 in
              let thread := match Metadata.messages_in_thread (metadata (mail w2)) (e_account_id ev) thread_id with
                            | Ok l => l
                            | Err _ => []
                            end in
              let replied := existsb (fun m => negb (Metadata.m_id m =? row_id)%Z && outside sent m
                                               && outside drafts m) thread in
              if replied then on_queue (mark_event_cancelled (e_id ev)) w2
              else
                let keywords := Metadata.keywords (Metadata.m_row msg) in
                let w3 :=
                  if existsb (str_eqb KEYWORD_NUDGE) (split_on ","%char keywords) then w2
                  else set_message_keywords row_id (keyword_list keywords ++ [KEYWORD_NUDGE]) w2 in
                on_queue (mark_event_fired (e_id ev)) (notify (e_account_id ev) w3)
          | _ => on_queue (mark_event_fired (e_id ev)) w
          end
      end
  end.

Definition fire_event (w : Worker) (ev : StoredScheduledEvent) : Worker :=
  match kind_from_db_str (kind ev) with
  | Some SnoozeResurface => fire_snooze_resurface ev w
  | Some FollowupNudge => fire_followup_nudge ev w
  | _ => on_queue (mark_event_fired (e_id ev)) w
  end.

Definition fire_due_scheduled_events `{AnyOrder} (now : Z) (w : Worker) : Worker :=
  foldl fire_event w (due_scheduled_events (queue w) now).

(** ** The loop *)

(** [units.entry(key).or_default().push(rcpt)]. *)
Fixpoint push_unit (key : Z * str) (rcpt : ClaimedRcpt) (units : list ((Z * str) * list ClaimedRcpt))
    : list ((Z * str) * list ClaimedRcpt) :=
  match units with
  | [] => [(key, [rcpt])]
  | (k, l) :: rest =>
      if bool_decide (k = key) then (k, l ++ [rcpt]) :: rest else (k, l) :: push_unit key rcpt rest
  end.

Definition group_units (claimed : list (Z * ClaimedRcpt)) : list ((Z * str) * list ClaimedRcpt) :=
  foldl (fun units '(oid, rcpt) => push_unit (oid, c_domain rcpt) rcpt units) [] claimed.

(** Clock readings and the network during one iteration. *)
Record IterationEnv : Type := mkIterationEnv {
  ie_reap : Z;
  ie_expire : Z;
  ie_fire : Z;
  ie_claim : Z;
  ie_instant : Z * str -> Instant;
  ie_net : Z * str -> Net;
  ie_finalize : ClaimedRcpt -> FinalizeEnv
}.

Section Loop.
Context `{Primitives} `{BlobHash} `{SqlAny} `{MailBuilder} `{SendErrorDisplay} `{AnyOrder}.
Context (parse : str -> option ParsedMessage) (to_lowercase : str -> str) (hostname : str).

Definition run_unit (env : IterationEnv) (u : (Z * str) * list ClaimedRcpt) : St Worker unit :=
  let '((oid, d), rcpts) := u in
  w ← st_get;
  if is_cooling_down (ie_instant env (oid, d)) d w then st_mod (on_queue (release_to_ready rcpts))
  else send_unit parse to_lowercase hostname (ie_net env (oid, d)) (ie_instant env (oid, d)) (ie_finalize env)
         oid d rcpts.

(** One pass of [run]; the boolean is whether it goes to sleep. *)
Definition run_iteration (env : IterationEnv) : St Worker bool :=
  _ ← st_mod (on_queue (reap_stale_claims (ie_reap env)));
  _ ← st_mod (on_queue (expire_overdue (ie_expire env)));
  _ ← st_mod (fire_due_scheduled_events (ie_fire env));
  w ← st_get;
  let '(claimed, q) := claim_batch (ie_claim env) BATCH_SIZE (queue w) in
  _ ← st_mod (with_queue q);
  match claimed with
  | [] => mret true
  | _ =>
      _ ← st_for (run_unit env) (any_order (group_units claimed));
      mret false
  end.

End Loop.

(** ** Lemmas *)
Lemma list_lookup_foldl_insert {A} (v : A) (is_ : list nat) : forall (l : list A) (k : nat),
  foldl (fun os i => <[i := v]> os) l is_ !! k
    = if decide (k ∈ is_ /\ (k < length l)%nat) then Some v else l !! k.
Proof.
  induction is_ as [|i is_ IH]; intros l k; cbn [foldl].
  - rewrite decide_False; [done|]. by intros [?%elem_of_nil _].
  - rewrite IH, length_insert. destruct (decide (k ∈ is_ /\ (k < length l)%nat)) as [[Hk Hl]|Hn].
    + rewrite decide_True; [done|]. split; [by right|done].
    + destruct (decide (k = i)) as [->|Hne].
      * destruct (decide (i < length l)%nat) as [Hl|Hl].
        -- rewrite list_lookup_insert_eq by done. rewrite decide_True; [done|]. split; [by left|done].
        -- rewrite decide_False by (intros [_ ?]; lia). by rewrite !lookup_ge_None_2 by (rewrite ?length_insert; lia).
      * rewrite list_lookup_insert_ne by done. rewrite decide_False; [done|].
        intros [[->|Hin]%elem_of_cons Hl]; [done|]. by apply Hn.
Qed.

Lemma length_foldl_insert {A} (v : A) (is_ : list nat) : forall l : list A,
  length (foldl (fun os i => <[i := v]> os) l is_) = length l.
Proof. induction is_ as [|i is_ IH]; intros l; cbn [foldl]; [done|]. by rewrite IH, length_insert. Qed.

Lemma nil_iff_same {A} (l k : list A) : (forall x, x ∈ l <-> x ∈ k) -> l = [] <-> k = [].
Proof.
  intros Hs. split; intros ->; [destruct k as [|x k]|destruct l as [|x l]]; try done; exfalso;
    apply (not_elem_of_nil x), Hs; by left.
Qed.

Section EnvelopeFacts.
Context `{SendErrorDisplay}.

Definition rcpt_cmds (rcpts : list ClaimedRcpt) : list SmtpCmd := (fun r => RcptTo (c_rcpt_to r)) <$> rcpts.

(** The server's answer to recipient [k] of the loop started at [i]. *)
Definition rcpt_reply (remote : Remote) (sent : list SmtpCmd) (rcpts : list ClaimedRcpt) (n : nat)
    : result SendError unit := remote (sent ++ rcpt_cmds (take (S n) rcpts)).

(** What the loop leaves: the commands sent, the accepted indices and the
    refusals' outcomes. *)
Definition phase_ok (remote : Remote) (sent : list SmtpCmd) (rcpts : list ClaimedRcpt) (i : nat)
    (accepted : list nat) (outcomes : list (option Outcome))
    (res : list nat * list (option Outcome) * list SmtpCmd) : Prop :=
  let '(acc, outs, sent') := res in
  sent' = sent ++ rcpt_cmds rcpts /\ length outs = length outcomes /\
  (exists new, acc = accepted ++ new /\
     forall k, k ∈ new <-> exists n, k = (i + n)%nat /\ (n < length rcpts)%nat /\
                        is_ok (rcpt_reply remote sent rcpts n) = true) /\
  (forall k, (k < i)%nat -> outs !! k = outcomes !! k) /\
  (forall n, (n < length rcpts)%nat ->
     outs !! (i + n)%nat = match rcpt_reply remote sent rcpts n with
                           | Ok _ => outcomes !! (i + n)%nat
                           | Err e => Some (Some (classify_send_result (Err e)))
                           end).

Lemma rcpt_reply_S remote sent c rcpts n :
  rcpt_reply remote sent (c :: rcpts) (S n) = rcpt_reply remote (sent ++ [RcptTo (c_rcpt_to c)]) rcpts n.
Proof. unfold rcpt_reply. cbn [take rcpt_cmds fmap list_fmap]. by rewrite <- app_assoc. Qed.

(** One recipient, then the rest. *)
Lemma phase_step remote sent c rcpts i accepted outcomes outs1 res :
  let sent1 := sent ++ [RcptTo (c_rcpt_to c)] in
  length outs1 = length outcomes -> (forall k, k <> i -> outs1 !! k = outcomes !! k) ->
  outs1 !! i = match remote sent1 with
               | Ok _ => outcomes !! i | Err e => Some (Some (classify_send_result (Err e))) end ->
  phase_ok remote sent1 rcpts (S i) (accepted ++ if is_ok (remote sent1) then [i] else []) outs1 res ->
  phase_ok remote sent (c :: rcpts) i accepted outcomes res.
Proof.
  intros sent1 Hlen Hother Hi. destruct res as [[acc outs] sent'].
  intros (Es & El & (new & Ea & Hnew) & Hbelow & Hat).
  assert (Hfirst : rcpt_reply remote sent (c :: rcpts) 0 = remote sent1) by done. unfold phase_ok. split_and!.
  - rewrite Es. unfold sent1. by rewrite <- app_assoc.
  - by rewrite El.
  - exists ((if is_ok (remote sent1) then [i] else []) ++ new). split; [by rewrite Ea, app_assoc|].
    intros k. rewrite elem_of_app, Hnew. cbn [length]. split.
    + intros [Hk|(n & -> & Hn & Hok)].
      * destruct (is_ok (remote sent1)) eqn:E; [|by apply elem_of_nil in Hk].
        apply list_elem_of_singleton in Hk as ->. exists 0%nat. rewrite Hfirst. split_and!; [lia|lia|done].
      * exists (S n). rewrite rcpt_reply_S. split_and!; [lia|lia|done].
    + intros ([|n] & -> & Hn & Hok).
      * left. rewrite Hfirst in Hok. rewrite Hok. apply list_elem_of_singleton. lia.
      * right. exists n. rewrite rcpt_reply_S in Hok. split_and!; [lia|lia|done].
  - intros k Hk. rewrite Hbelow by lia. apply Hother. lia.
  - intros [|n] Hn.
    + rewrite Nat.add_0_r, Hbelow, Hi, Hfirst by lia. done.
    + cbn [length] in Hn. replace (i + S n)%nat with (S i + n)%nat by lia. rewrite Hat, rcpt_reply_S by lia.
      fold sent1. destruct (rcpt_reply remote sent1 rcpts n); [|done]. apply Hother. lia.
Qed.

Lemma rcpt_phase_spec remote rcpts : forall i accepted outcomes sent,
  (i + length rcpts <= length outcomes)%nat ->
  phase_ok remote sent rcpts i accepted outcomes (rcpt_phase remote i rcpts accepted outcomes sent).
Proof.
  induction rcpts as [|c rcpts IH]; intros i accepted outcomes sent Hl; cbn [rcpt_phase length] in *.
  - unfold phase_ok. rewrite app_nil_r. split_and!; try done; [|cbn; intros n Hn; lia].
    exists []. rewrite app_nil_r. split; [done|].
    intros k. split; [by intros ?%elem_of_nil|cbn; intros (n & _ & Hn & _); lia].
  - unfold send. destruct (remote (sent ++ [RcptTo (c_rcpt_to c)])) as [u|e] eqn:Er.
    + eapply phase_step; [reflexivity|done|by rewrite Er|]. rewrite Er. apply IH. lia.
    + eapply (phase_step _ _ _ _ _ _ _ (<[i := Some (classify_send_result (Err e))]> outcomes)).
      * apply length_insert.
      * intros k Hk. by rewrite list_lookup_insert_ne.
      * rewrite Er. by rewrite list_lookup_insert_eq by lia.
      * rewrite Er, app_nil_r. apply IH. rewrite length_insert. lia.
Qed.

Lemma run_envelope_length remote sender rcpts raw :
  length (run_envelope remote sender rcpts raw).1 = length rcpts.
Proof.
  unfold run_envelope, send. cbn [app]. destruct (remote [MailFrom sender]) as [u|e]; [|apply length_fmap].
  pose proof (rcpt_phase_spec remote rcpts 0 [] (replicate (length rcpts) None) [MailFrom sender]
    ltac:(by rewrite length_replicate)) as Hp.
  destruct (rcpt_phase _ _ _ _ _ _) as [[acc outs] sent]. destruct Hp as (_ & El & _).
  rewrite length_replicate in El. destruct acc; cbn [fst]; by rewrite length_fmap, ?length_foldl_insert.
Qed.

(** The commands before DATA and QUIT. *)
Definition envelope_cmds (sender : str) (rcpts : list ClaimedRcpt) : list SmtpCmd :=
  MailFrom sender :: rcpt_cmds rcpts.

(** C23.  The envelope tells every recipient the truth, for any server: MAIL
    FROM comes first; if it is refused, nothing else is sent and every
    recipient gets that refusal's outcome.  Otherwise each recipient is
    offered once, in order; the body follows if and only if some recipient
    was accepted, once, and then QUIT; a refused recipient's outcome is its
    own refusal's, an accepted one's is that of the body; the default
    "no outcome computed" is never used. *)
Theorem envelope_exact (remote : Remote) (sender : str) (rcpts : list ClaimedRcpt) (raw : str) :
  let '(outs, sent) := run_envelope remote sender rcpts raw in
  let cmds n := envelope_cmds sender (take n rcpts) in
  let accepted := List.filter (fun n => is_ok (remote (cmds (S n)))) (List.seq 0 (length rcpts)) in
  length outs = length rcpts /\
  match remote [MailFrom sender] with
  | Err e => sent = [MailFrom sender] /\ Forall (fun o => o = classify_send_result (Err e)) outs
  | Ok _ =>
      sent = envelope_cmds sender rcpts ++ (match accepted with [] => [] | _ => [Data raw] end) ++ [Quit] /\
      forall n, (n < length rcpts)%nat ->
        outs !! n = Some (match remote (cmds (S n)) with
                          | Err e => classify_send_result (Err e)
                          | Ok _ => classify_send_result (remote (envelope_cmds sender rcpts ++ [Data raw]))
                          end)
  end.
Proof.
  unfold run_envelope, send. cbn [app].
  destruct (remote [MailFrom sender]) as [u|e] eqn:Em.
  2: { cbn. rewrite length_fmap. split; [done|]. split; [done|]. apply Forall_fmap, Forall_true. done. }
  pose proof (rcpt_phase_spec remote rcpts 0 [] (replicate (length rcpts) None) [MailFrom sender]
    ltac:(by rewrite length_replicate)) as Hp.
  destruct (rcpt_phase _ _ _ _ _ _) as [[acc outs] sent].
  destruct Hp as (Es & El & (new & Ea & Hnew) & _ & Hat). cbn [app] in Ea. subst new sent.
  rewrite length_replicate in El. fold (envelope_cmds sender rcpts) in *.
  set (accepted := List.filter _ _).
  assert (Hacc : forall k, k ∈ acc <-> (k < length rcpts)%nat /\ is_ok (remote (envelope_cmds sender (take (S k) rcpts))) = true).
  { intros k. rewrite Hnew. split; [by intros (n & -> & Hn & Hok)|]. intros [Hk Hok]. by exists k. }
  assert (Hempty : acc = [] <-> accepted = []).
  { apply nil_iff_same. intros k. unfold accepted. rewrite elem_of_filter_list, Hacc, elem_of_seq.
    split; intros [? ?]; split; done || lia. }
  assert (Hone : forall n, (n < length rcpts)%nat ->
    outs !! n = match remote (envelope_cmds sender (take (S n) rcpts)) with
                | Ok _ => replicate (length rcpts) None !! n
                | Err e => Some (Some (classify_send_result (Err e)))
                end) by (intros n Hn; exact (Hat n Hn)).
  assert (Hok : forall n, n ∈ acc -> is_ok (remote (envelope_cmds sender (take (S n) rcpts))) = true)
    by (intros n Hn; by apply Hacc).
  destruct accepted as [|a l].
  - rewrite (proj2 Hempty eq_refl) in *. split; [by rewrite length_fmap|]. split; [done|].
    intros n Hn. rewrite list_lookup_fmap, Hone by done.
    destruct (remote (envelope_cmds sender (take (S n) rcpts))) eqn:Er; [|done].
    exfalso. apply (not_elem_of_nil n), Hacc. by rewrite Er.
  - destruct acc as [|k0 acc]; [discriminate (proj1 Hempty eq_refl)|].
    split; [by rewrite length_fmap, length_foldl_insert|]. split; [cbn; by rewrite <- app_assoc|].
    intros n Hn. rewrite list_lookup_fmap, list_lookup_foldl_insert, El, Hone by done.
    destruct (remote (envelope_cmds sender (take (S n) rcpts))) eqn:Er.
    + rewrite decide_True; [done|]. split; [|done]. apply Hacc. by rewrite Er.
    + rewrite decide_False; [done|]. intros [Hin _]. apply Hok in Hin. by rewrite Er in Hin.
Qed.

End EnvelopeFacts.

(** ** Connecting without downgrade *)

(** A host is protected when a TLSA record exists or could not be ruled
    out. *)
Definition host_of (mx : MxRecord) : str := trim_end_byte "."%char (exchange mx).
Definition tried (net : Net) (mx : MxRecord) : Prop := host_of mx <> [] /\ builder_ok net (host_of mx) = true.
Definition protected (net : Net) (mx : MxRecord) : Prop := net_tlsa net (host_of mx) <> Ok [].

Lemma verifier_new_none records : verifier_new records = None <-> records = [].
Proof. by destruct records. Qed.

(** The connection a host yields, when it yields one. *)
Definition host_connects (net : Net) (mx : MxRecord) (c : Connected) : Prop :=
  tried net mx /\ exists records, net_tlsa net (host_of mx) = Ok records /\
  match verifier_new records with
  | Some v => exists client, connect net (host_of mx) (Some v) = Ok client /\ c = CTls client
  | None =>
      (exists client, connect net (host_of mx) None = Ok client /\ c = CTls client) \/
      (exists client, connect net (host_of mx) None = Err MissingStartTls /\
                      connect_plain net (host_of mx) = Ok client /\ c = CPlain client)
  end.

Lemma connect_hosts_spec net l : forall dane,
  match connect_hosts net l dane with
  | CoConnected c => exists pre mx post, l = pre ++ mx :: post /\ host_connects net mx c /\
                       Forall (fun m => forall c', ~ host_connects net m c') pre
  | CoFailed d => Forall (fun m => forall c', ~ host_connects net m c') l /\
                  (d = true <-> dane = true \/ exists m, m ∈ l /\ tried net m /\ protected net m)
  end.
Proof.
  induction l as [|mx l IH]; intros dane; cbn [connect_hosts].
  { split; [apply Forall_nil_2|]. split; [by left|]. intros [Hd|(m & ?%elem_of_nil & _)]; done. }
  fold (host_of mx).
  assert (Hskip : forall d', (forall c', ~ host_connects net mx c') ->
    (d' = true <-> dane = true \/ (tried net mx /\ protected net mx)) ->
    match connect_hosts net l d' with
    | CoConnected c => exists pre mx' post, mx :: l = pre ++ mx' :: post /\ host_connects net mx' c /\
                         Forall (fun m => forall c', ~ host_connects net m c') pre
    | CoFailed d => Forall (fun m => forall c', ~ host_connects net m c') (mx :: l) /\
                    (d = true <-> dane = true \/ exists m, m ∈ mx :: l /\ tried net m /\ protected net m)
    end).
  { intros d' Hno Hd'. specialize (IH d'). destruct (connect_hosts net l d') as [c|d].
    - destruct IH as (pre & m & post & -> & Hm & Hpre). exists (mx :: pre), m, post. split_and!; [done|done|].
      by apply Forall_cons.
    - destruct IH as [Hl Hd]. split; [by apply Forall_cons|]. rewrite Hd, Hd'. split.
      + intros [[Hdn|Hp]|(m & Hm & Hp)]; [by left| |]; right; [exists mx|exists m]; (split; [|done]); [by left|by right].
      + intros [Hdn|(m & [->|Hm]%elem_of_cons & Hp)]; [by left; left|by left; right|right; by exists m]. }
  unfold host_connects, tried, protected in *.
  destruct (bool_decide (host_of mx = [])) eqn:Eh; bool_facts.
  { apply Hskip; [by intros c' [[? _] _]|]. naive_solver. }
  destruct (builder_ok net (host_of mx)) eqn:Eb; cbn [negb].
  2: { apply Hskip; [by intros c' [[_ ?] _]|]. naive_solver. }
  destruct (net_tlsa net (host_of mx)) as [records|e] eqn:Et.
  2: { apply Hskip; [by intros c' [_ (? & ? & _)]|]. naive_solver. }
  destruct (verifier_new records) as [v|] eqn:Ev.
  - assert (Hne : records <> []) by (intros E; by apply verifier_new_none in E; rewrite E in Ev).
    destruct (connect net (host_of mx) (Some v)) as [client|e] eqn:Ec.
    + exists [], mx, l. split_and!; [done|done|done| |apply Forall_nil_2].
      exists records. split; [done|]. rewrite Ev. by exists client.
    + apply Hskip; [|naive_solver]. intros c' [_ (r' & [= <-] & Hr)]. rewrite Ev in Hr.
      destruct Hr as (client & Hc & _). by rewrite Ec in Hc.
  - apply verifier_new_none in Ev as ->. cbn [verifier_new].
    assert (Hplain : forall d', (d' = true <-> dane = true) ->
      d' = true <-> dane = true \/ (host_of mx <> [] /\ true = true) /\ Ok [] <> @Ok Error (list TlsaRecord) []) by naive_solver.
    destruct (connect net (host_of mx) None) as [client|e] eqn:Ec.
    { exists [], mx, l. split_and!; [done|done|done| |apply Forall_nil_2]. exists []. split; [done|]. left. by exists client. }
    destruct e; try (apply Hskip; [|by apply Hplain]; intros c' [_ (r' & [= <-] & Hr)]; naive_solver).
    destruct (connect_plain net (host_of mx)) as [client|e] eqn:Ep.
    + exists [], mx, l. split_and!; [done|done|done| |apply Forall_nil_2]. exists []. split; [done|]. right. by exists client.
    + apply Hskip; [|by apply Hplain]. intros c' [_ (r' & [= <-] & Hr)]. naive_solver.
Qed.

(** C24.  No TLS downgrade: the connection returned is that of the first MX
    host, in the given order, that yields one; on a host whose TLSA lookup
    returned records it is TLS through the verifier built from them, never
    plaintext and never unpinned TLS; a host whose TLSA lookup failed is never
    connected to; plaintext is used only when the lookup proved there is no
    TLSA record and the server does not offer STARTTLS.  When every host
    fails, [dane_required] is set exactly if a tried host was protected. *)
Theorem dane_no_downgrade (net : Net) (mx_records : list MxRecord) :
  match connect_opportunistic net mx_records with
  | CoConnected c => exists pre mx post,
      mx_records = pre ++ mx :: post /\ tried net mx /\
      Forall (fun m => forall c', ~ host_connects net m c') pre /\
      (protected net mx -> exists records v client, net_tlsa net (host_of mx) = Ok records /\
         verifier_new records = Some v /\ connect net (host_of mx) (Some v) = Ok client /\ c = CTls client) /\
      (forall client, c = CPlain client ->
         net_tlsa net (host_of mx) = Ok [] /\ connect net (host_of mx) None = Err MissingStartTls)
  | CoFailed dane_required =>
      Forall (fun m => forall c', ~ host_connects net m c') mx_records /\
      (dane_required = true <-> exists m, m ∈ mx_records /\ tried net m /\ protected net m)
  end.
Proof.
  pose proof (connect_hosts_spec net mx_records false) as Hs. unfold connect_opportunistic.
  destruct (connect_hosts net mx_records false) as [c|d].
  - destruct Hs as (pre & mx & post & E & (Ht & records & Er & Hv) & Hpre).
    exists pre, mx, post. split_and!; [done|exact Ht|done| |].
    + intros Hp. unfold protected in Hp. destruct (verifier_new records) as [v|] eqn:Ev.
      * destruct Hv as (client & Hc & ->). by exists records, v, client.
      * apply verifier_new_none in Ev as ->. by rewrite Er in Hp.
    + intros client ->. destruct (verifier_new records) as [v|] eqn:Ev; [by destruct Hv as (? & _ & ?)|].
      apply verifier_new_none in Ev as ->. destruct Hv as [(? & _ & ?)|(client' & Hm & _)]; done.
  - destruct Hs as [Hl Hd]. split; [done|]. rewrite Hd. naive_solver.
Qed.
