(* ===== verification/QueueSystem.v ===== *)
(** * QueueSystem: the outbound queue as a system

    The invariant of the queue shared by senders, the worker of Worker and
    inbound deliveries, over all their interleavings; what [finalize] commits,
    wipes and bounces; what a pass of the loop leaves behind. *)

From stdpp Require Import base list strings gmap sorting.
From Stdlib Require Import Ascii ZArith Lia.
From S2P Require Import Prelude RustStr Limits Store Sealing Auth AuditLog Delivery Backoff Queue Dane Worker.
Import Blob.

(** ** Lemmas on the recipient rows *)
Definition terminal (r : RcptRow) : bool := is_terminal (from_db_str (state r)).

Lemma state_in_terminal r : state_in [ # "delivered"; # "failed"; # "expired"] r = terminal r.
Proof.
  unfold state_in, terminal, from_db_str. cbn [existsb]. unfold str_eqb. generalize (state r). intros s.
  repeat match goal with
  | |- context [bool_decide (s = ?x)] =>
      let Hn := fresh in
      destruct (decide (s = x)) as [->|Hn]; [reflexivity|rewrite !(bool_decide_eq_false_2 (s = x) Hn)]
  end. done.
Qed.

Lemma state_in_waiting r : state_in [ # "ready"; # "deferred"] r = true -> terminal r = false.
Proof.
  unfold state_in, terminal. cbn [existsb]. intros Hs. repeat (apply orb_true_iff in Hs as [Hs|Hs]);
    bool_facts; try done; by rewrite Hs.
Qed.

Lemma state_in_claimed r : state_in [ # "claimed"] r = true -> terminal r = false.
Proof. unfold state_in, terminal. cbn [existsb]. rewrite orb_false_r. intros Hs. bool_facts. by rewrite Hs. Qed.

Lemma terminal_state r s : state r = as_str s -> terminal r = is_terminal s.
Proof. unfold terminal. intros ->. by rewrite from_db_str_as_str. Qed.

(** Row updates that keep a row's identity and write states of the code. *)
Definition row_op (f : RcptRow -> RcptRow) : Prop := forall r,
  r_id (f r) = r_id r /\ outbound_id (f r) = outbound_id r /\
  ((exists s, state r = as_str s) -> exists s, state (f r) = as_str s).

Lemma set_state_op st : row_op (set_state st).
Proof. intros r. split_and!; [done|done|]. by exists st. Qed.

Lemma release_row_op : row_op release_row.
Proof. intros r. split_and!; [done|done|]. by exists Ready. Qed.

Lemma claim_row_op now : row_op (claim_row now).
Proof. intros r. split_and!; [done|done|]. by exists Claimed. Qed.

Lemma commit_row_op st next inc code status detail : row_op (commit_row st next inc code status detail).
Proof. intros r. split_and!; [done|done|]. by exists st. Qed.
#[export] Hint Resolve set_state_op release_row_op claim_row_op commit_row_op : litterae.

Lemma elem_of_rcpt_join q r o :
  (r, o) ∈ rcpt_join q <-> r ∈ outbound_rcpt q /\ o ∈ outbound q /\ o_id o = outbound_id r.
Proof.
  unfold rcpt_join. rewrite list_elem_of_bind. split.
  - intros (r' & (o' & [= -> ->] & Ho)%list_elem_of_fmap & Hr). apply elem_of_filter_list in Ho as [Ho E].
    bool_facts. done.
  - intros (Hr & Ho & E). exists r. split; [|done]. apply list_elem_of_fmap. exists o. split; [done|].
    apply elem_of_filter_list. split; [done|]. by apply Z.eqb_eq.
Qed.

Lemma rcpt_join_update p f q :
  row_op f ->
  rcpt_join (update_rcpts p f q) = (fun ro => (if p ro.1 then f ro.1 else ro.1, ro.2)) <$> rcpt_join q.
Proof.
  intros Hf. unfold rcpt_join, update_rcpts, sql_update. cbn [outbound outbound_rcpt with_rcpts].
  induction (outbound_rcpt q) as [|r l IH]; [done|]. cbn [fmap list_fmap mbind list_bind].
  rewrite IH, fmap_app. f_equal. destruct (Hf r) as (_ & Eo & _).
  rewrite <- list_fmap_compose. destruct (p r) eqn:Ep.
  - rewrite Eo. apply list_fmap_ext. intros i o _. cbn. by rewrite Ep.
  - apply list_fmap_ext. intros i o _. cbn. by rewrite Ep.
Qed.

Lemma update_rcpts_inv p f q : row_op f -> queue_inv q -> queue_inv (update_rcpts p f q).
Proof.
  intros Hf Hi. unfold update_rcpts. split; cbn [outbound outbound_rcpt with_rcpts].
  - apply (qi_outbound_ids q Hi).
  - rewrite sql_update_key by (intros r; apply Hf). apply (qi_rcpt_ids q Hi).
  - intros r' (r & Hr & ->)%elem_of_sql_update. destruct (qi_reference q Hi r Hr) as (o & Ho & E).
    exists o. split; [done|]. destruct (p r); [|done]. by destruct (Hf r) as (_ & -> & _).
  - intros r' (r & Hr & ->)%elem_of_sql_update. pose proof (qi_state q Hi r Hr) as Hs.
    destruct (p r); [by apply Hf|done].
Qed.

Lemma sql_count_fmap {A B} (p : B -> bool) (f : A -> B) (l : list A) :
  sql_count p (f <$> l) = sql_count (fun x => p (f x)) l.
Proof. induction l as [|x l IH]; [done|]. cbn [fmap list_fmap]. by rewrite !sql_count_cons, IH. Qed.

Lemma update_rcpts_rate p f q : row_op f -> rate_ok q -> rate_ok (update_rcpts p f q).
Proof.
  intros Hf Hr account w. destruct (Hr account w) as [H1 H2]. split; [exact H1|].
  unfold window_recipients. rewrite rcpt_join_update, sql_count_fmap by done. exact H2.
Qed.

(** ** The invariant of the whole queue

    Every recipient that is not in a terminal state has its message's blob on
    disk, readable; the tables are well formed and the hourly limits hold. *)
Definition retained `{BlobHash} (q : QueueStore) (b : BlobStore) : Prop := forall r o,
  (r, o) ∈ rcpt_join q -> terminal r = false -> exists c, read b (message_blob o) = Ok c.

Record worker_inv `{BlobHash} (w : Worker) : Prop := {
  wi_queue : queue_inv (queue w);
  wi_rates : rate_ok (queue w);
  wi_intact : intact (blobs (mail w));
  wi_retained : retained (queue w) (blobs (mail w))
}.

(** The rows with these ids are not terminal. *)
Definition alive (ids : list Z) (q : QueueStore) : Prop := forall r,
  r ∈ outbound_rcpt q -> r_id r ∈ ids -> terminal r = false.

Section Invariant.
Context `{Primitives} `{BlobHash} `{SqlAny} `{MailBuilder} `{SendErrorDisplay} `{AnyOrder}.
Context (parse : str -> option ParsedMessage) (to_lowercase : str -> str) (hostname : str).

(** Rows that had reached a terminal state; they must stay as they are. *)
Context (frozen : list RcptRow) (frozen_terminal : Forall (fun r => terminal r = true) frozen).

Record J (ids : list Z) (w : Worker) : Prop := {
  J_inv : worker_inv w;
  J_alive : alive ids (queue w);
  J_frozen r : r ∈ frozen -> r ∈ outbound_rcpt (queue w)
}.

Lemma J_weaken ids ids' w : (forall i, i ∈ ids' -> i ∈ ids) -> J ids w -> J ids' w.
Proof. intros Hs [Hi Ha Hf]. split; [done| |done]. intros r Hr Hid. apply Ha; [done|by apply Hs]. Qed.

(** An update of live rows. *)
Lemma J_update p f ids ids' w :
  J ids w -> row_op f -> (forall i, i ∈ ids' -> i ∈ ids) ->
  (forall r, r ∈ outbound_rcpt (queue w) -> p r = true -> terminal r = false) ->
  (forall r, r ∈ outbound_rcpt (queue w) -> p r = true -> r_id r ∈ ids' -> terminal (f r) = false) ->
  J ids' (on_queue (update_rcpts p f) w).
Proof.
  intros [[Hq Hr Hb Hk] Ha Hf] Hop Hsub Hlive Hlive'. split.
  - split; cbn [on_queue with_queue queue mail]; [by apply update_rcpts_inv|by apply update_rcpts_rate|done|].
    intros r o Hj Ht. rewrite rcpt_join_update in Hj by done.
    apply list_elem_of_fmap in Hj as ([r0 o0] & [= -> ->] & Hj). cbn in Ht.
    apply (Hk r0); [done|]. apply elem_of_rcpt_join in Hj as (Hr0 & _). cbn in Ht.
    destruct (p r0) eqn:Ep; [|done]. by apply Hlive.
  - intros r (r0 & Hr0 & ->)%elem_of_sql_update Hid. destruct (p r0) eqn:Ep.
    + apply Hlive'; [done|done|]. destruct (Hop r0) as (E & _). by rewrite E in Hid.
    + apply Ha; [done|by apply Hsub].
  - intros r Hin. apply elem_of_sql_update. exists r. split; [by apply Hf|].
    destruct (p r) eqn:Ep; [|done]. pose proof (Hlive r (Hf r Hin) Ep) as Hl.
    rewrite Forall_forall in frozen_terminal. by rewrite (frozen_terminal r Hin) in Hl.
Qed.

(** Steps that leave the queue and the blobs' readability alone. *)
Lemma J_other ids w w' :
  J ids w -> outbound (queue w') = outbound (queue w) -> outbound_rcpt (queue w') = outbound_rcpt (queue w) ->
  intact (blobs (mail w')) ->
  (forall h c, read (blobs (mail w)) h = Ok c -> read (blobs (mail w')) h = Ok c) -> J ids w'.
Proof.
  intros [[Hq Hr Hb Hk] Ha Hf] Eo Er Hb' Hread. destruct Hq.
  assert (Ej : rcpt_join (queue w') = rcpt_join (queue w)) by (unfold rcpt_join; by rewrite Eo, Er).
  split.
  - split.
    + split; rewrite ?Eo, ?Er; done.
    + intros account x. unfold window_messages, window_recipients. rewrite Eo, Ej. apply Hr.
    + exact Hb'.
    + intros r o Hj Ht. rewrite Ej in Hj. destruct (Hk r o Hj Ht) as [c Hc]. exists c. by apply Hread.
  - intros r. rewrite Er. apply Ha.
  - intros r. rewrite Er. apply Hf.
Qed.

(** Steps that keep the queue tables and the blobs. *)
Lemma J_same ids w w' :
  J ids w -> outbound (queue w') = outbound (queue w) -> outbound_rcpt (queue w') = outbound_rcpt (queue w) ->
  blobs (mail w') = blobs (mail w) -> J ids w'.
Proof.
  intros Hj Eo Er Eb. apply (J_other ids w); [done|done|done| |by rewrite Eb].
  rewrite Eb. by destruct Hj as [[]].
Qed.

Lemma keeps_zoom_same {T A} ids (get : Worker -> T) (put : T -> Worker -> Worker) (m : St T A) :
  (forall t w, queue (put t w) = queue w) -> (forall t w, mail (put t w) = mail w) ->
  keeps (J ids) (st_zoom get put m).
Proof.
  intros Hq Hm w Hj. unfold st_zoom. destruct (m (get w)) as [r t]. cbn.
  apply (J_same ids w); [done|by rewrite Hq|by rewrite Hq|by rewrite Hm].
Qed.

Lemma cleanup_J ids outbound w : J ids w -> J ids (cleanup_terminal_message outbound w).
Proof.
  intros Hj. unfold cleanup_terminal_message. destruct (_ =? 0)%Z eqn:E; [|done]. bool_facts.
  assert (Hzero := proj1 (sql_count_zero _ _) E). destruct Hj as [[Hq Hr Hb Hk] Ha Hf].
  split; [|exact Ha|exact Hf]. split; [exact Hq|exact Hr|by apply remove_intact|].
  intros r o Hro Ht. cbn [with_mail mail blobs]. rewrite remove_read; [by apply (Hk r)|].
  intros Eh. specialize (Hzero (r, o) Hro). unfold active_reference in Hzero. cbn [fst snd] in Hzero.
  rewrite state_in_terminal, Ht, <- Eh in Hzero. unfold str_eqb in Hzero.
  by rewrite bool_decide_eq_true_2 in Hzero.
Qed.

Lemma maybe_send_dsn_J ids env rcpt outbound action code status detail :
  keeps (J ids) (maybe_send_dsn parse to_lowercase hostname env rcpt outbound action code status detail).
Proof.
  unfold maybe_send_dsn. destruct (_ || _); [apply keeps_ret|].
  destruct (build_dsn _) as [bytes|]; [|apply keeps_ret]. apply keeps_get. intros w _.
  destruct (find_by_id _ _) as [[account|]|]; try apply keeps_ret. apply keeps_bind.
  - intros w' Hj. unfold st_zoom.
    set (m := deliver _ _ _ _ _ _ _ _ _ _). destruct (deliver_blobs parse to_lowercase (fe_dsn_rand env)
      (mkRecipient (acc_id account) (account_pub account) (acc_key_id account))
      (mkInbound [] (ow_envelope_from outbound) (# "127.0.0.1"))
      (mkAuthResults (# "n/a") (# "n/a") (# "n/a")) bytes (fe_dsn_now env) None (mkScanMetadata None None)
      (mail w')) as [Eb|[x Eb]]; fold m in Eb; destruct (m (mail w')) as [r t]; cbn [fst snd] in *.
    + by apply (J_same ids w').
    + destruct Hj as [Hi Ha Hf]. apply (J_other ids w'); [done|done|done| |]; cbn [with_mail mail]; rewrite Eb.
      * apply write_intact. by destruct Hi.
      * intros h c. apply write_keeps.
  - intros [dm|e]; [|apply keeps_ret]. apply keeps_mod. intros w' Hj. by apply (J_same ids w').
Qed.

Lemma log_terminal_J ids env rcpt st : keeps (J ids) (log_terminal env rcpt st).
Proof.
  unfold log_terminal. destruct (is_terminal st); [|apply keeps_ret].
  apply keeps_bind; [apply keeps_exec|]. intros action.
  apply keeps_bind; [by apply keeps_zoom_same|]. intros _. apply keeps_ret.
Qed.

Lemma mark_delayed_J ids id w : J (id :: ids) w -> J (id :: ids) (on_queue (mark_delayed_dsn_sent id) w).
Proof.
  intros Hj. assert (Hl : forall r, r ∈ outbound_rcpt (queue w) -> (r_id r =? id)%Z = true -> terminal r = false).
  { intros r Hr E. bool_facts. apply (J_alive _ _ Hj r Hr). rewrite E. by left. }
  apply (J_update _ _ (id :: ids)); [done|by intros r|done|exact Hl|].
  intros r Hr E _. exact (Hl r Hr E).
Qed.

Lemma commit_J ids id st next inc code status detail w :
  J (id :: ids) w -> id ∉ ids ->
  J (if is_terminal st then ids else id :: ids)
    (on_queue (update_rcpts (fun r => (r_id r =? id)%Z) (commit_row st next inc code status detail)) w).
Proof.
  intros Hj Hid. apply (J_update _ _ (id :: ids)); [done|apply commit_row_op| | |].
  - intros i. destruct (is_terminal st); set_solver.
  - intros r Hr E. bool_facts. apply (J_alive _ _ Hj r Hr). rewrite E. by left.
  - intros r Hr E Hin. bool_facts. rewrite (terminal_state _ st) by done.
    destruct (is_terminal st); [|done]. by rewrite E in Hin.
Qed.

(** [finalize] settles a claimed recipient and leaves every other claim
    alive. *)
Lemma finalize_J ids env outbound rcpt outcome :
  c_id rcpt ∉ ids ->
  triple (J (c_id rcpt :: ids))
    (finalize parse to_lowercase hostname env outbound rcpt outcome) (fun _ => J ids).
Proof.
  intros Hid. unfold finalize. destruct (next_state env rcpt outbound outcome) as [[[[st next] code] status] detail].
  set (ids' := if is_terminal st then ids else c_id rcpt :: ids).
  assert (Hw : forall w, J ids' w -> J ids w).
  { intros w. apply J_weaken. intros i Hi. unfold ids'. destruct (is_terminal st); set_solver. }
  eapply (triple_bind _ _ _ (fun _ => J ids')).
  - apply triple_mod. intros w Hj. by apply commit_J.
  - intros []. eapply (triple_bind _ _ _ (fun _ => J ids')); [apply log_terminal_J| |intros w; apply Hw].
    intros []. eapply (triple_bind _ _ _ (fun _ => J ids')); [| |intros w; apply Hw].
    + destruct (_ && _); [apply maybe_send_dsn_J|].
      destruct (bool_decide (st = Deferred)) eqn:Ed; cbn [andb]; [|apply keeps_ret]. bool_facts. subst st.
      destruct (_ && _ && _); [|apply keeps_ret].
      apply keeps_bind; [|intros _; apply maybe_send_dsn_J]. apply keeps_mod. intros w. apply mark_delayed_J.
    + intros []. apply triple_mod. intros w Hj. by apply cleanup_J, Hw.
  - intros w. apply Hw.
Qed.

Lemma finalize_all_J {A} rest (key : A -> ClaimedRcpt) (f : A -> St Worker unit) (l : list A) :
  (forall x, exists env outbound outcome,
     f x = finalize parse to_lowercase hostname env outbound (key x) outcome) ->
  NoDup ((c_id ∘ key <$> l) ++ rest) ->
  triple (J ((c_id ∘ key <$> l) ++ rest)) (st_for f l) (fun _ => J rest).
Proof.
  intros Hf. induction l as [|x l IH]; cbn [st_for fmap list_fmap app]; intros Hnd; [by apply triple_ret|].
  apply NoDup_cons in Hnd as [Hx Hnd]. destruct (Hf x) as (env & outbound & outcome & ->).
  eapply (triple_bind _ _ _ (fun _ => J ((c_id ∘ key <$> l) ++ rest))); [by apply finalize_J|by intros _; apply IH|].
  intros w. apply J_weaken. intros i Hi. apply elem_of_app. by right.
Qed.

Lemma finalize_rcpts_J rest env outbound outcome rcpts :
  NoDup ((c_id <$> rcpts) ++ rest) ->
  triple (J ((c_id <$> rcpts) ++ rest))
    (st_for (fun rcpt => finalize parse to_lowercase hostname (env rcpt) outbound rcpt outcome) rcpts) (fun _ => J rest).
Proof. intros Hnd. apply (finalize_all_J rest (fun c => c)); [|exact Hnd]. intros x. by do 3 eexists. Qed.

Lemma fst_zip_prefix {A B} (l : list A) : forall k : list B, exists tail, l = (fst <$> zip l k) ++ tail.
Proof.
  induction l as [|x l IH]; intros k; [by exists []|]. destruct k as [|y k]; [by eexists|].
  destruct (IH k) as [tail E]. exists tail. cbn. by f_equal.
Qed.

Lemma send_unit_J rest net instant env oid d rcpts :
  NoDup ((c_id <$> rcpts) ++ rest) ->
  triple (J ((c_id <$> rcpts) ++ rest))
    (send_unit parse to_lowercase hostname net instant env oid d rcpts) (fun _ => J rest).
Proof.
  intros Hnd. unfold send_unit. apply triple_get. intros w Hj.
  apply (triple_consequence _ _ (J ((c_id <$> rcpts) ++ rest)) _ (fun _ => J rest)); [|by intros w' <-|done].
  assert (Hskip : forall w', J ((c_id <$> rcpts) ++ rest) w' -> J rest w').
  { intros w'. apply J_weaken. intros i Hi. apply elem_of_app. by right. }
  destruct (load_outbound oid (queue w)) as [outbound|]; [|by apply triple_ret].
  pose proof (finalize_rcpts_J rest env outbound) as Hall.
  destruct (read _ _) as [raw|]; [|by apply Hall].
  destruct (net_mx net d) as [mx|]; [|by apply Hall].
  destruct (null_mx mx); [by apply Hall|].
  assert (Henv : forall client, triple (J ((c_id <$> rcpts) ++ rest))
      (st_for (fun ro => finalize parse to_lowercase hostname (env ro.1) outbound ro.1 ro.2)
         (zip rcpts (run_envelope client (ow_envelope_from outbound) rcpts raw).1)) (fun _ => J rest)).
  { intros client. destruct (fst_zip_prefix rcpts (run_envelope client (ow_envelope_from outbound) rcpts raw).1)
        as [tail E]. set (z := zip rcpts _) in *.
      assert (Hsub : c_id ∘ fst <$> z = c_id <$> (fst <$> z)) by by rewrite list_fmap_compose.
      eapply triple_consequence; [apply (finalize_all_J rest fst)| |done].
      - intros x. by do 3 eexists.
      - rewrite Hsub. rewrite E, fmap_app, <- app_assoc in Hnd. apply NoDup_app in Hnd as (N1 & N2 & N3).
        apply NoDup_app in N3 as (_ & N3 & N4). apply NoDup_app. split_and!; [done| |done].
        intros i Hi Hr. apply (N2 i Hi), elem_of_app. by right.
      - intros w'. apply J_weaken. rewrite Hsub, E, fmap_app. intros i. rewrite !elem_of_app. tauto. }
  destruct (connect_opportunistic net mx) as [[client|client]|dane]; [apply Henv|apply Henv|].
  eapply (triple_bind _ _ _ (fun _ => J ((c_id <$> rcpts) ++ rest))); [|by intros _; apply Hall|done].
  apply triple_mod. intros w' Hj'. by apply (J_same _ w').
Qed.

Lemma release_J ids rcpts : (forall c, c ∈ rcpts -> c_id c ∈ ids) -> forall w,
  J ids w -> J ids (on_queue (release_to_ready rcpts) w).
Proof.
  unfold release_to_ready, on_queue. induction rcpts as [|c rcpts IH]; intros Hin w Hj.
  - cbn [foldl]. by apply (J_same ids w).
  - cbn [foldl].
    assert (J ids (on_queue (update_rcpts (fun r => (r_id r =? c_id c)%Z) release_row) w)) as Hj'.
    { assert (Hl : forall r, r ∈ outbound_rcpt (queue w) -> (r_id r =? c_id c)%Z = true -> terminal r = false).
      { intros r Hr E. bool_facts. apply (J_alive _ _ Hj r Hr). rewrite E. apply Hin. by left. }
      apply (J_update _ _ ids); [done|apply release_row_op|done|exact Hl|done]. }
    exact (IH ltac:(intros c' Hc'; apply Hin; by right) _ Hj').
Qed.

Definition unit_ids (u : (Z * str) * list ClaimedRcpt) : list Z := c_id <$> u.2.

Lemma run_unit_J rest env u :
  NoDup (unit_ids u ++ rest) ->
  triple (J (unit_ids u ++ rest)) (run_unit parse to_lowercase hostname env u) (fun _ => J rest).
Proof.
  intros Hnd. destruct u as [[oid d] rcpts]. unfold run_unit, unit_ids in *. cbn [snd] in *.
  apply triple_get. intros w Hj.
  apply (triple_consequence _ _ (J ((c_id <$> rcpts) ++ rest)) _ (fun _ => J rest)); [|by intros w' <-|done].
  destruct (is_cooling_down _ d w).
  - apply triple_mod. intros w' Hj'. apply (J_weaken ((c_id <$> rcpts) ++ rest)).
    { intros i Hi. apply elem_of_app. by right. }
    apply release_J; [|done]. intros c Hc. apply elem_of_app. left. by apply list_elem_of_fmap_2.
  - by apply send_unit_J.
Qed.

Lemma run_units_J rest env units :
  NoDup (mjoin (unit_ids <$> units) ++ rest) ->
  triple (J (mjoin (unit_ids <$> units) ++ rest)) (st_for (run_unit parse to_lowercase hostname env) units)
    (fun _ => J rest).
Proof.
  induction units as [|u units IH]; cbn [fmap list_fmap mjoin list_join st_for app]; intros Hnd;
    [by apply triple_ret|].
  rewrite <- app_assoc in *. eapply (triple_bind _ _ _ (fun _ => J (mjoin (unit_ids <$> units) ++ rest))).
  - by apply run_unit_J.
  - intros _. apply IH. by apply NoDup_app in Hnd as (_ & _ & Hnd).
  - intros w. apply J_weaken. intros i Hi. apply elem_of_app. by right.
Qed.

Lemma push_unit_perm key rcpt units :
  mjoin (unit_ids <$> push_unit key rcpt units) ≡ₚ mjoin (unit_ids <$> units) ++ [c_id rcpt].
Proof.
  induction units as [|[k l] units IH]; [done|]. cbn [push_unit]. case_bool_decide.
  - cbn [fmap list_fmap mjoin list_join]. unfold unit_ids at 1 3. cbn [snd]. rewrite fmap_app. cbn.
    rewrite <- !app_assoc. apply Permutation_app_head, Permutation_app_comm.
  - cbn [fmap list_fmap mjoin list_join]. rewrite IH. by rewrite app_assoc.
Qed.

Lemma group_units_perm claimed :
  mjoin (unit_ids <$> group_units claimed) ≡ₚ c_id ∘ snd <$> claimed.
Proof.
  unfold group_units. set (f := fun units '(oid, rcpt) => push_unit _ _ _).
  assert (Hgen : forall us, mjoin (unit_ids <$> foldl f us claimed)
    ≡ₚ mjoin (unit_ids <$> us) ++ (c_id ∘ snd <$> claimed)); [|by rewrite Hgen].
  induction claimed as [|[oid c] claimed IH]; intros us; cbn [foldl fmap list_fmap]; [by rewrite app_nil_r|].
  rewrite IH. unfold f at 1. rewrite push_unit_perm, <- app_assoc. done.
Qed.

Lemma key_unique (l : list RcptRow) x y : NoDup (r_id <$> l) -> x ∈ l -> y ∈ l -> r_id x = r_id y -> x = y.
Proof. apply (row_key_unique r_id). Qed.

Lemma id_in_spec ids r : id_in ids r = true <-> r_id r ∈ ids.
Proof.
  unfold id_in. rewrite existsb_exists. split.
  - intros (i & Hi & E). bool_facts. rewrite E. by apply list_elem_of_In.
  - intros Hi. exists (r_id r). split; [by apply list_elem_of_In|apply Z.eqb_refl].
Qed.

Lemma due_ids_claimable now limit q r :
  queue_inv q -> r ∈ outbound_rcpt q -> r_id r ∈ due_ids now limit q -> claimable now r = true.
Proof.
  intros Hi Hr (r0 & E & Hr0)%list_elem_of_fmap.
  destruct (sql_limit_prefix limit (order_by next_attempt_at (List.filter (claimable now) (outbound_rcpt q)))) as [rest Er].
  assert (Hin : r0 ∈ List.filter (claimable now) (outbound_rcpt q)).
  { rewrite <- (order_by_perm next_attempt_at), Er. apply elem_of_app. by left. }
  apply elem_of_filter_list in Hin as [Hin Hc].
  by rewrite (key_unique _ r r0 (qi_rcpt_ids q Hi) Hr Hin E).
Qed.

Lemma claim_J now limit w :
  J [] w ->
  let '(claimed, q) := claim_batch now limit (queue w) in
  J (c_id ∘ snd <$> claimed) (with_queue q w) /\ NoDup (c_id ∘ snd <$> claimed).
Proof.
  intros Hj. unfold claim_batch. set (ids := due_ids now limit (queue w)).
  set (q' := update_rcpts (id_in ids) (claim_row now) (queue w)).
  assert (Hq : queue_inv (queue w)) by (by destruct Hj as [[]]).
  assert (Hj' : J [] (with_queue q' w)).
  { apply (J_update _ _ []); [done|apply claim_row_op|done| |by intros ? ? _ ?%elem_of_nil].
    intros r Hr Hid%id_in_spec. pose proof (due_ids_claimable now limit (queue w) r Hq Hr Hid) as Hc.
    unfold claimable in Hc. bool_facts. by apply state_in_waiting. }
  assert (Hids : (c_id ∘ snd <$> any_order (claimed_rcpt <$> List.filter (id_in ids) (outbound_rcpt q')))
                 ≡ₚ r_id <$> List.filter (id_in ids) (outbound_rcpt q')).
  { rewrite any_order_perm, <- list_fmap_compose. done. }
  split.
  - split; [exact (J_inv _ _ Hj')| |exact (J_frozen _ _ Hj')].
    intros r Hr Hin. rewrite Hids in Hin. apply list_elem_of_fmap in Hin as (r1 & E & Hr1).
    apply elem_of_filter_list in Hr1 as [_ Hid1]. cbn [with_queue queue] in Hr.
    apply elem_of_sql_update in Hr as (r0 & Hr0 & ->).
    assert (Hid : id_in ids r0 = true).
    { apply id_in_spec. apply id_in_spec in Hid1. rewrite <- E in Hid1. by destruct (id_in ids r0). }
    by rewrite Hid.
  - rewrite Hids. apply NoDup_fmap_filter.
    replace (r_id <$> outbound_rcpt q') with (r_id <$> outbound_rcpt (queue w)); [apply (qi_rcpt_ids _ Hq)|].
    symmetry. apply sql_update_key. by intros r.
Qed.

Lemma fire_event_J ids w ev : J ids w -> J ids (fire_event w ev).
Proof.
  intros Hj. apply (J_same ids w); [done| | |];
    unfold fire_event, fire_snooze_resurface, fire_followup_nudge, ensure_role;
    repeat (case_match; simplify_eq; try done).
Qed.

(** Every pass of the loop preserves the invariant. *)
Lemma run_iteration_J env : keeps (J []) (run_iteration parse to_lowercase hostname env).
Proof.
  unfold run_iteration. apply keeps_bind; [apply keeps_mod|intros _; apply keeps_bind; [apply keeps_mod|intros _;
    apply keeps_bind; [apply keeps_mod|intros _]]].
  - intros w Hj. apply (J_update _ _ []); [done|apply release_row_op|done| |by intros ? ? _ ?%elem_of_nil].
    intros r _ Hs. unfold stale in Hs. bool_facts. by apply state_in_claimed.
  - intros w Hj. unfold expire_overdue, on_queue.
    apply (J_update _ _ []); [done|apply set_state_op|done| |by intros ? ? _ ?%elem_of_nil].
    intros r _ Hs. unfold overdue in Hs. bool_facts. by apply state_in_waiting.
  - intros w Hj. unfold fire_due_scheduled_events.
    generalize (due_scheduled_events (queue w) (ie_fire env)). intros l. revert w Hj.
    induction l as [|ev l IH]; intros w Hj; cbn [foldl]; [done|]. by apply IH, fire_event_J.
  - apply triple_get. intros w Hj. pose proof (claim_J (ie_claim env) BATCH_SIZE w Hj) as Hc.
    destruct (claim_batch (ie_claim env) BATCH_SIZE (queue w)) as [claimed q]. destruct Hc as [Hc Hnd].
    eapply (triple_bind _ _ _ (fun _ => J (c_id ∘ snd <$> claimed))).
    + apply triple_mod. by intros w' <-.
    + intros _. destruct claimed as [|c claimed]; [by apply triple_ret|].
      set (all := c :: claimed) in *. set (units := any_order (group_units all)).
      assert (Hp : mjoin (unit_ids <$> units) ≡ₚ c_id ∘ snd <$> all).
      { rewrite <- group_units_perm. unfold units. by rewrite any_order_perm. }
      eapply (triple_bind _ _ _ (fun _ => J [])); [|by intros _; apply triple_ret|done].
      eapply triple_consequence; [apply (run_units_J [] env units)| |done].
      * rewrite app_nil_r, Hp. exact Hnd.
      * intros w'. apply J_weaken. intros i. rewrite app_nil_r. by rewrite Hp.
    + intros w'. apply J_weaken. by intros ? ?%elem_of_nil.
Qed.

End Invariant.

(** ** The system: senders, the worker and inbound mail *)
Section System.
Context `{Primitives} `{BlobHash} `{SqlAny} `{MailBuilder} `{SendErrorDisplay} `{AnyOrder} `{DkimSigner}.
Context (parse : str -> option ParsedMessage) (to_lowercase : str -> str) (hostname : str).

(** [enqueue] on the stores the worker shares with the submission side. *)
Definition enqueue_step (key : DomainKey) (new : NewOutbound) (now : Z) (w : Worker) : Worker :=
  let '(_, (q, b)) := enqueue key new now (queue w) (blobs (mail w)) in
  with_queue q (with_mail (mkMailStore b (metadata (mail w))) w).

Inductive system_step : Worker -> Worker -> Prop :=
| StepEnqueue key new now w : system_step w (enqueue_step key new now w)
| StepIterate env w : system_step w (run_iteration parse to_lowercase hostname env w).2
| StepSchedule ev w : system_step w (on_queue (fun q => (insert_scheduled_event ev q).2) w)
| StepCancel id w : system_step w (on_queue (mark_event_cancelled id) w)
| StepKey generated now d w : system_step w (on_queue (fun q => (ensure_dkim_key generated now d q).2) w)
| StepInbound rnd account envelope auth raw received spam scan w :
    system_step w (with_mail (deliver parse to_lowercase rnd account envelope auth raw received spam scan (mail w)).2 w)
| StepMetadata m w : system_step w (on_metadata (fun _ => m) w).

Lemma enqueue_blobs key new now q b :
  (enqueue key new now q b).2.2 = b \/ exists x, (enqueue key new now q b).2.2 = (write b x).2.
Proof.
  unfold enqueue. destruct (negb _); [by left|]. destruct (sign _ _ _) as [h|]; [|by left].
  destruct (write_ok b (h ++ raw_message new)) as [b' Eb]. rewrite Eb. right. exists (h ++ raw_message new).
  rewrite Eb. destruct (rate_limit new now q); [|done]. by destruct (insert_outbound _ _ _ _).
Qed.

Lemma enqueue_J frozen key new now w :
  J frozen [] w -> J frozen [] (enqueue_step key new now w).
Proof.
  intros [[Hq Hr Hb Hk] Ha Hf]. unfold enqueue_step.
  pose proof (enqueue_keeps key new now (queue w) (blobs (mail w)) (conj Hq Hr)) as [Hq' Hr'].
  pose proof (enqueue_cases key new now (queue w) (blobs (mail w)) Hq) as [_ Hres].
  pose proof (enqueue_blobs key new now (queue w) (blobs (mail w))) as Hbl.
  destruct (enqueue key new now (queue w) (blobs (mail w))) as [[id|e] [q' b']]; cbn [fst snd] in *.
  - destruct Hres as (h & ids & Es & Eid & Hfresh & [= -> ->]).
    set (o := outbound_row new now (hash_hex (h ++ raw_message new)) (queue w)).
    assert (Er : outbound_rcpt (enqueued new now (hash_hex (h ++ raw_message new)) ids (queue w))
      = outbound_rcpt (queue w) ++ zip_with (new_rcpt_row (o_id o) now) ids (recipients new)) by done.
    split.
    + split; cbn [with_queue with_mail queue mail blobs]; [done|done|by apply write_intact|].
      intros r o' Hj Ht. rewrite rcpt_join_enqueued in Hj by done.
      apply elem_of_app in Hj as [Hj|(r' & [= -> ->] & _)%list_elem_of_fmap].
      * destruct (Hk r o' Hj Ht) as [c Hc]. exists c. by apply write_keeps.
      * by apply write_readable.
    + by intros r _ ?%elem_of_nil.
    + intros r Hin. cbn [with_queue queue]. rewrite Er. apply elem_of_app. left. by apply Hf.
  - subst q'. apply (J_other frozen [] w); cbn [with_queue with_mail queue mail blobs]; [by split|done|done| |];
      destruct Hbl as [->|[x ->]]; [done|by apply write_intact|done|intros h c; apply write_keeps].
Qed.

Lemma system_step_J frozen w w' :
  Forall (fun r => terminal r = true) frozen -> system_step w w' -> J frozen [] w -> J frozen [] w'.
Proof.
  intros Hfr [key new now v|env v|ev v|id v|generated now d v|rnd account envelope auth raw received spam scan v|m v] Hj.
  - by apply enqueue_J.
  - by apply run_iteration_J.
  - by apply (J_same frozen [] v).
  - by apply (J_same frozen [] v).
  - apply (J_same frozen [] v); [done| | |done]; cbn [on_queue with_queue queue]; unfold ensure_dkim_key;
      repeat (case_match; try done).
  - destruct (deliver_blobs parse to_lowercase rnd account envelope auth raw received spam scan (mail v)) as [E|[x E]].
    + by apply (J_same frozen [] v).
    + apply (J_other frozen [] v); [done|done|done| |]; cbn [with_mail mail]; rewrite E.
      * apply write_intact. by destruct Hj as [[]].
      * intros h c. apply write_keeps.
  - by apply (J_same frozen [] v).
Qed.

Lemma system_steps_J frozen w w' :
  Forall (fun r => terminal r = true) frozen -> rtc system_step w w' -> J frozen [] w -> J frozen [] w'.
Proof. intros Hfr Hs. induction Hs as [|x y z Hxy _ IH]; [done|]. intros Hj. apply IH. by apply (system_step_J frozen x). Qed.

Definition start (s : AuthStore) (a : AuditStore) (m : Metadata.MetadataStore) : Worker :=
  mkWorker empty_queue (mkMailStore ∅ m) s a ∅ Changes.new.

Lemma start_inv s a m : worker_inv (start s a m).
Proof.
  split; cbn; [apply empty_queue_inv| | |].
  - intros account w. unfold window_messages, window_recipients, sql_count. cbn.
    unfold MAX_MESSAGES_PER_WINDOW, MAX_RECIPIENTS_PER_WINDOW. lia.
  - intros h p c _. by rewrite lookup_empty.
  - intros r o Hr. by apply elem_of_rcpt_join in Hr as (?%elem_of_nil & _).
Qed.

(** What the invariant says of the mail still to be sent, and of the rates. *)
Lemma inv_not_lost (w : Worker) : worker_inv w ->
  (forall r, r ∈ outbound_rcpt (queue w) -> is_terminal (from_db_str (state r)) = false ->
     exists o c, get_outbound (queue w) (outbound_id r) = Some o /\ read (blobs (mail w)) (message_blob o) = Ok c) /\
  (forall account since, (window_messages account since (queue w) <= 200 /\
                     window_recipients account since (queue w) <= 500)%Z).
Proof.
  intros [Hq Hr Hb Hk]. split; [|intros account since; apply Hr].
  intros r Hin Ht. destruct (qi_reference _ Hq r Hin) as (o & Ho & Eo).
  destruct (Hk r o) as [c Hc]; [by apply elem_of_rcpt_join|done|]. exists o, c. split; [|done].
  unfold get_outbound. rewrite <- Eo. apply (sql_find_key o_id); [apply (qi_outbound_ids _ Hq)|done].
Qed.

(** Accepted mail is never lost before it is settled: in every state
    reachable from an empty queue by enqueueing, passes of the worker (with
    any network, clock, batch order and panic), scheduled events, DKIM keys,
    inbound deliveries and changes of the mailboxes, every recipient row that
    is not delivered, failed or expired belongs to a stored message whose
    signed blob is on disk and readable; and no account exceeds 200 messages or
    500 recipients in any hour. *)
Theorem accepted_mail_not_lost (s : AuthStore) (a : AuditStore) (m : Metadata.MetadataStore) (w : Worker) :
  rtc system_step (start s a m) w ->
  (forall r, r ∈ outbound_rcpt (queue w) -> is_terminal (from_db_str (state r)) = false ->
     exists o c, get_outbound (queue w) (outbound_id r) = Some o /\ read (blobs (mail w)) (message_blob o) = Ok c) /\
  (forall account since, (window_messages account since (queue w) <= 200 /\
                     window_recipients account since (queue w) <= 500)%Z).
Proof.
  intros Hs. assert (Hj : J [] [] w).
  { apply (system_steps_J [] (start s a m)); [done|done|]. split; [apply start_inv| |by intros r ?%elem_of_nil].
    by intros r _ ?%elem_of_nil. }
  by apply inv_not_lost, Hj.
Qed.

(** A settled recipient stays settled: once a recipient row is
    delivered, failed or expired, it is the very same row after any further
    steps of the system: it is never claimed, retried, re-sent, bounced again
    or rewritten, whatever batches, releases and reaped leases come after. *)
Theorem settled_is_final (w w' : Worker) (r : RcptRow) :
  worker_inv w -> rtc system_step w w' ->
  r ∈ outbound_rcpt (queue w) -> is_terminal (from_db_str (state r)) = true ->
  r ∈ outbound_rcpt (queue w') /\ worker_inv w'.
Proof.
  intros Hw Hs Hr Ht. assert (Hj : J [r] [] w').
  { apply (system_steps_J [r] w); [by apply Forall_singleton|done|]. split; [done|by intros x _ ?%elem_of_nil|].
    by intros x ->%list_elem_of_singleton. }
  destruct Hj as [Hi _ Hf]. split; [|done]. apply Hf. by apply list_elem_of_singleton.
Qed.

End System.

(** ** What [finalize] does *)
Section Finalizing.
Context `{Primitives} `{BlobHash} `{SqlAny} `{MailBuilder}.
Context (parse : str -> option ParsedMessage) (to_lowercase : str -> str) (hostname : str).

(** The queue's message and recipient tables are these. *)
Definition tables (O : list OutboundMessage) (L : list RcptRow) (w : Worker) : Prop :=
  outbound (queue w) = O /\ outbound_rcpt (queue w) = L.

Lemma cleanup_tables O L outbound w : tables O L w -> tables O L (cleanup_terminal_message outbound w).
Proof. unfold cleanup_terminal_message. by destruct (_ =? 0)%Z. Qed.

Lemma maybe_send_dsn_tables O L env rcpt outbound action code status detail :
  keeps (tables O L) (maybe_send_dsn parse to_lowercase hostname env rcpt outbound action code status detail).
Proof.
  unfold maybe_send_dsn. destruct (_ || _); [apply keeps_ret|].
  destruct (build_dsn _) as [bytes|]; [|apply keeps_ret]. apply keeps_get. intros w _.
  destruct (find_by_id _ _) as [[account|]|]; try apply keeps_ret. apply keeps_bind.
  - intros w' Ht. unfold st_zoom. by destruct (deliver _ _ _ _ _ _ _ _ _ _ _).
  - intros [dm|e]; [|apply keeps_ret]. by apply keeps_mod.
Qed.

Lemma log_terminal_tables O L env rcpt st : keeps (tables O L) (log_terminal env rcpt st).
Proof.
  unfold log_terminal. destruct (is_terminal st); [|apply keeps_ret].
  apply keeps_bind; [apply keeps_exec|]. intros action. apply keeps_bind; [|intros _; apply keeps_ret].
  intros w Ht. unfold st_zoom. by destruct (log _ _ _ _ _).
Qed.

(** The row [finalize] leaves; [marked] when a delay notice was due. *)
Definition final_row (env : FinalizeEnv) (rcpt : ClaimedRcpt) (outbound : OutboundRow) (outcome : Outcome)
    (marked : bool) (r : RcptRow) : RcptRow :=
  let '(st, next, code, status, detail) := next_state env rcpt outbound outcome in
  let row := commit_row st next (match outcome with OutDelivered => 0 | _ => 1 end) code status detail r in
  if marked then mark_row row else row.

Lemma sql_update_twice (id : Z) (f g : RcptRow -> RcptRow) (l : list RcptRow) :
  (forall r, r_id (f r) = r_id r) ->
  sql_update (fun r => (r_id r =? id)%Z) g (sql_update (fun r => (r_id r =? id)%Z) f l)
  = sql_update (fun r => (r_id r =? id)%Z) (fun r => g (f r)) l.
Proof.
  intros Hf. unfold sql_update. rewrite <- list_fmap_compose. apply list_fmap_ext. intros i r _. cbn.
  destruct (r_id r =? id)%Z eqn:E; [by rewrite Hf, E|by rewrite E].
Qed.

Definition final_rows (env : FinalizeEnv) (rcpt : ClaimedRcpt) (outbound : OutboundRow) (outcome : Outcome)
    (marked : bool) (l : list RcptRow) : list RcptRow :=
  sql_update (fun r => (r_id r =? c_id rcpt)%Z) (final_row env rcpt outbound outcome marked) l.

Lemma final_rows_marked env rcpt outbound outcome l :
  sql_update (fun r => (r_id r =? c_id rcpt)%Z) mark_row (final_rows env rcpt outbound outcome false l)
  = final_rows env rcpt outbound outcome true l.
Proof.
  unfold final_rows. rewrite sql_update_twice.
  - apply list_fmap_ext. intros i r _. unfold final_row. by destruct (next_state _ _ _ _) as [[[[? ?] ?] ?] ?].
  - intros r. unfold final_row. by destruct (next_state _ _ _ _) as [[[[? ?] ?] ?] ?].
Qed.

Lemma finalize_tables O l env outbound rcpt outcome :
  triple (tables O l) (finalize parse to_lowercase hostname env outbound rcpt outcome)
    (fun _ w => exists marked, tables O (final_rows env rcpt outbound outcome marked l) w).
Proof.
  set (l0 := final_rows env rcpt outbound outcome false l).
  unfold finalize. destruct (next_state env rcpt outbound outcome) as [[[[st next] code] status] detail] eqn:En.
  eapply (triple_bind _ _ _ (fun _ => tables O l0)); [| |by intros w Ht; exists false].
  { apply triple_mod. intros w [EO El]. split; [done|]. cbn [on_queue with_queue queue update_rcpts with_rcpts outbound_rcpt].
    unfold l0, final_rows, final_row. by rewrite En, El. }
  intros []. eapply (triple_bind _ _ _ (fun _ => tables O l0)); [apply log_terminal_tables| |by intros w Ht; exists false].
  intros []. eapply (triple_bind _ _ _ (fun _ w => exists marked, tables O (final_rows env rcpt outbound outcome marked l) w)).
  - destruct (_ && _).
    + eapply triple_consequence; [apply maybe_send_dsn_tables|done|]. intros r w Ht. by exists false.
    + destruct (_ && _ && _ && _); [|apply triple_ret; intros w Ht; by exists false].
      eapply (triple_bind _ _ _ (fun _ => tables O (final_rows env rcpt outbound outcome true l))).
      * apply triple_mod. intros w [EO El]. split; [done|].
        cbn [on_queue with_queue queue mark_delayed_dsn_sent update_rcpts with_rcpts outbound_rcpt].
        rewrite El. apply final_rows_marked.
      * intros []. eapply triple_consequence; [apply maybe_send_dsn_tables|done|]. intros r w Ht. by exists true.
      * intros w Ht. by exists true.
  - intros []. apply triple_mod. intros w [marked Ht]. exists marked. by apply cleanup_tables.
  - done.
Qed.

(** C16.  Each attempt ends in the state its outcome calls for: [finalize]
    rewrites exactly the recipient's row and no message; the row loses its
    claim; delivered keeps the attempt count, every other outcome adds one; a
    permanent failure is final; a transient one is retried between 255 seconds
    and 9 hours 12 minutes from now unless the message's lifetime is over, in
    which case the recipient expires; and all this holds even when the audit
    log or the bounce panics. *)
Theorem finalize_commits (env : FinalizeEnv) (outbound : OutboundRow) (rcpt : ClaimedRcpt) (outcome : Outcome)
    (w : Worker) (r : RcptRow) :
  jitter_ok (fe_jitter env) -> r ∈ outbound_rcpt (queue w) -> r_id r = c_id rcpt ->
  let w' := (finalize parse to_lowercase hostname env outbound rcpt outcome w).2 in
  Queue.outbound (queue w') = Queue.outbound (queue w) /\
  r_id <$> outbound_rcpt (queue w') = r_id <$> outbound_rcpt (queue w) /\
  (forall x, x ∈ outbound_rcpt (queue w) -> r_id x <> c_id rcpt -> x ∈ outbound_rcpt (queue w')) /\
  exists r', r' ∈ outbound_rcpt (queue w') /\ r_id r' = r_id r /\ outbound_id r' = outbound_id r /\
    claimed_by r' = None /\
    match outcome with
    | OutDelivered => state r' = # "delivered" /\ attempts r' = attempts r
    | Permanent _ _ _ => state r' = # "failed" /\ attempts r' = (attempts r + 1)%Z
    | Transient _ _ _ => attempts r' = (attempts r + 1)%Z /\
        if (ow_expires_at outbound <=? fe_now env)%Z then state r' = # "expired"
        else state r' = # "deferred" /\ (fe_now env + 255 <= next_attempt_at r' <= fe_now env + 33120)%Z
    end.
Proof.
  intros Hj Hr Hid w'.
  destruct (finalize_tables (Queue.outbound (queue w)) (outbound_rcpt (queue w)) env outbound rcpt outcome w
    (conj eq_refl eq_refl)) as (marked & EO & El). fold w' in EO, El.
  assert (Hop : forall x, r_id (final_row env rcpt outbound outcome marked x) = r_id x /\
    outbound_id (final_row env rcpt outbound outcome marked x) = outbound_id x).
  { intros x. unfold final_row. destruct (next_state _ _ _ _) as [[[[? ?] ?] ?] ?]. by destruct marked. }
  split; [done|]. split; [|split].
  - rewrite El. apply sql_update_key. intros x. apply Hop.
  - intros x Hx Hne. rewrite El. apply elem_of_sql_update. exists x. split; [done|].
    by rewrite (proj2 (Z.eqb_neq _ _) Hne).
  - exists (final_row env rcpt outbound outcome marked r). split.
    { rewrite El. apply elem_of_sql_update. exists r. split; [done|]. by rewrite Hid, Z.eqb_refl. }
    destruct (Hop r) as [-> ->]. split; [done|]. split; [done|].
    pose proof (next_delay_range (c_attempts rcpt + 1) (fe_jitter env) Hj) as Hd.
    unfold final_row, next_state. destruct outcome; [| |by destruct marked].
    + destruct marked; cbn; rewrite Z.add_0_r; done.
    + destruct (ow_expires_at outbound <=? fe_now env)%Z; destruct marked; cbn; split_and!; done || lia.
Qed.

End Finalizing.

(** ** Claims *)

(** The rows a batch selects. *)
Definition selected `{AnyOrder} (now limit : Z) (q : QueueStore) : list RcptRow :=
  sql_limit limit (order_by next_attempt_at (List.filter (claimable now) (outbound_rcpt q))).

Lemma elem_of_selected `{AnyOrder} now limit q r :
  queue_inv q ->
  r ∈ selected now limit q <-> r ∈ outbound_rcpt q /\ r_id r ∈ due_ids now limit q.
Proof.
  intros Hi. unfold selected, due_ids. fold (selected now limit q).
  assert (Hin : forall x, x ∈ selected now limit q -> x ∈ outbound_rcpt q).
  { intros x Hx. destruct (sql_limit_prefix limit (order_by next_attempt_at
      (List.filter (claimable now) (outbound_rcpt q)))) as [rest Er].
    assert (Hf : x ∈ List.filter (claimable now) (outbound_rcpt q)); [|by apply elem_of_filter_list in Hf as [? _]].
    rewrite <- (order_by_perm next_attempt_at), Er. apply elem_of_app. by left. }
  split.
  - intros Hr. split; [by apply Hin|]. by apply list_elem_of_fmap_2.
  - intros [Hr (r0 & E & Hr0)%list_elem_of_fmap].
    by rewrite (key_unique _ r r0 (qi_rcpt_ids q Hi) Hr (Hin _ Hr0) E).
Qed.

Lemma claimed_rows `{AnyOrder} now limit q :
  queue_inv q ->
  (claim_batch now limit q).1 ≡ₚ (fun r => claimed_rcpt (claim_row now r)) <$> selected now limit q /\
  NoDup (r_id <$> selected now limit q).
Proof.
  intros Hi. unfold claim_batch. cbn [fst]. set (ids := due_ids now limit q).
  assert (Hp : List.filter (id_in ids) (outbound_rcpt q) ≡ₚ selected now limit q).
  { apply NoDup_Permutation.
    - apply (NoDup_fmap_1 r_id), NoDup_fmap_filter, (qi_rcpt_ids q Hi).
    - unfold selected. destruct (sql_limit_prefix limit (order_by next_attempt_at
        (List.filter (claimable now) (outbound_rcpt q)))) as [rest Er].
      assert (Hnd : NoDup (order_by next_attempt_at (List.filter (claimable now) (outbound_rcpt q)))).
      { rewrite order_by_perm. apply (NoDup_fmap_1 r_id), NoDup_fmap_filter, (qi_rcpt_ids q Hi). }
      rewrite Er in Hnd. by apply NoDup_app in Hnd as [Hnd _].
    - intros r. rewrite elem_of_filter_list, id_in_spec. by rewrite elem_of_selected. }
  split.
  - rewrite any_order_perm, <- Hp. unfold update_rcpts, sql_update. cbn [outbound_rcpt with_rcpts].
    clear Hp. induction (outbound_rcpt q) as [|r l IH]; [done|]. cbn [fmap list_fmap List.filter].
    destruct (id_in ids r) eqn:E.
    + replace (id_in ids (claim_row now r)) with true by (by rewrite <- E). cbn [fmap list_fmap].
      by rewrite IH.
    + rewrite E. exact IH.
  - rewrite <- Hp. apply NoDup_fmap_filter, (qi_rcpt_ids q Hi).
Qed.

(** Claiming is exact: [claim_batch] hands out at most [limit] distinct
    recipients, each one a row that was ready or deferred and due, which is
    now marked claimed by this worker at this time and otherwise unchanged;
    every other row is untouched, and a due row is left behind only when the
    batch is full of rows due no later. *)
Theorem claim_batch_exact `{AnyOrder} (now limit : Z) (q : QueueStore) :
  queue_inv q -> (0 <= limit)%Z ->
  let '(claimed, q') := claim_batch now limit q in
  exists rows,
    claimed ≡ₚ (fun r => claimed_rcpt (claim_row now r)) <$> rows /\
    NoDup (r_id <$> rows) /\ (Z.of_nat (length rows) <= limit)%Z /\
    (forall r, r ∈ rows -> r ∈ outbound_rcpt q /\ state_in [ # "ready"; # "deferred"] r = true /\
       (next_attempt_at r <= now)%Z /\ claim_row now r ∈ outbound_rcpt q') /\
    (forall x, x ∈ outbound_rcpt q -> x ∉ rows -> x ∈ outbound_rcpt q' /\
       (claimable now x = true -> Z.of_nat (length rows) = limit /\
          forall r, r ∈ rows -> (next_attempt_at r <= next_attempt_at x)%Z)).
Proof.
  intros Hi Hlim. destruct (claimed_rows now limit q Hi) as [Hp Hnd].
  destruct (claim_batch now limit q) as [claimed q'] eqn:Ec. exists (selected now limit q). cbn [fst] in Hp.
  assert (Eq : q' = update_rcpts (id_in (due_ids now limit q)) (claim_row now) q) by (unfold claim_batch in Ec; congruence).
  split; [exact Hp|]. split; [exact Hnd|]. split; [by apply sql_limit_length|]. split.
  - intros r Hsel. pose proof Hsel as [Hr Hid]%elem_of_selected; [|done].
    pose proof (due_ids_claimable now limit q r Hi Hr Hid) as Hc. unfold claimable in Hc. bool_facts.
    split_and!; [done|done|done|]. rewrite Eq. apply elem_of_sql_update. exists r. split; [done|].
    by rewrite (proj2 (id_in_spec _ r) Hid).
  - intros x Hx Hnx. split.
    + rewrite Eq. apply elem_of_sql_update. exists x. split; [done|].
      destruct (id_in _ x) eqn:E; [|done]. apply id_in_spec in E. destruct Hnx. by apply elem_of_selected.
    + intros Hc. assert (Hxf : x ∈ List.filter (claimable now) (outbound_rcpt q)) by by apply elem_of_filter_list.
      split.
      * eapply sql_limit_full; [done| |exact Hnx]. by rewrite order_by_perm.
      * intros r Hr. by apply (order_by_limit_least next_attempt_at limit (List.filter (claimable now) (outbound_rcpt q))).
Qed.

(** ** Blobs and bounces *)
Section Consequences.
Context `{Primitives} `{BlobHash} `{SqlAny} `{MailBuilder}.
Context (parse : str -> option ParsedMessage) (to_lowercase : str -> str) (hostname : str).

(** [finalize] ends with the clean-up. *)
Lemma finalize_cleans env outbound rcpt outcome w w' :
  finalize parse to_lowercase hostname env outbound rcpt outcome w = (Done tt, w') ->
  exists w1, w' = cleanup_terminal_message outbound w1.
Proof.
  assert (Ht : triple (fun _ => True) (finalize parse to_lowercase hostname env outbound rcpt outcome)
    (fun r w' => r = Done tt -> exists w1, w' = cleanup_terminal_message outbound w1)).
  { unfold finalize. destruct (next_state _ _ _ _) as [[[[st next] code] status] detail].
    do 3 (apply triple_bind_any; [intros _|done]). apply triple_mod. intros w1 _ _. by exists w1. }
  intros E. specialize (Ht w I). rewrite E in Ht. by apply Ht.
Qed.

Lemma cleanup_removes outbound w :
  sql_count (active_reference (ow_message_blob outbound)) (rcpt_join (queue w)) = 0%Z ->
  exists_ (blobs (mail (cleanup_terminal_message outbound w))) (ow_message_blob outbound) = false.
Proof.
  intros E. unfold cleanup_terminal_message. rewrite E. cbn [Z.eqb with_mail mail blobs].
  rewrite remove_exists. by rewrite bool_decide_eq_true_2.
Qed.

(** C30.  Plaintext on disk exactly while it is needed: after an attempt is
    committed for a claimed recipient (and the audit log did not panic), the
    message's blob exists if and only if some recipient of a message with that
    blob is still not settled; the last settlement wipes it. *)
Theorem blob_wiped_with_last_recipient (env : FinalizeEnv) (outbound : OutboundRow) (rcpt : ClaimedRcpt)
    (outcome : Outcome) (w w' : Worker) :
  worker_inv w -> (forall r, r ∈ outbound_rcpt (queue w) -> r_id r = c_id rcpt -> terminal r = false) ->
  finalize parse to_lowercase hostname env outbound rcpt outcome w = (Done tt, w') ->
  exists_ (blobs (mail w')) (ow_message_blob outbound) = true <->
  exists r o, (r, o) ∈ rcpt_join (queue w') /\ message_blob o = ow_message_blob outbound /\ terminal r = false.
Proof.
  intros Hw Hlive E.
  assert (Hj : J [] [] w').
  { pose proof (finalize_J parse to_lowercase hostname [] (Forall_nil_2 _) [] env outbound rcpt outcome
      ltac:(by intros ?%elem_of_nil) w) as Hf. rewrite E in Hf. apply Hf. split; [done| |by intros r ?%elem_of_nil].
    intros r Hr Hid. apply Hlive; [done|]. by apply list_elem_of_singleton. }
  destruct Hj as [[_ _ Hb Hk] _ _]. split.
  - intros Hex. destruct (finalize_cleans env outbound rcpt outcome w w' E) as [w1 ->].
    assert (Eq : queue (cleanup_terminal_message outbound w1) = queue w1)
      by (unfold cleanup_terminal_message; by destruct (_ =? 0)%Z).
    rewrite Eq in *. destruct (decide (sql_count (active_reference (ow_message_blob outbound)) (rcpt_join (queue w1)) = 0%Z))
      as [Ez|Ez]; [by rewrite (cleanup_removes _ _ Ez) in Hex|].
    destruct (existsb (active_reference (ow_message_blob outbound)) (rcpt_join (queue w1))) eqn:Ee.
    + apply existsb_exists in Ee as ([r o] & Hro & Ha). apply list_elem_of_In in Hro.
      unfold active_reference in Ha. cbn [fst snd] in Ha. bool_facts. rewrite state_in_terminal in *.
      by exists r, o.
    + destruct Ez. apply sql_count_zero. intros x Hx. exact (existsb_false _ _ x Ee Hx).
  - intros (r & o & Hro & <- & Ht). destruct (Hk r o Hro Ht) as [c Hc]. by rewrite exists_read, Hc.
Qed.

(** A message the bounce of this attempt may add. *)
Definition bounce_row (w : Worker) (outbound : OutboundRow) (m : Metadata.StoredMessage) : Prop :=
  exists account, find_by_id (auth_store w) (ow_account_id outbound) = Ok (Some account) /\
    Metadata.account_id (Metadata.m_row m) = acc_id account /\
    Metadata.rcpt_to (Metadata.m_row m) = ow_envelope_from outbound /\
    Metadata.mail_from (Metadata.m_row m) = [].

Definition bounces (w w' : Worker) (outbound : OutboundRow) : Prop :=
  Metadata.messages (metadata (mail w')) = Metadata.messages (metadata (mail w)) \/
  exists m, bounce_row w outbound m /\
    Metadata.messages (metadata (mail w')) = Metadata.messages (metadata (mail w)) ++ [m].

(** The mailboxes, notifier and accounts are those of [w0]. *)
Definition mail_same (w0 w : Worker) : Prop :=
  metadata (mail w) = metadata (mail w0) /\ notifier w = notifier w0 /\ auth_store w = auth_store w0.

Lemma log_terminal_mail w0 env rcpt st : keeps (mail_same w0) (log_terminal env rcpt st).
Proof.
  unfold log_terminal. destruct (is_terminal st); [|apply keeps_ret].
  apply keeps_bind; [apply keeps_exec|]. intros action. apply keeps_bind; [|intros _; apply keeps_ret].
  intros w Ht. unfold st_zoom. by destruct (log _ _ _ _ _).
Qed.

Lemma cleanup_metadata outbound w : metadata (mail (cleanup_terminal_message outbound w)) = metadata (mail w) /\
  notifier (cleanup_terminal_message outbound w) = notifier w.
Proof. unfold cleanup_terminal_message. by destruct (_ =? 0)%Z. Qed.

Lemma maybe_send_dsn_bounces w0 env rcpt outbound action code status detail :
  triple (mail_same w0) (maybe_send_dsn parse to_lowercase hostname env rcpt outbound action code status detail)
    (fun _ w => bounces w0 w outbound).
Proof.
  unfold maybe_send_dsn.
  assert (Hsame : forall w, mail_same w0 w -> bounces w0 w outbound) by (intros w [E _]; left; by rewrite E).
  destruct (_ || _); [apply triple_ret; exact Hsame|].
  destruct (build_dsn _) as [bytes|]; [|apply triple_ret; exact Hsame]. apply triple_get. intros w Hw.
  destruct (find_by_id (auth_store w) (ow_account_id outbound)) as [[account|]|] eqn:Ef;
    try (apply triple_ret; intros w' <-; by apply Hsame).
  destruct Hw as (Em & _ & Ea). rewrite Ea in Ef.
  eapply (triple_bind _ _ _ (fun _ w' => bounces w0 w' outbound)); [| |done].
  - intros w' <-. unfold st_zoom.
    pose proof (deliver_appends parse to_lowercase (fe_dsn_rand env)
      (mkRecipient (acc_id account) (account_pub account) (acc_key_id account))
      (mkInbound [] (ow_envelope_from outbound) (# "127.0.0.1"))
      (mkAuthResults (# "n/a") (# "n/a") (# "n/a")) bytes (fe_dsn_now env) None (mkScanMetadata None None)
      (mail w)) as Hd. cbn zeta in Hd. destruct (deliver _ _ _ _ _ _ _ _ _ _ _) as [r t]. cbn [fst snd] in *.
    unfold bounces. cbn [with_mail mail]. rewrite <- Em.
    destruct Hd as [[Hm _]|(dm & row & _ & Hm & Hacc & Hto & Hfrom)]; [by left|right].
    eexists. split; [|exact Hm]. by exists account.
  - intros [dm|e]; [|by apply triple_ret]. by apply triple_mod.
Qed.

(** Bounces cannot loop: a settled attempt adds at most one message to
    the mailboxes, addressed from the empty sender to the original sender, in
    the account that sent the mail; nothing at all happens there (and nobody
    is notified) when the original sender is empty, the message is itself a
    bounce, or the recipient asked for none; and the outbound queue never gets
    a row from it. *)
Theorem bounces_cannot_loop (env : FinalizeEnv) (outbound : OutboundRow) (rcpt : ClaimedRcpt)
    (outcome : Outcome) (w : Worker) :
  let w' := (finalize parse to_lowercase hostname env outbound rcpt outcome w).2 in
  bounces w w' outbound /\
  (ow_envelope_from outbound = [] \/ ow_is_dsn outbound = true \/ c_dsn_notify rcpt = # "NEVER" ->
   metadata (mail w') = metadata (mail w) /\ notifier w' = notifier w) /\
  Queue.outbound (queue w') = Queue.outbound (queue w) /\
  length (outbound_rcpt (queue w')) = length (outbound_rcpt (queue w)).
Proof.
  intros w'.
  destruct (finalize_tables parse to_lowercase hostname (Queue.outbound (queue w)) (outbound_rcpt (queue w))
    env outbound rcpt outcome w (conj eq_refl eq_refl)) as (marked & EO & El). fold w' in EO, El.
  split; [|split; [|split; [done|by rewrite El; apply length_fmap]]]; clear EO El.
  - assert (Ht : triple (mail_same w) (finalize parse to_lowercase hostname env outbound rcpt outcome)
      (fun _ w' => bounces w w' outbound)); [|by apply (Ht w)].
    assert (Hsame : forall w', mail_same w w' -> bounces w w' outbound) by (intros x [E _]; left; by rewrite E).
    unfold finalize. destruct (next_state _ _ _ _) as [[[[st next] code] status] detail].
    eapply (triple_bind _ _ _ (fun _ => mail_same w)); [by apply triple_mod| |done]. intros [].
    eapply (triple_bind _ _ _ (fun _ => mail_same w)); [apply log_terminal_mail| |exact Hsame]. intros [].
    eapply (triple_bind _ _ _ (fun _ w' => bounces w w' outbound)); [| |done].
    + destruct (_ && _); [apply maybe_send_dsn_bounces|]. destruct (_ && _ && _ && _); [|by apply triple_ret].
      eapply (triple_bind _ _ _ (fun _ => mail_same w)); [by apply triple_mod| |done].
      intros []. apply maybe_send_dsn_bounces.
    + intros []. apply triple_mod. intros x Hx. unfold bounces in *.
      by destruct (cleanup_metadata outbound x) as [-> _].
  - intros Hg.
    assert (Hquiet : forall action code status detail,
      maybe_send_dsn parse to_lowercase hostname env rcpt outbound action code status detail = mret tt).
    { intros action code status detail. unfold maybe_send_dsn, str_eqb.
      destruct Hg as [-> |[-> | ->]]; rewrite ?bool_decide_eq_true_2, ?orb_true_r by done; done. }
    assert (Ht : keeps (mail_same w) (finalize parse to_lowercase hostname env outbound rcpt outcome)).
    2: { destruct (Ht w) as (E1 & E2 & _); [done|]. by split. }
    unfold finalize. destruct (next_state _ _ _ _) as [[[[st next] code] status] detail]. rewrite !Hquiet.
    apply keeps_bind; [by apply keeps_mod|]. intros []. apply keeps_bind; [apply log_terminal_mail|]. intros [].
    apply keeps_bind.
    + destruct (_ && _); [apply keeps_ret|]. destruct (_ && _ && _ && _); [|apply keeps_ret].
      apply keeps_bind; [by apply keeps_mod|]. intros []. apply keeps_ret.
    + intros []. apply keeps_mod. intros x (E1 & E2 & E3). destruct (cleanup_metadata outbound x) as [C1 C2].
      split_and!; [by rewrite C1|by rewrite C2|]. unfold cleanup_terminal_message. by destruct (_ =? 0)%Z.
Qed.

End Consequences.

(** ** A pass leaves no claim behind *)
Section Progress.
Context `{Primitives} `{BlobHash} `{SqlAny} `{MailBuilder} `{SendErrorDisplay} `{AnyOrder}.
Context (parse : str -> option ParsedMessage) (to_lowercase : str -> str) (hostname : str).
Context (old : list Z) (O : list OutboundMessage).

(** The messages are [O]; the claimed rows have an id of [ids] or [old]. *)
Definition claims (ids : list Z) (w : Worker) : Prop :=
  Queue.outbound (queue w) = O /\
  forall r, r ∈ outbound_rcpt (queue w) -> state r = as_str Claimed -> r_id r ∈ ids ++ old.

(** The postcondition of a computation that does not panic. *)
Definition unless_panic {A} (P : Worker -> Prop) (r : exec A) (w : Worker) : Prop :=
  match r with Done _ => P w | Panicked => True end.

Lemma claims_final env outbound rcpt outcome ids :
  triple (claims (c_id rcpt :: ids)) (finalize parse to_lowercase hostname env outbound rcpt outcome)
    (fun _ => claims ids).
Proof.
  intros w [EO Hc].
  destruct (finalize_tables parse to_lowercase hostname (Queue.outbound (queue w)) (outbound_rcpt (queue w))
    env outbound rcpt outcome w (conj eq_refl eq_refl)) as (marked & EO' & El).
  split; [by rewrite EO'|]. rewrite El. intros r (r0 & Hr0 & ->)%elem_of_sql_update.
  destruct (r_id r0 =? c_id rcpt)%Z eqn:E; intros Hs; bool_facts.
  - exfalso. unfold final_row, next_state in Hs.
    destruct outcome; [|destruct (_ <=? _)%Z|]; destruct marked; cbn in Hs; discriminate Hs.
  - specialize (Hc r0 Hr0 Hs). cbn [app] in Hc. by apply elem_of_cons in Hc as [?|?].
Qed.

Lemma claims_for {A} (key : A -> ClaimedRcpt) (f : A -> St Worker unit) (l : list A) ids :
  (forall x, exists env outbound outcome,
     f x = finalize parse to_lowercase hostname env outbound (key x) outcome) ->
  triple (claims ((c_id ∘ key <$> l) ++ ids)) (st_for f l) (unless_panic (claims ids)).
Proof.
  intros Hf. induction l as [|x l IH]; cbn [st_for fmap list_fmap app]; [by apply triple_ret|].
  destruct (Hf x) as (env & outbound & outcome & ->).
  eapply (triple_bind _ _ _ (fun _ => claims ((c_id ∘ key <$> l) ++ ids))); [apply claims_final|by intros _|done].
Qed.

Lemma claims_rcpts env outbound outcome rcpts ids :
  triple (claims ((c_id <$> rcpts) ++ ids))
    (st_for (fun rcpt => finalize parse to_lowercase hostname (env rcpt) outbound rcpt outcome) rcpts)
    (unless_panic (claims ids)).
Proof. apply (claims_for (fun c => c)). intros x. by do 3 eexists. Qed.

(** A unit of a stored message is settled or released in full. *)
Lemma claims_unit env u ids :
  (exists o, o ∈ O /\ o_id o = u.1.1) ->
  triple (claims (unit_ids u ++ ids)) (run_unit parse to_lowercase hostname env u) (unless_panic (claims ids)).
Proof.
  destruct u as [[oid d] rcpts]. unfold unit_ids, run_unit. cbn [fst snd]. intros (o & Ho & Eo).
  apply triple_get. intros w Hw.
  eapply (triple_consequence _ _ (claims ((c_id <$> rcpts) ++ ids))); [|by intros w' <-|done].
  destruct (is_cooling_down _ d w).
  - apply triple_mod. unfold release_to_ready, on_queue, unless_panic. clear Hw.
    induction rcpts as [|c rcpts IH]; intros w0 Hc; cbn [foldl].
    { destruct Hc as [EO Hc]. by split. }
    apply (IH (on_queue (update_rcpts (fun r => (r_id r =? c_id c)%Z) release_row) w0)). destruct Hc as [EO Hc].
    split; [done|]. intros r (r0 & Hr0 & ->)%elem_of_sql_update.
    destruct (r_id r0 =? c_id c)%Z eqn:E; intros Hs; bool_facts; [discriminate Hs|].
    specialize (Hc r0 Hr0 Hs). cbn [fmap list_fmap app] in Hc. by apply elem_of_cons in Hc as [?|?].
  - unfold send_unit. apply triple_get. intros w1 Hw1.
    eapply (triple_consequence _ _ (claims ((c_id <$> rcpts) ++ ids))); [|by intros w' <-|done].
    destruct (load_outbound oid (queue w1)) as [outbound|] eqn:El.
    2: { exfalso. unfold load_outbound in El. apply fmap_None in El. destruct Hw1 as [EO _].
         pose proof (sql_find_none _ _ o El) as Hn. rewrite EO, Eo, Z.eqb_refl in Hn. by specialize (Hn Ho). }
    pose proof (claims_rcpts (ie_finalize env) outbound) as Hall.
    destruct (read _ _) as [raw|]; [|apply Hall]. destruct (net_mx _ d) as [mx|]; [|apply Hall].
    destruct (null_mx mx); [apply Hall|].
    assert (Henv : forall client, triple (claims ((c_id <$> rcpts) ++ ids))
      (st_for (fun ro => finalize parse to_lowercase hostname (ie_finalize env ro.1) outbound ro.1 ro.2)
         (zip rcpts (run_envelope client (ow_envelope_from outbound) rcpts raw).1)) (unless_panic (claims ids))).
    { intros client. eapply triple_consequence; [apply (claims_for fst)| |done].
      - intros x. by do 3 eexists.
      - intros w'. rewrite list_fmap_compose, fst_zip; [done|]. by rewrite run_envelope_length. }
    destruct (connect_opportunistic _ mx) as [[client|client]|dane]; [apply Henv|apply Henv|].
    eapply (triple_bind _ _ _ (fun _ => claims ((c_id <$> rcpts) ++ ids))); [by apply triple_mod| |done].
    intros _. apply Hall.
Qed.

Lemma claims_units env units ids :
  (forall u, u ∈ units -> exists o, o ∈ O /\ o_id o = u.1.1) ->
  triple (claims (mjoin (unit_ids <$> units) ++ ids)) (st_for (run_unit parse to_lowercase hostname env) units)
    (unless_panic (claims ids)).
Proof.
  induction units as [|u units IH]; cbn [fmap list_fmap mjoin list_join st_for app]; intros Hu; [by apply triple_ret|].
  rewrite <- app_assoc. eapply (triple_bind _ _ _ (unless_panic (claims (mjoin (unit_ids <$> units) ++ ids)))).
  - apply claims_unit, Hu. by left.
  - intros []. cbn [unless_panic]. apply IH. intros u' Hu'. apply Hu. by right.
  - done.
Qed.

(** Units come from the claimed pairs. *)
Lemma push_unit_from key rcpt units u :
  u ∈ push_unit key rcpt units -> u.1 = key \/ exists u', u' ∈ units /\ u'.1 = u.1.
Proof.
  induction units as [|[k l] units IH]; cbn [push_unit]; [intros ->%list_elem_of_singleton; by left|].
  case_bool_decide as Hk.
  - intros [->|Hu]%elem_of_cons; [by left|]. right. exists u. split; [by right|done].
  - intros [->|Hu]%elem_of_cons; [right; exists (k, l); split; [by left|done]|].
    destruct (IH Hu) as [E|(u' & Hu' & E)]; [by left|]. right. exists u'. split; [by right|done].
Qed.

Lemma group_units_from claimed u :
  u ∈ group_units claimed -> exists c, (u.1.1, c) ∈ claimed.
Proof.
  unfold group_units. set (f := fun units '(oid, rcpt) => push_unit _ _ _).
  assert (Hgen : forall us, u ∈ foldl f us claimed -> (exists c, (u.1.1, c) ∈ claimed) \/ exists u', u' ∈ us /\ u'.1 = u.1).
  { induction claimed as [|[oid c] claimed IH]; intros us; cbn [foldl]; [intros Hu; right; by exists u|].
    intros [(c' & Hc')|(u' & Hu' & E)]%IH; [left; exists c'; by right|].
    apply push_unit_from in Hu' as [Ek|(u2 & Hu2 & E2)].
    - left. exists c. rewrite <- E, Ek. by left.
    - right. exists u2. split; [done|]. congruence. }
  intros [?|(u' & ?%elem_of_nil & _)]%Hgen; done.
Qed.

End Progress.

Section Passes.
Context `{Primitives} `{BlobHash} `{SqlAny} `{MailBuilder} `{SendErrorDisplay} `{AnyOrder}.
Context (parse : str -> option ParsedMessage) (to_lowercase : str -> str) (hostname : str).

(** The claims that survive the reaping. *)
Definition held (env : IterationEnv) (w : Worker) : list Z :=
  r_id <$> List.filter (fun r => str_eqb (state r) (as_str Claimed) && negb (stale (ie_reap env) r))
             (outbound_rcpt (queue w)).

Definition claims_inv (old : list Z) (O : list OutboundMessage) (w : Worker) : Prop :=
  claims old O [] w /\ queue_inv (queue w).

Lemma reap_claims env w :
  queue_inv (queue w) ->
  claims_inv (held env w) (Queue.outbound (queue w)) (on_queue (reap_stale_claims (ie_reap env)) w).
Proof.
  intros Hi. split; [|apply update_rcpts_inv; [apply release_row_op|done]]. split; [done|].
  intros r (r0 & Hr0 & ->)%elem_of_sql_update. destruct (stale (ie_reap env) r0) eqn:E; [discriminate|].
  intros Hs. cbn [app]. apply list_elem_of_fmap_2, elem_of_filter_list. split; [done|].
  unfold str_eqb. by rewrite Hs, E, bool_decide_eq_true_2.
Qed.

Lemma expire_claims old O now w :
  claims_inv old O w -> claims_inv old O (on_queue (expire_overdue now) w).
Proof.
  intros [[EO Hc] Hi]. split; [|apply update_rcpts_inv; [apply set_state_op|done]]. split; [done|].
  intros r (r0 & Hr0 & ->)%elem_of_sql_update. destruct (overdue now (queue w) r0) eqn:E; [discriminate|].
  by apply Hc.
Qed.

Lemma fire_event_queue w ev :
  Queue.outbound (queue (fire_event w ev)) = Queue.outbound (queue w) /\
  outbound_rcpt (queue (fire_event w ev)) = outbound_rcpt (queue w) /\
  blobs (mail (fire_event w ev)) = blobs (mail w).
Proof.
  unfold fire_event, fire_snooze_resurface, fire_followup_nudge, ensure_role.
  repeat (case_match; simplify_eq; try done).
Qed.

Lemma fire_claims old O now w :
  claims_inv old O w -> claims_inv old O (fire_due_scheduled_events now w).
Proof.
  unfold fire_due_scheduled_events. generalize (due_scheduled_events (queue w) now). intros l. revert w.
  induction l as [|ev l IH]; intros w Hc; cbn [foldl]; [done|]. apply IH.
  destruct (fire_event_queue w ev) as (E1 & E2 & _), Hc as [[EO Hc] [Q1 Q2 Q3 Q4]].
  split; [split|split]; rewrite ?E1, ?E2; done.
Qed.

Lemma batch_claims old O now w :
  claims_inv old O w ->
  let '(claimed, q) := claim_batch now BATCH_SIZE (queue w) in
  claims old O (c_id ∘ snd <$> claimed) (with_queue q w) /\
  forall oid c, (oid, c) ∈ claimed -> exists o, o ∈ O /\ o_id o = oid.
Proof.
  intros [[EO Hc] Hi]. destruct (claimed_rows now BATCH_SIZE (queue w) Hi) as [Hp _].
  destruct (claim_batch now BATCH_SIZE (queue w)) as [claimed q] eqn:Ec. cbn [fst] in Hp.
  assert (Eq : q = update_rcpts (id_in (due_ids now BATCH_SIZE (queue w))) (claim_row now) (queue w))
    by (unfold claim_batch in Ec; congruence).
  split; [split|].
  - by rewrite Eq.
  - cbn [with_queue queue]. rewrite Eq. intros r (r0 & Hr0 & ->)%elem_of_sql_update. rewrite elem_of_app.
    destruct (id_in _ r0) eqn:E.
    + intros _. left. rewrite Hp, <- list_fmap_compose. apply id_in_spec in E.
      apply (list_elem_of_fmap_2 (fun r => r_id r) (selected now BATCH_SIZE (queue w)) r0).
      by apply elem_of_selected.
    + intros Hs. right. by apply Hc.
  - intros oid c Hin. rewrite Hp in Hin. apply list_elem_of_fmap in Hin as (r & [= -> ->] & Hr).
    apply elem_of_selected in Hr as [Hr _]; [|done]. destruct (qi_reference _ Hi r Hr) as (o & Ho & E).
    exists o. by rewrite <- EO.
Qed.

(** C28.  A pass that does not crash settles what it claims: after a pass of
    the loop, whatever the network did and in whatever order the units ran,
    the only rows still marked claimed are those that were claimed before it
    and whose five-minute lease had not run out; every recipient claimed by
    the pass is settled, deferred or back to ready. *)
Theorem pass_leaves_no_claim (env : IterationEnv) (w w' : Worker) (b : bool) (r : RcptRow) :
  queue_inv (queue w) -> run_iteration parse to_lowercase hostname env w = (Done b, w') ->
  r ∈ outbound_rcpt (queue w') -> state r = as_str Claimed ->
  exists r0, r0 ∈ outbound_rcpt (queue w) /\ r_id r0 = r_id r /\ state r0 = as_str Claimed /\
    stale (ie_reap env) r0 = false.
Proof.
  intros Hi E Hr Hs. set (old := held env w). set (O := Queue.outbound (queue w)).
  assert (Ht : triple (eq w) (run_iteration parse to_lowercase hostname env) (unless_panic (claims old O []))).
  { unfold run_iteration. eapply (triple_bind _ _ _ (fun _ => claims_inv old O)); [| |done].
    { apply triple_mod. intros x <-. by apply reap_claims. }
    intros []. eapply (triple_bind _ _ _ (fun _ => claims_inv old O)); [| |done].
    { apply triple_mod. intros x. apply expire_claims. }
    intros []. eapply (triple_bind _ _ _ (fun _ => claims_inv old O)); [| |done].
    { apply triple_mod. intros x. apply fire_claims. }
    intros []. apply triple_get. intros x Hx. pose proof (batch_claims old O (ie_claim env) x Hx) as Hb.
    destruct (claim_batch (ie_claim env) BATCH_SIZE (queue x)) as [claimed q]. destruct Hb as [Hb Hfrom].
    eapply (triple_bind _ _ _ (fun _ => claims old O (c_id ∘ snd <$> claimed))); [| |done].
    { apply triple_mod. by intros y <-. }
    intros []. destruct claimed as [|c claimed]; [by apply triple_ret|].
    eapply (triple_bind _ _ _ (unless_panic (claims old O []))); [|intros []; by apply triple_ret|done].
    eapply triple_consequence; [apply (claims_units parse to_lowercase hostname old O env _ [])| |done].
    - intros u Hu. rewrite elem_of_any_order in Hu. apply group_units_from in Hu as [c' Hc']. by eapply Hfrom.
    - intros y [EO Hc]. split; [done|]. intros r1 Hr1 Hs1. specialize (Hc r1 Hr1 Hs1).
      rewrite elem_of_app in *. rewrite app_nil_r. destruct Hc as [Hc|Hc]; [left|by right].
      rewrite any_order_perm, group_units_perm. exact Hc. }
  specialize (Ht w eq_refl). rewrite E in Ht. destruct Ht as [_ Hc]. specialize (Hc r Hr Hs). cbn [app] in Hc.
  apply list_elem_of_fmap in Hc as (r0 & Eid & Hr0). apply elem_of_filter_list in Hr0 as [Hr0 Hp].
  bool_facts. by exists r0.
Qed.

End Passes.

(** ** Bounces are sent, and where they are not *)
Section Failures.
Context `{PrimitiveLaws} `{BlobHash} `{SqlAny} `{MailBuilder} `{SendErrorDisplay} `{AnyOrder}.
Context (parse : str -> option ParsedMessage) (to_lowercase : str -> str) (hostname : str).

(** What a bounce that can be built and parsed does. *)
Definition bounced (w w' : Worker) (outbound : OutboundRow) (account : Account) : Prop :=
  (exists m, Metadata.messages (metadata (mail w')) = Metadata.messages (metadata (mail w)) ++ [m] /\
     Metadata.account_id (Metadata.m_row m) = acc_id account /\
     Metadata.rcpt_to (Metadata.m_row m) = ow_envelope_from outbound /\
     Metadata.mail_from (Metadata.m_row m) = []) /\
  notifier w' = Changes.notify (notifier w) (acc_id account).

Lemma maybe_send_dsn_delivers w env rcpt outbound action code status detail account sk bytes p subj :
  Metadata.meta_inv (metadata (mail w)) -> ow_envelope_from outbound <> [] -> ow_is_dsn outbound = false ->
  c_dsn_notify rcpt <> # "NEVER" ->
  find_by_id (auth_store w) (ow_account_id outbound) = Ok (Some account) ->
  account_pub account = hpke_public sk -> length sk = PRIVATE_KEY_LEN ->
  build_dsn (dsn_input hostname rcpt outbound action code status detail) = Ok bytes ->
  parse bytes = Some p ->
  subject_hash_of to_lowercase (mkRecipient (acc_id account) (account_pub account) (acc_key_id account)) p = Done subj ->
  triple (mail_same w)
    (maybe_send_dsn parse to_lowercase hostname env rcpt outbound action code status detail)
    (fun r w' => r = Done tt -> bounced w w' outbound account).
Proof.
  intros Hm Hf Hd Hn Hacc Hpub Hsk Hb Hp Hs x (Em & En & Ea). unfold maybe_send_dsn.
  rewrite Hd, Hb. unfold str_eqb. rewrite !bool_decide_eq_false_2 by done. cbn [orb].
  unfold mbind, St_bind, st_get, st_zoom. rewrite Ea, Hacc. rewrite <- Em in Hm.
  destruct (deliver_runs parse to_lowercase (fe_dsn_rand env)
    (mkRecipient (acc_id account) (account_pub account) (acc_key_id account))
    (mkInbound [] (ow_envelope_from outbound) (# "127.0.0.1"))
    (mkAuthResults (# "n/a") (# "n/a") (# "n/a")) bytes (fe_dsn_now env) None (mkScanMetadata None None)
    (mail x) p subj sk Hm Hsk Hpub Hp Hs) as (dm & s' & E & Hrun). rewrite E. intros _.
  destruct Hrun as [(parsed & subj' & mb & th & wrap & _ & _ & Hmsg & _) _ _ _].
  split; [|cbn; by rewrite En]. eexists. cbn [st_mod fst snd notify with_notifier with_mail mail].
  rewrite <- Em. split; [exact Hmsg|]. done.
Qed.

(** C33.  A permanent failure is reported: when the sender is not empty, the
    message is no bounce and the recipient did not refuse notifications, the
    account exists and the bounce builds and parses, a committed permanent
    failure puts exactly one message from the empty sender into the sending
    account's mailboxes, addressed to the original sender, and notifies that
    account. *)
Theorem permanent_failure_bounces (env : FinalizeEnv) (outbound : OutboundRow) (rcpt : ClaimedRcpt)
    (code : option N) (status : option str) (detail : str) (w w' : Worker) (account : Account)
    (sk bytes : str) (p : ParsedMessage) (subj : option str) :
  Metadata.meta_inv (metadata (mail w)) -> ow_envelope_from outbound <> [] -> ow_is_dsn outbound = false ->
  c_dsn_notify rcpt <> # "NEVER" ->
  find_by_id (auth_store w) (ow_account_id outbound) = Ok (Some account) ->
  account_pub account = hpke_public sk -> length sk = PRIVATE_KEY_LEN ->
  build_dsn (dsn_input hostname rcpt outbound ActFailed code status detail) = Ok bytes ->
  parse bytes = Some p ->
  subject_hash_of to_lowercase (mkRecipient (acc_id account) (account_pub account) (acc_key_id account)) p = Done subj ->
  finalize parse to_lowercase hostname env outbound rcpt (Permanent code status detail) w = (Done tt, w') ->
  bounced w w' outbound account.
Proof.
  intros Hm Hf Hd Hn Hacc Hpub Hsk Hb Hp Hs E.
  assert (Ht : triple (mail_same w) (finalize parse to_lowercase hostname env outbound rcpt (Permanent code status detail))
    (fun r w' => r = Done tt -> bounced w w' outbound account)).
  { unfold finalize, next_state. cbn [is_terminal].
    eapply (triple_bind _ _ _ (fun _ => mail_same w)); [by apply triple_mod| |done]. intros [].
    eapply (triple_bind _ _ _ (fun _ => mail_same w)); [apply log_terminal_mail| |done]. intros [].
    rewrite bool_decide_eq_false_2 by done. cbn [andb negb].
    eapply (triple_bind _ _ _ (fun r x => r = Done tt -> bounced w x outbound account)); [| |done].
    - by eapply maybe_send_dsn_delivers.
    - intros []. apply triple_mod. intros x Hx _. specialize (Hx eq_refl). unfold bounced in *.
      by destruct (cleanup_metadata outbound x) as [-> ->]. }
  specialize (Ht w). rewrite E in Ht. by apply Ht.
Qed.

Lemma sql_update_none {A} (p : A -> bool) (f : A -> A) (t : list A) :
  (forall x, x ∈ t -> p x = false) -> sql_update p f t = t.
Proof.
  intros Hn. unfold sql_update. induction t as [|x t IH]; [done|]. cbn [fmap list_fmap].
  rewrite (Hn x) by by left. f_equal. apply IH. intros y Hy. apply Hn. by right.
Qed.

Lemma filter_none {A} (p : A -> bool) (l : list A) :
  (forall x, x ∈ l -> p x = false) -> List.filter p l = [].
Proof.
  induction l as [|x l IH]; intros Hn; [done|]. cbn [List.filter]. rewrite (Hn x) by by left.
  apply IH. intros y Hy. apply Hn. by right.
Qed.

Lemma any_order_nil {A} : any_order (@nil A) = [].
Proof. apply Permutation_nil_r. by rewrite any_order_perm. Qed.

Lemma claim_nothing now limit q :
  (forall r, r ∈ outbound_rcpt q -> claimable now r = false) -> claim_batch now limit q = ([], q).
Proof.
  intros Hn. assert (Eids : due_ids now limit q = []).
  { unfold due_ids, order_by. rewrite filter_none, any_order_nil by done. unfold sql_limit.
    change (merge_sort (key_le next_attempt_at) []) with (@nil RcptRow). rewrite take_nil.
    by destruct (_ <? _)%Z. }
  unfold claim_batch. rewrite Eids, (filter_none (id_in [])) by done. cbn [fmap list_fmap].
  rewrite any_order_nil. unfold update_rcpts. rewrite sql_update_none by done. by destruct q.
Qed.

Lemma not_stale now q env_now r :
  terminal r = true \/ overdue env_now q r = true -> stale now r = false.
Proof.
  intros Hr. destruct (stale now r) eqn:Es; [|done]. unfold stale in Es. apply andb_true_iff in Es as [Es _].
  pose proof (state_in_claimed r Es) as Hl. destruct Hr as [Ht|Ho]; [congruence|].
  unfold overdue in Ho. apply andb_true_iff in Ho as [Ho _].
  unfold state_in in Es, Ho. cbn [existsb] in Es, Ho. rewrite orb_false_r in Es.
  apply bool_decide_eq_true in Es. by rewrite Es in Ho.
Qed.

(** Messages that outlive their five days in the queue die silently:
    when every unsettled recipient waits past its message's expiry and no
    event is due, a pass marks them all expired and goes to sleep without a
    bounce, an audit entry or a clean-up: the mail stores, the audit log and
    the notifier are exactly as before, so the plaintext blobs stay on disk
    with no recipient left that would ever have them wiped. *)
Theorem overdue_rows_expire_silently (env : IterationEnv) (w : Worker) :
  (forall r, r ∈ outbound_rcpt (queue w) -> terminal r = true \/ overdue (ie_expire env) (queue w) r = true) ->
  List.filter (event_due (ie_fire env)) (scheduled_events (queue w)) = [] ->
  exists w', run_iteration parse to_lowercase hostname env w = (Done true, w') /\
    (forall r, r ∈ outbound_rcpt (queue w') -> terminal r = true) /\
    length (outbound_rcpt (queue w')) = length (outbound_rcpt (queue w)) /\
    mail w' = mail w /\ audit w' = audit w /\ notifier w' = notifier w.
Proof.
  intros Hall Hev. unfold run_iteration, mbind, St_bind, st_mod, st_get.
  assert (Ereap : on_queue (reap_stale_claims (ie_reap env)) w = w).
  { destruct w as [q m s a c n]. unfold on_queue, with_queue, reap_stale_claims, update_rcpts. cbn [queue] in *.
    f_equal. rewrite sql_update_none; [by destruct q|]. intros r Hr. eapply not_stale. by apply Hall. }
  rewrite Ereap. set (w1 := on_queue (expire_overdue (ie_expire env)) w).
  assert (Hdone : forall r, r ∈ outbound_rcpt (queue w1) -> terminal r = true).
  { intros r (r0 & Hr0 & ->)%elem_of_sql_update. destruct (overdue _ _ r0) eqn:Eo; [done|].
    by destruct (Hall r0 Hr0) as [?|?]; [|congruence]. }
  assert (Efire : fire_due_scheduled_events (ie_fire env) w1 = w1).
  { unfold fire_due_scheduled_events, due_scheduled_events. change (scheduled_events (queue w1)) with
      (scheduled_events (queue w)). rewrite Hev.
    by rewrite any_order_nil. }
  rewrite Efire.
  assert (Eclaim : claim_batch (ie_claim env) BATCH_SIZE (queue w1) = ([], queue w1)).
  { apply claim_nothing. intros r Hr. destruct (claimable (ie_claim env) r) eqn:Ec; [|done].
    unfold claimable in Ec. bool_facts.
    match goal with Hx : state_in _ r = true |- _ => apply state_in_waiting in Hx; by rewrite Hdone in Hx end. }
  rewrite Eclaim. exists (with_queue (queue w1) w1). split; [done|]. cbn. split_and!; try done.
  apply length_fmap.
Qed.

End Failures.

(** ** Witnesses *)
#[local] Existing Instance toy_primitives.
#[local] Existing Instance toy_laws.
#[local] Existing Instance toy_BlobHash.
#[local] Existing Instance toy_signer.
#[local] Existing Instance first_row.
#[local] Existing Instance as_listed.

#[local] Instance toy_builder : MailBuilder :=
  {| write_to_vec := fun b => Ok (b_subject b ++ [LF] ++ b_to b) |}.
#[local] Instance toy_display : SendErrorDisplay := {| send_error_display := fun _ => # "send error" |}.

Definition wit_owner : Account :=
  mkAccount 1 (# "alice") (# "example.com") 1 [] [] (pad 32 (# "priv")) [] 0.
Definition wit_blob : str := hash_hex (# "signed").
Definition wit_msg : OutboundMessage := mkOutbound 1 1 wit_blob (# "alice@example.com") 1000 433000 None None false.
Definition wit_rcpt (st : RcptState) : RcptRow :=
  mkRcptRow 1 1 (# "bob@example.net") (# "example.net") (# "FAILURE") (as_str st) 0 1000 (Some WORKER_ID)
    (Some 1000%Z) None None None false.
Definition wit_world (st : RcptState) : Worker :=
  mkWorker (mkQueue [wit_msg] [wit_rcpt st] [] []) (mkMailStore (write ∅ (# "signed")).2 Metadata.empty_store)
    (mkAuthStore [mkAccountRow wit_owner None] []) empty_audit ∅ Changes.new.
Definition wit_claimed : ClaimedRcpt := (claimed_rcpt (wit_rcpt Claimed)).2.
Definition wit_outbound : OutboundRow := mkOutboundRow 1 wit_blob (# "alice@example.com") false 1000 433000 1.
Definition wit_env : FinalizeEnv := mkFinalizeEnv 2000 0 2000 [] 2000 wit_rand.
Definition wit_net : Net := mkNet (fun _ => Err (Network (# "down"))) (fun _ => Ok []) (fun _ => true)
  (fun _ _ => Err MissingStartTls) (fun _ => Err MissingStartTls).
Definition wit_pass (now : Z) : IterationEnv :=
  mkIterationEnv now now now now (fun _ => 0%Z) (fun _ => wit_net) (fun _ => wit_env).
Definition wit_finalize (outcome : Outcome) : exec unit * Worker :=
  finalize toy_parse to_ascii_lowercase (# "mx.example.com") wit_env wit_outbound wit_claimed outcome (wit_world Claimed).
Definition wit_iterate (now : Z) (st : RcptState) : exec bool * Worker :=
  run_iteration toy_parse to_ascii_lowercase (# "mx.example.com") (wit_pass now) (wit_world st).

Lemma wit_world_inv st : worker_inv (wit_world st).
Proof.
  split; cbn [wit_world queue mail blobs].
  - split; cbn [outbound outbound_rcpt fmap list_fmap]; try apply NoDup_singleton.
    + intros r ->%list_elem_of_singleton. exists wit_msg. split; [by left|done].
    + intros r ->%list_elem_of_singleton. by exists st.
  - intros account w. unfold window_messages, window_recipients, sql_count, MAX_MESSAGES_PER_WINDOW,
      MAX_RECIPIENTS_PER_WINDOW. split; (etrans; [apply Nat2Z.inj_le, List.filter_length_le|]); vm_compute; discriminate.
  - apply write_intact. intros h p c _. by rewrite lookup_empty.
  - intros r o (_ & ->%list_elem_of_singleton & _)%elem_of_rcpt_join _. exists (# "signed"). vm_compute. reflexivity.
Qed.

Lemma claim_batch_exact_witness :
  exists rows, (claim_batch 1000 100 (queue (wit_world Ready))).1
      ≡ₚ (fun r => claimed_rcpt (claim_row 1000 r)) <$> rows /\ (Z.of_nat (length rows) <= 100)%Z.
Proof.
  pose proof (claim_batch_exact 1000 100 (queue (wit_world Ready)) (wi_queue _ (wit_world_inv Ready)) ltac:(lia)) as Hc.
  destruct (claim_batch 1000 100 (queue (wit_world Ready))) as [claimed q'].
  destruct Hc as (rows & Hp & _ & Hl & _). exists rows. exact (conj Hp Hl).
Defined.

Definition wit_start : Worker := start empty_auth empty_audit Metadata.empty_store.
Definition wit_sent : Worker := enqueue_step wit_key wit_new 1000 wit_start.

Lemma accepted_mail_not_lost_witness :
  exists o c, get_outbound (queue wit_sent) 1 = Some o /\ read (blobs (mail wit_sent)) (message_blob o) = Ok c.
Proof.
  refine (proj1 (accepted_mail_not_lost toy_parse to_ascii_lowercase (# "mx.example.com") empty_auth empty_audit
    Metadata.empty_store wit_sent _) (new_rcpt_row 1 1000 1 (# "bob@Example.net")) _ _).
  - apply rtc_once. exact (StepEnqueue toy_parse to_ascii_lowercase (# "mx.example.com") wit_key wit_new 1000 wit_start).
  - apply list_elem_of_In. vm_compute. left. reflexivity.
  - reflexivity.
Defined.

Lemma settled_is_final_witness :
  wit_rcpt Delivered ∈ outbound_rcpt (queue (wit_iterate 900000 Delivered).2).
Proof.
  refine (proj1 (settled_is_final toy_parse to_ascii_lowercase (# "mx.example.com") (wit_world Delivered)
    (wit_iterate 900000 Delivered).2 (wit_rcpt Delivered) (wit_world_inv Delivered) _ _ _)).
  - apply rtc_once. exact (StepIterate toy_parse to_ascii_lowercase (# "mx.example.com") (wit_pass 900000) (wit_world Delivered)).
  - left.
  - reflexivity.
Defined.

Lemma finalize_commits_witness :
  outbound (queue (wit_finalize (Permanent (Some 550%N) None (# "no"))).2) = [wit_msg].
Proof.
  refine (proj1 (finalize_commits toy_parse to_ascii_lowercase (# "mx.example.com") wit_env wit_outbound wit_claimed
    (Permanent (Some 550%N) None (# "no")) (wit_world Claimed) (wit_rcpt Claimed) _ _ _)).
  - unfold jitter_ok, F64_0_15. cbn [wit_env fe_jitter]. lia.
  - left.
  - reflexivity.
Defined.

Lemma blob_wiped_with_last_recipient_witness :
  exists_ (blobs (mail (wit_finalize OutDelivered).2)) wit_blob = true <->
  exists r o, (r, o) ∈ rcpt_join (queue (wit_finalize OutDelivered).2) /\ message_blob o = wit_blob /\ terminal r = false.
Proof.
  refine (blob_wiped_with_last_recipient toy_parse to_ascii_lowercase (# "mx.example.com") wit_env wit_outbound
    wit_claimed OutDelivered (wit_world Claimed) (wit_finalize OutDelivered).2 (wit_world_inv Claimed) _ _).
  - by intros r ->%list_elem_of_singleton.
  - apply pair_with_fst. vm_compute. reflexivity.
Defined.

Lemma permanent_failure_bounces_witness :
  bounced (wit_world Claimed) (wit_finalize (Permanent (Some 550%N) None (# "no"))).2 wit_outbound wit_owner.
Proof.
  refine (permanent_failure_bounces toy_parse to_ascii_lowercase (# "mx.example.com") wit_env wit_outbound wit_claimed
    (Some 550%N) None (# "no") (wit_world Claimed) (wit_finalize (Permanent (Some 550%N) None (# "no"))).2 wit_owner
    (pad 32 (# "priv")) (# "Delivery Status Notification (Failure)" ++ [LF] ++ # "alice@example.com")
    (mkParsed None OtherValue OtherValue (Some (# "Delivery Status Notification (Failure)")))
    (Some (hash_hex (pad 32 (# "priv") ++ # "delivery status notification (failure)"))) Metadata.empty_store_inv _ _ _ _ _ _ _ _ _ _).
  - discriminate.
  - reflexivity.
  - discriminate.
  - reflexivity.
  - reflexivity.
  - reflexivity.
  - reflexivity.
  - vm_compute. reflexivity.
  - vm_compute. reflexivity.
  - apply pair_with_fst. vm_compute. reflexivity.
Defined.

Lemma pass_leaves_no_claim_witness :
  exists r0, r0 ∈ [wit_rcpt Claimed] /\ r_id r0 = 1%Z /\ state r0 = as_str Claimed /\ stale 1000 r0 = false.
Proof.
  refine (pass_leaves_no_claim toy_parse to_ascii_lowercase (# "mx.example.com") (wit_pass 1000) (wit_world Claimed)
    (wit_iterate 1000 Claimed).2 true (wit_rcpt Claimed) (wi_queue _ (wit_world_inv Claimed)) _ _ _).
  - apply pair_with_fst. vm_compute. reflexivity.
  - apply list_elem_of_In. vm_compute. left. reflexivity.
  - reflexivity.
Defined.

Lemma overdue_rows_expire_silently_witness :
  exists w', wit_iterate 500000 Ready = (Done true, w') /\ mail w' = mail (wit_world Ready).
Proof.
  destruct (overdue_rows_expire_silently toy_parse to_ascii_lowercase (# "mx.example.com") (wit_pass 500000)
    (wit_world Ready)) as (w' & E & _ & _ & Em & _).
  - intros r ->%list_elem_of_singleton. right. vm_compute. reflexivity.
  - reflexivity.
  - exists w'. exact (conj E Em).
Defined.
