(* ===== verification/QueueRaces.v ===== *)
(** * QueueRaces: senders and the worker between their locks

    [enqueue] writes the message's blob before it takes the queue's lock, and
    [cleanup_terminal_message] removes a blob after it has released it.  Both
    are split here where the lock is taken and released, so that the halves of
    several senders, of the clean-ups and the worker's statements interleave
    in any order.  The split functions composed are the ones of Queue and
    Worker; the hourly limits hold in every interleaving; the blobs of waiting
    recipients survive every interleaving in which no sender of a text
    overlaps a clean-up of the same text; and they need not survive one that
    does. *)

From stdpp Require Import base list strings gmap.
From Stdlib Require Import Ascii ZArith Lia.
From S2P Require Import Prelude RustStr Store Sealing Auth AuditLog Delivery Backoff Queue Worker QueueSystem.
Import Blob.

Section Races.
Context `{BlobHash} `{DkimSigner} `{AnyOrder}.

(** ** The halves *)

(** [enqueue] up to the queue's lock: the checks, the signature, the blob. *)
Definition prepare (key : DomainKey) (new : NewOutbound) (now : Z) (b : BlobStore) : Result str * BlobStore :=
  if negb (valid_envelope new) then (Err (Config (# "invalid outbound envelope")), b)
  else
    match sign key now (raw_message new) with
    | Err e => (Err e, b)
    | Ok dkim_header => write b (dkim_header ++ raw_message new)
    end.

(** [enqueue] under the lock: the limits and the rows. *)
Definition commit (new : NewOutbound) (blob_hash : str) (now : Z) (q : QueueStore) : Result Z * QueueStore :=
  match rate_limit new now q with
  | Err e => (Err e, q)
  | Ok _ =>
      let '(id, q1) := insert_outbound new blob_hash now q in
      (Ok id, foldl (insert_rcpt id now) q1 (recipients new))
  end.

(** [cleanup_terminal_message] under the lock, and after it. *)
Definition no_active_reference (blob : str) (q : QueueStore) : bool :=
  (sql_count (active_reference blob) (rcpt_join q) =? 0)%Z.

Definition wipe (blob : str) (b : BlobStore) : BlobStore := (remove b blob).2.

Lemma enqueue_halves key new now q b :
  enqueue key new now q b =
    match prepare key new now b with
    | (Err e, b') => (Err e, (q, b'))
    | (Ok blob_hash, b') => let '(r, q') := commit new blob_hash now q in (r, (q', b'))
    end.
Proof.
  unfold enqueue, prepare, commit. destruct (negb _); [done|]. destruct (sign _ _ _) as [h|]; [|done].
  destruct (write _ _) as [[hash|] b']; [|done]. by destruct (rate_limit _ _ _).
Qed.

Lemma cleanup_halves outbound w :
  cleanup_terminal_message outbound w =
    if no_active_reference (ow_message_blob outbound) (queue w)
    then with_mail (mkMailStore (wipe (ow_message_blob outbound) (blobs (mail w))) (metadata (mail w))) w
    else w.
Proof. done. Qed.

(** ** The interleaving *)

(** A sender between the halves: its message and the blob it wrote. *)
Definition Sender : Type := NewOutbound * str.

Record Race : Type := mkRace {
  sh_queue : QueueStore;
  sh_blobs : BlobStore;
  senders : list Sender;
  wiping : list str
}.

Inductive event : Type :=
| Prepares (key : DomainKey) (new : NewOutbound) (now : Z)
| Commits (i : nat) (now : Z)
| Counts (id : Z)
| Wipes (i : nat)
| Writes (bytes : str)
| Claims (now limit : Z)
| Reaps (now : Z)
| Expires (now : Z)
| Settles (id : Z) (st : RcptState) (next inc : Z) (code : option N) (status : option str) (detail : str)
| Marks (id : Z)
| Releases (rcpt : ClaimedRcpt).

(** The worker settles, marks and releases recipients it has claimed. *)
Definition claimed_live (id : Z) (q : QueueStore) : bool :=
  forallb (fun r => negb (r_id r =? id)%Z || negb (terminal r)) (outbound_rcpt q).

Definition with_sh_queue (q : QueueStore) (s : Race) : Race := mkRace q (sh_blobs s) (senders s) (wiping s).
Definition with_sh_blobs (b : BlobStore) (s : Race) : Race := mkRace (sh_queue s) b (senders s) (wiping s).

Definition on_claimed (id : Z) (f : QueueStore -> QueueStore) (s : Race) : option Race :=
  if claimed_live id (sh_queue s) then Some (with_sh_queue (f (sh_queue s)) s) else None.

(** [None]: the event cannot happen now. *)
Definition race_step (s : Race) (e : event) : option Race :=
  let q := sh_queue s in
  match e with
  | Prepares key new now =>
      let '(r, b) := prepare key new now (sh_blobs s) in
      Some (mkRace q b (match r with Ok hash => senders s ++ [(new, hash)] | Err _ => senders s end) (wiping s))
  | Commits i now =>
      '(new, hash) ← senders s !! i;
      Some (mkRace (commit new hash now q).2 (sh_blobs s) (delete i (senders s)) (wiping s))
  | Counts id =>
      outbound ← load_outbound id q;
      let hash := ow_message_blob outbound in
      Some (mkRace q (sh_blobs s) (senders s)
              (if no_active_reference hash q then wiping s ++ [hash] else wiping s))
  | Wipes i =>
      hash ← wiping s !! i;
      Some (mkRace q (wipe hash (sh_blobs s)) (senders s) (delete i (wiping s)))
  | Writes bytes => Some (with_sh_blobs (write (sh_blobs s) bytes).2 s)
  | Claims now limit => Some (with_sh_queue (claim_batch now limit q).2 s)
  | Reaps now => Some (with_sh_queue (reap_stale_claims now q) s)
  | Expires now => Some (with_sh_queue (expire_overdue now q) s)
  | Settles id st next inc code status detail =>
      on_claimed id (update_rcpts (fun r => (r_id r =? id)%Z) (commit_row st next inc code status detail)) s
  | Marks id => on_claimed id (mark_delayed_dsn_sent id) s
  | Releases rcpt => on_claimed (c_id rcpt) (release_to_ready [rcpt]) s
  end.

Definition race (s : Race) (es : list event) : option Race :=
  foldl (fun o e => s ← o; race_step s e) (Some s) es.

(** No text is prepared while it is being wiped, or counted while a sender of
    it is between its halves. *)
Definition exclusive_event (s : Race) (e : event) : bool :=
  match e with
  | Prepares key new now =>
      match (prepare key new now (sh_blobs s)).1 with
      | Ok hash => negb (existsb (str_eqb hash) (wiping s))
      | Err _ => true
      end
  | Counts id =>
      match load_outbound id (sh_queue s) with
      | Some outbound => negb (existsb (str_eqb (ow_message_blob outbound)) (senders s).*2)
      | None => true
      end
  | _ => true
  end.

Fixpoint exclusive (s : Race) (es : list event) : bool :=
  match es with
  | [] => true
  | e :: es => exclusive_event s e && match race_step s e with Some s' => exclusive s' es | None => true end
  end.

(** Every message sent is a new text: no message of the queue and no other
    sender has its blob. *)
Definition new_text (s : Race) (e : event) : bool :=
  match e with
  | Prepares key new now =>
      match (prepare key new now (sh_blobs s)).1 with
      | Ok hash => negb (existsb (str_eqb hash) ((message_blob <$> outbound (sh_queue s)) ++ (senders s).*2))
      | Err _ => true
      end
  | _ => true
  end.

Fixpoint new_texts (s : Race) (es : list event) : bool :=
  match es with
  | [] => true
  | e :: es => new_text s e && match race_step s e with Some s' => new_texts s' es | None => true end
  end.

(** ** What the halves and the worker's statements keep *)

(** Some recipient that is not settled waits for this blob. *)
Definition awaited (q : QueueStore) (hash : str) : Prop := exists r o,
  (r, o) ∈ rcpt_join q /\ terminal r = false /\ message_blob o = hash.

Definition readable (b : BlobStore) (hash : str) : Prop := exists c, read b hash = Ok c.

Lemma retained_awaited q b : retained q b <-> forall hash, awaited q hash -> readable b hash.
Proof.
  split.
  - intros Hr hash (r & o & Hj & Ht & <-). by apply (Hr r o).
  - intros Ha r o Hj Ht. apply Ha. by exists r, o.
Qed.

Lemma not_active hash q : no_active_reference hash q = true -> ~ awaited q hash.
Proof.
  unfold no_active_reference. intros E (r & o & Hj & Ht & Eh). bool_facts.
  pose proof (proj1 (sql_count_zero _ _) E (r, o) Hj) as Hz. unfold active_reference in Hz. cbn [fst snd] in Hz.
  rewrite state_in_terminal, Ht, Eh in Hz. unfold str_eqb in Hz. by rewrite bool_decide_eq_true_2 in Hz.
Qed.

Lemma existsb_str_eqb hash l : existsb (str_eqb hash) l = true <-> hash ∈ l.
Proof.
  rewrite existsb_exists. split.
  - intros (x & Hx & E). unfold str_eqb in E. bool_facts. subst x. by apply list_elem_of_In.
  - intros Hx. exists hash. split; [by apply list_elem_of_In|]. unfold str_eqb. by apply bool_decide_eq_true.
Qed.

(** The queue's own invariant, and that a change makes no new blob awaited. *)
Definition queue_ok (q : QueueStore) : Prop := queue_inv q /\ rate_ok q.
Definition only_settles (q q' : QueueStore) : Prop :=
  outbound q' = outbound q /\ (forall hash, awaited q' hash -> awaited q hash) /\ (queue_ok q -> queue_ok q').

Lemma update_only_settles p f q :
  row_op f -> (forall r, r ∈ outbound_rcpt q -> p r = true -> terminal r = false) ->
  only_settles q (update_rcpts p f q).
Proof.
  intros Hf Hl. split; [done|]. split.
  - intros hash (r & o & Hj & Ht & Eh). rewrite rcpt_join_update in Hj by done.
    apply list_elem_of_fmap in Hj as ([r0 o0] & [= -> ->] & Hj). cbn [fst snd] in *.
    exists r0, o0. split_and!; [done| |done]. apply elem_of_rcpt_join in Hj as (Hr0 & _).
    destruct (p r0) eqn:Ep; [by apply Hl|done].
  - intros [Hi Hr]. split; [by apply update_rcpts_inv|by apply update_rcpts_rate].
Qed.

Lemma claimed_live_spec id q r :
  claimed_live id q = true -> r ∈ outbound_rcpt q -> (r_id r =? id)%Z = true -> terminal r = false.
Proof.
  unfold claimed_live. rewrite forallb_forall. intros Hl Hr E. apply list_elem_of_In in Hr.
  specialize (Hl r Hr). rewrite E in Hl. cbn [negb orb] in Hl. by apply negb_true_iff.
Qed.

Lemma on_claimed_only_settles id f s s' :
  row_op f -> on_claimed id (update_rcpts (fun r => (r_id r =? id)%Z) f) s = Some s' ->
  exists q, s' = with_sh_queue q s /\ only_settles (sh_queue s) q.
Proof.
  intros Hf. unfold on_claimed. destruct (claimed_live id _) eqn:El; [|done]. intros [= <-].
  eexists. split; [done|]. apply update_only_settles; [done|]. intros r. by apply claimed_live_spec.
Qed.

Lemma commit_cases new hash now q : queue_ok q ->
  queue_ok (commit new hash now q).2 /\
  ((commit new hash now q).2 = q \/
   outbound (commit new hash now q).2 = outbound q ++ [outbound_row new now hash q] /\
   forall h, awaited (commit new hash now q).2 h -> awaited q h \/ h = hash).
Proof.
  intros [Hi Hr]. unfold commit. destruct (rate_limit new now q) as [u|e] eqn:El; [|by split; [|left]].
  assert (Hw : within_limits new now q) by by apply rate_limit_spec; rewrite El.
  destruct (insert_outbound new hash now q) as [id q1] eqn:E1.
  assert (Er : outbound_rcpt q1 = outbound_rcpt q) by (cbn in E1; injection E1; by intros <- <-).
  destruct (insert_rcpts_spec id now (recipients new) q1) as (ids & Hl & Hf & E).
  { rewrite Er. apply (qi_rcpt_ids q Hi). }
  cbn [snd]. rewrite E. clear E. rewrite Er in Hf |- *.
  replace (with_rcpts _ q1) with (enqueued new now hash ids q) by (unfold enqueued; by rewrite E1).
  split; [split; [by apply enqueued_inv|by apply enqueued_rate_ok]|]. right. split; [done|].
  intros h (r & o & Hj & Ht & <-). rewrite rcpt_join_enqueued in Hj by done.
  apply elem_of_app in Hj as [Hj|(r' & [= -> ->] & _)%list_elem_of_fmap]; [left; by exists r, o|by right].
Qed.

Lemma prepare_cases key new now b :
  (exists text, prepare key new now b = (Ok (hash_hex text), (write b text).2)) \/
  (exists e, prepare key new now b = (Err e, b)).
Proof.
  unfold prepare. destruct (negb _); [right; by eexists|]. destruct (sign _ _ _) as [h|e]; [|right; by eexists].
  left. exists (h ++ raw_message new). by destruct (write_ok b (h ++ raw_message new)) as [b' ->].
Qed.

Lemma claim_only_settles now limit q : queue_inv q -> only_settles q (claim_batch now limit q).2.
Proof.
  intros Hi. apply update_only_settles; [apply claim_row_op|]. intros r Hr Hid.
  assert (Hc := due_ids_claimable now limit q r Hi Hr (proj1 (id_in_spec _ _) Hid)).
  unfold claimable in Hc. apply andb_true_iff in Hc as [Hc _]. by apply state_in_waiting.
Qed.

Lemma reap_only_settles now q : only_settles q (reap_stale_claims now q).
Proof.
  apply update_only_settles; [apply release_row_op|]. intros r _ Hs.
  unfold stale in Hs. apply andb_true_iff in Hs as [Hs _]. by apply state_in_claimed.
Qed.

Lemma expire_only_settles now q : only_settles q (expire_overdue now q).
Proof.
  apply update_only_settles; [apply set_state_op|]. intros r _ Ho.
  unfold overdue in Ho. apply andb_true_iff in Ho as [Ho _]. by apply state_in_waiting.
Qed.

(** The worker's statements on the recipients. *)
Definition worker_event (e : event) : bool :=
  match e with Claims _ _ | Reaps _ | Expires _ | Settles _ _ _ _ _ _ _ | Marks _ | Releases _ => true | _ => false end.

Lemma worker_event_settles s e s' : queue_inv (sh_queue s) ->
  worker_event e = true -> race_step s e = Some s' ->
  exists q, s' = with_sh_queue q s /\ only_settles (sh_queue s) q.
Proof.
  intros Hi. destruct e as [| | | | |now limit|now|now|id st next inc code status detail|id|rcpt]; try done;
    intros _; cbn [race_step].
  - intros [= <-]. eexists. split; [done|]. by apply claim_only_settles.
  - intros [= <-]. eexists. split; [done|]. apply reap_only_settles.
  - intros [= <-]. eexists. split; [done|]. apply expire_only_settles.
  - apply on_claimed_only_settles, commit_row_op.
  - apply on_claimed_only_settles. by intros r.
  - apply on_claimed_only_settles, release_row_op.
Qed.

(** ** The invariant *)
Record race_inv (s : Race) : Prop := {
  ri_queue : queue_ok (sh_queue s);
  ri_intact : intact (sh_blobs s);
  ri_awaited hash : awaited (sh_queue s) hash -> readable (sh_blobs s) hash;
  ri_senders hash : hash ∈ (senders s).*2 -> readable (sh_blobs s) hash;
  ri_wiping hash : hash ∈ wiping s -> ~ awaited (sh_queue s) hash /\ hash ∉ (senders s).*2
}.

Lemma write_inv s text : race_inv s -> race_inv (with_sh_blobs (write (sh_blobs s) text).2 s).
Proof.
  intros [Hq Hb Ha Hs Hw].
  assert (Hk : forall h, readable (sh_blobs s) h -> readable (write (sh_blobs s) text).2 h).
  { intros h [c Hc]. exists c. by apply write_keeps. }
  split; cbn; [done|by apply write_intact|auto|auto|done].
Qed.

Lemma elem_of_delete {A} (l : list A) i x : x ∈ delete i l -> x ∈ l.
Proof.
  rewrite delete_take_drop, elem_of_app. intros [Hx|Hx].
  - by apply (subseteq_take i).
  - by apply (subseteq_drop (S i)).
Qed.

Lemma elem_of_delete_snd (l : list Sender) i h : h ∈ (delete i l).*2 -> h ∈ l.*2.
Proof. intros (x & -> & Hx)%list_elem_of_fmap. apply list_elem_of_fmap_2. by eapply elem_of_delete. Qed.

Lemma sender_step_inv s e s' :
  race_inv s -> worker_event e = false -> exclusive_event s e = true -> race_step s e = Some s' -> race_inv s'.
Proof.
  intros Hi He. destruct e as [key new now|i now|id|i|bytes| | | | | |]; try done; cbn [exclusive_event race_step].
  - destruct (prepare_cases key new now (sh_blobs s)) as [[text E]|[e E]]; rewrite E; cbn [fst].
    + intros Hx [= <-]. pose proof (write_readable (sh_blobs s) text (ri_intact s Hi)) as Hr.
      destruct (write_inv s text Hi) as [Hq Hb Ha Hs Hw]. cbn in *.
      split; cbn; [done|done|done| |]; rewrite fmap_app.
      * intros h [Hh|Hh]%elem_of_app; [by apply Hs|]. cbn in Hh. by apply list_elem_of_singleton in Hh as ->.
      * intros h Hh. destruct (Hw h Hh) as [Hna Hns]. split; [done|].
        intros [Hh'|Hh']%elem_of_app; [done|]. cbn in Hh'. apply list_elem_of_singleton in Hh' as ->.
        apply negb_true_iff in Hx. by rewrite (proj2 (existsb_str_eqb _ _) Hh) in Hx.
    + intros _ [= <-]. by destruct s.
  - intros _. destruct (senders s !! i) as [[new hash]|] eqn:E; cbn; [|done]. intros [= <-].
    apply list_elem_of_lookup_2 in E. assert (Hin : hash ∈ (senders s).*2) by (by apply (list_elem_of_fmap_2 snd) in E).
    destruct Hi as [Hq Hb Ha Hs Hw]. destruct (commit_cases new hash now (sh_queue s) Hq) as [Hq' Hc].
    split; cbn; [done|done| |intros h Hh; apply Hs; by eapply elem_of_delete_snd|].
    + intros h Hh. destruct Hc as [E'|[_ Hc]]; [rewrite E' in Hh; by apply Ha|].
      destruct (Hc h Hh) as [?| ->]; [by apply Ha|by apply Hs].
    + intros h Hh. destruct (Hw h Hh) as [Hna Hns]. split; [|intros ?; by apply Hns; eapply elem_of_delete_snd].
      destruct Hc as [-> |[_ Hc]]; [done|]. intros Hh'. destruct (Hc h Hh') as [?| ->]; [by apply Hna|by apply Hns].
  - destruct (load_outbound id (sh_queue s)) as [o|]; cbn; [|done]. intros Hx [= <-].
    destruct Hi as [Hq Hb Ha Hs Hw]. split; cbn; try done.
    destruct (no_active_reference _ _) eqn:E; [|done]. intros h [Hh|Hh]%elem_of_app; [by apply Hw|].
    apply list_elem_of_singleton in Hh as ->. split; [by apply not_active|].
    intros Hin. apply negb_true_iff in Hx. by rewrite (proj2 (existsb_str_eqb _ _) Hin) in Hx.
  - intros _. destruct (wiping s !! i) as [hash|] eqn:E; cbn; [|done]. intros [= <-].
    apply list_elem_of_lookup_2 in E. destruct Hi as [Hq Hb Ha Hs Hw]. destruct (Hw hash E) as [Hna Hns].
    assert (Hk : forall h, h <> hash -> readable (sh_blobs s) h -> readable (wipe hash (sh_blobs s)) h).
    { intros h Hne [c Hc]. exists c. unfold wipe. by rewrite remove_read. }
    split; cbn; [done|by apply remove_intact| | |].
    + intros h Hh. apply Hk; [by intros ->|by apply Ha].
    + intros h Hh. apply Hk; [by intros ->|by apply Hs].
    + intros h Hh. apply Hw. by eapply elem_of_delete.
  - intros _ [= <-]. by apply write_inv.
Qed.

Lemma race_step_inv s e s' :
  race_inv s -> exclusive_event s e = true -> race_step s e = Some s' -> race_inv s'.
Proof.
  intros Hi Hx E. destruct (worker_event e) eqn:He; [|by eapply sender_step_inv].
  destruct Hi as [Hq Hb Ha Hs Hw]. destruct (worker_event_settles s e s' (proj1 Hq) He E) as (q & -> & _ & Hsub & Hk).
  split; cbn; [by apply Hk|done|auto|done|]. intros h Hh. destruct (Hw h Hh). auto.
Qed.

(** The limits need no exclusion: each half under the lock is atomic. *)
Lemma race_step_queue s e s' : queue_ok (sh_queue s) -> race_step s e = Some s' -> queue_ok (sh_queue s').
Proof.
  intros Hq E. destruct (worker_event e) eqn:He.
  { destruct (worker_event_settles s e s' (proj1 Hq) He E) as (q & -> & _ & _ & Hk). by apply Hk. }
  destruct e as [key new now|i now|id|i|bytes| | | | | |]; try done; cbn [race_step] in E.
  - destruct (prepare key new now (sh_blobs s)) as [r b]. by injection E as <-.
  - destruct (senders s !! i) as [[new hash]|]; cbn in E; [|done]. injection E as <-. by apply commit_cases.
  - destruct (load_outbound id (sh_queue s)); cbn in E; [|done]. by injection E as <-.
  - destruct (wiping s !! i); cbn in E; [|done]. by injection E as <-.
  - by injection E as <-.
Qed.

Lemma race_cons s e es : race s (e :: es) = s' ← race_step s e; race s' es.
Proof.
  unfold race. cbn [foldl mbind option_bind]. destruct (race_step s e) as [s'|]; cbn; [done|].
  induction es as [|e' es IH]; [done|]. cbn [foldl]. exact IH.
Qed.

Lemma race_keeps s es s' : race_inv s -> exclusive s es = true -> race s es = Some s' -> race_inv s'.
Proof.
  revert s. induction es as [|e es IH]; intros s Hi; [by intros _ [= <-]|].
  rewrite race_cons. cbn [exclusive]. intros [Hx Hxs]%andb_true_iff.
  destruct (race_step s e) as [s1|] eqn:E; cbn; [|done]. apply IH; [by eapply race_step_inv|done].
Qed.

Lemma race_queue s es s' : queue_ok (sh_queue s) -> race s es = Some s' -> queue_ok (sh_queue s').
Proof.
  revert s. induction es as [|e es IH]; intros s Hq; [by intros [= <-]|].
  rewrite race_cons. destruct (race_step s e) as [s1|] eqn:E; cbn; [|done].
  apply IH. by eapply race_step_queue.
Qed.

(** ** New texts are exclusive *)

(** What is wiped is a message's; what is being sent is no message's yet. *)
Record texts_inv (s : Race) : Prop := {
  ti_wiping hash : hash ∈ wiping s -> hash ∈ message_blob <$> outbound (sh_queue s);
  ti_senders hash : hash ∈ (senders s).*2 -> hash ∉ message_blob <$> outbound (sh_queue s);
  ti_distinct : NoDup (senders s).*2
}.

Lemma load_outbound_listed id q o : load_outbound id q = Some o -> ow_message_blob o ∈ message_blob <$> outbound q.
Proof.
  unfold load_outbound. destruct (sql_find _ _) as [m|] eqn:E; [|done]. intros [= <-]. cbn.
  apply list_elem_of_fmap_2. unfold sql_find in E. apply find_some in E as [E _]. by apply list_elem_of_In.
Qed.

Lemma new_text_exclusive s e : texts_inv s -> new_text s e = true -> exclusive_event s e = true.
Proof.
  intros [Hw Hs _]. destruct e as [key new now| |id| | | | | | | |]; try done; cbn [new_text exclusive_event].
  - destruct (prepare _ _ _ _).1 as [hash|]; [|done]. intros Hn. apply negb_true_iff in Hn.
    apply negb_true_iff, not_true_iff_false. intros Hx. apply not_true_iff_false in Hn. apply Hn.
    apply existsb_str_eqb, elem_of_app. left. by apply Hw, existsb_str_eqb.
  - intros _. destruct (load_outbound id (sh_queue s)) as [o|] eqn:E; [|done].
    apply negb_true_iff, not_true_iff_false. intros Hx. apply (Hs (ow_message_blob o)); [by apply existsb_str_eqb|].
    by eapply load_outbound_listed.
Qed.

Lemma texts_commit new hash now i s :
  queue_ok (sh_queue s) -> senders s !! i = Some (new, hash) -> texts_inv s ->
  texts_inv (mkRace (commit new hash now (sh_queue s)).2 (sh_blobs s) (delete i (senders s)) (wiping s)).
Proof.
  intros Hq Ei [Hw Hs Hd]. destruct (commit_cases new hash now (sh_queue s) Hq) as [_ Hc].
  assert (Eo : forall h, h ∈ message_blob <$> outbound (sh_queue s) ->
    h ∈ message_blob <$> outbound (commit new hash now (sh_queue s)).2).
  { destruct Hc as [-> |[-> _]]; [done|]. intros h Hh. rewrite fmap_app, elem_of_app. by left. }
  assert (Hsplit := take_drop_middle (senders s) i (new, hash) Ei).
  rewrite <- Hsplit in Hd. rewrite fmap_app in Hd. cbn [fmap list_fmap snd] in Hd.
  apply NoDup_app in Hd as (N1 & N2 & N3). apply NoDup_cons in N3 as [N3 N4].
  split; cbn [sh_queue senders wiping].
  - intros h Hh. by apply Eo, Hw.
  - intros h Hh Hin. assert (Hold := elem_of_delete_snd _ _ _ Hh).
    destruct Hc as [E|[E _]]; rewrite E in Hin; [by apply (Hs h)|].
    rewrite fmap_app in Hin. apply elem_of_app in Hin as [Hin|Hin]; [by apply (Hs h)|].
    cbn in Hin. apply list_elem_of_singleton in Hin as ->.
    rewrite delete_take_drop, fmap_app in Hh. apply elem_of_app in Hh as [Hh|Hh]; [|done].
    apply (N2 hash Hh). by left.
  - rewrite delete_take_drop, fmap_app. apply NoDup_app. split_and!; [done| |done].
    intros h Hh Hh'. apply (N2 h Hh). by right.
Qed.

Lemma texts_step s e s' :
  queue_ok (sh_queue s) -> texts_inv s -> new_text s e = true -> race_step s e = Some s' -> texts_inv s'.
Proof.
  intros Hq Hi Hn E. destruct (worker_event e) eqn:He.
  { destruct (worker_event_settles s e s' (proj1 Hq) He E) as (q & -> & Eo & _ & _).
    destruct Hi as [Hw Hs Hd]. split; cbn; rewrite ?Eo; done. }
  destruct e as [key new now|i now|id|i|bytes| | | | | |]; try done; cbn [race_step new_text] in *.
  - destruct (prepare key new now (sh_blobs s)) as [[hash|e] b]; injection E as <-; [|by destruct Hi].
    cbn [fst] in Hn. apply negb_true_iff in Hn.
    assert (Hnew : hash ∉ (message_blob <$> outbound (sh_queue s)) ++ (senders s).*2)
      by (intros Hx%existsb_str_eqb; congruence).
    rewrite elem_of_app in Hnew. destruct Hi as [Hw Hs Hd].
    split; cbn [sh_queue senders wiping]; [done| |]; rewrite fmap_app; cbn [fmap list_fmap snd].
    + intros h [Hh|Hh]%elem_of_app; [by apply Hs|]. apply list_elem_of_singleton in Hh as ->. tauto.
    + apply NoDup_snoc; [done|tauto].
  - destruct (senders s !! i) as [[new hash]|] eqn:Ei; cbn in E; [|done]. injection E as <-. by apply texts_commit.
  - destruct (load_outbound id (sh_queue s)) as [o|] eqn:El; cbn in E; [|done]. injection E as <-.
    destruct Hi as [Hw Hs Hd]. split; cbn; [|done|done]. destruct (no_active_reference _ _); [|done].
    intros h [Hh|Hh]%elem_of_app; [by apply Hw|]. apply list_elem_of_singleton in Hh as ->.
    by eapply load_outbound_listed.
  - destruct (wiping s !! i); cbn in E; [|done]. injection E as <-. destruct Hi as [Hw Hs Hd].
    split; cbn; [|done|done]. intros h Hh. apply Hw. by eapply elem_of_delete.
  - injection E as <-. by destruct Hi.
Qed.

Lemma new_texts_exclusive s es :
  queue_ok (sh_queue s) -> texts_inv s -> new_texts s es = true -> exclusive s es = true.
Proof.
  revert s. induction es as [|e es IH]; intros s Hq Hi; [done|]. cbn [new_texts exclusive].
  intros [Hn Hns]%andb_true_iff. rewrite new_text_exclusive by done. cbn [andb].
  destruct (race_step s e) as [s'|] eqn:E; [|done].
  apply IH; [by eapply race_step_queue|by eapply texts_step|done].
Qed.

(** ** Properties *)

(** C31.  No message is lost between the locks: from any state where
    no sender and no clean-up is half done, in every interleaving of senders'
    halves, of the halves of the worker's clean-ups and of its statements, the
    hourly limits hold throughout; and every recipient that is not settled
    can have its message read from the disk, when no sender of a text overlaps
    a clean-up of that very text, in particular when every message sent is a
    new text. *)
Theorem interleaved_senders_keep_mail (q : QueueStore) (b : BlobStore) (es : list event) (s : Race) :
  queue_inv q -> rate_ok q -> intact b -> retained q b ->
  race (mkRace q b [] []) es = Some s ->
  rate_ok (sh_queue s) /\
  (exclusive (mkRace q b [] []) es = true -> retained (sh_queue s) (sh_blobs s)) /\
  (new_texts (mkRace q b [] []) es = true -> retained (sh_queue s) (sh_blobs s)).
Proof.
  intros Hq Hr Hb Hk E. set (s0 := mkRace q b [] []) in *.
  assert (Hok : queue_ok (sh_queue s0)) by done.
  assert (Hi : race_inv s0).
  { split; cbn; [done|done|by apply retained_awaited|by intros h ?%elem_of_nil|by intros h ?%elem_of_nil]. }
  assert (Hx : exclusive s0 es = true -> retained (sh_queue s) (sh_blobs s)).
  { intros Hx. apply retained_awaited. apply (ri_awaited s (race_keeps s0 es s Hi Hx E)). }
  split_and!; [by apply (race_queue s0 es s)|done|]. intros Hn. apply Hx, new_texts_exclusive; [done| |done].
  split; cbn; [by intros h ?%elem_of_nil|by intros h ?%elem_of_nil|apply NoDup_nil_2].
Qed.

End Races.

(** ** One interleaving, computed *)
#[local] Existing Instance toy_BlobHash.
#[local] Existing Instance toy_signer.
#[local] Existing Instance as_listed.

Definition at_rest : Race := mkRace empty_queue ∅ [] [].
Definition note : NewOutbound :=
  mkNewOutbound 1 (# "alice@example.com") (# "Hello") [ # "bob@example.net"] false None None.

(** A message is delivered; while the worker is between the count and the
    removal, the same text is sent once more. *)
Definition resent : list event :=
  [Prepares wit_key note 1000; Commits 0 1000; Claims 1000 100;
   Settles 1 Delivered 1000 0 None None []; Counts 1;
   Prepares wit_key note 1000; Wipes 0; Commits 0 1000].

(** The same, when the second sender comes after the removal. *)
Definition resent_later : list event :=
  [Prepares wit_key note 1000; Commits 0 1000; Claims 1000 100;
   Settles 1 Delivered 1000 0 None None []; Counts 1;
   Wipes 0; Prepares wit_key note 1000; Commits 0 1000].

Definition waiting_for (s : Race) (id : Z) : option (str * Result str) :=
  r ← sql_find (fun r => (r_id r =? id)%Z) (outbound_rcpt (sh_queue s));
  o ← get_outbound (sh_queue s) (outbound_id r);
  Some (state r, read (sh_blobs s) (message_blob o)).

(** The overlap loses the second message: its recipient waits for a blob that
    was removed, although both senders were told it was accepted. *)
Theorem resent_text_is_lost :
  (s ← race at_rest resent; waiting_for s 2) = Some (# "ready", Err (Io (# "not found"))) /\
  exclusive at_rest resent = false.
Proof. split; vm_compute; reflexivity. Qed.

Lemma resent_later_waits :
  (s ← race at_rest resent_later; waiting_for s 2)
    = Some (# "ready", Ok (# "DKIM-Signature: d=example.com; s=litterae" ++ crlf ++ # "Hello")).
Proof. vm_compute. reflexivity. Qed.

Lemma interleaved_senders_keep_mail_witness : exists s, race at_rest resent_later = Some s /\
  retained (sh_queue s) (sh_blobs s) /\
  waiting_for s 2 = Some (# "ready", Ok (# "DKIM-Signature: d=example.com; s=litterae" ++ crlf ++ # "Hello")).
Proof.
  pose proof resent_later_waits as Hw. destruct (race at_rest resent_later) as [s|] eqn:E; [|discriminate Hw].
  exists s. split; [reflexivity|]. split; [|exact Hw].
  refine (proj1 (proj2 (interleaved_senders_keep_mail empty_queue ∅ resent_later s empty_queue_inv _ _ _ E)) _).
  - apply (wi_rates _ (start_inv empty_auth empty_audit Metadata.empty_store)).
  - apply (wi_intact _ (start_inv empty_auth empty_audit Metadata.empty_store)).
  - apply (wi_retained _ (start_inv empty_auth empty_audit Metadata.empty_store)).
  - vm_compute. reflexivity.
Defined.
