(* ===== verification/MailKept.v ===== *)
(** * MailKept: a filed message stays

    What every component that writes to the mail store does to one message
    that is there already: nothing.  Deliveries, submissions, the worker's
    passes and the JMAP methods keep its row and its blob, so that the key
    that opened it still does; only its owner's Email/set can destroy it. *)

From stdpp Require Import base list strings gmap sorting.
From Stdlib Require Import Ascii ZArith Lia.
From S2P Require Import Prelude RustStr Input Header Limits Wire Scan Store Sealing Auth AdminStore AuditLog Delivery SmtpIn Backoff Queue Dane Worker QueueSystem.
Import Store.Blob Store.Metadata.

(** ** The message *)

(** A message's row, by what opens it, and its sealed bytes. *)
Record Target : Type := mkTarget {
  tg_id : Z; tg_account : Z; tg_hash : str; tg_wrap : str; tg_sealed : str
}.

Definition is_target (t : Target) (m : StoredMessage) : Prop :=
  m_id m = tg_id t /\ account_id (m_row m) = tg_account t /\ blob_hash (m_row m) = tg_hash t /\ dek_wrap (m_row m) = tg_wrap t.

Section Kept.
Context `{Primitives} `{BlobHash} `{SqlAny}.

(** The row is there, it alone has its blob, and the blob reads as sealed. *)
Record mail_kept (t : Target) (s : MailStore) : Prop := {
  mk_ids : NoDup (m_id <$> messages (metadata s));
  mk_row : exists m, m ∈ messages (metadata s) /\ is_target t m;
  mk_alone : forall m, m ∈ messages (metadata s) -> blob_hash (m_row m) = tg_hash t -> m_id m = tg_id t;
  mk_read : read (blobs s) (tg_hash t) = Ok (tg_sealed t)
}.

(** Sealing with these draws never gives the target's blob again. *)
Definition avoids (t : Target) (rnd : DeliverRand) : Prop :=
  forall raw, hash_hex (aead_seal (dr_nonce rnd) (dr_dek rnd) 1 raw) <> tg_hash t.

(** ** Operations on the tables *)

(** Row updates that leave alone what opens a message. *)
Definition seal_op (f : NewMessage -> NewMessage) : Prop := forall r,
  account_id (f r) = account_id r /\ blob_hash (f r) = blob_hash r /\ dek_wrap (f r) = dek_wrap r.

Lemma set_mailbox_op mb : seal_op (set_mailbox mb).
Proof. by intros r. Qed.

Lemma set_keywords_op k : seal_op (set_keywords k).
Proof. by intros r. Qed.

Lemma mk_messages t s m : messages m = messages (metadata s) -> mail_kept t s -> mail_kept t (mkMailStore (blobs s) m).
Proof. intros E [K1 H2 K3 K4]. split; cbn [metadata blobs]; rewrite ?E; done. Qed.

Lemma mk_update_row t s f id m :
  seal_op f -> messages m = update_row f id (messages (metadata s)) -> mail_kept t s -> mail_kept t (mkMailStore (blobs s) m).
Proof.
  intros Hf E [K1 (r & Hr & Ht) K3 K4]. split; cbn [metadata blobs]; rewrite ?E; [| | |done].
  - unfold update_row. by rewrite sql_update_key.
  - exists (if (m_id r =? id)%Z then mkStored (m_id r) (f (m_row r)) else r). split.
    + apply elem_of_sql_update. by exists r.
    + destruct (_ =? _)%Z; [|done]. destruct Ht as (E1 & E2 & E3 & E4), (Hf (m_row r)) as (F1 & F2 & F3).
      unfold is_target. cbn. split_and!; congruence.
  - intros m' (r' & Hr' & ->)%elem_of_sql_update Hh. destruct (_ =? _)%Z; [|by apply K3].
    cbn in *. destruct (Hf (m_row r')) as (_ & F & _). apply K3; [done|congruence].
Qed.

Lemma mk_update_message t s id mailbox kw :
  mail_kept t s -> mail_kept t (mkMailStore (blobs s) (update_message (metadata s) id mailbox kw)).
Proof.
  intros Hs. unfold update_message. cbv zeta.
  assert (Hm : mail_kept t (mkMailStore (blobs s) (match mailbox with
    | Some mb => with_messages (update_row (set_mailbox mb) id (messages (metadata s))) (metadata s)
    | None => metadata s end))).
  { destruct mailbox as [mb|]; [by apply (mk_update_row t s (set_mailbox mb) id)|by apply mk_messages]. }
  destruct kw as [k|]; [|exact Hm].
  exact (mk_update_row t _ _ id (with_messages _ _) (set_keywords_op k) eq_refl Hm).
Qed.

Lemma mk_insert t s b m row :
  read b (tg_hash t) = Ok (tg_sealed t) -> messages m = messages (metadata s) -> blob_hash row <> tg_hash t ->
  mail_kept t s -> mail_kept t (mkMailStore b (insert_message m row).2).
Proof.
  intros Hb E Hne [K1 (r & Hr & Ht) K3 K4]. split; cbn [metadata blobs insert_message snd with_messages messages]; rewrite ?E; [| | |done].
  - rewrite fmap_app. apply NoDup_snoc; [done|apply next_rowid_fresh].
  - exists r. split; [|done]. apply elem_of_app. by left.
  - intros m' [Hm'|Hm'%list_elem_of_singleton]%elem_of_app Hh; [by apply K3|]. subst m'. cbn in Hh. done.
Qed.

Lemma mk_delete t s id : id <> tg_id t -> mail_kept t s -> mail_kept t (mkMailStore (blobs s) (delete_message (metadata s) id)).
Proof.
  intros Hne [K1 (r & Hr & Ht) K3 K4]. split; cbn [metadata blobs delete_message with_messages messages]; [| | |done].
  - by apply NoDup_fmap_filter.
  - exists r. split; [|done]. apply elem_of_filter_list. split; [done|]. apply negb_true_iff, Z.eqb_neq.
    destruct Ht as (-> & _). congruence.
  - intros m' [Hm' _]%elem_of_filter_list. by apply K3.
Qed.

Lemma mk_blobs t s b : read b (tg_hash t) = Ok (tg_sealed t) -> mail_kept t s -> mail_kept t (mkMailStore b (metadata s)).
Proof. intros Hb []. by split. Qed.

Lemma mk_write t s x : mail_kept t s -> mail_kept t (mkMailStore (write (blobs s) x).2 (metadata s)).
Proof. intros Hs. apply mk_blobs; [|done]. apply write_keeps, Hs. Qed.

Lemma mk_remove t s h : h <> tg_hash t -> mail_kept t s -> mail_kept t (mkMailStore (remove (blobs s) h).2 (metadata s)).
Proof. intros Hne Hs. apply mk_blobs; [|done]. rewrite remove_read by congruence. apply Hs. Qed.

(** The key that opened the message opens it still. *)
Lemma mk_opens t s s' m sk raw :
  mail_kept t s -> is_target t m -> open_message (blobs s) (m_row m) sk = Done (Ok raw) -> mail_kept t s' ->
  exists m', m' ∈ messages (metadata s') /\ is_target t m' /\ open_message (blobs s') (m_row m') sk = Done (Ok raw).
Proof.
  intros Hs (_ & _ & Eh & Ew) Ho [_ (m' & Hm' & Ht) _ Hr]. exists m'. split_and!; try done.
  destruct Ht as (_ & _ & Eh' & Ew'). unfold open_message, open_blob in *. rewrite Eh, Ew in Ho. rewrite Eh', Ew'.
  rewrite Hr. by rewrite (mk_read _ _ Hs) in Ho.
Qed.

(** ** Delivery *)
Section Delivered.
Context (parse : str -> option ParsedMessage) (to_lowercase : str -> str).

Lemma seal_avoids t rnd b pk key_id raw hash wrap b' :
  avoids t rnd -> seal_for_account rnd b pk key_id raw = (Ok (hash, wrap), b') -> hash <> tg_hash t.
Proof.
  intros Ha. unfold seal_for_account. destruct (write_ok b (aead_seal (dr_nonce rnd) (dr_dek rnd) 1 raw)) as [b1 ->].
  destruct (as_crypto_error _); [|done]. intros [= <- _ _]. apply Ha.
Qed.

Lemma mk_seal t rnd s pk key_id raw : mail_kept t s ->
  mail_kept t (mkMailStore (seal_for_account rnd (blobs s) pk key_id raw).2 (metadata s)).
Proof. intros Hs. destruct (seal_for_account_blobs rnd (blobs s) pk key_id raw) as [x ->]. by apply mk_write. Qed.

(** The changes of the tables that leave the messages alone. *)
Inductive meta_step : MetadataStore -> MetadataStore -> Prop :=
| meta_ensure m account role : meta_step m (ensure_mailbox m account role).2
| meta_thread m tm : meta_step m (find_or_create_thread m tm).2
| meta_other m m' : mailboxes m' = mailboxes m -> threads m' = threads m -> messages m' = messages m -> meta_step m m'.

Lemma meta_step_messages m m' : meta_step m m' -> messages m' = messages m.
Proof. destruct 1; [apply ensure_mailbox_messages|apply find_or_create_thread_messages|done]. Qed.

(** A property of the mail store that the writes of a delivery keep: sealing
    with [fresh_rand] draws, and rows under [okhash] names in a thread that
    [fits] their account. *)
Record kept_by_delivery (fresh_rand : DeliverRand -> Prop) (okhash : str -> Prop) (fits : MetadataStore -> Z -> Z -> Prop)
    (K : MailStore -> Prop) : Prop := {
  kd_metadata s m : meta_step (metadata s) m -> K s -> K (mkMailStore (blobs s) m);
  kd_thread s tm : K s -> let '(th, m) := find_or_create_thread (metadata s) tm in fits m (tm_account tm) th;
  kd_fits m m' account th : meta_step m m' -> fits m account th -> fits m' account th;
  kd_fits_insert m row account th : fits m account th -> fits (insert_message m row).2 account th;
  kd_insert s row : okhash (blob_hash row) -> fits (metadata s) (account_id row) (thread_id row) -> K s ->
    K (mkMailStore (blobs s) (insert_message (metadata s) row).2);
  kd_seal s rnd pub key_id raw : fresh_rand rnd -> K s ->
    K (mkMailStore (seal_for_account rnd (blobs s) pub key_id raw).2 (metadata s));
  kd_sealed b rnd pub key_id raw hash wrap b' : fresh_rand rnd ->
    seal_for_account rnd b pub key_id raw = (Ok (hash, wrap), b') -> okhash hash
}.

(** Any thread fits. *)
Definition any_thread (_ : MetadataStore) (_ _ : Z) : Prop := True.

Lemma mail_kept_by_delivery t : kept_by_delivery (avoids t) (fun h => h <> tg_hash t) any_thread (mail_kept t).
Proof.
  split; [|by intros; case_match|done|done|..].
  - intros s m Hm. by apply mk_messages, meta_step_messages.
  - intros s row Hh _ Hs. apply (mk_insert t s); [apply Hs|done|done|done].
  - intros. by apply mk_seal.
  - intros. by eapply seal_avoids.
Qed.

Lemma deliver_kept fresh_rand okhash fits K rnd account envelope auth raw received spam scan s :
  kept_by_delivery fresh_rand okhash fits K -> fresh_rand rnd -> K s ->
  K (deliver parse to_lowercase rnd account envelope auth raw received spam scan s).2.
Proof.
  intros HK Ha Hs. unfold deliver, mbind, St_bind, st_exec, st_get, st_put.
  destruct (parse raw) as [p|]; [|done]. destruct (subject_hash_of to_lowercase account p) as [subj|]; [|done].
  set (role := match spam with Some _ => _ | None => _ end).
  pose proof (kd_metadata _ _ _ _ HK s _ (meta_ensure (metadata s) (ra_id account) role) Hs) as H1'.
  destruct (ensure_mailbox (metadata s) (ra_id account) role) as [[mb|e] m1]; cbn [snd] in H1'; [|exact H1'].
  set (tm := mkThreadMatch _ _ _). pose proof (kd_metadata _ _ _ _ HK (mkMailStore (blobs s) m1) _ (meta_thread m1 tm) H1') as H2'.
  pose proof (kd_thread _ _ _ _ HK _ tm H1') as Hth. cbn [metadata] in Hth.
  destruct (find_or_create_thread m1 tm) as [th m2]. cbn [snd blobs] in H2'.
  pose proof (kd_seal _ _ _ _ HK _ rnd (ra_account_pub account) (ra_key_id account) raw Ha H2') as Hb.
  pose proof (kd_sealed _ _ _ _ HK (blobs s) rnd (ra_account_pub account) (ra_key_id account) raw) as Hh.
  cbn [blobs metadata] in *.
  destruct (seal_for_account _ _ _ _ _) as [[[hash wrap]|e] b']; cbn [snd] in *; [|exact Hb].
  apply (kd_insert _ _ _ _ HK (mkMailStore b' m2)); [exact (Hh hash wrap b' Ha eq_refl)|exact Hth|exact Hb].
Qed.

(** ** Reception: every command of a session *)
Section Smtp.
Context `{MailAuth}.
Context (fmt1 : f64 -> str) (debug_str : str -> str).
Context (json : str -> result str (RawResponse (F64 := f64))).
Context (deps : Deps) (remote_ip : str).

Lemma smtp_step_kept fresh_rand okhash fits K is_tls s R : holds_when_resolved deps R -> kept_by_delivery fresh_rand okhash fits K ->
  (forall tick n, fresh_rand (deliver_rand deps tick n)) -> env_with R (se_env s) -> K (se_mail s) ->
  let s' := (loop_step parse to_lowercase fmt1 debug_str json deps remote_ip is_tls s).2 in
  env_with R (se_env s') /\ K (se_mail s').
Proof.
  intros HR HK Ha He Hs. apply (keeps_step parse to_lowercase fmt1 debug_str json deps remote_ip R HR K); [|by split].
  intros rcpt env tick n results raw received spam scan m _ Hm. eapply deliver_kept; [apply HK|apply Ha|exact Hm].
Qed.

End Smtp.
(** ** The worker *)

(** A property of the mail store that the worker's own writes keep: deliveries
    with [fresh_rand] draws, and removal of blobs under [gone] names. *)
Record kept_by_worker (fresh_rand : DeliverRand -> Prop) (okhash : str -> Prop) (fits : MetadataStore -> Z -> Z -> Prop)
    (gone : str -> Prop) (K : MailStore -> Prop) : Prop := {
  kw_delivery : kept_by_delivery fresh_rand okhash fits K;
  kw_update s id mailbox kw : K s -> K (mkMailStore (blobs s) (update_message (metadata s) id mailbox kw));
  kw_remove s h : gone h -> K s -> K (mkMailStore (remove (blobs s) h).2 (metadata s))
}.

Lemma mail_kept_by_worker t : kept_by_worker (avoids t) (fun h => h <> tg_hash t) any_thread (fun h => h <> tg_hash t) (mail_kept t).
Proof.
  split.
  - apply mail_kept_by_delivery.
  - intros s id mailbox kw. apply mk_update_message.
  - intros s h. apply mk_remove.
Qed.

Section Worker.
Context `{MailBuilder} `{SendErrorDisplay} `{AnyOrder}.
Context (fresh_rand : DeliverRand -> Prop) (okhash : str -> Prop) (fits : MetadataStore -> Z -> Z -> Prop) (gone : str -> Prop).
Context (K : MailStore -> Prop) (HK : kept_by_worker fresh_rand okhash fits gone K) (hostname : str).

(** The queue's messages and the accounts, which the worker does not change. *)
Context (accounts : AuthStore) (rows : list OutboundMessage) (Hrows : Forall (fun o => gone (message_blob o)) rows).

Definition worker_kept (w : Worker) : Prop := (outbound (queue w) = rows /\ Worker.auth_store w = accounts) /\ K (mail w).

Lemma kept_zoom {T A} (get : Worker -> T) (put : T -> Worker -> Worker) (m : St T A) :
  (forall x w, queue (put x w) = queue w) -> (forall x w, mail (put x w) = mail w) ->
  (forall x w, Worker.auth_store (put x w) = Worker.auth_store w) -> keeps worker_kept (st_zoom get put m).
Proof. intros Hq Hm Ha w [Ho Hk]. unfold st_zoom, worker_kept. destruct (m (get w)) as [r x]. cbn. by rewrite Hq, Hm, Ha. Qed.

Lemma kept_rcpts p f w : worker_kept w -> worker_kept (on_queue (update_rcpts p f) w).
Proof. by intros [Ho Hk]. Qed.

Lemma kept_dsn env rcpt outbound action code status detail :
  fresh_rand (fe_dsn_rand env) ->
  keeps worker_kept (maybe_send_dsn parse to_lowercase hostname env rcpt outbound action code status detail).
Proof.
  intros Ha. unfold maybe_send_dsn.
  repeat first [st_step | by apply keeps_mod; intros w [Ho Hk]; split].
  intros w [Ho Hk]. unfold st_zoom. set (m := deliver _ _ _ _ _ _ _ _ _ _).
  assert (Hd : K (m (mail w)).2) by (eapply deliver_kept; [apply HK|exact Ha|exact Hk]).
  destruct (m (mail w)) as [r x]. by split.
Qed.

Lemma kept_cleanup outbound w : gone (ow_message_blob outbound) ->
  worker_kept w -> worker_kept (cleanup_terminal_message outbound w).
Proof. intros Hne [Ho Hk]. unfold cleanup_terminal_message. destruct (_ =? 0)%Z; split; try done. by apply (kw_remove _ _ _ _ _ HK). Qed.

Lemma kept_finalize env outbound rcpt outcome :
  fresh_rand (fe_dsn_rand env) -> gone (ow_message_blob outbound) ->
  keeps worker_kept (finalize parse to_lowercase hostname env outbound rcpt outcome).
Proof.
  intros Ha Hne. unfold finalize, log_terminal.
  repeat first [st_step | by apply kept_dsn | by apply kept_zoom | apply keeps_mod; intros w; first [apply kept_rcpts | by apply kept_cleanup]].
Qed.

Lemma kept_send_unit net instant env oid d rcpts :
  (forall c, fresh_rand (fe_dsn_rand (env c))) ->
  keeps worker_kept (send_unit parse to_lowercase hostname net instant env oid d rcpts).
Proof.
  intros Ha. unfold send_unit. apply keeps_get. intros w [[Ho _] _]. destruct (load_outbound oid (queue w)) as [o|] eqn:El; [|apply keeps_ret].
  assert (Hne : gone (ow_message_blob o)).
  { unfold load_outbound in El. rewrite Ho in El. destruct (sql_find _ rows) as [x|] eqn:Ex; [|done]. cbn in El. injection El as <-.
    cbn. apply sql_find_some in Ex as [Ex _]. rewrite Forall_forall in Hrows. by apply Hrows. }
  repeat first [st_step | by apply kept_finalize | by apply keeps_mod; intros ? [? ?]; split].
Qed.

Lemma kept_fire_event w ev : worker_kept w -> worker_kept (fire_event w ev).
Proof.
  intros Hw. assert (Hk : forall id kept w, worker_kept w -> worker_kept (set_message_keywords id kept w)).
  { intros id kept w0 [Ho Hk]. split; [done|]. by apply (kw_update _ _ _ _ _ HK). }
  assert (He : forall role w o w', ensure_role (e_account_id ev) role w = (o, w') -> worker_kept w -> worker_kept w').
  { intros role w0 o w' E0 [Ho Hk0]. unfold ensure_role in E0. destruct (ensure_mailbox _ _ _) as [r s] eqn:E. injection E0 as _ <-.
    split; [done|]. apply (kd_metadata _ _ _ _ (kw_delivery _ _ _ _ _ HK)); [|done]. change s with (r, s).2. rewrite <- E. apply meta_ensure. }
  assert (Hsame : forall w w', queue w' = queue w -> mail w' = mail w -> Worker.auth_store w' = Worker.auth_store w -> worker_kept w -> worker_kept w').
  { unfold worker_kept. by intros w1 w2 -> -> ->. }
  assert (Hq : forall f w, (forall q, outbound (f q) = outbound q) -> worker_kept w -> worker_kept (on_queue f w)).
  { intros f w0 Hf [[Ho Ha] Hm]. split; [split; [cbn; by rewrite Hf|done]|done]. }
  unfold fire_event, fire_snooze_resurface, fire_followup_nudge.
  repeat case_match; simplify_eq; repeat (apply Hq; [done|]); try done;
    repeat match goal with
    | E : ensure_role _ _ _ = (_, ?w') |- worker_kept ?w' => apply (He _ _ _ _ E)
    | |- worker_kept (Worker.notify _ ?w) => apply (Hsame w); [done..|]
    | |- worker_kept (set_message_keywords _ _ _) => apply Hk
    end; done.
Qed.

Lemma kept_iteration env :
  (forall c, fresh_rand (fe_dsn_rand (ie_finalize env c))) -> keeps worker_kept (run_iteration parse to_lowercase hostname env).
Proof.
  intros Ha. unfold run_iteration, run_unit.
  assert (Hrelease : forall l w, worker_kept w -> worker_kept (on_queue (release_to_ready l) w)).
  { intros l w [[Ho Ha'] Hk]. split; [split; [|done]|done]. cbn [on_queue with_queue queue]. unfold release_to_ready. generalize dependent (queue w).
    induction l as [|c l IH]; intros q Hq; cbn [foldl]; [done|]. by apply IH. }
  assert (Hfire : forall l w, worker_kept w -> worker_kept (foldl fire_event w l)).
  { induction l as [|ev l IH]; intros w Hw; cbn [foldl]; [done|]. by apply IH, kept_fire_event. }
  unfold fire_due_scheduled_events.
  repeat first [st_step | by apply kept_send_unit | apply keeps_mod; intros w ?; first [by apply kept_rcpts | by apply Hfire | by apply Hrelease]].
  all: apply keeps_mod; intros w1 [[Ho1 Ha1] Hk1]; split; [split; [|done]|done]; cbn.
  all: match goal with E : claim_batch _ _ ?q = (_, _), Hw : worker_kept _ |- _ => unfold claim_batch in E; injection E as _ <-; apply Hw end.
Qed.

End Worker.
End Delivered.
End Kept.
