(* ===== verification/Html.v ===== *)
(** * Html: HTML bodies and download headers, [jmap]

    src/crates/jmap/src/html_sanitize.rs (mail on display), compose_html.rs
    (mail being sent) and content_disposition.rs (the header of a download).
    The HTML parser, its serialiser, the ammonia cleaner, the URL parser and
    base64 are a class of parameters; the tree rewriting between them is what
    the program itself does. *)

From stdpp Require Import base list strings gmap sorting.
From Stdlib Require Import Ascii ZArith Lia.
From S2P Require Import Prelude RustStr.

(** ** Trees, as markup5ever_rcdom builds them *)
Record Attribute : Type := mkAttribute { at_ns : str; at_name : str; at_value : str }.

Inductive Node : Type :=
| Document (children : list Node)
| Element (name : str) (attrs : list Attribute) (children : list Node)
| Text (contents : str)
| OtherNode.     (* comments, doctypes, processing instructions *)

(** ammonia's [Builder], as far as the sources set it. *)
Record Builder : Type := mkBuilder {
  b_tags : list str;
  b_clean_content_tags : list str;
  b_tag_attributes : list (str * list str);
  b_url_schemes : list str;
  b_attribute_filter : str -> str -> str -> option str     (* element, attribute, value *)
}.

Class HtmlLibrary : Type := {
  parse_fragment : str -> Node;                 (* the document, parsed inside a div *)
  serialize_children : Node -> str;
  ammonia_clean_with : Builder -> str -> str;
  url_scheme : str -> option str;               (* Url::parse(..).ok()'s scheme *)
  base64_encode_bytes : str -> str
}.

(** [u8::from_str_radix] with the digits' test and radix; a leading [+] is
    accepted. *)
Fixpoint radix_value (ok : byte -> bool) (radix : N) (s : str) (acc : N) : option N :=
  match s with
  | [] => Some acc
  | b :: s => if ok b then radix_value ok radix s (radix * acc + digit_val b)%N else None
  end.

Definition u8_from_str (ok : byte -> bool) (radix : N) (s : str) : option N :=
  let checked (o : option N) := match o with Some n => if (n <? 256)%N then Some n else None | None => None end in
  match s with
  | [] => None
  | b :: s' =>
      if bool_decide (b = "+"%char) then match s' with [] => None | _ => checked (radix_value ok radix s' 0) end
      else checked (radix_value ok radix s 0)
  end.

Definition u8_from_hex : str -> option N := u8_from_str is_ascii_hexdigit 16.
Definition u8_from_dec : str -> option N := u8_from_str (in_range 48 57) 10.

(** ** The colour palette, compose_html.rs *)
Definition ALLOWED_COLORS : list (N * N * N) :=
  [(26, 26, 26); (217, 38, 38); (217, 119, 6); (22, 163, 74); (37, 99, 235); (124, 58, 237)]%N.

Definition parse_color_style (value : str) : option (N * N * N) :=
  let value := trim value in
  let value := trim (default value (strip_suffix (# ";") value)) in
  rest ← trim <$> strip_prefix (# "color:") value;
  match strip_prefix (# "#") rest with
  | Some hex =>
      if negb (length hex =? 6)%nat || negb (forallb is_ascii_hexdigit hex) then None
      else
        r ← u8_from_hex (take 2 hex);
        g ← u8_from_hex (take 2 (drop 2 hex));
        b ← u8_from_hex (take 2 (drop 4 hex));
        Some (r, g, b)
  | None =>
      inner ← strip_prefix (# "rgb(") rest ≫= strip_suffix (# ")");
      let parts := trim <$> split_on "," inner in
      r ← parts !! 0%nat ≫= u8_from_dec;
      g ← parts !! 1%nat ≫= u8_from_dec;
      b ← parts !! 2%nat ≫= u8_from_dec;
      match parts !! 3%nat with Some _ => None | None => Some (r, g, b) end
  end.

Definition is_allowed_color_style (value : str) : bool :=
  match parse_color_style value with
  | Some rgb => bool_decide (rgb ∈ ALLOWED_COLORS)
  | None => false
  end.

(** ** Attributes *)
Definition attr_value (attrs : list Attribute) (name : str) : option str :=
  at_value <$> sql_find (fun a => str_eqb (at_name a) name) attrs.

Definition remove_attr (attrs : list Attribute) (name : str) : list Attribute :=
  List.filter (fun a => negb (str_eqb (at_name a) name)) attrs.

Definition set_attr (attrs : list Attribute) (name value : str) : list Attribute :=
  remove_attr attrs name ++ [mkAttribute [] name value].

(** [parse_fragment]'s document has the context element as its one child. *)
Definition first_child (h : Node) : option Node :=
  match h with Document children | Element _ _ children => head children | _ => None end.

Definition root_of (dom : Node) : Node := default dom (first_child dom).

(** ** Mail on display, html_sanitize.rs *)
Definition ALLOWED_CID_IMAGE_TYPES : list str := [ # "image/png"; # "image/jpeg"; # "image/gif"; # "image/webp"].

(** Content-ID to content type and bytes. *)
Abbreviation CidImages := (gmap str (str * str)).

Record SanitizedHtml : Type := mkSanitized { html : str; blocked_image_count : N }.

(** Two hex digits after a percent sign, where two bytes are left. *)
Fixpoint percent_decode_bytes (fuel : nat) (bytes : str) : str :=
  match fuel with
  | O => []
  | S fuel =>
      match bytes with
      | [] => []
      | b :: rest =>
          let plain := b :: percent_decode_bytes fuel rest in
          match rest with
          | h1 :: h2 :: rest2 =>
              if bool_decide (b = "%"%char) then
                match from_utf8 [h1; h2] ≫= u8_from_hex with
                | Some byte => ascii_of_N byte :: percent_decode_bytes fuel rest2
                | None => plain
                end
              else plain
          | _ => plain
          end
      end
  end.

Definition percent_decode (value : str) : str :=
  from_utf8_lossy (percent_decode_bytes (length value) value).

Section Sanitize.
Context `{HtmlLibrary}.

Definition inbound_tags : list str :=
  [ # "p"; # "div"; # "span"; # "br"; # "hr"; # "pre"; # "code"; # "blockquote"; # "a"; # "img"; # "table";
    # "thead"; # "tbody"; # "tfoot"; # "tr"; # "td"; # "th"; # "h1"; # "h2"; # "h3"; # "h4"; # "h5"; # "h6"; # "ul";
    # "ol"; # "li"; # "b"; # "i"; # "u"; # "strong"; # "em"; # "sub"; # "sup"].

Definition inbound_attributes : list (str * list str) :=
  [(# "a", [ # "href"]); (# "img", [ # "src"; # "alt"; # "width"; # "height"]);
   (# "td", [ # "colspan"; # "rowspan"]); (# "th", [ # "colspan"; # "rowspan"]); (# "span", [ # "style"])].

Definition inbound_builder : Builder :=
  mkBuilder inbound_tags [ # "script"; # "style"] inbound_attributes
    [ # "http"; # "https"; # "mailto"; # "data"; # "cid"]
    (fun element attribute value =>
       if str_eqb element (# "span") && str_eqb attribute (# "style")
       then if is_allowed_color_style value then Some value else None
       else Some value).

Definition ammonia_clean (raw_html : str) : str := ammonia_clean_with inbound_builder raw_html.

(** The counter is a [u32]. *)
Definition rewrite_img (cid_images : CidImages) (attrs : list Attribute) (count : N) : list Attribute * N :=
  match attr_value attrs (# "src") with
  | None => (attrs, count)
  | Some src =>
      let attrs := remove_attr attrs (# "src") in
      if starts_with (# "data:") src then (set_attr attrs (# "src") src, count)
      else
        match strip_prefix (# "cid:") src with
        | Some cid =>
            match cid_images !! percent_decode cid with
            | Some (content_type, bytes) =>
                if bool_decide (content_type ∈ ALLOWED_CID_IMAGE_TYPES)
                then (set_attr attrs (# "src")
                        (# "data:" ++ content_type ++ # ";base64," ++ base64_encode_bytes bytes), count)
                else (attrs, count)
            | None => (attrs, count)
            end
        | None =>
            match url_scheme src with
            | Some scheme =>
                if str_eqb scheme (# "http") || str_eqb scheme (# "https")
                then (set_attr attrs (# "data-blocked-src") src, ((count + 1) mod 2 ^ 32)%N)
                else (attrs, count)
            | None => (attrs, count)
            end
        end
  end.

Definition rewrite_a (attrs : list Attribute) : list Attribute :=
  let attrs := remove_attr attrs (# "ping") in
  match attr_value attrs (# "href") with
  | None => attrs
  | Some href =>
      let attrs := remove_attr attrs (# "href") in
      let allowed_scheme :=
        match url_scheme href with
        | Some scheme => str_eqb scheme (# "http") || str_eqb scheme (# "https") || str_eqb scheme (# "mailto")
        | None => false
        end in
      if allowed_scheme then set_attr (set_attr attrs (# "data-real-href") href) (# "href") (# "#") else attrs
  end.

Definition rewrite_element (cid_images : CidImages) (name : str) (attrs : list Attribute) (count : N)
    : list Attribute * N :=
  if str_eqb name (# "img") then rewrite_img cid_images attrs count
  else if str_eqb name (# "a") then (rewrite_a attrs, count)
  else (attrs, count).

Fixpoint walk (cid_images : CidImages) (handle : Node) (count : N) : Node * N :=
  let walk_all := fix walk_all (l : list Node) (count : N) : list Node * N :=
    match l with
    | [] => ([], count)
    | child :: l =>
        let '(child, count) := walk cid_images child count in
        let '(l, count) := walk_all l count in
        (child :: l, count)
    end in
  match handle with
  | Element name attrs children =>
      let '(attrs, count) := rewrite_element cid_images name attrs count in
      let '(children, count) := walk_all children count in
      (Element name attrs children, count)
  | Document children =>
      let '(children, count) := walk_all children count in
      (Document children, count)
  | Text _ | OtherNode => (handle, count)
  end.

Definition pass2_rewrite (clean_html : str) (cid_images : CidImages) : SanitizedHtml :=
  let '(dom, blocked_image_count) := walk cid_images (parse_fragment clean_html) 0 in
  mkSanitized (serialize_children (root_of dom)) blocked_image_count.

Definition sanitize (raw_html : str) (cid_images : CidImages) : SanitizedHtml :=
  pass2_rewrite (ammonia_clean raw_html) cid_images.

End Sanitize.

(** ** Mail being sent, compose_html.rs *)
Section Compose.
Context `{HtmlLibrary}.

Definition outbound_tags : list str :=
  [ # "p"; # "br"; # "strong"; # "b"; # "em"; # "i"; # "u"; # "ul"; # "ol"; # "li"; # "blockquote"; # "pre"; # "code";
    # "h1"; # "h2"; # "h3"; # "a"; # "span"; # "img"].

Definition outbound_attributes : list (str * list str) :=
  [(# "a", [ # "href"]); (# "span", [ # "style"]); (# "img", [ # "src"])].

Definition outbound_builder : Builder :=
  mkBuilder outbound_tags [ # "script"; # "style"] outbound_attributes
    [ # "http"; # "https"; # "mailto"; # "cid"]
    (fun element attribute value =>
       if str_eqb element (# "span") && str_eqb attribute (# "style")
       then if is_allowed_color_style value then Some value else None
       else if str_eqb element (# "img") && str_eqb attribute (# "src")
       then if starts_with (# "cid:") value then Some value else None
       else Some value).

Definition sanitize_outbound (raw_html : str) : str := ammonia_clean_with outbound_builder raw_html.

Definition is_upload_blob_id (value : str) : bool :=
  match strip_prefix (# "u") value with
  | Some rest => negb (bool_decide (rest = [])) && forallb (in_range 48 57) rest
  | None => false
  end.

Definition own_cid (name : str) (attrs : list Attribute) : list str :=
  if str_eqb name (# "img") then
    match attr_value attrs (# "src") ≫= strip_prefix (# "cid:") with
    | Some cid => if is_upload_blob_id cid then [cid] else []
    | None => []
    end
  else [].

Fixpoint collect_cids (handle : Node) : list str :=
  match handle with
  | Element name attrs children => own_cid name attrs ++ mjoin (collect_cids <$> children)
  | Document children => mjoin (collect_cids <$> children)
  | Text _ | OtherNode => []
  end.

Definition extract_inline_cids (sanitized_html : str) : list str :=
  collect_cids (root_of (parse_fragment sanitized_html)).

(** *** The text part *)
Inductive ListKind : Type := Bullet | Ordered (n : N).

Definition push_block_break (out : str) : str :=
  if bool_decide (out = []) then out
  else if ends_with [LF; LF] out then out
  else if ends_with [LF] out then out ++ [LF]
  else out ++ [LF; LF].

Definition is_block (tag : str) : bool :=
  bool_decide (tag ∈ [ # "p"; # "h1"; # "h2"; # "h3"; # "blockquote"; # "pre"]).

(** The marker of a list item; an ordered list (the top of [list_stack])
    counts on, in a [u32]. *)
Definition item_marker (list_stack : list ListKind) : str * list ListKind :=
  match list_stack with
  | Ordered n :: l => (dec (Z.of_N n) ++ # ". ", Ordered ((n + 1) mod 2 ^ 32) :: l)
  | _ => (# "- ", list_stack)
  end.

Fixpoint walk_text (handle : Node) (out : str) (list_stack : list ListKind) : str * list ListKind :=
  let walk_children := fix walk_children (l : list Node) (out : str) (list_stack : list ListKind) : str * list ListKind :=
    match l with
    | [] => (out, list_stack)
    | child :: l => let '(out, list_stack) := walk_text child out list_stack in walk_children l out list_stack
    end in
  match handle with
  | Text contents => (out ++ contents, list_stack)
  | Element tag attrs children =>
      if str_eqb tag (# "br") then (out ++ [LF], list_stack)
      else if is_block tag then
        let '(out, list_stack) := walk_children children (push_block_break out) list_stack in
        (out ++ [LF], list_stack)
      else if str_eqb tag (# "ul") then
        let '(out, list_stack) := walk_children children out (Bullet :: list_stack) in (out, tail list_stack)
      else if str_eqb tag (# "ol") then
        let '(out, list_stack) := walk_children children out (Ordered 1 :: list_stack) in (out, tail list_stack)
      else if str_eqb tag (# "li") then
        let out := if negb (bool_decide (out = [])) && negb (ends_with [LF] out) then out ++ [LF] else out in
        let '(marker, list_stack) := item_marker list_stack in
        let '(out, list_stack) := walk_children children (out ++ marker) list_stack in
        (out ++ [LF], list_stack)
      else if str_eqb tag (# "a") then
        let start := length out in
        let '(out, list_stack) := walk_children children out list_stack in
        match attr_value attrs (# "href") with
        | Some href =>
            if negb (str_eqb (drop start out) href) then (out ++ # " (" ++ href ++ # ")", list_stack)
            else (out, list_stack)
        | None => (out, list_stack)
        end
      else walk_children children out list_stack
  | Document _ | OtherNode => (out, list_stack)
  end.

Definition keep_line (acc : str * nat) (line : str) : str * nat :=
  let '(result, blank_run) := acc in
  if bool_decide (trim line = []) then
    if (1 <? S blank_run)%nat then (result, S blank_run) else (result ++ line ++ [LF], S blank_run)
  else (result ++ line ++ [LF], O).

Definition normalize_whitespace (text : str) : str := trim (foldl keep_line ([], O) (lines text)).1.

Definition html_to_text (sanitized_html : str) : str :=
  normalize_whitespace (walk_text (root_of (parse_fragment sanitized_html)) [] []).1.

End Compose.

(** ** Download headers, content_disposition.rs *)
Definition needs_extended_encoding (s : str) : bool :=
  existsb (fun c => match c.2 with
                    | Some v => (v =? 34)%N || (v =? 92)%N || char_is_control v
                    | None => false
                    end) (utf8_chunks s).

(** Every char that is not plain ASCII, and the two quoting ones. *)
Definition fallback_char (c : str * option N) : byte :=
  match c.2 with
  | Some v => if (v <? 128)%N && negb (char_is_control v) && negb (v =? 34)%N && negb (v =? 92)%N
              then ascii_of_N v else "_"%char
  | None => "_"%char
  end.

Definition ascii_fallback (filename : str) : str :=
  let trimmed := trim (fallback_char <$> utf8_chunks filename) in
  if bool_decide (trimmed = []) then # "attachment" else trimmed.

Definition upper_hex_char (n : N) : byte := ascii_of_N (if (n <? 10)%N then 48 + n else 55 + n).

Definition is_unreserved (b : byte) : bool :=
  is_ascii_alphanumeric b || bool_decide (b ∈ ["-"; "."; "_"; "~"]%char).

Definition percent_encode (s : str) : str :=
  mjoin ((fun b => if is_unreserved b then [b]
                   else ["%"%char; upper_hex_char (bval b / 16); upper_hex_char (bval b mod 16)]) <$> s).

Definition DQ : byte := ascii_of_N 34.

Definition attachment_header (filename : str) : str :=
  let fallback := ascii_fallback filename in
  if is_ascii filename && negb (needs_extended_encoding filename)
  then # "attachment; filename=" ++ [DQ] ++ fallback ++ [DQ]
  else # "attachment; filename=" ++ [DQ] ++ fallback ++ [DQ] ++ # "; filename*=UTF-8''" ++ percent_encode filename.

(** ** Lemmas *)

(** The elements of a tree, in document order. *)
Fixpoint elements (handle : Node) : list (str * list Attribute) :=
  match handle with
  | Element name attrs children => (name, attrs) :: mjoin (elements <$> children)
  | Document children => mjoin (elements <$> children)
  | Text _ | OtherNode => []
  end.

Section NodeInd.
Context (P : Node -> Prop).
Context (Hdoc : forall children, Forall P children -> P (Document children)).
Context (Hel : forall name attrs children, Forall P children -> P (Element name attrs children)).
Context (Htext : forall contents, P (Text contents)) (Hother : P OtherNode).

Fixpoint node_nested_ind (h : Node) : P h :=
  let all := fix all (l : list Node) : Forall P l :=
    match l with
    | [] => List.Forall_nil P
    | h :: l => List.Forall_cons P h l (node_nested_ind h) (all l)
    end in
  match h with
  | Document children => Hdoc children (all children)
  | Element name attrs children => Hel name attrs children (all children)
  | Text contents => Htext contents
  | OtherNode => Hother
  end.
End NodeInd.

Section Facts.
Context `{HtmlLibrary}.

(** What [walk] does to one element, and whether it counts. *)
Definition rewritten (cid_images : CidImages) (e : str * list Attribute) : str * list Attribute :=
  (e.1, (rewrite_element cid_images e.1 e.2 0).1).

Definition counted (cid_images : CidImages) (e : str * list Attribute) : N :=
  (rewrite_element cid_images e.1 e.2 0).2.

Lemma rewrite_element_count cid name attrs n :
  (n < 2 ^ 32)%N ->
  rewrite_element cid name attrs n = ((rewritten cid (name, attrs)).2, ((n + counted cid (name, attrs)) mod 2 ^ 32)%N).
Proof.
  intros Hn. unfold rewritten, counted, rewrite_element, rewrite_img. cbn [fst snd].
  repeat split_match; cbn [fst snd]; try (rewrite N.add_0_r, N.mod_small by done); done.
Qed.

Fixpoint sum_counted (cid_images : CidImages) (l : list (str * list Attribute)) : N :=
  match l with [] => 0%N | e :: l => (counted cid_images e + sum_counted cid_images l)%N end.

Lemma sum_counted_app cid l k : sum_counted cid (l ++ k) = (sum_counted cid l + sum_counted cid k)%N.
Proof. induction l as [|e l IH]; cbn; [done|]. rewrite IH. lia. Qed.

(** The children of a node, as [walk] goes through them. *)
Definition walk_list (cid_images : CidImages) : list Node -> N -> list Node * N :=
  fix walk_all (l : list Node) (count : N) : list Node * N :=
    match l with
    | [] => ([], count)
    | child :: l =>
        let '(child, count) := walk cid_images child count in
        let '(l, count) := walk_all l count in
        (child :: l, count)
    end.

Lemma walk_document cid l n :
  walk cid (Document l) n = (Document (walk_list cid l n).1, (walk_list cid l n).2).
Proof. cbn [walk]. by destruct (walk_list cid l n) eqn:E; unfold walk_list in E; rewrite E. Qed.

Lemma walk_element cid name attrs l n :
  walk cid (Element name attrs l) n
  = (let r := rewrite_element cid name attrs n in
     let k := walk_list cid l r.2 in (Element name r.1 k.1, k.2)).
Proof.
  cbn [walk]. destruct (rewrite_element cid name attrs n) as [attrs' n1]. cbn [fst snd].
  by destruct (walk_list cid l n1) eqn:E; unfold walk_list in E; rewrite E.
Qed.

Definition walk_exact (cid_images : CidImages) (h : Node) : Prop := forall n, (n < 2 ^ 32)%N ->
  elements (walk cid_images h n).1 = rewritten cid_images <$> elements h /\
  (walk cid_images h n).2 = ((n + sum_counted cid_images (elements h)) mod 2 ^ 32)%N.

Lemma walk_list_exact cid l : Forall (walk_exact cid) l -> forall n, (n < 2 ^ 32)%N ->
  mjoin (elements <$> (walk_list cid l n).1) = rewritten cid <$> mjoin (elements <$> l) /\
  (walk_list cid l n).2 = ((n + sum_counted cid (mjoin (elements <$> l))) mod 2 ^ 32)%N.
Proof.
  induction 1 as [|h l Hh _ IH]; intros n Hn; cbn [walk_list fmap list_fmap mjoin list_join fst snd].
  - split; [done|]. cbn. by rewrite N.add_0_r, N.mod_small.
  - destruct (Hh n Hn) as [E1 E2]. destruct (walk cid h n) as [h' n1]. cbn [fst snd] in *.
    assert (Hn1 : (n1 < 2 ^ 32)%N) by (rewrite E2; by apply N.mod_lt).
    destruct (IH n1 Hn1) as [E3 E4]. destruct (walk_list cid l n1) as [l' n2]. cbn [fst snd] in *.
    split; [rewrite fmap_app; change (elements h' ++ mjoin (elements <$> l') = (rewritten cid <$> elements h) ++
      (rewritten cid <$> mjoin (elements <$> l))); by rewrite E1, E3|].
    rewrite E4, E2, N.Div0.add_mod_idemp_l, <- N.add_assoc, <- sum_counted_app. done.
Qed.

Lemma walk_elements cid h : walk_exact cid h.
Proof.
  induction h as [children IH|name attrs children IH|c|] using node_nested_ind; intros n Hn;
    try (cbn; split; [done|]; by rewrite N.add_0_r, N.mod_small).
  - rewrite walk_document. exact (walk_list_exact cid children IH n Hn).
  - rewrite walk_element, rewrite_element_count by done. cbn [fst snd].
    assert (Hm : ((n + counted cid (name, attrs)) mod 2 ^ 32 < 2 ^ 32)%N) by by apply N.mod_lt.
    destruct (walk_list_exact cid children IH _ Hm) as [E1 E2]. split.
    + cbn [elements fmap list_fmap]. by f_equal.
    + rewrite E2. cbn [elements sum_counted]. rewrite N.Div0.add_mod_idemp_l. f_equal. lia.
Qed.

(** *** The cleaner's documented promise *)

(** An attribute the builder lets through: [rel] on links, which ammonia adds
    itself, or a listed one whose value the filter returned. *)
Definition allowed_attribute (b : Builder) (name : str) (a : Attribute) : Prop :=
  (name = # "a" /\ at_name a = # "rel") \/
  ((exists l, (name, l) ∈ b_tag_attributes b /\ at_name a ∈ l) /\
   exists v, b_attribute_filter b name (at_name a) v = Some (at_value a)).

(** The parsed fragment's own [html] element comes without attributes. *)
Definition allowed_element (b : Builder) (e : str * list Attribute) : Prop :=
  (e.1 = # "html" /\ e.2 = []) \/ (e.1 ∈ b_tags b /\ Forall (allowed_attribute b e.1) e.2).

End Facts.

(** Cleaned text parses to the listed elements and attributes only. *)
Class HtmlLaws `{HtmlLibrary} : Prop := {
  clean_parses b raw : Forall (allowed_element b) (elements (parse_fragment (ammonia_clean_with b raw)))
}.

Section Display.
Context `{HtmlLaws}.

(** What an attribute of a displayed message can do without the user: an
    image source carries its own bytes, a link goes nowhere, a style sets one
    palette colour; the real targets sit in [data-] attributes. *)
Definition web_scheme (value : str) (schemes : list str) : bool :=
  match url_scheme value with Some s => bool_decide (s ∈ schemes) | None => false end.

Definition inert_attribute (name : str) (a : Attribute) : bool :=
  let attr := at_name a in
  if str_eqb name (# "img") then
    bool_decide (attr ∈ [ # "alt"; # "width"; # "height"]) ||
    (str_eqb attr (# "src") && starts_with (# "data:") (at_value a)) ||
    (str_eqb attr (# "data-blocked-src") && web_scheme (at_value a) [ # "http"; # "https"])
  else if str_eqb name (# "a") then
    str_eqb attr (# "rel") || (str_eqb attr (# "href") && str_eqb (at_value a) (# "#")) ||
    (str_eqb attr (# "data-real-href") && web_scheme (at_value a) [ # "http"; # "https"; # "mailto"])
  else if str_eqb name (# "span") then str_eqb attr (# "style") && is_allowed_color_style (at_value a)
  else bool_decide (name ∈ [ # "td"; # "th"]) && bool_decide (attr ∈ [ # "colspan"; # "rowspan"]).

(** A blocked image, as the reader's interface finds it. *)
Definition shows_blocked (e : str * list Attribute) : bool :=
  str_eqb e.1 (# "img") && existsb (fun a => str_eqb (at_name a) (# "data-blocked-src")) e.2.

Lemma elem_of_remove_attr attrs name a : a ∈ remove_attr attrs name <-> a ∈ attrs /\ at_name a <> name.
Proof.
  unfold remove_attr. rewrite elem_of_filter_list. unfold str_eqb. rewrite negb_true_iff, bool_decide_eq_false. done.
Qed.

Lemma elem_of_set_attr attrs name value a :
  a ∈ set_attr attrs name value <-> (a ∈ attrs /\ at_name a <> name) \/ a = mkAttribute [] name value.
Proof. unfold set_attr. rewrite elem_of_app, elem_of_remove_attr, list_elem_of_singleton. done. Qed.

(** The row of [inbound_attributes] for a concrete element. *)
Ltac listed_attribute Hl Ha :=
  apply list_elem_of_In in Hl; cbn in Hl;
  repeat (destruct Hl as [Hl|Hl]; [first [discriminate Hl | injection Hl as <-; exact Ha]|]);
  destruct Hl.

(** Images before the rewriting: four plain attributes. *)
Lemma inbound_img_attribute a : allowed_attribute inbound_builder (# "img") a ->
  at_name a ∈ [ # "src"; # "alt"; # "width"; # "height"].
Proof.
  intros [[[=] _]|[(l & Hl & Ha) _]]. listed_attribute Hl Ha.
Qed.

Lemma inbound_a_attribute a : allowed_attribute inbound_builder (# "a") a -> at_name a ∈ [ # "rel"; # "href"].
Proof.
  intros [[_ ->]|[(l & Hl & Ha) _]]; [by left|]. right. listed_attribute Hl Ha.
Qed.

Lemma inbound_span_attribute a : allowed_attribute inbound_builder (# "span") a ->
  at_name a = # "style" /\ is_allowed_color_style (at_value a) = true.
Proof.
  intros [[[=] _]|[(l & Hl & Ha) (v & Hv)]]. assert (En : at_name a ∈ [ # "style"]) by listed_attribute Hl Ha.
  apply list_elem_of_singleton in En. split; [done|]. rewrite En in Hv. cbn [b_attribute_filter inbound_builder] in Hv.
  unfold str_eqb in Hv. rewrite !bool_decide_eq_true_2 in Hv by done. cbn [andb] in Hv.
  destruct (is_allowed_color_style v) eqn:E; [|done]. by injection Hv as <-.
Qed.

Lemma inbound_other_attribute name a :
  name <> # "img" -> name <> # "a" -> name <> # "span" -> allowed_attribute inbound_builder name a ->
  name ∈ [ # "td"; # "th"] /\ at_name a ∈ [ # "colspan"; # "rowspan"].
Proof.
  intros Hi Ha' Hs [[-> _]|[(l & Hl & Ha) _]]; [done|]. apply list_elem_of_In in Hl. cbn in Hl.
  repeat (destruct Hl as [Hl|Hl]; [injection Hl as <- <-; first [done | split; [|exact Ha]]|]).
  - by left.
  - right. by left.
  - destruct Hl.
Qed.

Lemma attr_value_none attrs name a : attr_value attrs name = None -> a ∈ attrs -> at_name a <> name.
Proof.
  unfold attr_value. destruct (sql_find _ attrs) eqn:E; [done|]. intros _ Ha.
  pose proof (sql_find_none _ _ a E Ha) as Hf. cbn in Hf. by bool_facts.
Qed.

(** Which image attributes are left, and whether a blocked one is among them. *)
Definition img_shape (attrs : list Attribute) (blocked : N) : Prop :=
  Forall (fun a => inert_attribute (# "img") a = true) attrs /\
  blocked = if existsb (fun a => str_eqb (at_name a) (# "data-blocked-src")) attrs then 1%N else 0%N.

Lemma plain_img_shape attrs :
  Forall (fun a => at_name a ∈ [ # "alt"; # "width"; # "height"]) attrs -> img_shape attrs 0.
Proof.
  intros Hp. rewrite Forall_forall in Hp. split.
  - apply Forall_forall. intros a Ha. unfold inert_attribute. unfold str_eqb at 1.
    rewrite bool_decide_eq_true_2 by done. by rewrite bool_decide_eq_true_2 by by apply Hp.
  - destruct (existsb _ attrs) eqn:E; [|done]. apply existsb_exists in E as (a & Ha & En).
    apply list_elem_of_In, Hp in Ha. bool_facts. rewrite En in Ha. clear -Ha. exfalso.
    by repeat (apply elem_of_cons in Ha as [[=]|Ha]); apply elem_of_nil in Ha.
Qed.

Lemma set_img_shape attrs attr value :
  Forall (fun a => at_name a ∈ [ # "alt"; # "width"; # "height"]) attrs ->
  inert_attribute (# "img") (mkAttribute [] attr value) = true ->
  img_shape (set_attr attrs attr value) (if str_eqb attr (# "data-blocked-src") then 1 else 0).
Proof.
  intros Hp Hi. assert (Hp' : Forall (fun a => at_name a ∈ [ # "alt"; # "width"; # "height"]) (remove_attr attrs attr)).
  { apply Forall_forall. intros a [Ha _]%elem_of_remove_attr. rewrite Forall_forall in Hp. by apply Hp. }
  destruct (plain_img_shape _ Hp') as [H1' H2']. split.
  - apply Forall_app. split; [exact H1'|]. by apply Forall_singleton.
  - unfold set_attr. rewrite existsb_app. cbn [existsb at_name]. rewrite orb_false_r.
    destruct (existsb _ (remove_attr attrs attr)); [done|]. done.
Qed.

Lemma rewrite_img_shape cid attrs :
  Forall (allowed_attribute inbound_builder (# "img")) attrs ->
  img_shape (rewrite_img cid attrs 0).1 (rewrite_img cid attrs 0).2.
Proof.
  intros Hall. unfold rewrite_img.
  assert (Hleft : Forall (fun a => at_name a ∈ [ # "alt"; # "width"; # "height"]) (remove_attr attrs (# "src"))).
  { apply Forall_forall. intros a [Ha Hn]%elem_of_remove_attr. rewrite Forall_forall in Hall.
    apply Hall, inbound_img_attribute, elem_of_cons in Ha as [Ha|Ha]; [done|exact Ha]. }
  destruct (attr_value attrs (# "src")) as [src|] eqn:Es.
  2: { apply plain_img_shape, Forall_forall. intros a Ha. rewrite Forall_forall in Hall.
       pose proof (attr_value_none _ _ _ Es Ha) as Hn.
       apply Hall, inbound_img_attribute, elem_of_cons in Ha as [Ha|Ha]; [done|exact Ha]. }
  destruct (starts_with (# "data:") src) eqn:Ed.
  { apply (set_img_shape _ (# "src")); [done|]. unfold inert_attribute. cbn [at_name at_value]. by rewrite Ed. }
  destruct (strip_prefix (# "cid:") src) as [id|].
  { destruct (cid !! percent_decode id) as [[ty bytes]|]; [|by apply plain_img_shape].
    destruct (bool_decide (ty ∈ ALLOWED_CID_IMAGE_TYPES)); [|by apply plain_img_shape].
    apply (set_img_shape _ (# "src")); done. }
  destruct (url_scheme src) as [scheme|] eqn:Eu; [|by apply plain_img_shape].
  destruct (_ || _) eqn:Eh; [|by apply plain_img_shape].
  apply (set_img_shape _ (# "data-blocked-src")); [done|]. unfold inert_attribute, web_scheme. cbn [at_name at_value].
  rewrite Eu. rewrite (bool_decide_eq_true_2 (scheme ∈ _)); [done|].
  apply orb_prop in Eh as [E|E]; bool_facts; subst; [by left|right; by left].
Qed.

Lemma rewrite_a_inert attrs :
  Forall (allowed_attribute inbound_builder (# "a")) attrs ->
  Forall (fun a => inert_attribute (# "a") a = true) (rewrite_a attrs).
Proof.
  intros Hall. rewrite Forall_forall in Hall.
  assert (Hrel : forall a (l : list Attribute), (forall b, b ∈ l -> b ∈ attrs) -> a ∈ l -> at_name a <> # "href" ->
    inert_attribute (# "a") a = true).
  { intros a l Hl Ha Hn. apply Hl, Hall, inbound_a_attribute, elem_of_cons in Ha as [E|Ha].
    - unfold inert_attribute. rewrite E. done.
    - by apply list_elem_of_singleton in Ha. }
  unfold rewrite_a. set (l1 := remove_attr attrs (# "ping")).
  assert (Hl1 : forall b, b ∈ l1 -> b ∈ attrs) by by intros b [Hb _]%elem_of_remove_attr.
  destruct (attr_value l1 (# "href")) as [href|] eqn:Eh.
  2: { apply Forall_forall. intros a Ha. apply (Hrel a l1); [done|done|by apply (attr_value_none _ _ _ Eh)]. }
  set (l2 := remove_attr l1 (# "href")).
  assert (Hl2 : forall a, a ∈ l2 -> inert_attribute (# "a") a = true).
  { intros a [Ha Hn]%elem_of_remove_attr. by apply (Hrel a l1). }
  destruct (url_scheme href) as [scheme|] eqn:Eu; [|by apply Forall_forall].
  destruct (_ || _) eqn:Es; [|by apply Forall_forall].
  apply Forall_forall. intros a [[Ha _]| ->]%elem_of_set_attr; [|done].
  apply elem_of_set_attr in Ha as [[Ha _]| ->]; [by apply Hl2|].
  unfold inert_attribute, web_scheme. cbn [at_name at_value]. rewrite Eu.
  rewrite (bool_decide_eq_true_2 (scheme ∈ [ # "http"; # "https"; # "mailto"])); [done|].
  apply orb_prop in Es as [E%orb_prop|E]; [destruct E as [E|E]|]; bool_facts; subst.
  - by left.
  - right. by left.
  - right. right. by left.
Qed.

(** A cleaned element, rewritten: inert, and counted when it shows as blocked. *)
Lemma rewritten_inert cid e :
  allowed_element inbound_builder e ->
  (rewritten cid e).1 = e.1 /\ Forall (fun a => inert_attribute e.1 a = true) (rewritten cid e).2 /\
  counted cid e = if shows_blocked (rewritten cid e) then 1%N else 0%N.
Proof.
  destruct e as [name attrs]. unfold rewritten, counted, rewrite_element, shows_blocked. cbn [fst snd].
  intros Hel. unfold allowed_element in Hel. cbn [fst snd] in Hel. destruct Hel as [[-> ->]|[Ht Ha]]; [done|].
  split; [done|].
  destruct (str_eqb name (# "img")) eqn:Ei; [bool_facts; subst; by apply rewrite_img_shape|].
  destruct (str_eqb name (# "a")) eqn:Ea; [bool_facts; subst; split; [by apply rewrite_a_inert|done]|].
  split; [|done]. eapply Forall_impl; [exact Ha|]. cbn. intros a Hatt. unfold inert_attribute. rewrite Ei, Ea.
  destruct (str_eqb name (# "span")) eqn:Es.
  - bool_facts. subst. apply inbound_span_attribute in Hatt as [-> ->]. done.
  - bool_facts. apply inbound_other_attribute in Hatt as [Hn Hat]; [|done..].
    by rewrite !bool_decide_eq_true_2.
Qed.

(** C21.  Displaying a message is inert: the HTML handed to the browser is
    the serialisation of a tree whose elements are on the allow-list and whose
    attributes cannot act by themselves -- every image source is a [data:]
    URI, so opening the message makes no network request; every link's [href]
    is ["#"], with an http, https or mailto target kept aside; the only style
    is one palette colour; there is no event handler and no other attribute
    at all.  The reported count is the number of images held back (as a
    32-bit integer). *)
Theorem display_is_inert (raw_html : str) (cid_images : CidImages) :
  exists dom,
    html (sanitize raw_html cid_images) = serialize_children (root_of dom) /\
    Forall (fun e => (e.1 = # "html" \/ e.1 ∈ inbound_tags) /\ Forall (fun a => inert_attribute e.1 a = true) e.2)
      (elements dom) /\
    blocked_image_count (sanitize raw_html cid_images)
    = (N.of_nat (length (List.filter shows_blocked (elements dom))) mod 2 ^ 32)%N.
Proof.
  unfold sanitize, pass2_rewrite, ammonia_clean. set (tree := parse_fragment _).
  pose proof (clean_parses inbound_builder raw_html) as Hc. fold tree in Hc.
  destruct (walk_elements cid_images tree 0%N ltac:(done)) as [Ee En].
  destruct (walk cid_images tree 0%N) as [dom n] eqn:Ew. cbn [fst snd] in *. exists dom. split; [done|].
  rewrite Ee. split.
  - apply Forall_fmap. eapply Forall_impl; [exact Hc|]. intros e He. unfold compose.
    destruct (rewritten_inert cid_images e He) as (E1 & Hi & _). rewrite E1. split; [|exact Hi].
    destruct He as [[-> _]|[He _]]; [by left|by right].
  - cbn [blocked_image_count]. rewrite En, N.add_0_l. f_equal. clear -Hc.
    induction Hc as [|e l He _ IH]; [done|]. destruct (rewritten_inert cid_images e He) as (_ & _ & Ec).
    cbn [sum_counted fmap list_fmap List.filter]. rewrite Ec. fold (rewritten cid_images <$> l).
    destruct (shows_blocked _); cbn [length]; rewrite IH; lia.
Qed.

End Display.

(** What is sent can be shown: an element the outgoing sanitizer allows, the
    incoming one allows too (an image of the account's own upload, a link, a
    palette colour). *)
Lemma outbound_allowed_inbound (e : str * list Attribute) :
  allowed_element outbound_builder e -> allowed_element inbound_builder e.
Proof.
  destruct e as [name attrs]. intros [Hr|[Ht Ha]]; [by left|]. right. cbn [fst snd] in *. split.
  - assert (Hsub : forallb (fun t => bool_decide (t ∈ inbound_tags)) outbound_tags = true) by (vm_compute; reflexivity).
    rewrite forallb_forall in Hsub. apply list_elem_of_In, Hsub in Ht. by apply bool_decide_eq_true in Ht.
  - eapply Forall_impl; [exact Ha|]. intros a [Hrel|[(l & Hl & Hin) (v & Hv)]]; [by left|]. right.
    apply list_elem_of_In in Hl. cbn in Hl.
    cbn [b_attribute_filter outbound_builder] in Hv.
    assert (Hf : exists v, b_attribute_filter inbound_builder name (at_name a) v = Some (at_value a)).
    { exists v. cbn [b_attribute_filter inbound_builder]. destruct (_ && _); [done|].
      destruct (str_eqb name _ && _); [by destruct (starts_with _ v)|done]. }
    repeat (destruct Hl as [Hl|Hl]; [injection Hl as <- <-; split; [|exact Hf]; eexists; split;
      [apply list_elem_of_In; cbn; eauto 10|]; apply list_elem_of_singleton in Hin; rewrite Hin; by left|]).
    destruct Hl.
Qed.

(** ** Download headers *)
Definition header_text (b : byte) : bool := (32 <=? bval b)%N && (bval b <=? 126)%N.

Lemma upper_hex_value n : (n < 16)%N ->
  is_ascii_hexdigit (upper_hex_char n) = true /\ digit_val (upper_hex_char n) = n /\
  header_text (upper_hex_char n) = true /\ (bval (upper_hex_char n) < 128)%N.
Proof.
  intros Hn. assert (Ht : forallb (fun k => let c := upper_hex_char (N.of_nat k) in
      is_ascii_hexdigit c && (digit_val c =? N.of_nat k)%N && header_text c && (bval c <? 128)%N) (List.seq 0 16) = true)
    by (vm_compute; reflexivity).
  rewrite forallb_forall in Ht. specialize (Ht (N.to_nat n) ltac:(apply in_seq; lia)).
  rewrite N2Nat.id in Ht. cbv zeta in Ht. by bool_facts.
Qed.

Lemma u8_from_hex_byte (b : byte) :
  from_utf8 [upper_hex_char (bval b / 16); upper_hex_char (bval b mod 16)] ≫= u8_from_hex = Some (bval b).
Proof.
  assert (Ht : forallb (fun k => bool_decide (from_utf8 [upper_hex_char (N.of_nat k / 16); upper_hex_char (N.of_nat k mod 16)]
      ≫= u8_from_hex = Some (N.of_nat k))) (List.seq 0 256) = true) by (vm_compute; reflexivity).
  rewrite forallb_forall in Ht. specialize (Ht (N.to_nat (bval b))).
  rewrite N2Nat.id in Ht. apply bool_decide_eq_true in Ht; [exact Ht|]. apply in_seq.
  pose proof (N_ascii_bounded b). unfold bval. lia.
Qed.

(** Decoding undoes encoding, with enough fuel for the longer text. *)
Lemma percent_decode_encode_bytes s fuel :
  (length (percent_encode s) <= fuel)%nat -> percent_decode_bytes fuel (percent_encode s) = s.
Proof.
  revert fuel. induction s as [|b s IH]; intros fuel Hf; [by destruct fuel|].
  unfold percent_encode in *. rewrite fmap_cons in *. cbn [mjoin list_join] in *. set (e := mjoin _) in *.
  destruct (is_unreserved b) eqn:Eu; cbn [app length] in Hf |- *; (destruct fuel as [|fuel]; [lia|]); cbn [percent_decode_bytes].
  - rewrite (bool_decide_eq_false_2 (b = "%"%char)) by (intros ->; vm_compute in Eu; discriminate).
    rewrite IH by lia. by destruct e as [|? [|? ?]].
  - rewrite bool_decide_eq_true_2, u8_from_hex_byte by done.
    rewrite IH by lia. f_equal. unfold bval. apply ascii_N_embedding.
Qed.

Lemma percent_decode_encode s : valid_utf8 s = true -> percent_decode (percent_encode s) = s.
Proof.
  intros Hs. unfold percent_decode. rewrite percent_decode_encode_bytes by done. by apply from_utf8_lossy_id.
Qed.

Lemma percent_encode_text s : Forall (fun b => header_text b = true /\ b <> DQ) (percent_encode s).
Proof.
  unfold percent_encode. apply Forall_join, Forall_fmap, Forall_true. intros b. unfold compose.
  assert (Ht : forallb (fun k => let b := ascii_of_N (N.of_nat k) in
      forallb (fun c => header_text c && negb (bool_decide (c = DQ)))
        (if is_unreserved b then [b] else ["%"%char; upper_hex_char (bval b / 16); upper_hex_char (bval b mod 16)]))
      (List.seq 0 256) = true) by (vm_compute; reflexivity).
  rewrite forallb_forall in Ht. specialize (Ht (N.to_nat (bval b))). cbv zeta in Ht.
  rewrite N2Nat.id in Ht. unfold bval at 2 3 in Ht. rewrite !ascii_N_embedding in Ht.
  rewrite forallb_forall in Ht. apply Forall_forall. intros c Hc%list_elem_of_In. 
  specialize (Ht ltac:(apply in_seq; pose proof (N_ascii_bounded b); unfold bval; lia) c Hc). by bool_facts.
Qed.

Lemma fallback_char_text c : header_text (fallback_char c) = true /\ fallback_char c <> DQ /\ fallback_char c <> "\"%char.
Proof.
  destruct c as [p [v|]]; unfold fallback_char; cbn [snd]; [|done].
  destruct (_ && _) eqn:E; [|done].
  assert (Ht : forallb (fun k => let v := N.of_nat k in
      (char_is_control v || (v =? 34)%N || (v =? 92)%N) ||
      (header_text (ascii_of_N v) && negb (bool_decide (ascii_of_N v = DQ)) && negb (bool_decide (ascii_of_N v = "\"%char))))
      (List.seq 0 128) = true) by (vm_compute; reflexivity).
  rewrite forallb_forall in Ht. specialize (Ht (N.to_nat v)). cbv zeta in Ht. rewrite N2Nat.id in Ht.
  apply andb_prop in E as [[[E1 E2]%andb_prop E3]%andb_prop E4].
  apply negb_true_iff in E2, E3, E4. apply N.ltb_lt in E1. rewrite E2, E3, E4 in Ht.
  specialize (Ht ltac:(apply in_seq; lia)). cbn [orb] in Ht. by bool_facts.
Qed.

Lemma ascii_fallback_text filename :
  ascii_fallback filename <> [] /\
  Forall (fun b => header_text b = true /\ b <> DQ /\ b <> "\"%char) (ascii_fallback filename).
Proof.
  unfold ascii_fallback. case_bool_decide as E.
  - split; [done|]. repeat (constructor; [done|]). constructor.
  - split; [done|]. destruct (trim_infix (fallback_char <$> utf8_chunks filename)) as (l & r & El).
    assert (Hall : Forall (fun b => header_text b = true /\ b <> DQ /\ b <> "\"%char) (fallback_char <$> utf8_chunks filename))
      by (apply Forall_fmap, Forall_true; intros c; apply fallback_char_text).
    rewrite El in Hall. by apply Forall_app in Hall as [_ [? _]%Forall_app].
Qed.

Lemma utf8_chunks_ascii s : is_ascii s = true -> utf8_chunks s = (fun b => ([b], Some (bval b))) <$> s.
Proof.
  unfold is_ascii. induction s as [|b s IH]; [done|]. cbn [forallb]. intros [Hb Hs]%andb_prop.
  cbn [utf8_chunks fmap list_fmap]. rewrite Hb. by rewrite (IH Hs).
Qed.

(** A name that needs no extended form stands in the header as it is. *)
Lemma plain_fallback filename :
  is_ascii filename = true -> needs_extended_encoding filename = false ->
  fallback_char <$> utf8_chunks filename = filename.
Proof.
  intros Ha. unfold needs_extended_encoding. rewrite utf8_chunks_ascii by done. unfold is_ascii in Ha.
  induction filename as [|b s IH]; [done|]. cbn [forallb fmap list_fmap existsb snd] in *.
  apply andb_prop in Ha as [Hb Ha]. intros [E1 E2]%orb_false_iff. apply orb_false_iff in E1 as [[E3 E4]%orb_false_iff E5].
  rewrite (IH Ha E2). f_equal. unfold fallback_char. cbn [snd].
  rewrite Hb, E3, E4, E5. cbn [negb andb]. unfold bval. apply ascii_N_embedding.
Qed.

(** An attacker's file name stays inside its quotes: whatever the
    attachment is called, the [Content-Disposition] value is printable ASCII
    (no CR or LF can start another header), is always [attachment], and its
    quoted [filename] is nonempty and holds no quote and no backslash.  The
    name is not lost either: either the quoted form is the trimmed name
    itself, or the [filename*] parameter decodes to exactly the name, and
    that parameter holds no quote. *)
Theorem attachment_header_safe (filename : str) :
  valid_utf8 filename = true ->
  Forall (fun b => header_text b = true) (attachment_header filename) /\
  exists fallback extended,
    attachment_header filename = # "attachment; filename=" ++ [DQ] ++ fallback ++ [DQ] ++ extended /\
    fallback <> [] /\ DQ ∉ fallback /\ "\"%char ∉ fallback /\
    (extended = [] /\ fallback = (if bool_decide (trim filename = []) then # "attachment" else trim filename) \/
     exists e, extended = # "; filename*=UTF-8''" ++ e /\ percent_decode e = filename /\ DQ ∉ e).
Proof.
  intros Hv. destruct (ascii_fallback_text filename) as [Hne Hall].
  pose proof (percent_encode_text filename) as Hpe.
  assert (Hf : Forall (fun b => header_text b = true) (ascii_fallback filename)) by (eapply Forall_impl; [exact Hall|]; naive_solver).
  assert (He : Forall (fun b => header_text b = true) (percent_encode filename)) by (eapply Forall_impl; [exact Hpe|]; naive_solver).
  rewrite Forall_forall in Hall, Hpe.
  assert (Hq : forall t, Forall (fun b => header_text b = true) t ->
    Forall (fun b => header_text b = true) (# "attachment; filename=" ++ [DQ] ++ ascii_fallback filename ++ [DQ] ++ t)).
  { intros t Ht. apply Forall_app; split; [by repeat constructor|]. apply Forall_app; split; [by repeat constructor|].
    apply Forall_app; split; [done|]. apply Forall_app; split; [by repeat constructor|done]. }
  unfold attachment_header. destruct (_ && _) eqn:E; (split; [|exists (ascii_fallback filename)]).
  - rewrite <- (app_nil_r [DQ]) at 2. by apply Hq.
  - apply andb_prop in E as [Ea En%negb_true_iff]. exists []. split; [done|]. split; [done|].
    split; [by intros [_ [? _]]%Hall|]. split; [by intros [_ [_ ?]]%Hall|]. left. split; [done|].
    unfold ascii_fallback. by rewrite (plain_fallback _ Ea En).
  - apply Hq. apply Forall_app; split; [by repeat constructor|done].
  - eexists. split; [done|]. split; [done|].
    split; [by intros [_ [? _]]%Hall|]. split; [by intros [_ [_ ?]]%Hall|]. right. eexists. split; [done|].
    split; [by apply percent_decode_encode|]. by intros [_ ?]%Hpe.
Qed.

Lemma attachment_header_safe_witness :
  let filename := # "a" ++ [DQ; CR; LF] ++ # "X: y" in
  valid_utf8 filename = true /\ Forall (fun b => header_text b = true) (attachment_header filename).
Proof.
  intros filename. assert (Hv : valid_utf8 filename = true) by (vm_compute; reflexivity).
  split; [exact Hv|]. apply (attachment_header_safe filename Hv).
Defined.

(** ** A small library: one page, cleaned when every element of it is on the
    builder's lists *)
Definition toy_page : Node :=
  Document [Element (# "html") [] [
    Element (# "p") [] [Text (# "hi"); OtherNode];
    Element (# "a") [mkAttribute [] (# "href") (# "https://example.org/x"); mkAttribute [] (# "rel") (# "noopener")] [Text (# "go")];
    Element (# "img") [mkAttribute [] (# "src") (# "https://tracker.example/p.gif")] [];
    Element (# "img") [mkAttribute [] (# "src") (# "cid:logo")] []]].

Definition allowed_attribute_b (b : Builder) (name : str) (a : Attribute) : bool :=
  (str_eqb name (# "a") && str_eqb (at_name a) (# "rel")) ||
  (existsb (fun tl => str_eqb tl.1 name && bool_decide (at_name a ∈ tl.2)) (b_tag_attributes b) &&
   bool_decide (b_attribute_filter b name (at_name a) (at_value a) = Some (at_value a))).

Definition allowed_element_b (b : Builder) (e : str * list Attribute) : bool :=
  match e.2 with
  | [] => str_eqb e.1 (# "html") || bool_decide (e.1 ∈ b_tags b)
  | _ => bool_decide (e.1 ∈ b_tags b) && forallb (allowed_attribute_b b e.1) e.2
  end.

Lemma allowed_element_b_sound b e : allowed_element_b b e = true -> allowed_element b e.
Proof.
  destruct e as [name attrs]. unfold allowed_element_b, allowed_element. cbn [fst snd]. destruct attrs as [|a attrs].
  - intros [E|E]%orb_prop; bool_facts; [by left|]. right. split; [done|constructor].
  - intros [Et Ea]%andb_prop. bool_facts. right. split; [done|]. apply Forall_forall. intros x Hx%list_elem_of_In.
    rewrite forallb_forall in Ea. apply Ea in Hx. unfold allowed_attribute_b in Hx.
    apply orb_prop in Hx as [Hx|Hx]; apply andb_prop in Hx as [H1 H2].
    + bool_facts. by left.
    + right. apply bool_decide_eq_true in H2. split; [|by eexists].
      apply existsb_exists in H1 as ([t l] & Hl%list_elem_of_In & H1). cbn [fst snd] in H1. bool_facts. subst. by exists l.
Qed.

Definition toy_html : HtmlLibrary := {|
  parse_fragment raw := if str_eqb raw (# "page") then toy_page else Document [];
  serialize_children _ := # "<p>hi</p>";
  ammonia_clean_with b raw :=
    if str_eqb raw (# "page") && forallb (allowed_element_b b) (elements toy_page) then raw else [];
  url_scheme v := if starts_with (# "https:") v then Some (# "https") else if starts_with (# "cid:") v then Some (# "cid") else None;
  base64_encode_bytes b := b
|}.

Lemma toy_html_laws : @HtmlLaws toy_html.
Proof.
  constructor. intros b raw. cbn [ammonia_clean_with parse_fragment toy_html]. destruct (_ && _) eqn:E; [|constructor].
  apply andb_prop in E as [-> E]. rewrite forallb_forall in E. apply Forall_forall. intros e He%list_elem_of_In.
  apply allowed_element_b_sound. by apply E.
Qed.

Lemma display_is_inert_witness :
  let result := @sanitize toy_html (# "page") {[ # "logo" := (# "image/png", # "PNG") ]} in
  blocked_image_count result = 1%N /\
  exists dom, html result = @serialize_children toy_html (root_of dom) /\
    Forall (fun e => e.1 = # "html" \/ e.1 ∈ inbound_tags) (elements dom).
Proof.
  intros result. split; [vm_compute; reflexivity|].
  destruct (@display_is_inert toy_html toy_html_laws (# "page") {[ # "logo" := (# "image/png", # "PNG") ]}) as (dom & E & Hall & _).
  exists dom. split; [exact E|]. eapply Forall_impl; [exact Hall|]. intros e [He _]. exact He.
Defined.

Example toy_display_rewrites :
  (@walk toy_html {[ # "logo" := (# "image/png", # "PNG") ]} toy_page 0%N).1
  = Document [Element (# "html") [] [
      Element (# "p") [] [Text (# "hi"); OtherNode];
      Element (# "a") [mkAttribute [] (# "rel") (# "noopener"); mkAttribute [] (# "data-real-href") (# "https://example.org/x");
                       mkAttribute [] (# "href") (# "#")] [Text (# "go")];
      Element (# "img") [mkAttribute [] (# "data-blocked-src") (# "https://tracker.example/p.gif")] [];
      Element (# "img") [mkAttribute [] (# "src") (# "data:image/png;base64,PNG")] []]].
Proof. vm_compute. reflexivity. Qed.
