(* ===== verification/Email.v ===== *)
(** * Email: reading stored messages, [jmap]

    src/crates/jmap/src/email.rs: the JMAP [Email] object of a sealed message,
    its preview and its date; src/crates/jmap/src/search.rs: the full-text
    index a session builds in memory, and the query text given to it.  The
    RFC 5322 parser and the FTS5 engine are parameters. *)

From stdpp Require Import base list strings gmap sorting.
From Stdlib Require Import Ascii ZArith Lia.
From S2P Require Import Prelude RustStr Header Store Sealing Delivery Html.
Import Store.Blob Store.Metadata.

(** ** What is read of a parsed message *)
Record MailPart : Type := mkPart {
  part_content_type : option (str * option str);
  part_contents : str;
  attachment_name : option str;
  content_id : option str
}.

(** An address header is absent, a group, or a list of names with addresses. *)
Record MailMessage : Type := mkMail {
  mm_attachments : list MailPart;
  mm_from : option (option (list (option str * option str)));
  mm_to : option (option (list (option str * option str)));
  mm_subject : option str;
  mm_body_text : option str;
  mm_html_body_count : nat;
  mm_body_html : option str
}.

Class MailParser : Type := { parse_message : str -> option MailMessage }.

(** ** JMAP objects, types.rs *)
Record EmailAddress : Type := mkAddress { ea_name : option str; ea_email : str }.

Record EmailAttachment : Type := mkEmailAttachment {
  at_blob_id : str; at_file : str; at_type : str; at_size : Z
}.

Record EmailObject : Type := mkEmail {
  em_id : str;
  em_thread_id : str;
  em_mailbox_ids : gmap str bool;
  em_keywords : gmap str bool;
  em_from : list EmailAddress;
  em_to : list EmailAddress;
  em_subject : option str;
  em_received_at : str;
  em_preview : str;
  em_body_text : option str;
  em_size : Z;
  em_message_id : option str;
  em_in_reply_to : option str;
  em_spam_score : option f64;
  em_av_clean : option bool;
  em_body_html : option str;
  em_blocked_image_count : option N;
  em_attachments : list EmailAttachment;
  em_snoozed_until : option Z;
  em_nudge_at : option Z
}.

(** ** Dates *)
Definition civil_from_days (z : Z) : Z * Z * Z := (
  let z := z + 719468 in
  let era := Z.quot (if 0 <=? z then z else z - 146096) 146097 in
  let doe := z - era * 146097 in
  let yoe := (doe - doe / 1460 + doe / 36524 - doe / 146096) / 365 in
  let y := yoe + era * 400 in
  let doy := doe - (365 * yoe + yoe / 4 - yoe / 100) in
  let mp := (5 * doy + 2) / 153 in
  let d := doy - (153 * mp + 2) / 5 + 1 in
  let m := if mp <? 10 then mp + 3 else mp - 9 in
  let y := if m <=? 2 then y + 1 else y in
  (y, m, d))%Z.

Definition iso8601 (unix_secs : Z) : str := (
  let days_since_epoch := unix_secs / 86400 in
  let secs_of_day := unix_secs mod 86400 in
  let '(year, month, day) := civil_from_days days_since_epoch in
  let hour := secs_of_day / 3600 in
  let minute := (secs_of_day mod 3600) / 60 in
  let second := secs_of_day mod 60 in
  dec_width 4 year ++ # "-" ++ dec_width 2 month ++ # "-" ++ dec_width 2 day ++ # "T" ++ dec_width 2 hour
     ++ # ":" ++ dec_width 2 minute ++ # ":" ++ dec_width 2 second ++ # "Z")%Z.

(** ** Previews *)
Definition PREVIEW_LEN : nat := 200.

Definition ellipsis : str := [ascii_of_N 226; ascii_of_N 128; ascii_of_N 166].

Definition truncate (text : str) (max_chars : nat) : str :=
  let collapsed := join (# " ") (split_whitespace text) in
  if (length (utf8_chunks collapsed) <=? max_chars)%nat then collapsed
  else mjoin (fst <$> take max_chars (utf8_chunks collapsed)) ++ ellipsis.

Definition addresses (addr : option (option (list (option str * option str)))) : list EmailAddress :=
  match addr with
  | Some (Some l) => omap (fun '(name, address) => mkAddress name <$> address) l
  | _ => []
  end.

(** ** Opening a message *)
Definition part_type (part : MailPart) : str :=
  match part_content_type part with
  | Some (ty, Some sub) => ty ++ # "/" ++ sub
  | Some (ty, None) => ty
  | None => # "application/octet-stream"
  end.

(** [properties.is_none_or(|p| p.contains(field))]. *)
Definition wants (properties : option (list str)) (field : str) : bool :=
  match properties with Some p => bool_decide (field ∈ p) | None => true end.

Definition email_attachment (id : Z) (index : nat) (part : MailPart) : EmailAttachment :=
  mkEmailAttachment (# "m" ++ dec id ++ # "." ++ dec (Z.of_nat index)) (default (# "attachment") (attachment_name part))
    (part_type part) (Z.of_nat (length (part_contents part))).

(** The inline image a part offers. *)
Definition cid_image (part : MailPart) : option (str * (str * str)) :=
  cid ← content_id part;
  if bool_decide (part_type part ∈ ALLOWED_CID_IMAGE_TYPES) then Some (cid, (part_type part, part_contents part)) else None.

(** Later parts win, as [HashMap::insert] does. *)
Definition cid_images_of (parts : list MailPart) : CidImages :=
  foldl (fun m (kv : str * (str * str)) => <[kv.1 := kv.2]> m) ∅ (omap cid_image parts).

Definition keyword_list (keywords : str) : list str :=
  List.filter (fun k => negb (bool_decide (k = []))) (split_on "," keywords).

Section Open.
Context `{Primitives} `{BlobHash} `{MailParser} `{HtmlLibrary}.

Definition email_object (stored : StoredMessage) (message : option MailMessage) (properties : option (list str))
    : EmailObject :=
  let need_attachments := wants properties (# "attachments") in
  let need_html := wants properties (# "bodyHtml") in
  let parts := match message with Some m => mm_attachments m | None => [] end in
  let attachments := if need_attachments then imap (email_attachment (m_id stored)) parts else [] in
  let cid_images := if need_html then cid_images_of parts else ∅ in
  let sanitized_html :=
    m ← message;
    if need_html && (0 <? mm_html_body_count m)%nat
    then (fun h => sanitize h cid_images) <$> mm_body_html m else None in
  let body_text := message ≫= mm_body_text in
  let row := m_row stored in {|
    em_id := # "m" ++ dec (m_id stored);
    em_thread_id := # "t" ++ dec (thread_id row);
    em_mailbox_ids := {[ # "b" ++ dec (mailbox_id row) := true ]};
    em_keywords := list_to_map ((fun k => (k, true)) <$> keyword_list (keywords row));
    em_from := match message with Some m => addresses (mm_from m) | None => [] end;
    em_to := match message with Some m => addresses (mm_to m) | None => [] end;
    em_subject := message ≫= mm_subject;
    em_received_at := iso8601 (received_at row);
    em_preview := match body_text with Some t => truncate t PREVIEW_LEN | None => [] end;
    em_body_text := body_text;
    em_size := size_bytes row;
    em_message_id := message_id_header row;
    em_in_reply_to := in_reply_to row;
    em_spam_score := spam_score row;
    em_av_clean := av_clean row;
    em_body_html := html <$> sanitized_html;
    em_blocked_image_count := blocked_image_count <$> sanitized_html;
    em_attachments := attachments;
    em_snoozed_until := None;
    em_nudge_at := None |}.

Definition open_and_parse (blobs : BlobStore) (stored : StoredMessage) (account_priv : str)
    (properties : option (list str)) : exec (Result EmailObject) :=
  raw ← open_message blobs (m_row stored) account_priv;
  match raw with
  | Err e => mret (Err e)
  | Ok raw => mret (Ok (email_object stored (parse_message raw) properties))
  end.

End Open.

(** ** Search, search.rs *)
Abbreviation Doc := (Z * str * str)%type.

(** SQLite's FTS5 over a table of documents: the row ids [MATCH] finds, best
    first, or an error. *)
Class FullText : Type := { fts5_match : list Doc -> str -> result str (list Z) }.

(** The index, once built. *)
Abbreviation SearchIndex := (option (list Doc)).

Definition DQUOTE : byte := ascii_of_N 34.

Definition quote_token (tok : str) : str := [DQUOTE] ++ replace_byte DQUOTE [DQUOTE; DQUOTE] tok ++ [DQUOTE; "*"%char].

Definition fts5_query (query : str) : str := join (# " ") (quote_token <$> split_whitespace query).

Section Search.
Context `{Primitives} `{BlobHash} `{MailParser} `{FullText}.

(** A message that does not open, or does not parse, is left out. *)
Definition index_doc (blobs : BlobStore) (account_priv : str) (stored : StoredMessage) : exec (option Doc) :=
  raw ← open_message blobs (m_row stored) account_priv;
  mret (match raw with
        | Err _ => None
        | Ok raw => (fun m => (m_id stored, default [] (mm_subject m), default [] (mm_body_text m))) <$> parse_message raw
        end).

Fixpoint index_docs (blobs : BlobStore) (account_priv : str) (l : list StoredMessage) : exec (list Doc) :=
  match l with
  | [] => mret []
  | stored :: l =>
      d ← index_doc blobs account_priv stored;
      ds ← index_docs blobs account_priv l;
      mret (option_list d ++ ds)
  end.

Definition build_index (blobs : BlobStore) (metadata : MetadataStore) (account : Z) (account_priv : str)
    : exec (Result (list Doc)) :=
  match messages_for_account metadata account with
  | Err e => mret (Err e)
  | Ok l => docs ← index_docs blobs account_priv l; mret (Ok docs)
  end.

Definition search (blobs : BlobStore) (metadata : MetadataStore) (account : Z) (account_priv query : str)
    : St SearchIndex (Result (list Z)) :=
  guard ← st_get;
  built ← match guard with
          | Some docs => mret (Ok docs)
          | None => st_exec (build_index blobs metadata account account_priv)
          end;
  match built with
  | Err e => mret (Err e)
  | Ok docs =>
      _ ← st_put (Some docs);
      mret (match fts5_match docs (fts5_query query) with Ok ids => Ok ids | Err e => Err (Storage e) end)
  end.

End Search.

(** ** The calendar *)
Definition is_leap (y : Z) : bool := ((y mod 4 =? 0) && (negb (y mod 100 =? 0) || (y mod 400 =? 0)))%Z.

Definition month_length (y m : Z) : Z :=
  (if m =? 2 then if is_leap y then 29 else 28
   else if (m =? 4) || (m =? 6) || (m =? 9) || (m =? 11) then 30 else 31)%Z.

(** The day after a date, in the Gregorian calendar. *)
Definition next_day (date : Z * Z * Z) : Z * Z * Z :=
  let '(y, m, d) := date in
  (if d <? month_length y m then (y, m, d + 1)
   else if m <? 12 then (y, m + 1, 1) else (y + 1, 1, 1))%Z.

(** The date inside an era of 400 years, from its day. *)
Definition era_date (doe : Z) : Z * Z * Z := (
  let yoe := (doe - doe / 1460 + doe / 36524 - doe / 146096) / 365 in
  let doy := doe - (365 * yoe + yoe / 4 - yoe / 100) in
  let mp := (5 * doy + 2) / 153 in
  let d := doy - (153 * mp + 2) / 5 + 1 in
  let m := if mp <? 10 then mp + 3 else mp - 9 in
  (if m <=? 2 then yoe + 1 else yoe, m, d))%Z.

Definition shift_years (k : Z) (date : Z * Z * Z) : Z * Z * Z := let '(y, m, d) := date in ((y + k)%Z, m, d).

Lemma trunc_era z : Z.quot (if (0 <=? z)%Z then z else (z - 146096)%Z) 146097 = (z / 146097)%Z.
Proof.
  destruct (0 <=? z)%Z eqn:E; [apply Z.leb_le in E; by apply Z.quot_div_nonneg|]. apply Z.leb_gt in E.
  replace (z - 146096)%Z with (- (146096 - z))%Z by lia. rewrite Z.quot_opp_l, Z.quot_div_nonneg by lia.
  pose proof (Z.div_mod z 146097 ltac:(lia)). pose proof (Z.mod_pos_bound z 146097 ltac:(lia)).
  symmetry. apply Z.opp_inj. rewrite Z.opp_involutive.
  apply (Z.div_unique _ _ _ (146096 - z mod 146097)); lia.
Qed.

Lemma civil_by_era z :
  civil_from_days z = shift_years (400 * ((z + 719468) / 146097)) (era_date ((z + 719468) mod 146097)).
Proof.
  unfold civil_from_days, era_date, shift_years. rewrite trunc_era. set (w := (z + 719468)%Z).
  replace (w - w / 146097 * 146097)%Z with (w mod 146097)%Z by (rewrite Z.mod_eq; lia).
  set (doe := (w mod 146097)%Z). cbv zeta. set (yoe := (_ / 365)%Z). set (m := if (_ <? 10)%Z then _ else _).
  destruct (m <=? 2)%Z; f_equal; f_equal; lia.
Qed.

Lemma next_day_shift k date : next_day (shift_years (400 * k) date) = shift_years (400 * k) (next_day date).
Proof.
  destruct date as [[y m] d]. unfold next_day, shift_years, month_length, is_leap.
  assert (H4 : ((y + 400 * k) mod 4 = y mod 4)%Z) by (replace (y + 400 * k)%Z with (y + (100 * k) * 4)%Z by lia; apply Z.mod_add; lia).
  assert (H100 : ((y + 400 * k) mod 100 = y mod 100)%Z) by (replace (y + 400 * k)%Z with (y + (4 * k) * 100)%Z by lia; apply Z.mod_add; lia).
  assert (H400 : ((y + 400 * k) mod 400 = y mod 400)%Z) by (replace (y + 400 * k)%Z with (y + k * 400)%Z by lia; apply Z.mod_add; lia).
  rewrite H4, H100, H400. destruct (_ <? _)%Z; [done|]. destruct (m <? 12)%Z; [done|]. f_equal. f_equal. lia.
Qed.

(** A year of the era starts on 1 March; leap days fall at its end. *)
Definition year_start (n : Z) : Z := (365 * n + n / 4 - n / 100 + n / 400)%Z.

Definition year_of (doe : Z) : Z := ((doe - doe / 1460 + doe / 36524 - doe / 146096) / 365)%Z.

Definition month_of_day (doy : Z) : Z := let mp := ((5 * doy + 2) / 153)%Z in (if mp <? 10 then mp + 3 else mp - 9)%Z.
Definition day_of_day (doy : Z) : Z := (doy - (153 * ((5 * doy + 2) / 153) + 2) / 5 + 1)%Z.

Definition date_in_year (n doy : Z) : Z * Z * Z :=
  ((if (month_of_day doy <=? 2)%Z then n + 1 else n)%Z, month_of_day doy, day_of_day doy).

Lemma year_of_mono a b : (0 <= a <= b)%Z -> (year_of a <= year_of b)%Z.
Proof.
  intros Hab. apply Z.div_le_mono; [lia|].
  assert (Hstep : forall k, (0 <= k)%Z -> forall a, (0 <= a)%Z ->
    (a - a / 1460 + a / 36524 - a / 146096 <= a + k - (a + k) / 1460 + (a + k) / 36524 - (a + k) / 146096)%Z).
  { apply (natlike_ind (fun k => forall a, (0 <= a)%Z -> _)); [intros c _; rewrite Z.add_0_r; lia|].
    intros k Hk IH c Hc. etransitivity; [apply (IH c Hc)|]. replace (c + Z.succ k)%Z with (c + k + 1)%Z by lia.
    Z.to_euclidean_division_equations. lia. }
  specialize (Hstep (b - a)%Z ltac:(lia) a ltac:(lia)). by replace (a + (b - a))%Z with b in Hstep by lia.
Qed.

(** What the proof needs of each of the 400 years, and of each of the days of
    a year before its last two, by computation. *)
Definition year_check (k : nat) : bool :=
  let n := Z.of_nat k in
  ((year_of (year_start n) =? n) && (year_of (year_start (n + 1) - 1) =? n) &&
   (year_start (n + 1) - year_start n =? (if is_leap (n + 1) then 366 else 365)))%Z.

Definition day_check (k : nat) : bool :=
  let doy := Z.of_nat k in
  forallb (fun leap : bool =>
    let len := (if month_of_day doy =? 2 then if leap then 29 else 28
                else if (month_of_day doy =? 4) || (month_of_day doy =? 6) || (month_of_day doy =? 9) || (month_of_day doy =? 11)
                then 30 else 31)%Z in
    (if day_of_day doy <? len then
       (month_of_day (doy + 1) =? month_of_day doy) && (day_of_day (doy + 1) =? day_of_day doy + 1)
     else if month_of_day doy <? 12 then
       (month_of_day (doy + 1) =? month_of_day doy + 1) && (day_of_day (doy + 1) =? 1) && negb (month_of_day doy =? 2)
     else (month_of_day (doy + 1) =? 1) && (day_of_day (doy + 1) =? 1))%Z) [true; false].

Lemma year_facts n : (0 <= n < 400)%Z ->
  year_of (year_start n) = n /\ year_of (year_start (n + 1) - 1) = n /\
  (year_start (n + 1) - year_start n = if is_leap (n + 1) then 366 else 365)%Z.
Proof.
  intros Hn. assert (Ht : forallb year_check (List.seq 0 400) = true) by (vm_compute; reflexivity).
  rewrite forallb_forall in Ht. specialize (Ht (Z.to_nat n) ltac:(apply in_seq; lia)). unfold year_check in Ht.
  rewrite Z2Nat.id in Ht by lia. cbv zeta in Ht. apply andb_prop in Ht as [[H1 H2]%andb_prop H3].
  by rewrite !Z.eqb_eq in *.
Qed.

Lemma year_of_spec n doe : (0 <= n < 400)%Z -> (year_start n <= doe < year_start (n + 1))%Z -> year_of doe = n.
Proof.
  intros Hn Hd. destruct (year_facts n Hn) as (H1 & H2 & _).
  assert (H0 : (0 <= year_start n)%Z) by (unfold year_start; Z.to_euclidean_division_equations; lia).
  pose proof (year_of_mono (year_start n) doe ltac:(lia)). pose proof (year_of_mono doe (year_start (n + 1) - 1) ltac:(lia)).
  lia.
Qed.

Lemma year_exists N doe : (0 <= N)%Z -> (0 <= doe < year_start N)%Z ->
  exists n, (0 <= n < N)%Z /\ (year_start n <= doe < year_start (n + 1))%Z.
Proof.
  revert N. apply (natlike_ind (fun N => (0 <= doe < year_start N)%Z ->
    exists n, (0 <= n < N)%Z /\ (year_start n <= doe < year_start (n + 1))%Z)); [change (year_start 0) with 0%Z; lia|].
  intros N HN IH Hd. destruct (decide (doe < year_start N)%Z) as [Hlt|Hge].
  - destruct (IH ltac:(lia)) as (n & ? & ?). exists n. split; [lia|done].
  - exists N. split; [lia|]. rewrite Z.add_1_r. lia.
Qed.

Lemma next_day_in_year n doy : (0 <= doy < 364)%Z -> next_day (date_in_year n doy) = date_in_year n (doy + 1).
Proof.
  intros Hd. assert (Ht : forallb day_check (List.seq 0 364) = true) by (vm_compute; reflexivity).
  rewrite forallb_forall in Ht. specialize (Ht (Z.to_nat doy) ltac:(apply in_seq; lia)). unfold day_check in Ht.
  rewrite Z2Nat.id in Ht by lia. cbv zeta in Ht. rewrite forallb_forall in Ht.
  unfold next_day, date_in_year, month_length. set (y := if (month_of_day doy <=? 2)%Z then _ else _).
  specialize (Ht (is_leap y) ltac:(destruct (is_leap y); cbn; auto)).
  destruct (day_of_day doy <? _)%Z.
  - apply andb_prop in Ht as [->%Z.eqb_eq ->%Z.eqb_eq]. done.
  - destruct (month_of_day doy <? 12)%Z eqn:E.
    + apply andb_prop in Ht as [[Hm ->%Z.eqb_eq]%andb_prop H2]. apply Z.eqb_eq in Hm. apply negb_true_iff, Z.eqb_neq in H2.
      rewrite Hm. f_equal. f_equal. destruct (month_of_day doy <=? 2)%Z eqn:E1, (month_of_day doy + 1 <=? 2)%Z eqn:E2;
        lia.
    + apply andb_prop in Ht as [->%Z.eqb_eq ->%Z.eqb_eq]. apply Z.ltb_ge in E. f_equal. f_equal. subst y.
      cbn [Z.leb Z.compare Pos.compare Pos.compare_cont]. destruct (month_of_day doy <=? 2)%Z eqn:E1; lia.
Qed.

Lemma era_date_in_year n doe : (0 <= n < 400)%Z -> (year_start n <= doe < year_start (n + 1))%Z ->
  era_date doe = date_in_year n (doe - year_start n).
Proof.
  intros Hn Hd. pose proof (year_of_spec n doe Hn Hd) as Hy. unfold era_date, date_in_year, month_of_day, day_of_day.
  fold (year_of doe). rewrite Hy. cbv zeta.
  replace (365 * n + n / 4 - n / 100)%Z with (year_start n) by (unfold year_start; rewrite (Z.div_small n 400); lia).
  done.
Qed.

Lemma year_end n : date_in_year n 364 = (n + 1, 2, 28)%Z /\ date_in_year n 365 = (n + 1, 2, 29)%Z /\
  date_in_year n 0 = (n, 3, 1)%Z.
Proof. done. Qed.

Lemma era_days doe : (0 <= doe < 146096)%Z -> next_day (era_date doe) = era_date (doe + 1).
Proof.
  intros Hd. destruct (year_exists 400 doe ltac:(lia)) as (n & Hn & Hs); [change (year_start 400) with 146097%Z; lia|].
  destruct (year_facts n Hn) as (_ & _ & Hlen). rewrite (era_date_in_year n doe Hn Hs).
  destruct (year_end n) as (E4 & E5 & _). destruct (year_end (n + 1)) as (_ & _ & E0).
  assert (Hnext : (doe + 1 = year_start (n + 1))%Z -> era_date (doe + 1) = (n + 1, 3, 1)%Z).
  { intros E. assert (n <> 399)%Z by (intros ->; change (year_start (399 + 1)) with 146097%Z in E; lia).
    destruct (year_facts (n + 1) ltac:(lia)) as (_ & _ & Hl).
    rewrite (era_date_in_year (n + 1)) by (try destruct (is_leap (n + 1 + 1)); lia).
    rewrite E, Z.sub_diag. exact E0. }
  assert (Hsame : (doe + 1 < year_start (n + 1))%Z -> era_date (doe + 1) = date_in_year n (doe - year_start n + 1)).
  { intros Hlt. rewrite (era_date_in_year n) by lia. f_equal. lia. }
  destruct (decide (doe - year_start n < 364)%Z) as [Hlt|Hge].
  - rewrite Hsame by (destruct (is_leap (n + 1)); lia). by apply next_day_in_year; lia.
  - destruct (is_leap (n + 1)) eqn:El; [|].
    + destruct (decide (doe - year_start n = 364)%Z) as [E|Hne].
      * rewrite Hsame, E by lia. change (364 + 1)%Z with 365%Z. rewrite E4, E5. unfold next_day, month_length.
        cbn [Z.eqb Pos.eqb]. by rewrite El.
      * rewrite Hnext by lia. replace (doe - year_start n)%Z with 365%Z by lia. rewrite E5. unfold next_day, month_length.
        cbn [Z.eqb Pos.eqb]. by rewrite El.
    + rewrite Hnext by lia. replace (doe - year_start n)%Z with 364%Z by lia. rewrite E4. unfold next_day, month_length.
      cbn [Z.eqb Pos.eqb]. by rewrite El.
Qed.

(** C40.  The date in a message is the Gregorian one: day 0 is 1 January
    1970, and on every day, before and after, the arithmetic of
    [civil_from_days] steps as the calendar does, through month ends and leap
    years. *)
Theorem civil_from_days_is_gregorian (z : Z) :
  civil_from_days 0 = (1970, 1, 1)%Z /\ civil_from_days (z + 1) = next_day (civil_from_days z).
Proof.
  split; [by vm_compute|]. rewrite !civil_by_era, next_day_shift.
  replace (z + 1 + 719468)%Z with (z + 719468 + 1)%Z by lia. set (w := (z + 719468)%Z).
  pose proof (Z.mod_pos_bound w 146097 ltac:(lia)) as Hb. pose proof (Z.div_mod w 146097 ltac:(lia)) as Hd.
  destruct (decide (w mod 146097 = 146096)%Z) as [E|E].
  - assert (E1 : ((w + 1) / 146097 = w / 146097 + 1)%Z) by (symmetry; apply (Z.div_unique _ _ _ 0); lia).
    assert (E2 : ((w + 1) mod 146097 = 0)%Z) by (symmetry; apply (Z.mod_unique _ _ (w / 146097 + 1)); lia).
    rewrite E1, E2, E. set (q := (w / 146097)%Z).
    change (era_date 0) with (shift_years (-400) (next_day (era_date 146096))).
    destruct (next_day (era_date 146096)) as [[y m] d]. unfold shift_years. f_equal. f_equal. lia.
  - assert (E1 : ((w + 1) / 146097 = w / 146097)%Z) by (symmetry; apply (Z.div_unique _ _ _ (w mod 146097 + 1)); lia).
    assert (E2 : ((w + 1) mod 146097 = w mod 146097 + 1)%Z) by (symmetry; apply (Z.mod_unique _ _ (w / 146097)); lia).
    rewrite E1, E2. by rewrite era_days by lia.
Qed.

(** ** Query text

    FTS5's own reading of a query made of strings: a string runs to the first
    quote that is not doubled, an asterisk right behind it asks for a prefix,
    strings side by side must all match.  Anything else (an operator, a bare
    word) is [None] here. *)
Fixpoint fts5_string (s : str) : option (str * str) :=
  match s with
  | [] => None
  | b :: r =>
      if bool_decide (b = DQUOTE) then
        match r with
        | b2 :: r2 => if bool_decide (b2 = DQUOTE) then prod_map (cons DQUOTE) id <$> fts5_string r2 else Some ([], r)
        | [] => Some ([], [])
        end
      else prod_map (cons b) id <$> fts5_string r
  end.

Fixpoint fts5_phrases (fuel : nat) (s : str) : option (list (str * bool)) :=
  match fuel, s with
  | O, _ => None
  | _, [] => Some []
  | S fuel, b :: r =>
      if bool_decide (b = " "%char) then fts5_phrases fuel r
      else if bool_decide (b = DQUOTE) then
        '(t, r) ← fts5_string r;
        match strip_prefix (# "*") r with
        | Some r => cons (t, true) <$> fts5_phrases fuel r
        | None => cons (t, false) <$> fts5_phrases fuel r
        end
      else None
  end.

Lemma fts5_string_quoted tok rest :
  fts5_string (replace_byte DQUOTE [DQUOTE; DQUOTE] tok ++ DQUOTE :: "*"%char :: rest) = Some (tok, "*"%char :: rest).
Proof.
  induction tok as [|b tok IH]; [done|].
  change (replace_byte DQUOTE [DQUOTE; DQUOTE] (b :: tok))
    with ((if bool_decide (b = DQUOTE) then [DQUOTE; DQUOTE] else [b]) ++ replace_byte DQUOTE [DQUOTE; DQUOTE] tok).
  rewrite <- app_assoc. case_bool_decide as E; [subst b|]; cbn [app fts5_string].
  - rewrite !bool_decide_eq_true_2 by done. by rewrite IH.
  - rewrite bool_decide_eq_false_2 by done. by rewrite IH.
Qed.

Lemma fts5_phrases_quoted toks : forall fuel, (length (join (# " ") (quote_token <$> toks)) < fuel)%nat ->
  fts5_phrases fuel (join (# " ") (quote_token <$> toks)) = Some ((fun t => (t, true)) <$> toks).
Proof.
  assert (Hq : forall fuel tok rest, fts5_phrases (S fuel) (quote_token tok ++ rest) = cons (tok, true) <$> fts5_phrases fuel rest).
  { intros fuel tok rest. unfold quote_token. rewrite <- !app_assoc. cbn [app fts5_phrases].
    rewrite bool_decide_eq_false_2, bool_decide_eq_true_2 by done. by rewrite fts5_string_quoted. }
  assert (Hl : forall tok, (1 < length (quote_token tok))%nat) by (intros; unfold quote_token; rewrite !length_app; cbn; lia).
  induction toks as [|t [|t2 toks] IH]; intros fuel Hf; [by destruct fuel; [cbn in Hf; lia|]|..].
  - destruct fuel as [|fuel]; [lia|]. cbn [fmap list_fmap join] in *.
    rewrite <- (app_nil_r (quote_token t)), Hq. destruct fuel as [|fuel]; [specialize (Hl t); lia|]. done.
  - destruct fuel as [|fuel]; [lia|]. rewrite !fmap_cons in *. cbn [join] in *. rewrite !length_app in Hf.
    rewrite Hq. specialize (Hl t). destruct fuel as [|fuel]; [lia|]. cbn [app lit String.list_ascii_of_string fts5_phrases].
    rewrite bool_decide_eq_true_2 by done. rewrite IH; [done|]. cbn [length] in Hf. lia.
Qed.

(** Free text stays text: whatever a user types, FTS5 reads the query
    as a list of quoted prefixes, one for each word of the input and equal to
    it -- no operator, column filter or unbalanced quote of the input is seen
    by the engine's grammar. *)
Theorem fts5_query_is_literal (query : str) :
  fts5_phrases (S (length (fts5_query query))) (fts5_query query)
  = Some ((fun word => (word, true)) <$> split_whitespace query).
Proof. apply fts5_phrases_quoted. unfold fts5_query. lia. Qed.

(** ** The index holds the account's own messages *)
Section IndexFacts.
Context `{Primitives} `{BlobHash} `{MailParser}.

Lemma index_docs_ids blobs account_priv l docs : index_docs blobs account_priv l = Done docs ->
  forall d, d ∈ docs -> d.1.1 ∈ m_id <$> l.
Proof.
  revert docs. induction l as [|m l IH]; intros docs; cbn [index_docs]; [by intros [= <-] d Hd%elem_of_nil|].
  unfold mbind, exec_bind. destruct (index_doc blobs account_priv m) as [o|] eqn:Ei; [|done].
  destruct (index_docs blobs account_priv l) as [ds|] eqn:Ed; [|done]. intros [= <-] d [Hd|Hd]%elem_of_app.
  - rewrite fmap_cons. apply elem_of_cons. left. revert Ei Hd. unfold index_doc, mbind, exec_bind.
    destruct (open_message _ _ _) as [[raw|e]|]; [|by intros [= <-] Hd%elem_of_nil|done].
    intros [= <-]. destruct (parse_message raw); [|by intros Hd%elem_of_nil].
    cbn [option_list fmap option_fmap option_map option_rect]. by intros ->%list_elem_of_singleton.
  - rewrite fmap_cons. apply elem_of_cons. right. by apply (IH ds).
Qed.

(** What a freshly built index lists. *)
Lemma build_index_own blobs metadata account account_priv docs :
  build_index blobs metadata account account_priv = Done (Ok docs) ->
  forall d, d ∈ docs -> exists m, m ∈ messages metadata /\ m_id m = d.1.1 /\ account_id (m_row m) = account.
Proof.
  unfold build_index, messages_for_account. unfold mbind, exec_bind.
  destruct (index_docs _ _ _) as [ds|] eqn:E; [|done]. intros [= <-] d Hd.
  pose proof (index_docs_ids _ _ _ _ E d Hd) as (m & Em & Hm)%list_elem_of_fmap.
  rewrite (merge_sort_Permutation newer) in Hm. apply elem_of_filter_list in Hm as [Hm Ha].
  exists m. split; [done|]. split; [done|]. unfold in_account in Ha. by bool_facts.
Qed.

End IndexFacts.
