(* ===== verification/Compose.v ===== *)
(** * Compose: assembling an outgoing message, [jmap]

    src/crates/jmap/src/compose.rs: the checks on every value that becomes a
    header, the Message-ID, and what is handed to the MIME builder, which is
    a parameter. *)

From stdpp Require Import base list strings gmap sorting.
From Stdlib Require Import Ascii ZArith Lia.
From S2P Require Import Prelude RustStr Input Header Sealing Auth.

(** types.rs *)
Record EmailAddressIn : Type := mkAddressIn { ai_name : option str; ai_email : str }.

Record RawMessage : Type := mkRaw { raw_bytes : str; raw_message_id : str }.

Record Attachment : Type := mkAttachment { att_filename : str; att_content_type : str; att_bytes : str }.

Record InlineImage : Type := mkInline { inl_content_id : str; inl_content_type : str; inl_bytes : str }.

(** The calls made on [mail_builder::MessageBuilder], as its fields. *)
Record MessageBuilder : Type := mkMessageBuilder {
  mb_from : str;
  mb_message_id : str;
  mb_date : Z;
  mb_subject : str;
  mb_text_body : str;
  mb_html_body : option str;
  mb_to : option (list (option str * str));
  mb_cc : option (list (option str * str));
  mb_in_reply_to : option (list str);
  mb_references : option (list str);
  mb_attachments : list Attachment;
  mb_inline : list InlineImage
}.

Class MimeWriter : Type := { write_message : MessageBuilder -> result str str }.

Definition to_address_list (addrs : list EmailAddressIn) : list (option str * str) :=
  (fun a => (match ai_name a with Some (b :: l) => Some (b :: l) | _ => None end, ai_email a)) <$> addrs.

Definition parse_message_ids (header_value : str) : list str :=
  (fun id => trim_end_byte ">" (trim_start_byte "<" id)) <$> split_whitespace header_value.

(** [bytes] are the random ones. *)
Definition generate_message_id (bytes from_address : str) : str :=
  let domain := match rsplit_once "@" from_address with Some (_, d) => d | None => # "localhost" end in
  hex_encode bytes ++ # "@" ++ domain.

(** [value.is_some_and(|value| !valid_header_value(value))]. *)
Definition bad_header (value : option str) : bool :=
  match value with Some v => negb (valid_header_value v) | None => false end.

Definition refused (from_address : str) (to cc : list EmailAddressIn) (subject in_reply_to_header references_header : option str)
    (attachments : list Attachment) (inline_images : list InlineImage) : bool :=
  negb (valid_email_address from_address)
  || bad_header subject || bad_header in_reply_to_header || bad_header references_header
  || existsb (fun a => negb (valid_email_address (ai_email a)) || bad_header (ai_name a)) (to ++ cc)
  || existsb (fun a => negb (valid_header_value (att_filename a)) || negb (valid_header_value (att_content_type a))) attachments
  || existsb (fun i => negb (valid_header_value (inl_content_id i)) || negb (valid_header_value (inl_content_type i))) inline_images.

Definition builder_for (message_id from_address : str) (to cc : list EmailAddressIn)
    (subject body_text body_html in_reply_to_header references_header : option str) (sent_at : Z)
    (attachments : list Attachment) (inline_images : list InlineImage) : MessageBuilder := {|
  mb_from := from_address;
  mb_message_id := message_id;
  mb_date := sent_at;
  mb_subject := default [] subject;
  mb_text_body := default [] body_text;
  mb_html_body := body_html;
  mb_to := match to with [] => None | _ => Some (to_address_list to) end;
  mb_cc := match cc with [] => None | _ => Some (to_address_list cc) end;
  mb_in_reply_to := parse_message_ids <$> in_reply_to_header;
  mb_references := parse_message_ids <$> references_header;
  mb_attachments := attachments;
  mb_inline := inline_images |}.

Definition build `{MimeWriter} (bytes from_address : str) (to cc : list EmailAddressIn)
    (subject body_text body_html in_reply_to_header references_header : option str) (sent_at : Z)
    (attachments : list Attachment) (inline_images : list InlineImage) : result str RawMessage :=
  if refused from_address to cc subject in_reply_to_header references_header attachments inline_images
  then Err (# "invalid message header value")
  else
    let message_id := generate_message_id bytes from_address in
    match write_message (builder_for message_id from_address to cc subject body_text body_html in_reply_to_header
                           references_header sent_at attachments inline_images) with
    | Err e => Err (# "failed to assemble message: " ++ e)
    | Ok b => Ok (mkRaw b message_id)
    end.

(** ** What reaches a header *)
Definition address_strings (l : option (list (option str * str))) : list str :=
  mjoin ((fun a => a.2 :: option_list a.1) <$> default [] l).

Definition header_strings (b : MessageBuilder) : list str :=
  [mb_from b; mb_message_id b; mb_subject b] ++ address_strings (mb_to b) ++ address_strings (mb_cc b)
  ++ default [] (mb_in_reply_to b) ++ default [] (mb_references b)
  ++ mjoin ((fun a => [att_filename a; att_content_type a]) <$> mb_attachments b)
  ++ mjoin ((fun i => [inl_content_id i; inl_content_type i]) <$> mb_inline b).

Definition clean (s : str) : Prop := Forall (fun b => control_byte b = false) s.

Lemma valid_header_clean v : valid_header_value v = true -> clean v.
Proof. intros Hv. apply Forall_forall. intros b. by apply valid_header_value_no_control. Qed.

Lemma valid_email_clean v : valid_email_address v = true -> clean v.
Proof. intros Hv. by apply valid_header_clean, valid_email_header. Qed.

Lemma words_bytes l : forall cur w b, w ∈ words l cur -> b ∈ w -> b ∈ cur \/ b ∈ mjoin (fst <$> l).
Proof.
  induction l as [|c l IH]; intros cur w b; cbn [words].
  - case_bool_decide; [by intros ?%elem_of_nil|]. intros ->%list_elem_of_singleton. by left.
  - rewrite fmap_cons. cbn [mjoin list_join]. rewrite elem_of_app.
    assert (Hnil : w ∈ words l [] -> b ∈ w -> b ∈ cur \/ b ∈ c.1 \/ b ∈ mjoin (fst <$> l)).
    { intros Hw Hb. destruct (IH [] w b Hw Hb) as [?%elem_of_nil|?]; [done|by right; right]. }
    destruct (chunk_ws c); [case_bool_decide; [done|]|].
    + intros [->|Hw]%elem_of_cons Hb; [by left|by apply Hnil].
    + intros Hw Hb. destruct (IH _ w b Hw Hb) as [[?|?]%elem_of_app|?]; tauto.
Qed.

Lemma split_whitespace_bytes s w b : w ∈ split_whitespace s -> b ∈ w -> b ∈ s.
Proof.
  intros Hw Hb. destruct (words_bytes _ _ _ _ Hw Hb) as [?%elem_of_nil|Hin]; [done|].
  by rewrite utf8_chunks_concat in Hin.
Qed.

Lemma message_ids_clean v : clean v -> Forall clean (parse_message_ids v).
Proof.
  intros Hv. apply Forall_fmap, Forall_forall. intros w Hw. unfold compose. apply Forall_forall. intros b Hb.
  unfold clean in Hv. rewrite Forall_forall in Hv. apply Hv. apply (split_whitespace_bytes _ w); [done|].
  unfold trim_end_byte, trim_start_byte in Hb. rewrite elem_of_reverse in Hb.
  apply elem_of_drop_while in Hb. rewrite elem_of_reverse in Hb.
  by apply elem_of_drop_while in Hb.
Qed.

Lemma hex_encode_clean s : clean (hex_encode s).
Proof.
  unfold hex_encode, clean. apply Forall_join, Forall_fmap, Forall_true. intros b. unfold compose.
  assert (Ht : forallb (fun k => negb (control_byte (hex_char (N.of_nat k)))) (List.seq 0 16) = true) by (vm_compute; reflexivity).
  rewrite forallb_forall in Ht.
  assert (Hk : forall n, (n < 16)%N -> control_byte (hex_char n) = false).
  { intros n Hn. specialize (Ht (N.to_nat n) ltac:(apply in_seq; lia)). rewrite N2Nat.id in Ht. by apply negb_true_iff. }
  pose proof (N_ascii_bounded b). unfold bval.
  repeat constructor; apply Hk; [apply N.Div0.div_lt_upper_bound; lia|apply N.mod_lt; lia].
Qed.

Lemma addresses_clean l :
  (forall a, a ∈ l -> valid_email_address (ai_email a) = true /\ bad_header (ai_name a) = false) ->
  Forall clean (address_strings (match l with [] => None | _ => Some (to_address_list l) end)).
Proof.
  intros Hl. assert (E : address_strings (match l with [] => None | _ => Some (to_address_list l) end)
                         = address_strings (Some (to_address_list l))) by by destruct l.
  rewrite E. unfold address_strings, to_address_list. cbn [from_option]. apply Forall_join, Forall_fmap.
  unfold id. apply Forall_fmap, Forall_forall. intros a Ha. destruct (Hl a Ha) as [He Hn]. unfold compose. cbn [fst snd].
  constructor; [by apply valid_email_clean|].
  destruct (ai_name a) as [[|b n]|]; cbn [option_list option_rect]; [constructor| |constructor].
  constructor; [|constructor]. apply valid_header_clean. by apply negb_false_iff in Hn.
Qed.

Lemma bad_header_clean o v : bad_header o = false -> o = Some v -> clean v.
Proof. intros Hb ->. by apply valid_header_clean, negb_false_iff. Qed.

(** C22.  No header injection: when a message is built, the builder was
    given the values asked for, and no string that goes into a header -- the
    addresses and display names, the subject, the message ids, the names and
    types of attachments and inline images -- holds a control character, so
    none can end its header line or start another. *)
Theorem build_headers_clean `{MimeWriter} (bytes from_address : str) (to cc : list EmailAddressIn)
    (subject body_text body_html in_reply_to_header references_header : option str) (sent_at : Z)
    (attachments : list Attachment) (inline_images : list InlineImage) (m : RawMessage) :
  build bytes from_address to cc subject body_text body_html in_reply_to_header references_header sent_at attachments
    inline_images = Ok m ->
  let b := builder_for (raw_message_id m) from_address to cc subject body_text body_html in_reply_to_header
             references_header sent_at attachments inline_images in
  write_message b = Ok (raw_bytes m) /\ raw_message_id m = generate_message_id bytes from_address /\
  Forall clean (header_strings b).
Proof.
  unfold build. destruct (refused _ _ _ _ _ _ _ _) eqn:Er; [done|]. destruct (write_message _) as [w|] eqn:Ew; [|done].
  intros [= <-]. cbn [raw_bytes raw_message_id]. split; [done|]. split; [done|].
  unfold refused in Er. rewrite !orb_false_iff in Er. destruct Er as [[[[[[Ef Es] Ei] Eref] Ea] Eatt] Einl].
  apply negb_false_iff in Ef.
  assert (Hadd : forall l : list EmailAddressIn, (forall a : EmailAddressIn, a ∈ l -> a ∈ to ++ cc) ->
    forall a, a ∈ l -> valid_email_address (ai_email a) = true /\ bad_header (ai_name a) = false).
  { intros l Hl a Ha. pose proof (existsb_false _ _ _ Ea (Hl a Ha)) as [E1 E2]%orb_false_iff.
    by apply negb_false_iff in E1. }
  unfold header_strings, builder_for. cbn [mb_from mb_message_id mb_subject mb_to mb_cc mb_in_reply_to mb_references mb_attachments mb_inline].
  repeat apply Forall_app_2.
  - constructor; [by apply valid_email_clean|]. constructor; [|constructor; [|constructor]].
    + unfold generate_message_id. apply Forall_app; split; [apply hex_encode_clean|].
      apply Forall_app; split; [by repeat constructor|].
      destruct (rsplit_once "@" from_address) as [[l d]|] eqn:Ed; [|by repeat constructor].
      pose proof (valid_email_clean _ Ef) as Hc. unfold clean in *. rewrite Forall_forall in Hc |- *. intros x Hx. apply Hc.
      unfold rsplit_once in Ed. destruct (split_once "@" (reverse from_address)) as [[r l0]|] eqn:E; [|done].
      injection Ed as <- <-. rewrite elem_of_reverse in Hx. apply elem_of_reverse.
      apply split_once_some in E as [-> _]. apply elem_of_app. by left.
    + destruct subject as [v|]; [|constructor]. by apply (bad_header_clean (Some v)).
  - apply addresses_clean, Hadd. intros a Ha. apply elem_of_app. by left.
  - apply addresses_clean, Hadd. intros a Ha. apply elem_of_app. by right.
  - destruct in_reply_to_header as [v|]; [|constructor]. by apply message_ids_clean, (bad_header_clean (Some v)).
  - destruct references_header as [v|]; [|constructor]. by apply message_ids_clean, (bad_header_clean (Some v)).
  - apply Forall_join, Forall_fmap, Forall_forall. intros a Ha.
    pose proof (existsb_false _ _ _ Eatt Ha) as [E1%negb_false_iff E2%negb_false_iff]%orb_false_iff.
    repeat constructor; by apply valid_header_clean.
  - apply Forall_join, Forall_fmap, Forall_forall. intros a Ha.
    pose proof (existsb_false _ _ _ Einl Ha) as [E1%negb_false_iff E2%negb_false_iff]%orb_false_iff.
    repeat constructor; by apply valid_header_clean.
Qed.

(** A MIME writer for the witnesses: it keeps what it was given apart. *)
Definition toy_mime : MimeWriter := {|
  write_message b := Ok (mb_from b ++ # "|" ++ mb_subject b ++ # "|" ++ mb_text_body b)
|}.

Lemma build_headers_clean_witness :
  let m := mkRaw (# "a@example.org|Hello|hi") (# "6162@example.org") in
  @build toy_mime (# "ab") (# "a@example.org") [mkAddressIn (Some (# "Bob")) (# "bob@example.net")] [] (Some (# "Hello"))
    (Some (# "hi")) None (Some (# "<p@example.net>")) None 7 [mkAttachment (# "f.txt") (# "text/plain") (# "x")] [] = Ok m /\
  clean (raw_message_id m).
Proof.
  intros m.
  assert (E : @build toy_mime (# "ab") (# "a@example.org") [mkAddressIn (Some (# "Bob")) (# "bob@example.net")] []
    (Some (# "Hello")) (Some (# "hi")) None (Some (# "<p@example.net>")) None 7
    [mkAttachment (# "f.txt") (# "text/plain") (# "x")] [] = Ok m) by (vm_compute; reflexivity).
  split; [exact E|]. destruct (@build_headers_clean toy_mime _ _ _ _ _ _ _ _ _ _ _ _ m E) as (_ & _ & Hall).
  apply Forall_inv_tail, Forall_inv in Hall. exact Hall.
Defined.
