(* ===== verification/Api.v ===== *)
(** * Api: the JMAP methods, [jmap]

    src/crates/jmap/src/api.rs: the dispatch table and every method of it, on
    the stores they read and write; contacts.rs: sealed address-book entries;
    types.rs: the arguments and results.  serde's derived decoding of
    arguments and of contacts is a parameter; results are kept as the records
    the code serialises.  A HashMap is iterated in an arbitrary order. *)

From stdpp Require Import base list strings gmap sorting.
From Stdlib Require Import Ascii ZArith Lia.
From S2P Require Import Prelude RustStr Input Header Limits Store Sealing Auth AuditLog Delivery Backoff Queue Worker Html Email Compose.
Import Store.Blob Store.Subject Store.Metadata.

(** ** JSON *)
Inductive Value : Type :=
| VNull
| VBool (b : bool)
| VInt (z : Z)
| VFloat (x : f64)
| VString (s : str)
| VArray (l : list Value)
| VObject (l : list (str * Value)).

Definition as_bool (v : Value) : option bool := match v with VBool b => Some b | _ => None end.
Definition as_i64 (v : Value) : option Z :=
  match v with VInt z => if (i64_min <=? z)%Z && (z <=? i64_max)%Z then Some z else None | _ => None end.
Definition as_str (v : Value) : option str := match v with VString s => Some s | _ => None end.
Definition as_object (v : Value) : option (list (str * Value)) := match v with VObject l => Some l | _ => None end.

(** ** Arguments, types.rs *)
Record MethodCall : Type := mkCall { mc_name : str; mc_args : Value; mc_call_id : str }.

Record MailboxGetArgs : Type := mkMailboxGetArgs { mg_account_id : str }.

Record EmailFilter : Type := mkFilter {
  in_mailbox : option str; f_has_keyword : option str; not_has_keyword : option str; f_text : option str
}.

Record EmailQueryArgs : Type := mkEmailQueryArgs {
  eq_account_id : str; eq_filter : option EmailFilter; eq_position : Z; eq_limit : option nat
}.

Record EmailGetArgs : Type := mkEmailGetArgs {
  eg_account_id : str; eg_ids : list str; eg_properties : option (list str)
}.

Record EmailCreateRequest : Type := mkEmailCreate {
  ec_to : list EmailAddressIn;
  ec_cc : list EmailAddressIn;
  ec_bcc : list EmailAddressIn;
  ec_subject : option str;
  ec_body_text : option str;
  ec_body_html : option str;
  ec_in_reply_to : option str;
  ec_attachment_blob_ids : list str
}.

Record EmailSetArgs : Type := mkEmailSetArgs {
  es_account_id : str;
  es_create : gmap str EmailCreateRequest;
  es_update : gmap str (gmap str Value);
  es_destroy : list str
}.

Record EmailSubmissionCreateRequest : Type := mkSubmissionCreate { sc_email_id : str; sc_rcpt_to : list str }.

Record EmailSubmissionSetArgs : Type := mkSubmissionSetArgs {
  ss_account_id : str; ss_create : gmap str EmailSubmissionCreateRequest
}.

Record ThreadGetArgs : Type := mkThreadGetArgs { tg_account_id : str; tg_ids : list str }.

Record IdentityGetArgs : Type := mkIdentityGetArgs { ig_account_id : str; ig_ids : option (list str) }.

(** The patch's [textSignature]. *)
Record IdentitySetArgs : Type := mkIdentitySetArgs { is_account_id : str; is_update : gmap str (option str) }.

Record ContactGetArgs : Type := mkContactGetArgs { cg_account_id : str; cg_ids : option (list str) }.

Record ContactCreateRequest : Type := mkContactCreate { cc_name : option str; cc_email : str }.

Record ContactSetArgs : Type := mkContactSetArgs {
  cs_account_id : str;
  cs_create : gmap str ContactCreateRequest;
  cs_update : gmap str (gmap str Value);
  cs_destroy : list str
}.

(** serde_json's [from_value] at each argument type; the error is its text. *)
Class ArgsDecoder : Type := {
  de_mailbox_get : Value -> result str MailboxGetArgs;
  de_email_query : Value -> result str EmailQueryArgs;
  de_email_get : Value -> result str EmailGetArgs;
  de_email_set : Value -> result str EmailSetArgs;
  de_submission_set : Value -> result str EmailSubmissionSetArgs;
  de_thread_get : Value -> result str ThreadGetArgs;
  de_identity_get : Value -> result str IdentityGetArgs;
  de_identity_set : Value -> result str IdentitySetArgs;
  de_contact_get : Value -> result str ContactGetArgs;
  de_contact_set : Value -> result str ContactSetArgs
}.

(** ** Results, types.rs *)
Inductive SetError : Type := NotFound | InvalidPatch | ServerFail (description : str).

Record MailboxObject : Type := mkMailboxObject { mo_id : str; mo_name : str; mo_role : option str; mo_total : Z }.

Record MailboxGetResult : Type := mkMailboxGetResult {
  mgr_account_id : str; mgr_list : list MailboxObject; mgr_not_found : list str
}.

Record EmailQueryResult : Type := mkEmailQueryResult {
  eqr_account_id : str; eqr_position : Z; eqr_ids : list str; eqr_total : nat
}.

Record EmailGetResult : Type := mkEmailGetResult {
  egr_account_id : str; egr_list : list EmailObject; egr_not_found : list str
}.

(** [updated] holds a null for each key. *)
Record EmailSetResult : Type := mkEmailSetResult {
  esr_account_id : str;
  esr_created : gmap str (str * str);
  esr_updated : gset str;
  esr_destroyed : list str;
  esr_not_created : gmap str SetError;
  esr_not_updated : gmap str SetError;
  esr_not_destroyed : gmap str SetError
}.

Record EmailSubmissionSetResult : Type := mkSubmissionSetResult {
  ssr_account_id : str; ssr_created : gmap str (str * str); ssr_not_created : gmap str SetError
}.

Record ThreadObject : Type := mkThreadObject { to_id : str; to_email_ids : list str }.

Record ThreadGetResult : Type := mkThreadGetResult {
  tgr_account_id : str; tgr_list : list ThreadObject; tgr_not_found : list str
}.

Record IdentityObject : Type := mkIdentity {
  io_id : str; io_name : str; io_email : str; io_text_signature : str; io_may_delete : bool
}.

Record IdentityGetResult : Type := mkIdentityGetResult {
  igr_account_id : str; igr_list : list IdentityObject; igr_not_found : list str
}.

Record IdentitySetResult : Type := mkIdentitySetResult {
  isr_account_id : str; isr_updated : gset str; isr_not_updated : gmap str SetError
}.

Record ContactObject : Type := mkContact { co_id : str; co_name : option str; co_email : str }.

Record ContactGetResult : Type := mkContactGetResult {
  cgr_account_id : str; cgr_list : list ContactObject; cgr_not_found : list str
}.

Record ContactSetResult : Type := mkContactSetResult {
  csr_account_id : str;
  csr_created : gmap str ContactObject;
  csr_updated : gset str;
  csr_destroyed : list str;
  csr_not_created : gmap str SetError;
  csr_not_updated : gmap str SetError;
  csr_not_destroyed : gmap str SetError
}.

Inductive MethodResult : Type :=
| RError (err_type description : str)
| RMailboxGet (r : MailboxGetResult)
| REmailQuery (r : EmailQueryResult)
| REmailGet (r : EmailGetResult)
| REmailSet (r : EmailSetResult)
| RSubmissionSet (r : EmailSubmissionSetResult)
| RThreadGet (r : ThreadGetResult)
| RIdentityGet (r : IdentityGetResult)
| RIdentitySet (r : IdentitySetResult)
| RContactGet (r : ContactGetResult)
| RContactSet (r : ContactSetResult).

Record MethodResponse : Type := mkMethodResponse { mr_name : str; mr_result : MethodResult; mr_call_id : str }.

Definition error_response (err_type description call_id : str) : MethodResponse :=
  mkMethodResponse (# "error") (RError err_type description) call_id.

(** ** Contacts, contacts.rs *)
Record ContactPlain : Type := mkContactPlain { cp_name : option str; cp_email : str }.

(** serde_json's coding of a [ContactPlain]; the error is its text. *)
Class ContactJson : Type := {
  contact_to_vec : ContactPlain -> str;
  contact_from_slice : str -> result str ContactPlain
}.

Class ContactJsonLaws `{ContactJson} : Prop := {
  contact_from_to p : contact_from_slice (contact_to_vec p) = Ok p
}.

Definition seal_contact `{Primitives} `{ContactJson} (nonce amk : str) (plain : ContactPlain) : str :=
  aead_seal nonce amk 1 (contact_to_vec plain).

Definition open_contact `{Primitives} `{ContactJson} (amk sealed : str) : Result ContactPlain :=
  match as_crypto_error (aead_open amk sealed) with
  | Err e => Err e
  | Ok opened => match contact_from_slice opened with Ok p => Ok p | Err e => Err (Crypto e) end
  end.

(** ** State and context *)

(** What the methods of one session write. *)
Record ApiState : Type := mkApi {
  ap_mail : MailStore;
  ap_queue : QueueStore;
  ap_auth : AuthStore;
  ap_notifier : Changes.ChangeNotifier;
  ap_index : SearchIndex;
  ap_draws : nat                         (* how many draws were made *)
}.

Definition with_mail (m : MailStore) (s : ApiState) : ApiState :=
  mkApi m (ap_queue s) (ap_auth s) (ap_notifier s) (ap_index s) (ap_draws s).
Definition with_queue (q : QueueStore) (s : ApiState) : ApiState :=
  mkApi (ap_mail s) q (ap_auth s) (ap_notifier s) (ap_index s) (ap_draws s).
Definition with_auth (a : AuthStore) (s : ApiState) : ApiState :=
  mkApi (ap_mail s) (ap_queue s) a (ap_notifier s) (ap_index s) (ap_draws s).
Definition with_notifier (n : Changes.ChangeNotifier) (s : ApiState) : ApiState :=
  mkApi (ap_mail s) (ap_queue s) (ap_auth s) n (ap_index s) (ap_draws s).
Definition with_index (i : SearchIndex) (s : ApiState) : ApiState :=
  mkApi (ap_mail s) (ap_queue s) (ap_auth s) (ap_notifier s) i (ap_draws s).
Definition with_draws (n : nat) (s : ApiState) : ApiState :=
  mkApi (ap_mail s) (ap_queue s) (ap_auth s) (ap_notifier s) (ap_index s) n.

Definition with_metadata (m : MetadataStore) (s : ApiState) : ApiState :=
  with_mail (mkMailStore (blobs (ap_mail s)) m) s.
Definition with_blobs (b : BlobStore) (s : ApiState) : ApiState :=
  with_mail (mkMailStore b (metadata (ap_mail s))) s.

(** A reading of the clock and the random values that may go with it. *)
Record Draw : Type := mkDraw {
  d_now : Z;
  d_message_id : str;
  d_seal : DeliverRand;
  d_nonce : str;
  d_rsa : result str (str * str)
}.

(** The random values have the lengths of the arrays they fill. *)
Definition draw_ok (d : Draw) : Prop := Delivery.rand_ok (d_seal d) /\ length (d_nonce d) = NONCE_LEN.

Record AccountContext : Type := mkContext {
  account_id_str : str;
  cx_account_priv : str;
  cx_account_pub : str;
  cx_key_id : N;
  cx_address : str;
  cx_amk : str;
  max_upload_size : Z;
  search_fn : str -> St ApiState (Result (list Z));
  draws : nat -> Draw
}.

(** A fallible step whose error is a description. *)
Abbreviation Step A := (St ApiState (result str A)).

Definition display_err {A} (r : Result A) : result str A :=
  match r with Ok a => Ok a | Err e => Err (error_display e) end.

Definition fresh (ctx : AccountContext) : St ApiState Draw := fun s =>
  (Done (draws ctx (ap_draws s)), with_draws (S (ap_draws s)) s).

Definition on_metadata {A} (f : MetadataStore -> A * MetadataStore) : St ApiState A := fun s =>
  let '(r, m) := f (metadata (ap_mail s)) in (Done r, with_metadata m s).
Definition read_metadata {A} (f : MetadataStore -> A) : St ApiState A := fun s =>
  (Done (f (metadata (ap_mail s))), s).
Definition on_queue {A} (f : QueueStore -> A * QueueStore) : St ApiState A := fun s =>
  let '(r, q) := f (ap_queue s) in (Done r, with_queue q s).
Definition read_queue {A} (f : QueueStore -> A) : St ApiState A := fun s => (Done (f (ap_queue s)), s).
Definition notify (account : Z) : St ApiState unit :=
  st_mod (fun s => with_notifier (Changes.notify (ap_notifier s) account) s).

(** Decrypted contacts with their row ids. *)
Abbreviation Existing := (list (Z * ContactPlain)).

Section Methods.
Context `{Primitives} `{BlobHash} `{SqlAny} `{AnyOrder} `{DkimSigner} `{MailParser} `{FullText} `{HtmlLibrary}.
Context `{MimeWriter} `{ContactJson} `{ArgsDecoder}.
Context (to_lowercase : str -> str).                 (* str::to_lowercase *)

(** The iteration order of a HashMap. *)
Definition hash_iter {A} (m : gmap str A) : list (str * A) := any_order (map_to_list m).

(** *** Ids *)
Definition parse_account_id (ctx : AccountContext) : Z := default 0%Z (parse_i64 (account_id_str ctx)).

Definition mailbox_row_id (id : str) : option Z := strip_prefix (# "b") id ≫= parse_i64.
Definition email_row_id (id : str) : option Z := strip_prefix (# "m") id ≫= parse_i64.
Definition thread_row_id (id : str) : option Z := strip_prefix (# "t") id ≫= parse_i64.
Definition contact_row_id (id : str) : option Z := strip_prefix (# "c") id ≫= parse_i64.

Definition has_keyword (keywords keyword : str) : bool := existsb (fun k => str_eqb k keyword) (split_on "," keywords).

(** The shape every method shares: decode, compare the account, answer. *)
Definition method {Args} (de : Value -> result str Args) (account_of : Args -> str)
    (ctx : AccountContext) (args : Value) (call_id name : str)
    (body : Args -> St ApiState (result (str * str) MethodResult)) : St ApiState MethodResponse :=
  match de args with
  | Err e => mret (error_response (# "invalidArguments") e call_id)
  | Ok a =>
      if negb (str_eqb (account_of a) (account_id_str ctx))
      then mret (error_response (# "accountNotFound") (# "unknown accountId") call_id)
      else
        r ← body a;
        mret (match r with
              | Ok result => mkMethodResponse name result call_id
              | Err (ty, description) => error_response ty description call_id
              end)
  end.

(** [Err(e) => return error_response("serverFail", ..)]. *)
Definition or_server_fail {A} (r : Result A) : result (str * str) A :=
  match r with Ok a => Ok a | Err e => Err (# "serverFail", error_display e) end.

Definition cancel_pending_events (account : Z) (k : ScheduledKind) (message_id : str) : St ApiState unit :=
  st_mod (fun s => with_queue
    (foldl (fun q e => if bool_decide (payload e = Some message_id) then mark_event_cancelled (e_id e) q else q)
       (ap_queue s) (pending_events_for_account (ap_queue s) account k)) s).

(** *** Mailbox/get *)
Definition mailbox_object (m : MetadataStore) (account : Z) (mb : Mailbox) : MailboxObject :=
  mkMailboxObject (# "b" ++ dec (mb_id mb)) (mb_name mb) (Some (mb_role mb))
    (match messages_in_mailbox m account (mb_id mb) with Ok l => Z.of_nat (length l) | Err _ => 0%Z end).

Definition mailbox_get (args : Value) (call_id : str) (ctx : AccountContext) : St ApiState MethodResponse :=
  method de_mailbox_get mg_account_id ctx args call_id (# "Mailbox/get") (fun _ =>
    let account := parse_account_id ctx in
    r ← on_metadata (fun m => mailboxes_for_account m account);
    match or_server_fail r with
    | Err e => mret (Err e)
    | Ok mbs =>
        list ← read_metadata (fun m => mailbox_object m account <$> mbs);
        mret (Ok (RMailboxGet (mkMailboxGetResult (account_id_str ctx) list [])))
    end).

(** *** Email/query *)
Definition not_snoozed (m : StoredMessage) : bool := negb (has_keyword (keywords (m_row m)) KEYWORD_SNOOZED).

Definition matching_ids (ctx : AccountContext) (account : Z) (filter : EmailFilter) : St ApiState (Result (list Z)) :=
  let ids (p : StoredMessage -> bool) (r : Result (list StoredMessage)) : Result (list Z) :=
    match r with Ok l => Ok (m_id <$> List.filter p l) | Err e => Err e end in
  let text := match f_text filter with
              | Some t => if bool_decide (trim t = []) then None else Some t
              | None => None
              end in
  match text, f_has_keyword filter, not_has_keyword filter with
  | Some text, _, _ => search_fn ctx text
  | None, Some keyword, _ => read_metadata (fun m => ids (fun _ => true) (messages_with_keyword m account keyword))
  | None, None, Some keyword => read_metadata (fun m => ids not_snoozed (messages_without_keyword m account keyword))
  | None, None, None =>
      mailbox ← match in_mailbox filter ≫= mailbox_row_id with
                | Some id => mret (Ok id)
                | None => mb ← on_metadata (fun m => ensure_mailbox m account ROLE_INBOX);
                          mret (match mb with Ok mb => Ok (mb_id mb) | Err e => Err e end)
                end;
      match mailbox with
      | Err e => mret (Err e)
      | Ok mailbox_id => read_metadata (fun m => ids not_snoozed (messages_in_mailbox m account mailbox_id))
      end
  end.

Definition email_query (args : Value) (call_id : str) (ctx : AccountContext) : St ApiState MethodResponse :=
  method de_email_query eq_account_id ctx args call_id (# "Email/query") (fun a =>
    let account := parse_account_id ctx in
    r ← matching_ids ctx account (default (mkFilter None None None None) (eq_filter a));
    match or_server_fail r with
    | Err e => mret (Err e)
    | Ok matching =>
        let position := Z.max (eq_position a) 0 in
        let limit := default 50%nat (eq_limit a) in
        let ids := (fun id => # "m" ++ dec id) <$> take limit (drop (Z.to_nat position) matching) in
        mret (Ok (REmailQuery (mkEmailQueryResult (account_id_str ctx) position ids (length matching))))
    end).

(** *** Email/get *)
Definition opened_email (ctx : AccountContext) (properties : option (list str)) (b : BlobStore)
    (rows : list StoredMessage) (requested : str * Z) : exec (result str EmailObject) :=
  let '(id, row_id) := requested in
  match sql_find (fun m => (m_id m =? row_id)%Z) rows with
  | None => mret (Err id)
  | Some stored =>
      if str_eqb (dec (account_id (m_row stored))) (account_id_str ctx) then
        r ← open_and_parse b stored (cx_account_priv ctx) properties;
        mret (match r with Ok o => Ok o | Err _ => Err id end)
      else mret (Err id)
  end.

Fixpoint opened_emails (ctx : AccountContext) (properties : option (list str)) (b : BlobStore)
    (rows : list StoredMessage) (requested : list (str * Z)) : exec (list (result str EmailObject)) :=
  match requested with
  | [] => mret []
  | x :: requested =>
      r ← opened_email ctx properties b rows x;
      l ← opened_emails ctx properties b rows requested;
      mret (r :: l)
  end.

(** [payload] to [fire_at]; a later event replaces an earlier one. *)
Definition fire_at_by_message (pending : list StoredScheduledEvent) : gmap str Z :=
  foldl (fun m e => match payload e with Some p => <[p := fire_at e]> m | None => m end) ∅ pending.

Definition with_events_of (snoozes nudges : gmap str Z) (o : EmailObject) : EmailObject :=
  mkEmail (em_id o) (em_thread_id o) (em_mailbox_ids o) (em_keywords o) (em_from o) (em_to o) (em_subject o)
    (em_received_at o) (em_preview o) (em_body_text o) (em_size o) (em_message_id o) (em_in_reply_to o)
    (em_spam_score o) (em_av_clean o) (em_body_html o) (em_blocked_image_count o) (em_attachments o)
    (snoozes !! em_id o) (nudges !! em_id o).

Definition oks {E A} (l : list (result E A)) : list A := omap (fun r => match r with Ok a => Some a | Err _ => None end) l.
Definition errs {E A} (l : list (result E A)) : list E := omap (fun r => match r with Ok _ => None | Err e => Some e end) l.

Definition email_get (args : Value) (call_id : str) (ctx : AccountContext) : St ApiState MethodResponse :=
  method de_email_get eg_account_id ctx args call_id (# "Email/get") (fun a =>
    let account := parse_account_id ctx in
    let requested := omap (fun id => (fun row_id => (id, row_id)) <$> email_row_id id) (eg_ids a) in
    let malformed := List.filter (fun id => bool_decide (email_row_id id = None)) (eg_ids a) in
    s ← st_get;
    match or_server_fail (get_messages (metadata (ap_mail s)) (snd <$> requested)) with
    | Err e => mret (Err e)
    | Ok rows =>
        results ← st_exec (opened_emails ctx (eg_properties a) (blobs (ap_mail s)) rows requested);
        let snoozes := fire_at_by_message (pending_events_for_account (ap_queue s) account SnoozeResurface) in
        let nudges := fire_at_by_message (pending_events_for_account (ap_queue s) account FollowupNudge) in
        mret (Ok (REmailGet (mkEmailGetResult (account_id_str ctx)
          (with_events_of snoozes nudges <$> oks results) (malformed ++ errs results))))
    end).

(** *** Drafts *)
Record ResolvedUpload : Type := mkResolved { ru_filename : str; ru_content_type : str; ru_bytes : str }.

Definition resolve_upload (ctx : AccountContext) (account : Z) (blob_id : str) : Step ResolvedUpload :=
  upload_id ←? mret (ok_or (# "invalid blobId: " ++ blob_id) (strip_prefix (# "u") blob_id ≫= parse_i64));
  found ←? read_metadata (fun m => display_err (get_upload m upload_id));
  stored ←? mret (ok_or (# "no such upload: " ++ blob_id)
    (u ← found; if (up_account_id (up_row u) =? account)%Z then Some u else None));
  s ← st_get;
  r ← st_exec (open_blob (blobs (ap_mail s)) (up_blob_hash (up_row stored)) (up_dek_wrap (up_row stored))
                 (cx_account_priv ctx));
  bytes ←? mret (display_err r);
  mret (Ok (mkResolved (up_filename (up_row stored)) (up_content_type (up_row stored)) bytes)).

Definition resolve_attachments (ctx : AccountContext) (account : Z) (blob_ids : list str) : Step (list Compose.Attachment) :=
  st_collect (fun blob_id =>
    upload ←? resolve_upload ctx account blob_id;
    mret (Ok (mkAttachment (ru_filename upload) (ru_content_type upload) (ru_bytes upload)))) blob_ids.

Definition resolve_inline_images (ctx : AccountContext) (account : Z) (cids : list str) : Step (list InlineImage) :=
  st_collect (fun cid =>
    upload ←? resolve_upload ctx account cid;
    mret (Ok (mkInline cid (ru_content_type upload) (ru_bytes upload)))) cids.

(** The checks on the subject and the addressees, in order. *)
Definition bad_address (a : EmailAddressIn) : option str :=
  if negb (valid_email_address (ai_email a)) then Some (# "invalid email address: " ++ ai_email a)
  else if bad_header (ai_name a) then Some (# "display name contains prohibited control characters")
  else None.

Fixpoint first_some {A B} (f : A -> option B) (l : list A) : option B :=
  match l with [] => None | x :: l => match f x with Some y => Some y | None => first_some f l end end.

Definition check_request (req : EmailCreateRequest) : result str unit :=
  if bad_header (ec_subject req) then Err (# "subject contains prohibited control characters")
  else match first_some bad_address (ec_to req ++ ec_cc req ++ ec_bcc req) with
       | Some e => Err e
       | None => Ok tt
       end.

(** The parent's row, when the reply names one of the account's. *)
Definition reply_parent (m : MetadataStore) (account : Z) (req : EmailCreateRequest) : option NewMessage :=
  key ← ec_in_reply_to req;
  row ← email_row_id key;
  match get_message m row with
  | Ok (Some parent) => if (account_id (m_row parent) =? account)%Z then Some (m_row parent) else None
  | _ => None
  end.

(** Headers a reply carries: In-Reply-To and References. *)
Definition reply_headers (parent : option NewMessage) : option str * option str :=
  match parent ≫= message_id_header with
  | None => (None, None)
  | Some msgid =>
      let refs := default [] (parent ≫= references_header) in
      (Some msgid, Some ((if bool_decide (refs = []) then refs else refs ++ # " ") ++ msgid))
  end.

Definition draft_subject_hash (ctx : AccountContext) (req : EmailCreateRequest) : exec (option str) :=
  match ec_subject req with
  | None => mret None
  | Some s =>
      normalized ← normalize_subject to_lowercase s;
      mret (Some (hash_hex (cx_account_pub ctx ++ normalized)))
  end.

Definition draft_row (ctx : AccountContext) (account : Z) (req : EmailCreateRequest) (now mailbox thread : Z)
    (raw : RawMessage) (hash wrap : str) (irt refs subject_hash : option str) : NewMessage := {|
  account_id := account;
  mailbox_id := mailbox;
  thread_id := thread;
  blob_hash := hash;
  dek_wrap := wrap;
  mail_from := cx_address ctx;
  rcpt_to := join (# ", ") (ai_email <$> (ec_to req ++ ec_cc req ++ ec_bcc req));
  remote_ip := [];
  size_bytes := Z.of_nat (length (raw_bytes raw));
  spf_result := # "n/a";
  dkim_result := # "n/a";
  dmarc_result := # "n/a";
  received_at := now;
  keywords := KEYWORD_DRAFT;
  message_id_header := Some (raw_message_id raw);
  in_reply_to := irt;
  references_header := refs;
  Store.Metadata.subject_hash := subject_hash;
  spam_score := None;
  av_clean := None |}.

Definition seal_raw (ctx : AccountContext) (d : Draw) (raw : str) : Step (str * str) := fun s =>
  let '(r, b) := seal_for_account (d_seal d) (blobs (ap_mail s)) (cx_account_pub ctx) (cx_key_id ctx) raw in
  (Done (display_err r), with_blobs b s).

Definition create_draft (ctx : AccountContext) (account : Z) (req : EmailCreateRequest) : Step (Z * Z) :=
  _ ←? mret (check_request req);
  d ← fresh ctx;
  let now := d_now d in
  parent ← read_metadata (fun m => reply_parent m account req);
  let '(in_reply_to_header, references_header) := reply_headers parent in
  subject_hash ← st_exec (draft_subject_hash ctx req);
  thread ← match parent with
           | Some p => mret (thread_id p)
           | None => on_metadata (fun m => find_or_create_thread m (mkThreadMatch account [] subject_hash))
           end;
  attachments ←? resolve_attachments ctx account (ec_attachment_blob_ids req);
  let sanitized_html := sanitize_outbound <$> ec_body_html req in
  let inline_cids := match sanitized_html with Some h => extract_inline_cids h | None => [] end in
  inline_images ←? resolve_inline_images ctx account inline_cids;
  let body_text := match sanitized_html with Some h => Some (html_to_text h) | None => ec_body_text req end in
  raw ←? mret (build (d_message_id d) (cx_address ctx) (ec_to req) (ec_cc req) (ec_subject req) body_text sanitized_html
                 in_reply_to_header references_header now attachments inline_images);
  if (max_upload_size ctx <? Z.of_nat (length (raw_bytes raw)))%Z
  then mret (Err (# "message exceeds the maximum allowed size"))
  else
    sealed ←? seal_raw ctx d (raw_bytes raw);
    drafts ←? on_metadata (fun m => let '(r, m') := ensure_mailbox m account ROLE_DRAFTS in (display_err r, m'));
    row_id ← on_metadata (fun m => insert_message m
      (draft_row ctx account req now (mb_id drafts) thread raw sealed.1 sealed.2 in_reply_to_header references_header
         subject_hash));
    mret (Ok (row_id, thread)).

(** *** Email/set, one entry at a time *)

(** What a patch has gathered so far: the target mailbox, the keywords to
    write and the running list of the single-keyword paths. *)
Record PatchState : Type := mkPatch {
  new_mailbox_id : option Z; new_keywords : option (list str); current_keywords : list str
}.

Definition is_true (v : Value) : bool := bool_decide (as_bool v = Some true).

Definition schedule (account : Z) (k : ScheduledKind) (id : str) (existing : StoredMessage) (value : Value)
    : St ApiState unit :=
  _ ← cancel_pending_events account k id;
  match as_i64 value with
  | None => mret tt
  | Some at_ =>
      _ ← on_queue (insert_scheduled_event
            (mkNewScheduled account k at_ (Some (dec (thread_id (m_row existing)))) (Some id)));
      mret tt
  end.

Definition patch_step (account : Z) (id : str) (existing : StoredMessage) (p : PatchState) (entry : str * Value)
    : St ApiState PatchState :=
  let '(path, value) := entry in
  if str_eqb path (# "mailboxIds") then
    mret (match as_object value with
          | Some obj => mkPatch ('(k, _) ← sql_find (fun kv => is_true kv.2) obj; mailbox_row_id k) (new_keywords p) (current_keywords p)
          | None => p
          end)
  else match strip_prefix (# "mailboxIds/") path with
  | Some mailbox => mret (if is_true value then mkPatch (mailbox_row_id mailbox) (new_keywords p) (current_keywords p) else p)
  | None =>
  if str_eqb path (# "keywords") then
    mret (match as_object value with
          | Some obj => mkPatch (new_mailbox_id p) (Some (fst <$> List.filter (fun kv => is_true kv.2) obj)) (current_keywords p)
          | None => p
          end)
  else match strip_prefix (# "keywords/") path with
  | Some keyword =>
      let current := if is_true value
                     then if existsb (str_eqb keyword) (current_keywords p) then current_keywords p
                          else current_keywords p ++ [keyword]
                     else List.filter (fun k => negb (str_eqb k keyword)) (current_keywords p) in
      mret (mkPatch (new_mailbox_id p) (Some current) current)
  | None =>
  if str_eqb path (# "snoozeUntil") then _ ← schedule account SnoozeResurface id existing value; mret p
  else if str_eqb path (# "nudgeAt") then _ ← schedule account FollowupNudge id existing value; mret p
  else mret p
  end end.

(** The account's own message behind an id, or the error its entry gets. *)
Definition own_message (account : Z) (malformed : SetError) (id : str) : St ApiState (result SetError StoredMessage) :=
  match email_row_id id with
  | None => mret (Err malformed)
  | Some row_id => read_metadata (fun m =>
      match get_message m row_id with
      | Ok (Some existing) => if (account_id (m_row existing) =? account)%Z then Ok existing else Err NotFound
      | _ => Err NotFound
      end)
  end.

Definition update_email (account : Z) (id : str) (patch : gmap str Value) : St ApiState (result SetError unit) :=
  existing ←? own_message account InvalidPatch id;
  p ← st_foldl (patch_step account id existing) (mkPatch None None (keyword_list (keywords (m_row existing)))) (hash_iter patch);
  _ ← st_mod (fun s => with_metadata
        (update_message (metadata (ap_mail s)) (m_id existing) (new_mailbox_id p) (join (# ",") <$> new_keywords p)) s);
  mret (Ok tt).

Definition set_error {A} (r : Result A) : result SetError A :=
  match r with Ok a => Ok a | Err e => Err (ServerFail (error_display e)) end.

Definition remove_blob (hash : str) : St ApiState (result SetError unit) := fun s =>
  let '(r, b) := remove (blobs (ap_mail s)) hash in (Done (set_error r), with_blobs b s).

Definition destroy_email (account : Z) (id : str) : St ApiState (result SetError unit) :=
  existing ←? own_message account NotFound id;
  trash ←? on_metadata (fun m => let '(r, m') := ensure_mailbox m account ROLE_TRASH in (set_error r, m'));
  if (mailbox_id (m_row existing) =? mb_id trash)%Z then
    _ ← st_mod (fun s => with_metadata (delete_message (metadata (ap_mail s)) (m_id existing)) s);
    remove_blob (blob_hash (m_row existing))
  else
    _ ← st_mod (fun s => with_metadata (update_message (metadata (ap_mail s)) (m_id existing) (Some (mb_id trash)) None) s);
    mret (Ok tt).

Definition set_created (k : str) (v : str * str) (r : EmailSetResult) : EmailSetResult :=
  mkEmailSetResult (esr_account_id r) (<[k := v]> (esr_created r)) (esr_updated r) (esr_destroyed r)
    (esr_not_created r) (esr_not_updated r) (esr_not_destroyed r).
Definition set_not_created (k : str) (e : SetError) (r : EmailSetResult) : EmailSetResult :=
  mkEmailSetResult (esr_account_id r) (esr_created r) (esr_updated r) (esr_destroyed r)
    (<[k := e]> (esr_not_created r)) (esr_not_updated r) (esr_not_destroyed r).
Definition set_updated (k : str) (o : result SetError unit) (r : EmailSetResult) : EmailSetResult :=
  match o with
  | Ok _ => mkEmailSetResult (esr_account_id r) (esr_created r) ({[k]} ∪ esr_updated r) (esr_destroyed r)
              (esr_not_created r) (esr_not_updated r) (esr_not_destroyed r)
  | Err e => mkEmailSetResult (esr_account_id r) (esr_created r) (esr_updated r) (esr_destroyed r)
               (esr_not_created r) (<[k := e]> (esr_not_updated r)) (esr_not_destroyed r)
  end.
Definition set_destroyed (k : str) (o : result SetError unit) (r : EmailSetResult) : EmailSetResult :=
  match o with
  | Ok _ => mkEmailSetResult (esr_account_id r) (esr_created r) (esr_updated r) (esr_destroyed r ++ [k])
              (esr_not_created r) (esr_not_updated r) (esr_not_destroyed r)
  | Err e => mkEmailSetResult (esr_account_id r) (esr_created r) (esr_updated r) (esr_destroyed r)
               (esr_not_created r) (esr_not_updated r) (<[k := e]> (esr_not_destroyed r))
  end.

Definition create_entry (ctx : AccountContext) (account : Z) (result : EmailSetResult) (entry : str * EmailCreateRequest)
    : St ApiState EmailSetResult :=
  o ← create_draft ctx account entry.2;
  mret (match o with
        | Ok (row_id, thread) => set_created entry.1 (# "m" ++ dec row_id, # "t" ++ dec thread) result
        | Err e => set_not_created entry.1 (ServerFail e) result
        end).

Definition email_set (args : Value) (call_id : str) (ctx : AccountContext) : St ApiState MethodResponse :=
  method de_email_set es_account_id ctx args call_id (# "Email/set") (fun a =>
    let account := parse_account_id ctx in
    r1 ← st_foldl (create_entry ctx account) (mkEmailSetResult (account_id_str ctx) ∅ ∅ [] ∅ ∅ ∅) (hash_iter (es_create a));
    r2 ← st_foldl (fun r e => o ← update_email account e.1 e.2; mret (set_updated e.1 o r)) r1 (hash_iter (es_update a));
    r3 ← st_foldl (fun r id => o ← destroy_email account id; mret (set_destroyed id o r)) r2 (es_destroy a);
    _ ← (if bool_decide (esr_created r3 = ∅) && bool_decide (esr_updated r3 = ∅) && bool_decide (esr_destroyed r3 = [])
         then mret tt else notify account);
    mret (Ok (REmailSet r3))).

(** *** EmailSubmission/set *)
Definition enqueue_message (key : DomainKey) (new : NewOutbound) (now : Z) : Step Z := fun s =>
  let '(r, (q, b)) := enqueue key new now (ap_queue s) (blobs (ap_mail s)) in
  (Done (display_err r), with_queue q (with_blobs b s)).

Definition submit_email (ctx : AccountContext) (account : Z) (req : EmailSubmissionCreateRequest) : Step Z :=
  row_id ←? mret (ok_or (# "invalid emailId") (email_row_id (sc_email_id req)));
  found ←? read_metadata (fun m => display_err (get_message m row_id));
  existing ←? mret (ok_or (# "no such email")
    (m ← found; if (account_id (m_row m) =? account)%Z then Some m else None));
  if bool_decide (sc_rcpt_to req = []) then mret (Err (# "envelope has no recipients"))
  else if (100 <? length (sc_rcpt_to req))%nat then mret (Err (# "envelope has too many recipients"))
  else match sql_find (fun a => negb (valid_email_address a)) (sc_rcpt_to req) with
  | Some invalid => mret (Err (# "invalid envelope recipient: " ++ invalid))
  | None =>
      s ← st_get;
      opened ← st_exec (open_message (blobs (ap_mail s)) (m_row existing) (cx_account_priv ctx));
      raw ←? mret (display_err opened);
      let dom := match rsplit_once "@" (cx_address ctx) with Some (_, d) => d | None => cx_address ctx end in
      d ← fresh ctx;
      domain_key ←? on_queue (fun q => let '(r, q') := ensure_dkim_key (d_rsa d) (d_now d) dom q in (display_err r, q'));
      d2 ← fresh ctx;
      _ ←? enqueue_message domain_key
             (mkNewOutbound account (cx_address ctx) raw (sc_rcpt_to req) false None None) (d_now d2);
      sent ←? on_metadata (fun m => let '(r, m') := ensure_mailbox m account ROLE_SENT in (display_err r, m'));
      let kept := List.filter (fun k => negb (str_eqb k KEYWORD_DRAFT)) (keyword_list (keywords (m_row existing))) in
      _ ← st_mod (fun s => with_metadata
            (update_message (metadata (ap_mail s)) row_id (Some (mb_id sent)) (Some (join (# ",") kept))) s);
      mret (Ok row_id)
  end.

Definition submission_entry (ctx : AccountContext) (account : Z) (result : EmailSubmissionSetResult)
    (entry : str * EmailSubmissionCreateRequest) : St ApiState EmailSubmissionSetResult :=
  o ← submit_email ctx account entry.2;
  match o with
  | Ok email_id =>
      _ ← notify account;
      mret (mkSubmissionSetResult (ssr_account_id result)
              (<[entry.1 := (# "s" ++ dec email_id, # "m" ++ dec email_id)]> (ssr_created result)) (ssr_not_created result))
  | Err e =>
      mret (mkSubmissionSetResult (ssr_account_id result) (ssr_created result)
              (<[entry.1 := ServerFail e]> (ssr_not_created result)))
  end.

Definition email_submission_set (args : Value) (call_id : str) (ctx : AccountContext) : St ApiState MethodResponse :=
  method de_submission_set ss_account_id ctx args call_id (# "EmailSubmission/set") (fun a =>
    r ← st_foldl (submission_entry ctx (parse_account_id ctx)) (mkSubmissionSetResult (account_id_str ctx) ∅ ∅)
          (hash_iter (ss_create a));
    mret (Ok (RSubmissionSet r))).

(** *** Thread/get *)
Definition thread_object (m : MetadataStore) (account : Z) (id : str) : result str ThreadObject :=
  match thread_row_id id with
  | None => Err id
  | Some row_id =>
      match messages_in_thread m account row_id with
      | Ok [] => Err id
      | Ok msgs => Ok (mkThreadObject id ((fun x => # "m" ++ dec (m_id x)) <$> msgs))
      | Err _ => Err id
      end
  end.

Definition thread_get (args : Value) (call_id : str) (ctx : AccountContext) : St ApiState MethodResponse :=
  method de_thread_get tg_account_id ctx args call_id (# "Thread/get") (fun a =>
    l ← read_metadata (fun m => thread_object m (parse_account_id ctx) <$> tg_ids a);
    mret (Ok (RThreadGet (mkThreadGetResult (account_id_str ctx) (oks l) (errs l))))).

(** *** Identity/get and Identity/set *)
Definition identity_id (account : Z) : str := # "i" ++ dec account.

Definition load_identity (ctx : AccountContext) (account : Z) (a : AuthStore) : IdentityObject :=
  let text_signature :=
    sealed ← match get_signature_sealed a account with Ok o => o | Err _ => None end;
    opened ← ok_opt (aead_open (cx_amk ctx) sealed);
    from_utf8 opened in
  mkIdentity (identity_id account) [] (cx_address ctx) (default [] text_signature) false.

Definition identity_get (args : Value) (call_id : str) (ctx : AccountContext) : St ApiState MethodResponse :=
  method de_identity_get ig_account_id ctx args call_id (# "Identity/get") (fun a =>
    s ← st_get;
    let identity := load_identity ctx (parse_account_id ctx) (ap_auth s) in
    let is_this id := str_eqb id (io_id identity) in
    let '(list, not_found) :=
      match ig_ids a with
      | None => ([identity], [])
      | Some ids => ((fun _ => identity) <$> List.filter is_this ids, List.filter (fun id => negb (is_this id)) ids)
      end in
    mret (Ok (RIdentityGet (mkIdentityGetResult (account_id_str ctx) list not_found)))).

Definition write_signature (account : Z) (sealed : option str) : St ApiState (Result unit) := fun s =>
  let '(r, a) := set_signature_sealed (ap_auth s) account sealed in (Done r, with_auth a s).

Definition identity_entry (ctx : AccountContext) (account : Z) (result : IdentitySetResult) (entry : str * option str)
    : St ApiState IdentitySetResult :=
  let '(id, patch) := entry in
  let updated := mkIdentitySetResult (isr_account_id result) ({[id]} ∪ isr_updated result) (isr_not_updated result) in
  let failed e := mkIdentitySetResult (isr_account_id result) (isr_updated result) (<[id := e]> (isr_not_updated result)) in
  if negb (str_eqb id (identity_id account)) then mret (failed NotFound)
  else match patch with
  | None => mret updated
  | Some text =>
      d ← fresh ctx;
      let sealed := match text with [] => None | _ => Some (aead_seal (d_nonce d) (cx_amk ctx) 1 text) end in
      r ← write_signature account sealed;
      match r with
      | Ok _ => _ ← notify account; mret updated
      | Err e => mret (failed (ServerFail (error_display e)))
      end
  end.

Definition identity_set (args : Value) (call_id : str) (ctx : AccountContext) : St ApiState MethodResponse :=
  method de_identity_set is_account_id ctx args call_id (# "Identity/set") (fun a =>
    r ← st_foldl (identity_entry ctx (parse_account_id ctx)) (mkIdentitySetResult (account_id_str ctx) ∅ ∅)
          (hash_iter (is_update a));
    mret (Ok (RIdentitySet r))).

(** *** Contact/get *)
Definition contact_object (ctx : AccountContext) (id : Z) (sealed : str) : option ContactObject :=
  plain ← ok_opt (open_contact (cx_amk ctx) sealed);
  Some (mkContact (# "c" ++ dec id) (cp_name plain) (cp_email plain)).

(** The account's own row behind an id. *)
Definition own_contact (m : MetadataStore) (account : Z) (id : str) : option StoredContact :=
  row_id ← contact_row_id id;
  c ← match get_contact m row_id with Ok o => o | Err _ => None end;
  if (ct_account_id c =? account)%Z then Some c else None.

Definition all_contacts (m : MetadataStore) (account : Z) : list StoredContact :=
  match contacts_for_account m account with Ok l => l | Err _ => [] end.

Definition found_contact (ctx : AccountContext) (m : MetadataStore) (account : Z) (id : str) : result str ContactObject :=
  match own_contact m account id ≫= (fun c => contact_object ctx (ct_id c) (ct_sealed c)) with
  | Some obj => Ok obj
  | None => Err id
  end.

Definition contact_get (args : Value) (call_id : str) (ctx : AccountContext) : St ApiState MethodResponse :=
  method de_contact_get cg_account_id ctx args call_id (# "Contact/get") (fun a =>
    let account := parse_account_id ctx in
    l ← read_metadata (fun m =>
      match cg_ids a with
      | None => Ok <$> omap (fun c => contact_object ctx (ct_id c) (ct_sealed c)) (all_contacts m account)
      | Some ids => found_contact ctx m account <$> ids
      end);
    mret (Ok (RContactGet (mkContactGetResult (account_id_str ctx) (oks l) (errs l))))).

(** *** Contact/set *)
Definition validate_contact_fields (name : option str) (email : str) : result str unit :=
  if negb (valid_email_address email) then Err (# "invalid email address: " ++ email)
  else if bad_header name then Err (# "display name contains prohibited control characters")
  else Ok tt.

Definition is_duplicate (email : str) (existing : Existing) (excluding : option Z) : bool :=
  existsb (fun rc => negb (bool_decide (Some rc.1 = excluding)) && eq_ignore_ascii_case (cp_email rc.2) email) existing.

Definition load_existing (ctx : AccountContext) (account : Z) (m : MetadataStore) : Existing :=
  omap (fun c => (fun p => (ct_id c, p)) <$> ok_opt (open_contact (cx_amk ctx) (ct_sealed c))) (all_contacts m account).

Definition duplicate_error : str := # "a contact with this email already exists".

Definition create_contact (ctx : AccountContext) (account : Z) (existing : Existing) (req : ContactCreateRequest)
    : Step (Z * ContactPlain) :=
  _ ←? mret (validate_contact_fields (cc_name req) (cc_email req));
  if is_duplicate (cc_email req) existing None then mret (Err duplicate_error)
  else
    let plain := mkContactPlain (cc_name req) (cc_email req) in
    d ← fresh ctx;
    row_id ←? on_metadata (fun m =>
      let '(r, m') := insert_contact m account (seal_contact (d_nonce d) (cx_amk ctx) plain) (d_now d) in (display_err r, m'));
    mret (Ok (row_id, plain)).

(** Only strings change a field; a [name] of another type clears it. *)
Definition patched_contact (current : ContactPlain) (patch : gmap str Value) : ContactPlain :=
  let name := match patch !! (# "name") with Some v => as_str v | None => cp_name current end in
  let email := match patch !! (# "email") ≫= as_str with Some s => s | None => cp_email current end in
  mkContactPlain name email.

Definition update_contact_entry (ctx : AccountContext) (account : Z) (existing : Existing) (id : str) (patch : gmap str Value)
    : Step Existing :=
  row_id ←? mret (ok_or (# "notFound") (contact_row_id id));
  found ← read_metadata (fun m => own_contact m account id);
  stored ←? mret (ok_or (# "notFound") found);
  current ←? mret (display_err (open_contact (cx_amk ctx) (ct_sealed stored)));
  let plain := patched_contact current patch in
  _ ←? mret (validate_contact_fields (cp_name plain) (cp_email plain));
  if is_duplicate (cp_email plain) existing (Some row_id) then mret (Err duplicate_error)
  else
    d ← fresh ctx;
    _ ←? on_metadata (fun m =>
      let '(r, m') := update_contact m row_id (seal_contact (d_nonce d) (cx_amk ctx) plain) (d_now d) in (display_err r, m'));
    mret (Ok (List.filter (fun rc => negb (rc.1 =? row_id)%Z) existing ++ [(row_id, plain)])).

Definition destroy_contact (account : Z) (id : str) : Step unit :=
  found ← read_metadata (fun m => own_contact m account id);
  stored ←? mret (ok_or (# "notFound") found);
  on_metadata (fun m => let '(r, m') := delete_contact m (ct_id stored) in (display_err r, m')).

(** [Err(e) if e == "notFound"] and the other errors. *)
Definition contact_error (e : str) : SetError := if str_eqb e (# "notFound") then NotFound else ServerFail e.

Definition create_contact_entry (ctx : AccountContext) (account : Z) (acc : ContactSetResult * Existing)
    (entry : str * ContactCreateRequest) : St ApiState (ContactSetResult * Existing) :=
  let '(r, existing) := acc in
  o ← create_contact ctx account existing entry.2;
  mret (match o with
        | Ok (row_id, plain) =>
            (mkContactSetResult (csr_account_id r)
               (<[entry.1 := mkContact (# "c" ++ dec row_id) (cp_name plain) (cp_email plain)]> (csr_created r))
               (csr_updated r) (csr_destroyed r) (csr_not_created r) (csr_not_updated r) (csr_not_destroyed r),
             existing ++ [(row_id, plain)])
        | Err e =>
            (mkContactSetResult (csr_account_id r) (csr_created r) (csr_updated r) (csr_destroyed r)
               (<[entry.1 := ServerFail e]> (csr_not_created r)) (csr_not_updated r) (csr_not_destroyed r), existing)
        end).

Definition update_contact_step (ctx : AccountContext) (account : Z) (acc : ContactSetResult * Existing)
    (entry : str * gmap str Value) : St ApiState (ContactSetResult * Existing) :=
  let '(r, existing) := acc in
  o ← update_contact_entry ctx account existing entry.1 entry.2;
  mret (match o with
        | Ok existing' =>
            (mkContactSetResult (csr_account_id r) (csr_created r) ({[entry.1]} ∪ csr_updated r) (csr_destroyed r)
               (csr_not_created r) (csr_not_updated r) (csr_not_destroyed r), existing')
        | Err e =>
            (mkContactSetResult (csr_account_id r) (csr_created r) (csr_updated r) (csr_destroyed r)
               (csr_not_created r) (<[entry.1 := contact_error e]> (csr_not_updated r)) (csr_not_destroyed r), existing)
        end).

Definition destroy_contact_step (account : Z) (r : ContactSetResult) (id : str) : St ApiState ContactSetResult :=
  o ← destroy_contact account id;
  mret (match o with
        | Ok _ => mkContactSetResult (csr_account_id r) (csr_created r) (csr_updated r) (csr_destroyed r ++ [id])
                    (csr_not_created r) (csr_not_updated r) (csr_not_destroyed r)
        | Err e => mkContactSetResult (csr_account_id r) (csr_created r) (csr_updated r) (csr_destroyed r)
                     (csr_not_created r) (csr_not_updated r) (<[id := contact_error e]> (csr_not_destroyed r))
        end).

Definition contact_set (args : Value) (call_id : str) (ctx : AccountContext) : St ApiState MethodResponse :=
  method de_contact_set cs_account_id ctx args call_id (# "Contact/set") (fun a =>
    let account := parse_account_id ctx in
    existing ← read_metadata (load_existing ctx account);
    r1 ← st_foldl (create_contact_entry ctx account) (mkContactSetResult (account_id_str ctx) ∅ ∅ [] ∅ ∅ ∅, existing)
           (hash_iter (cs_create a));
    r2 ← st_foldl (update_contact_step ctx account) r1 (hash_iter (cs_update a));
    r3 ← st_foldl (destroy_contact_step account) r2.1 (cs_destroy a);
    _ ← (if bool_decide (csr_created r3 = ∅) && bool_decide (csr_updated r3 = ∅) && bool_decide (csr_destroyed r3 = [])
         then mret tt else notify account);
    mret (Ok (RContactSet r3))).

(** ** dispatch *)
Definition dispatch (call : MethodCall) (ctx : AccountContext) : St ApiState MethodResponse :=
  let '(mkCall name args call_id) := call in
  if str_eqb name (# "Mailbox/get") then mailbox_get args call_id ctx
  else if str_eqb name (# "Email/query") then email_query args call_id ctx
  else if str_eqb name (# "Email/get") then email_get args call_id ctx
  else if str_eqb name (# "Email/set") then email_set args call_id ctx
  else if str_eqb name (# "EmailSubmission/set") then email_submission_set args call_id ctx
  else if str_eqb name (# "Thread/get") then thread_get args call_id ctx
  else if str_eqb name (# "Identity/get") then identity_get args call_id ctx
  else if str_eqb name (# "Identity/set") then identity_set args call_id ctx
  else if str_eqb name (# "Contact/get") then contact_get args call_id ctx
  else if str_eqb name (# "Contact/set") then contact_set args call_id ctx
  else mret (error_response (# "unknownMethod") (# "no such method: " ++ name) call_id).

End Methods.
