(* ===== verification/ApiIsolation.v ===== *)
(** * ApiIsolation: what a JMAP method can touch, [jmap]

    One account's methods leave every other account's rows, settings and
    notifications as they are, and what they queue goes out under the
    account's own address (src/crates/jmap/src/api.rs). *)

From stdpp Require Import base list strings gmap sorting.
From Stdlib Require Import Ascii ZArith Lia.
From S2P Require Import Prelude RustStr Input Header Limits Store Sealing Auth AuditLog Delivery Backoff Queue Worker Html Email Compose Api.
Import Store.Blob Store.Subject Store.Metadata.

(** ** Rows of an account *)
Definition rows_of {T} (key : T -> Z) (x : Z) (l : list T) : list T := List.filter (fun t => (key t =? x)%Z) l.

Arguments rows_of : simpl never.

Lemma rows_of_app_other {T} (key : T -> Z) x l new :
  Forall (fun t => key t <> x) new -> rows_of key x (l ++ new) = rows_of key x l.
Proof.
  intros Hn. unfold rows_of. rewrite List.filter_app. induction Hn as [|t new Ht _ IH]; [apply app_nil_r|].
  cbn [List.filter]. by rewrite (proj2 (Z.eqb_neq _ _) Ht).
Qed.

Lemma rows_of_update {T} (key : T -> Z) x (p : T -> bool) (f : T -> T) l :
  (forall t, t ∈ l -> p t = true -> key t <> x) -> (forall t, key (f t) = key t) ->
  rows_of key x (sql_update p f l) = rows_of key x l.
Proof.
  intros Hp Hf. unfold rows_of, sql_update. induction l as [|t l IH]; [done|]. rewrite fmap_cons. cbn [List.filter].
  assert (IH' : List.filter (fun t => (key t =? x)%Z) ((fun t => if p t then f t else t) <$> l) = List.filter (fun t => (key t =? x)%Z) l)
    by (apply IH; intros u Hu; apply Hp; by right).
  destruct (p t) eqn:Ep; [|by rewrite IH'].
  rewrite Hf, IH'. by rewrite (proj2 (Z.eqb_neq _ _) (Hp t ltac:(by left) Ep)).
Qed.

Lemma rows_of_filter {T} (key : T -> Z) x (p : T -> bool) l :
  (forall t, t ∈ l -> p t = false -> key t <> x) -> rows_of key x (List.filter p l) = rows_of key x l.
Proof.
  intros Hp. unfold rows_of. induction l as [|t l IH]; [done|]. cbn [List.filter].
  assert (IH' := IH ltac:(intros u Hu; apply Hp; by right)). destruct (p t) eqn:Ep; cbn [List.filter]; rewrite IH'; [done|].
  by rewrite (proj2 (Z.eqb_neq _ _) (Hp t ltac:(by left) Ep)).
Qed.

(** ** Rules for the API's own steps *)
Section Rules.
Context (I : ApiState -> Prop).

Lemma keeps_on_metadata {A} (f : MetadataStore -> A * MetadataStore) :
  (forall s, I s -> I (with_metadata (f (metadata (ap_mail s))).2 s)) -> keeps I (on_metadata f).
Proof. intros Hi s Hs. unfold on_metadata. specialize (Hi s Hs). by destruct (f _). Qed.

Lemma keeps_read_metadata {A} (f : MetadataStore -> A) : keeps I (read_metadata f).
Proof. intros s Hs. exact Hs. Qed.

Lemma keeps_on_queue {A} (f : QueueStore -> A * QueueStore) :
  (forall s, I s -> I (with_queue (f (ap_queue s)).2 s)) -> keeps I (on_queue f).
Proof. intros Hi s Hs. unfold on_queue. specialize (Hi s Hs). by destruct (f _). Qed.

Lemma keeps_fresh ctx : (forall n s, I s -> I (with_draws n s)) -> keeps I (fresh ctx).
Proof. intros Hi s Hs. by apply Hi. Qed.

Lemma keeps_collect {E A B} (f : A -> St ApiState (result E B)) l :
  (forall x, keeps I (f x)) -> keeps I (st_collect f l).
Proof.
  intros Hf. induction l as [|x l IH]; cbn [st_collect]; [apply keeps_ret|].
  apply keeps_try; [apply Hf|]. intros y. apply keeps_try; [exact IH|]. intros ys. apply keeps_ret.
Qed.

Lemma keeps_method {Args} (de : Value -> result str Args) acct ctx args call_id name body :
  (forall a, keeps I (body a)) -> keeps I (method de acct ctx args call_id name body).
Proof.
  intros Hb. unfold method. destruct (de args) as [a|e]; [|apply keeps_ret]. destruct (negb _); [apply keeps_ret|].
  apply keeps_bind; [apply Hb|]. intros r. apply keeps_ret.
Qed.

End Rules.

Ltac api_step :=
  match goal with
  | |- keeps _ (mbind st_get _) => apply keeps_get; intros ? _
  | |- keeps _ (read_metadata _) => apply keeps_read_metadata
  | |- keeps _ (method _ _ _ _ _ _ _) => apply keeps_method; intros ?
  | |- keeps _ (st_collect _ _) => apply keeps_collect; intros ?
  | |- _ => st_step
  end.

Section Isolation.
Context `{Primitives} `{BlobHash} `{SqlAny} `{AnyOrder} `{DkimSigner} `{MailParser} `{FullText} `{HtmlLibrary}.
Context `{MimeWriter} `{ContactJson} `{ArgsDecoder}.
Context (to_lowercase : str -> str).

(** Primary keys are unique. *)
Definition row_ids_ok (s : ApiState) : Prop :=
  NoDup (m_id <$> messages (metadata (ap_mail s))) /\
  NoDup (ct_id <$> contacts (metadata (ap_mail s))) /\
  NoDup (e_id <$> scheduled_events (ap_queue s)).

(** What account [b] has is the same in [s] as in [s0]; the queue's tables
    have only grown, by messages account [A] sends as [address]. *)
Record untouched (A : Z) (address : str) (b : Z) (s0 s : ApiState) : Prop := {
  un_mailboxes : rows_of mb_account b (mailboxes (metadata (ap_mail s))) = rows_of mb_account b (mailboxes (metadata (ap_mail s0)));
  un_threads : rows_of th_account b (threads (metadata (ap_mail s))) = rows_of th_account b (threads (metadata (ap_mail s0)));
  un_messages : rows_of (fun m => account_id (m_row m)) b (messages (metadata (ap_mail s)))
                = rows_of (fun m => account_id (m_row m)) b (messages (metadata (ap_mail s0)));
  un_contacts : rows_of ct_account_id b (contacts (metadata (ap_mail s))) = rows_of ct_account_id b (contacts (metadata (ap_mail s0)));
  un_uploads : uploads (metadata (ap_mail s)) = uploads (metadata (ap_mail s0));
  un_events : rows_of e_account_id b (scheduled_events (ap_queue s)) = rows_of e_account_id b (scheduled_events (ap_queue s0));
  un_outbound : exists new, outbound (ap_queue s) = outbound (ap_queue s0) ++ new /\
                  Forall (fun o => o_account_id o = A /\ envelope_from o = address /\ is_dsn o = false) new;
  un_rcpts : exists new, outbound_rcpt (ap_queue s) = outbound_rcpt (ap_queue s0) ++ new;
  un_keys : exists new, dkim_keys (ap_queue s) = dkim_keys (ap_queue s0) ++ new;
  un_accounts : rows_of row_id b (accounts (ap_auth s)) = rows_of row_id b (accounts (ap_auth s0));
  un_app_passwords : app_passwords (ap_auth s) = app_passwords (ap_auth s0);
  un_notified : Changes.states_of b (Changes.sent (ap_notifier s)) = Changes.states_of b (Changes.sent (ap_notifier s0));
  un_ids : row_ids_ok s
}.

Section Account.
Context (ctx : AccountContext) (A b : Z) (s0 : ApiState).
Context (HA : parse_account_id ctx = A) (Hb : b <> A).
Context (Hsearch : forall q s, exists i, (search_fn ctx q s).2 = with_index i s).

Abbreviation I := (untouched A (cx_address ctx) b s0).

(** Changes outside account [b]'s rows. *)
Lemma un_with_draws n s : I s -> I (with_draws n s).
Proof. by intros []; split. Qed.

Lemma un_with_index i s : I s -> I (with_index i s).
Proof. by intros []; split. Qed.

Lemma un_with_blobs bl s : I s -> I (with_blobs bl s).
Proof. by intros []; split. Qed.

Lemma un_notify s : I s -> I (with_notifier (Changes.notify (ap_notifier s) A) s).
Proof.
  intros [? ? ? ? ? ? ? ? ? ? ? Hn ?]. split; try done. cbn [ap_notifier with_notifier]. rewrite <- Hn.
  unfold Changes.notify, Changes.states_of. cbn [Changes.sent]. rewrite filter_app, fmap_app.
  rewrite filter_cons_False by (cbn; congruence). by rewrite filter_nil, app_nil_r.
Qed.

Lemma insert_roles_other account roles t : exists new,
  foldl (insert_or_ignore_mailbox account) t roles = t ++ new /\ Forall (fun m => mb_account m = account) new.
Proof.
  revert t. induction roles as [|r roles IH]; intros t; cbn [foldl]; [exists []; by rewrite app_nil_r|].
  unfold insert_or_ignore_mailbox at 2. destruct (sql_find _ t); [apply IH|].
  destruct (IH (t ++ [mkMailbox (next_rowid (mb_id <$> t)) account r.1 r.2])) as (new & E & Hn).
  eexists. rewrite E, <- app_assoc. split; [reflexivity|]. by apply Forall_cons.
Qed.

Lemma un_ensure_mailbox role s : I s -> I (with_metadata (ensure_mailbox (metadata (ap_mail s)) A role).2 s).
Proof.
  intros [Hm ? ? ? ? ? ? ? ? ? ? ? Hi]. unfold ensure_mailbox. cbn [snd].
  destruct (insert_roles_other A SYSTEM_ROLES (mailboxes (metadata (ap_mail s)))) as (new & E & Hn).
  split; try done; cbn [with_metadata with_mail ap_mail metadata mailboxes with_mailboxes].
  - rewrite E, rows_of_app_other; [done|]. eapply Forall_impl; [exact Hn|]. cbn. congruence.
Qed.

Lemma un_thread tm s : tm_account tm = A -> I s -> I (with_metadata (find_or_create_thread (metadata (ap_mail s)) tm).2 s).
Proof.
  intros Ht Hs. unfold find_or_create_thread. destruct (thread_by_reference _ _ _); [by destruct s as [[]]|].
  destruct (_ ≫= _); [by destruct s as [[]]|]. destruct Hs as [? Hth ? ? ? ? ? ? ? ? ? ? Hi].
  split; try done. cbn. rewrite rows_of_app_other; [done|].
  apply Forall_cons; split; [cbn; congruence|constructor].
Qed.

Lemma un_insert_message m s : account_id m = A -> I s -> I (with_metadata (insert_message (metadata (ap_mail s)) m).2 s).
Proof.
  intros Hm [? ? Hms ? ? ? ? ? ? ? ? ? [K1 K2]]. split; try done; cbn.
  - rewrite rows_of_app_other; [done|]. apply Forall_cons; split; [cbn; congruence|constructor].
  - split; [|done]. cbn. rewrite fmap_app. apply NoDup_snoc; [done|apply next_rowid_fresh].
Qed.

(** What belongs to [A] alone under an id. *)
Definition mine (id : Z) (s : ApiState) : Prop :=
  forall m, m ∈ messages (metadata (ap_mail s)) -> m_id m = id -> account_id (m_row m) = A.

Lemma un_update_row f id s :
  (forall r, account_id (f r) = account_id r) -> mine id s -> I s ->
  let s' := with_metadata (with_messages (update_row f id (messages (metadata (ap_mail s)))) (metadata (ap_mail s))) s in
  mine id s' /\ I s'.
Proof.
  intros Hf Hid [? ? Hms ? ? ? ? ? ? ? ? ? [Hi Hi']]. cbn zeta. split.
  - intros m (y & Hy & ->)%elem_of_sql_update. destruct (m_id y =? id)%Z; cbn; [rewrite Hf|]; by apply Hid.
  - split; try done; cbn.
    + rewrite <- Hms. apply rows_of_update; [|intros t; apply Hf]. intros t Ht Eid%Z.eqb_eq. rewrite (Hid t Ht Eid). congruence.
    + split; [|exact Hi']. cbn. unfold update_row. by rewrite sql_update_key.
Qed.

Lemma un_update_message id mailbox kw s :
  mine id s -> I s -> I (with_metadata (update_message (metadata (ap_mail s)) id mailbox kw) s).
Proof.
  intros Hid Hs. unfold update_message.
  destruct mailbox as [mb|]; cbn zeta.
  - destruct (un_update_row (set_mailbox mb) id s) as [Hid1 Hs1]; [done..|].
    destruct kw as [k|]; [|exact Hs1]. by apply (un_update_row (set_keywords k) id _ ltac:(done) Hid1 Hs1).
  - destruct kw as [k|]; [by apply (un_update_row (set_keywords k) id s)|by destruct s as [[]]].
Qed.

Lemma un_delete_message id s : mine id s -> I s -> I (with_metadata (delete_message (metadata (ap_mail s)) id) s).
Proof.
  intros Hid [? ? Hms ? ? ? ? ? ? ? ? ? [Hi Hi']]. split; try done; cbn.
  - rewrite <- Hms. apply rows_of_filter. intros t Ht Eid%negb_false_iff%Z.eqb_eq. rewrite (Hid t Ht Eid). congruence.
  - split; [|exact Hi']. by apply NoDup_fmap_filter.
Qed.

(** *** Events, DKIM keys and the queue *)
Lemma states_update_other st l id :
  (forall e, e ∈ l -> e_id e = id -> e_account_id e = A) ->
  let l' := sql_update (fun e => (e_id e =? id)%Z)
    (fun e => mkScheduled (e_id e) (e_account_id e) (kind e) (fire_at e) (e_thread_id e) (payload e) st) l in
  rows_of e_account_id b l' = rows_of e_account_id b l /\ e_id <$> l' = e_id <$> l /\
  (forall id', (forall e, e ∈ l -> e_id e = id' -> e_account_id e = A) -> forall e, e ∈ l' -> e_id e = id' -> e_account_id e = A).
Proof.
  intros Hl l'. split_and!.
  - apply rows_of_update; [|done]. intros t Ht Eid%Z.eqb_eq. rewrite (Hl t Ht Eid). congruence.
  - by apply sql_update_key.
  - intros id' Hl' e (y & Hy & ->)%elem_of_sql_update. destruct (e_id y =? id)%Z; cbn; by apply Hl'.
Qed.

Lemma un_cancel k message_id : keeps I (cancel_pending_events A k message_id).
Proof.
  apply keeps_mod. intros s Hs.
  assert (Hown : forall e, e ∈ pending_events_for_account (ap_queue s) A k ->
    forall e', e' ∈ scheduled_events (ap_queue s) -> e_id e' = e_id e -> e_account_id e' = A).
  { intros e He e' He' Eid. unfold pending_events_for_account in He. rewrite elem_of_any_order in He.
    apply elem_of_filter_list in He as [He Hp]. destruct Hs as [? ? ? ? ? ? ? ? ? ? ? ? (_ & _ & Hi)].
    assert (e' = e) as -> by exact (row_key_unique e_id _ e' e Hi He' He Eid). by bool_facts. }
  revert Hs Hown. generalize (pending_events_for_account (ap_queue s) A k) as l.
  assert (Hgen : forall (l : list StoredScheduledEvent) q, I (with_queue q s) ->
    (forall e, e ∈ l -> forall e', e' ∈ scheduled_events q -> e_id e' = e_id e -> e_account_id e' = A) ->
    I (with_queue (foldl (fun q e => if bool_decide (payload e = Some message_id) then mark_event_cancelled (e_id e) q else q) q l) s)).
  { induction l as [|e l IH]; intros q Hq Hl; [exact Hq|]. cbn [foldl]. case_bool_decide; [|apply IH; [done|intros x Hx; apply Hl; by right]].
    destruct (states_update_other (# "cancelled") (scheduled_events q) (e_id e)) as (R & N & O); [by apply Hl; left|].
    apply IH.
    - destruct Hq as [? ? ? ? ? Hev ? ? ? ? ? ? (K1 & K2 & Hi)]. split; try done; cbn in *; [congruence|].
      split; [done|]. split; [done|]. cbn. congruence.
    - intros x Hx. apply O. by apply Hl; right. }
  intros l Hs Hl. apply (Hgen l (ap_queue s)); [by destruct s|exact Hl].
Qed.

Lemma un_insert_event ev s : ne_account_id ev = A -> I s -> I (with_queue (insert_scheduled_event ev (ap_queue s)).2 s).
Proof.
  intros Hev [? ? ? ? ? He ? ? ? ? ? ? (K1 & K2 & Hi)]. split; try done; cbn.
  - rewrite rows_of_app_other; [done|]. apply Forall_cons; split; [cbn; congruence|constructor].
  - split; [done|]. split; [done|]. cbn. rewrite fmap_app. apply NoDup_snoc; [done|apply next_rowid_fresh].
Qed.

Lemma un_dkim_key g now d s : I s -> I (with_queue (ensure_dkim_key g now d (ap_queue s)).2 s).
Proof.
  intros Hs. unfold ensure_dkim_key. destruct (load_dkim_key _ _); [by destruct s|]. destruct g as [[pr pu]|e]; [|by destruct s].
  destruct Hs as [? ? ? ? ? ? ? ? [new Ek] ? ? ? Hi]. split; try done. cbn. rewrite Ek, <- app_assoc. by eexists.
Qed.

Lemma enqueue_extends key new now q bl :
  let '(_, (q', _)) := enqueue key new now q bl in
  scheduled_events q' = scheduled_events q /\ dkim_keys q' = dkim_keys q /\
  (exists l, outbound q' = outbound q ++ l /\
     Forall (fun o => o_account_id o = no_account_id new /\ envelope_from o = no_envelope_from new /\ is_dsn o = no_is_dsn new) l) /\
  (exists l, outbound_rcpt q' = outbound_rcpt q ++ l).
Proof.
  assert (Hsame : scheduled_events q = scheduled_events q /\ dkim_keys q = dkim_keys q /\
    (exists l, outbound q = outbound q ++ l /\
     Forall (fun o => o_account_id o = no_account_id new /\ envelope_from o = no_envelope_from new /\ is_dsn o = no_is_dsn new) l) /\
    (exists l, outbound_rcpt q = outbound_rcpt q ++ l))
    by (split_and!; try done; exists []; rewrite app_nil_r; auto).
  assert (Hr : forall id l q, let q' := foldl (insert_rcpt id now) q l in
    scheduled_events q' = scheduled_events q /\ dkim_keys q' = dkim_keys q /\ outbound q' = outbound q /\
    (exists l, outbound_rcpt q' = outbound_rcpt q ++ l)).
  { intros id l. induction l as [|x l IH]; intros q0; cbn [foldl]; [split_and!; try done; exists []; by rewrite app_nil_r|].
    destruct (IH (insert_rcpt id now q0 x)) as (-> & -> & -> & [l' ->]). split_and!; try done.
    eexists. cbn. by rewrite <- app_assoc. }
  unfold enqueue. destruct (negb _); [exact Hsame|]. destruct (sign _ _ _); [|exact Hsame].
  destruct (write _ _) as [[h|e] b']; [|exact Hsame]. destruct (rate_limit _ _ _); [|exact Hsame].
  destruct (insert_outbound new h now q) as [id q1] eqn:E. destruct (Hr id (recipients new) q1) as (-> & -> & -> & [l ->]).
  cbn in E. injection E as <- <-. cbn. split_and!; try done; [|by eexists]. eexists. split; [reflexivity|]. by repeat constructor.
Qed.

Lemma un_enqueue key new now :
  no_account_id new = A -> no_envelope_from new = cx_address ctx -> no_is_dsn new = false ->
  keeps I (enqueue_message key new now).
Proof.
  intros Ha Hf Hd s Hs. unfold enqueue_message. pose proof (enqueue_extends key new now (ap_queue s) (blobs (ap_mail s))) as He.
  destruct (enqueue _ _ _ _ _) as [r [q bl]]. destruct He as (E1 & E2 & (l & E3 & Hl) & [l' E4]). cbn [snd].
  destruct Hs as [? ? ? ? ? ? (lo & Eo & Hlo) [lr Er] [lk Ek] ? ? ? (K1 & K2 & Hi)]. split; try done; cbn.
  - congruence.
  - exists (lo ++ l). rewrite E3, Eo, app_assoc. split; [done|]. apply Forall_app. split; [done|].
    eapply Forall_impl; [exact Hl|]. cbn. intros o (-> & -> & ->). done.
  - exists (lr ++ l'). by rewrite E4, Er, app_assoc.
  - exists lk. by rewrite E2.
  - split; [done|]. split; [done|]. cbn. congruence.
Qed.

(** *** Settings and contacts *)
Lemma un_signature sealed : keeps I (write_signature A sealed).
Proof.
  intros s [? ? ? ? ? ? ? ? ? Ha ? ? Hi]. split; try done. cbn. rewrite <- Ha. apply rows_of_update; [|done].
  intros t _ Eid%Z.eqb_eq. congruence.
Qed.

Lemma un_insert_contact sealed now s : I s -> I (with_metadata (insert_contact (metadata (ap_mail s)) A sealed now).2 s).
Proof.
  intros [? ? ? Hc ? ? ? ? ? ? ? ? (K1 & Hi & K2)]. split; try done; cbn.
  - rewrite rows_of_app_other; [done|]. apply Forall_cons; split; [cbn; congruence|constructor].
  - split; [done|]. split; [|done]. cbn. rewrite fmap_app. apply NoDup_snoc; [done|apply next_rowid_fresh].
Qed.

Definition my_contact (id : Z) (s : ApiState) : Prop :=
  forall c, c ∈ contacts (metadata (ap_mail s)) -> ct_id c = id -> ct_account_id c = A.

Lemma un_update_contact id sealed now s :
  my_contact id s -> I s -> I (with_metadata (update_contact (metadata (ap_mail s)) id sealed now).2 s).
Proof.
  intros Hid [? ? ? Hc ? ? ? ? ? ? ? ? (K1 & Hi & K2)]. split; try done; cbn.
  - rewrite <- Hc. apply rows_of_update; [|done]. intros t Ht Eid%Z.eqb_eq. rewrite (Hid t Ht Eid). congruence.
  - split; [done|]. split; [|done]. cbn. by rewrite sql_update_key.
Qed.

Lemma un_delete_contact id s :
  my_contact id s -> I s -> I (with_metadata (delete_contact (metadata (ap_mail s)) id).2 s).
Proof.
  intros Hid [? ? ? Hc ? ? ? ? ? ? ? ? (K1 & Hi & K2)]. split; try done; cbn.
  - rewrite <- Hc. apply rows_of_filter. intros t Ht Eid%negb_false_iff%Z.eqb_eq. rewrite (Hid t Ht Eid). congruence.
  - split; [done|]. split; [|done]. by apply NoDup_fmap_filter.
Qed.

(** *** The methods *)
Lemma kp_fresh : keeps I (fresh ctx).
Proof. apply keeps_fresh. intros n s. apply un_with_draws. Qed.

Lemma kp_notify : keeps I (notify A).
Proof. apply keeps_mod. apply un_notify. Qed.

Lemma kp_ensure {B} role (g : Result Mailbox -> B) :
  keeps I (on_metadata (fun m => let '(r, m') := ensure_mailbox m A role in (g r, m'))).
Proof.
  apply keeps_on_metadata. intros s Hs. pose proof (un_ensure_mailbox role s Hs) as Hu.
  by destruct (ensure_mailbox _ _ _).
Qed.

Lemma kp_mailbox_get args call_id : keeps I (mailbox_get args call_id ctx).
Proof.
  unfold mailbox_get. rewrite HA. repeat api_step. apply keeps_on_metadata. intros s Hs.
  pose proof (un_ensure_mailbox ROLE_INBOX s Hs) as Hu. unfold mailboxes_for_account.
  by destruct (ensure_mailbox _ _ _) as [[mb|e] m'].
Qed.

Lemma kp_search q : keeps I (search_fn ctx q).
Proof. intros s Hs. destruct (Hsearch q s) as [i ->]. by apply un_with_index. Qed.

Lemma kp_email_query args call_id : keeps I (email_query args call_id ctx).
Proof.
  unfold email_query. rewrite HA. api_step. unfold matching_ids.
  repeat (api_step; try apply kp_search). apply keeps_on_metadata. apply un_ensure_mailbox.
Qed.

Lemma kp_email_get args call_id : keeps I (email_get args call_id ctx).
Proof. unfold email_get. repeat api_step. Qed.

Lemma kp_resolve_upload id : keeps I (resolve_upload ctx A id).
Proof. unfold resolve_upload. repeat api_step. Qed.

Lemma kp_create_draft req : keeps I (create_draft to_lowercase ctx A req).
Proof.
  unfold create_draft, resolve_attachments, resolve_inline_images.
  repeat (api_step; try apply kp_resolve_upload; try apply kp_fresh; try apply kp_ensure).
  all: try (apply keeps_on_metadata; intros ? ?; by apply un_thread).
  all: try (apply keeps_on_metadata; intros ? ?; by apply un_insert_message).
  all: intros st Hst; unfold seal_raw; destruct (seal_for_account _ _ _ _ _); by apply un_with_blobs.
Qed.

Lemma own_message_spec e id : triple I (own_message A e id) (fun r s =>
  match r with Done (Ok m) => mine (m_id m) s /\ I s | _ => I s end).
Proof.
  intros s Hs. unfold own_message. destruct (email_row_id id) as [row|]; [|exact Hs].
  unfold read_metadata, get_message. cbn [fst snd]. destruct (sql_find _ _) as [m|] eqn:E; [|exact Hs].
  destruct (_ =? A)%Z eqn:Ea; [|exact Hs]. split; [|exact Hs]. apply sql_find_some in E as [Hm _].
  intros m' Hm' Eid. destruct Hs as [? ? ? ? ? ? ? ? ? ? ? ? [Hi _]].
  rewrite (row_key_unique m_id _ m' m Hi Hm' Hm Eid). by apply Z.eqb_eq.
Qed.

Abbreviation J id := (fun s => mine id s /\ I s).

Lemma kj_keep {B} id (m : St ApiState B) :
  (forall s, messages (metadata (ap_mail (m s).2)) = messages (metadata (ap_mail s))) -> keeps I m -> keeps (J id) m.
Proof. intros Hm Hk. apply keeps_and; [|exact Hk]. intros s Hs. unfold mine. by rewrite Hm. Qed.

Lemma schedule_mail k id existing v s : ap_mail (schedule A k id existing v s).2 = ap_mail s.
Proof.
  unfold schedule, cancel_pending_events, st_mod, mbind, St_bind. cbn [fst snd].
  destruct (as_i64 v); [|done]. unfold on_queue. by destruct (insert_scheduled_event _ _).
Qed.

Lemma kp_schedule k id existing v : keeps I (schedule A k id existing v).
Proof.
  unfold schedule. repeat (api_step; try apply un_cancel). apply keeps_on_queue. intros s Hs. by apply un_insert_event.
Qed.

Lemma kp_update_email id patch : keeps I (update_email A id patch).
Proof.
  unfold update_email. eapply triple_try; [eapply triple_consequence; [apply own_message_spec|done|]|].
  - intros [[m|e]|] s Hs; [exact Hs|exact Hs|exact Hs].
  - intros existing. eapply (triple_consequence _ _ (J (m_id existing)) _ (fun _ => I)); [|done|done].
    eapply triple_bind with (R := fun _ => J (m_id existing)).
    + apply keeps_foldl. intros p [path v] _. unfold patch_step.
      repeat api_step; (apply kj_keep; [intros; by rewrite schedule_mail|apply kp_schedule]).
    + intros p. eapply triple_bind with (R := fun _ => I); [|intros ?; apply keeps_ret|done].
      apply triple_mod. intros s [Hm Hs]. by apply un_update_message.
    + by intros s [_ ?].
Qed.

Lemma kp_destroy_email id : keeps I (destroy_email A id).
Proof.
  unfold destroy_email. eapply triple_try; [eapply triple_consequence; [apply own_message_spec|done|]|].
  - intros [[m|e]|] s Hs; [exact Hs|exact Hs|exact Hs].
  - intros existing. eapply triple_try with (R := fun _ => J (m_id existing)).
    + assert (Hk : keeps (J (m_id existing)) (on_metadata (fun m => let '(r, m') := ensure_mailbox m A ROLE_TRASH in (set_error r, m')))).
      { apply keeps_and; [|apply kp_ensure]. intros s Hs. unfold on_metadata.
        pose proof (ensure_mailbox_messages (metadata (ap_mail s)) A ROLE_TRASH) as Em.
        destruct (ensure_mailbox _ _ _) as [r m']. cbn in *. unfold mine. cbn. rewrite Em. exact Hs. }
      intros s Hs. specialize (Hk s Hs). by destruct (on_metadata _ s) as [[[mb|e]|] s']; cbn in *; [|destruct Hk..].
    + intros trash. destruct (_ =? _)%Z.
      * eapply triple_bind with (R := fun _ => I); [|intros _|done].
        { apply triple_mod. intros s [Hm Hs]. by apply un_delete_message. }
        intros s Hs. unfold remove_blob. destruct (remove _ _). by apply un_with_blobs.
      * eapply triple_bind with (R := fun _ => I); [|intros ?; apply keeps_ret|done].
        apply triple_mod. intros s [Hm Hs]. by apply un_update_message.
Qed.

Lemma kp_email_set args call_id : keeps I (email_set to_lowercase args call_id ctx).
Proof.
  unfold email_set. rewrite HA. unfold create_entry.
  repeat (api_step; try apply kp_create_draft; try apply kp_update_email; try apply kp_destroy_email; try apply kp_notify).
Qed.

Lemma kj_ensure {B} id role (g : Result Mailbox -> B) :
  keeps (J id) (on_metadata (fun m => let '(r, m') := ensure_mailbox m A role in (g r, m'))).
Proof.
  apply kj_keep; [|apply kp_ensure]. intros s. unfold on_metadata.
  pose proof (ensure_mailbox_messages (metadata (ap_mail s)) A role) as Em. by destruct (ensure_mailbox _ _ _).
Qed.

Lemma kj_enqueue id key new now :
  no_account_id new = A -> no_envelope_from new = cx_address ctx -> no_is_dsn new = false ->
  keeps (J id) (enqueue_message key new now).
Proof.
  intros. apply kj_keep; [|by apply un_enqueue]. intros s. unfold enqueue_message.
  by destruct (enqueue _ _ _ _ _) as [r [q bl]].
Qed.

Lemma kj_dkim_key {B} id g now d (f : Result DomainKey -> B) :
  keeps (J id) (on_queue (fun q => let '(r, q') := ensure_dkim_key g now d q in (f r, q'))).
Proof.
  apply kj_keep; [intros s; unfold on_queue; by destruct (ensure_dkim_key _ _ _ _)|].
  apply keeps_on_queue. intros s Hs. pose proof (un_dkim_key g now d s Hs) as Hu. by destruct (ensure_dkim_key _ _ _ _).
Qed.

Lemma kj_fresh id : keeps (J id) (fresh ctx).
Proof. apply kj_keep; [done|apply kp_fresh]. Qed.

Lemma kp_submit_email req : keeps I (submit_email ctx A req).
Proof.
  unfold submit_email. api_step; [api_step|].
  match goal with |- keeps _ (st_try (read_metadata (fun m => display_err (get_message m ?id))) _) => rename id into row_id end.
  eapply triple_try with (R := fun found s => I s /\ forall m, found = Some m -> account_id (m_row m) = A -> mine row_id s).
  { intros s Hs. unfold read_metadata, get_message. cbn [fst snd display_err]. split; [done|]. intros m Em Ha.
    apply sql_find_some in Em as [Hm Eid%Z.eqb_eq]. intros m' Hm' Eid'. destruct Hs as [? ? ? ? ? ? ? ? ? ? ? ? [Hi _]].
    by rewrite (row_key_unique m_id _ m' m Hi Hm' Hm ltac:(congruence)). }
  intros found. eapply triple_try with (R := fun _ => J row_id).
  { intros s [Hs Hf]. destruct found as [m|]; cbn; [|done]. destruct (_ =? A)%Z eqn:Ea; cbn; [|done].
    split; [|done]. by apply (Hf m), Z.eqb_eq. }
  intros existing. eapply (triple_consequence _ _ (J row_id) _ (fun _ => I)); [|done|done].
  assert (Hret : forall e : result str Z, triple (J row_id) (mret e) (fun _ => I)) by (by intros e s [_ ?]).
  destruct (bool_decide _); [apply Hret|]. destruct (_ <? _)%nat; [apply Hret|]. destruct (sql_find _ _); [apply Hret|].
  eapply triple_consequence with (P' := J row_id) (Q' := fun _ => I); [|done|done].
  apply triple_get. intros s0' Hs0'. eapply triple_consequence with (P' := J row_id) (Q' := fun _ => I); [|by intros ? <-|done].
  assert (Hbind : forall B (m : St ApiState (result str B)) (f : B -> Step Z), keeps (J row_id) m ->
    (forall x, triple (J row_id) (f x) (fun _ => I)) -> triple (J row_id) (st_try m f) (fun _ => I)).
  { intros B m f Hm Hf. eapply triple_try with (R := fun _ => J row_id); [|exact Hf].
    intros s2 Hs2. specialize (Hm s2 Hs2). by destruct (m s2) as [[[x|e]|] s2']; cbn in *; [|destruct Hm..]. }
  assert (Hbnd : forall B (m : St ApiState B) (f : B -> Step Z), keeps (J row_id) m ->
    (forall x, triple (J row_id) (f x) (fun _ => I)) -> triple (J row_id) (m ≫= f) (fun _ => I)).
  { intros B m f Hm Hf. eapply triple_bind with (R := fun _ => J row_id); [exact Hm|exact Hf|by intros s2 [_ ?]]. }
  apply Hbnd; [apply keeps_exec|intros opened]. apply Hbind; [apply keeps_ret|intros raw]. cbv zeta.
  apply Hbnd; [apply kj_fresh|intros d]. apply Hbind; [apply kj_dkim_key|intros key].
  apply Hbnd; [apply kj_fresh|intros d2]. apply Hbind; [by apply kj_enqueue|intros _].
  apply Hbind; [apply kj_ensure|intros sent].
  eapply triple_bind with (R := fun _ => I); [|intros ?; apply keeps_ret|done].
  apply triple_mod. intros s2 [Hm Hs]. by apply un_update_message.
Qed.

Lemma kp_submission_set args call_id : keeps I (email_submission_set args call_id ctx).
Proof.
  unfold email_submission_set. rewrite HA. unfold submission_entry.
  repeat (api_step; try apply kp_notify; try apply kp_submit_email).
Qed.

Lemma kp_identity_set args call_id : keeps I (identity_set args call_id ctx).
Proof.
  unfold identity_set. rewrite HA. unfold identity_entry.
  repeat (api_step; try apply kp_notify; try apply kp_fresh; try apply un_signature).
Qed.

(** *** Contacts *)
Lemma own_contact_mine id c s : I s -> own_contact (metadata (ap_mail s)) A id = Some c -> my_contact (ct_id c) s.
Proof.
  intros Hs. unfold own_contact, get_contact. destruct (contact_row_id id) as [row|]; [|done]. cbn [mbind option_bind].
  destruct (sql_find _ _) as [c0|] eqn:E; [|done]. cbn [mbind option_bind]. destruct (_ =? A)%Z eqn:Ea; [|done].
  intros [= <-] c' Hc' Eid. apply sql_find_some in E as [Hc _]. destruct Hs as [? ? ? ? ? ? ? ? ? ? ? ? (_ & Hi & _)].
  rewrite (row_key_unique ct_id _ c' c0 Hi Hc' Hc Eid). by apply Z.eqb_eq.
Qed.

Lemma own_contact_row m id row c : contact_row_id id = Some row -> own_contact m A id = Some c -> ct_id c = row.
Proof.
  unfold own_contact, get_contact. intros ->. cbn [mbind option_bind].
  destruct (sql_find _ _) as [c0|] eqn:E; [|done]. cbn [mbind option_bind]. destruct (_ =? A)%Z; [|done].
  intros [= <-]. by apply sql_find_some in E as [_ ?%Z.eqb_eq].
Qed.

Abbreviation JC id := (fun s => my_contact id s /\ I s).

Lemma kp_create_contact existing req : keeps I (create_contact ctx A existing req).
Proof.
  unfold create_contact. repeat (api_step; try apply kp_fresh). apply keeps_on_metadata. intros s Hs.
  by apply un_insert_contact.
Qed.

Lemma own_contact_step id : triple I (read_metadata (fun m => own_contact m A id)) (fun r s =>
  match r with
  | Done found => I s /\ forall c, found = Some c -> my_contact (ct_id c) s
  | Panicked => I s
  end).
Proof. intros s Hs. unfold read_metadata. cbn [fst snd]. split; [done|]. intros c. by apply own_contact_mine. Qed.

(** From the account's own row on. *)
Lemma with_own_contact {B} id (f : option StoredContact -> Step B) :
  keeps I (f None) -> (forall c, triple (JC (ct_id c)) (f (Some c)) (fun _ => I)) ->
  keeps I (found ← read_metadata (fun m => own_contact m A id); f found).
Proof.
  intros Hn Hf. eapply triple_bind; [apply own_contact_step| |done].
  intros [c|] s [Hs Hc]; [|by apply Hn]. apply (Hf c). split; [by apply Hc|done].
Qed.

Lemma own_contact_no_row m id : contact_row_id id = None -> own_contact m A id = None.
Proof. unfold own_contact. by intros ->. Qed.

Lemma kp_update_contact existing id patch : keeps I (update_contact_entry ctx A existing id patch).
Proof.
  unfold update_contact_entry. destruct (contact_row_id id) as [row|] eqn:Er; [|apply keeps_ret].
  cbn [ok_or]. intros s Hs. rewrite (run_try _ _ s s row) by done. revert s Hs.
  assert (Hrow : forall s c, own_contact (metadata (ap_mail s)) A id = Some c -> ct_id c = row)
    by (intros s c; by apply own_contact_row).
  intros s Hs. unfold read_metadata at 1, mbind at 1, St_bind at 1. specialize (Hrow s).
  destruct (own_contact (metadata (ap_mail s)) A id) as [c|] eqn:Eo; [|exact Hs].
  specialize (Hrow c eq_refl). pose proof (own_contact_mine id c s Hs Eo) as Hc. rewrite Hrow in Hc.
  cbn [ok_or]. rewrite (run_try _ _ s s c) by done.
  destruct (display_err (open_contact (cx_amk ctx) (ct_sealed c))) as [current|e]; [rewrite (run_try _ _ s s current) by done|exact Hs].
  cbv zeta. destruct (validate_contact_fields _ _) as [u|e]; [rewrite (run_try _ _ s s u) by done|exact Hs].
  destruct (is_duplicate _ _ _); [exact Hs|].
  unfold fresh at 1, mbind at 1, St_bind at 1, st_try, mbind, St_bind, on_metadata. cbn [fst snd].
  match goal with |- context [update_contact ?m row ?x ?n] =>
    pose proof (un_update_contact row x n (with_draws (S (ap_draws s)) s) Hc (un_with_draws _ _ Hs)) as Hu end.
  cbn in *. exact Hu.
Qed.

Lemma kp_destroy_contact id : keeps I (destroy_contact A id).
Proof.
  unfold destroy_contact. apply with_own_contact; [apply keeps_ret|]. intros c s [Hc Hs]. cbn [ok_or].
  rewrite (run_try _ _ s s c) by done. unfold on_metadata. pose proof (un_delete_contact (ct_id c) s Hc Hs) as Hu.
  by destruct (delete_contact _ _).
Qed.

Lemma kp_contact_set args call_id : keeps I (contact_set args call_id ctx).
Proof.
  unfold contact_set. rewrite HA. unfold create_contact_entry, update_contact_step, destroy_contact_step.
  repeat (api_step; try apply kp_create_contact; try apply kp_update_contact; try apply kp_destroy_contact; try apply kp_notify).
Qed.

End Account.

Lemma untouched_refl A address b s : row_ids_ok s -> untouched A address b s s.
Proof. split; try done; exists []; rewrite app_nil_r; [split; [done|constructor]|done..]. Qed.

(** Whatever method a session calls, with whatever arguments -- ids of other
    accounts' messages, mailboxes, uploads or contacts included -- and even if
    it panics half-way, every other account keeps what it has. *)
Lemma dispatch_isolates (call : MethodCall) (ctx : AccountContext) (s : ApiState) (b : Z) :
  (forall q s, exists i, (search_fn ctx q s).2 = with_index i s) ->
  b <> parse_account_id ctx ->
  keeps (untouched (parse_account_id ctx) (cx_address ctx) b s) (dispatch to_lowercase call ctx).
Proof.
  intros Hsearch Hb. set (A := parse_account_id ctx).
  destruct call as [name args call_id]. unfold dispatch, thread_get, identity_get, contact_get.
  repeat match goal with |- keeps _ (if ?c then _ else _) => destruct c end.
  - by apply kp_mailbox_get.
  - by apply kp_email_query.
  - by apply kp_email_get.
  - by apply kp_email_set.
  - by apply kp_submission_set.
  - repeat api_step.
  - repeat api_step.
  - by apply kp_identity_set.
  - repeat api_step.
  - by apply kp_contact_set.
  - apply keeps_ret.
Qed.

End Isolation.
