(* ===== verification/ApiContacts.v ===== *)
(** * ApiContacts: the address book, [jmap]

    What [contact_set] of src/crates/jmap/src/api.rs guarantees: an account's
    address book never lists one address twice, and what was stored is what
    is shown. *)

From stdpp Require Import base list strings gmap sorting.
From Stdlib Require Import Ascii ZArith Lia.
From S2P Require Import Prelude RustStr Input Header Limits Store Sealing Auth AuditLog Delivery Backoff Queue Worker Html Email Compose Api ApiIsolation.
Import Store.Blob Store.Subject Store.Metadata.

Arguments seal_contact : simpl never.
Arguments open_contact : simpl never.

Section Contacts.
Context `{PrimitiveLaws} `{BlobHash} `{SqlAny} `{AnyOrder} `{DkimSigner} `{MailParser} `{FullText} `{HtmlLibrary}.
Context `{MimeWriter} `{ContactJsonLaws} `{ArgsDecoder}.
Context (to_lowercase : str -> str).

Lemma open_seal_contact nonce amk p : length nonce = NONCE_LEN -> open_contact amk (seal_contact nonce amk p) = Ok p.
Proof. intros Hn. unfold open_contact, seal_contact. rewrite aead_open_seal by done. cbn. by rewrite contact_from_to. Qed.

(** A contact of account [A], as its key reads it. *)
Definition reads (amk : str) (A : Z) (c : StoredContact) (p : ContactPlain) : Prop :=
  ct_account_id c = A /\ open_contact amk (ct_sealed c) = Ok p.

Definition same_email (p q : ContactPlain) : Prop :=
  to_ascii_lowercase (cp_email p) = to_ascii_lowercase (cp_email q).

(** Unique ids, and no address twice (letter case aside). *)
Definition contacts_inv (amk : str) (A : Z) (l : list StoredContact) : Prop :=
  NoDup (ct_id <$> l) /\
  forall c c' p p', c ∈ l -> c' ∈ l -> reads amk A c p -> reads amk A c' p' -> same_email p p' -> ct_id c = ct_id c'.

Definition inv (ctx : AccountContext) (s : ApiState) : Prop :=
  contacts_inv (cx_amk ctx) (parse_account_id ctx) (contacts (metadata (ap_mail s))).

(** [existing] knows every contact there is. *)
Definition known (ctx : AccountContext) (existing : Existing) (s : ApiState) : Prop :=
  inv ctx s /\
  forall c p, c ∈ contacts (metadata (ap_mail s)) -> reads (cx_amk ctx) (parse_account_id ctx) c p -> (ct_id c, p) ∈ existing.

Lemma is_duplicate_false email existing ex id p :
  is_duplicate email existing ex = false -> (id, p) ∈ existing -> Some id <> ex ->
  to_ascii_lowercase (cp_email p) <> to_ascii_lowercase email.
Proof.
  intros Hd Hin Hne E. pose proof (existsb_false _ _ _ Hd Hin) as [E1|E1]%andb_false_iff.
  - apply negb_false_iff, bool_decide_eq_true in E1. done.
  - cbn in E1. unfold eq_ignore_ascii_case, str_eqb in E1. by apply bool_decide_eq_false in E1.
Qed.

Context (ctx : AccountContext) (Hdraws : forall n, draw_ok (draws ctx n)).
Abbreviation A := (parse_account_id ctx).

Lemma load_existing_known s : inv ctx s -> known ctx (load_existing ctx A (metadata (ap_mail s))) s.
Proof.
  intros Hi. split; [done|]. intros c p Hc [Ha Ho]. unfold load_existing. apply list_elem_of_omap.
  exists c. split; [|by rewrite Ho]. unfold all_contacts, contacts_for_account. apply elem_of_filter_list.
  split; [done|]. by apply Z.eqb_eq.
Qed.

(** Replacing or adding one contact with an address no other has. *)
Lemma inv_insert l id plain nonce now :
  contacts_inv (cx_amk ctx) A l -> length nonce = NONCE_LEN -> id ∉ ct_id <$> l ->
  (forall c p, c ∈ l -> reads (cx_amk ctx) A c p -> ~ same_email p plain) ->
  contacts_inv (cx_amk ctx) A (l ++ [mkStoredContact id A (seal_contact nonce (cx_amk ctx) plain) now now]).
Proof.
  intros [Hn Hd] Hl Hid Hnew. split; [rewrite fmap_app; by apply NoDup_snoc|].
  assert (Hread : forall a u p, reads (cx_amk ctx) A (mkStoredContact id a (seal_contact nonce (cx_amk ctx) plain) now u) p -> p = plain).
  { intros a u p [_ Ho]. cbn [ct_sealed] in Ho. rewrite open_seal_contact in Ho by done. congruence. }
  intros c c' p p' [Hc| ->%list_elem_of_singleton]%elem_of_app [Hc'| ->%list_elem_of_singleton]%elem_of_app Hp Hp' E; [by eapply Hd|..|done].
  - apply Hread in Hp' as ->. by destruct (Hnew c p Hc Hp).
  - apply Hread in Hp as ->. by destruct (Hnew c' p' Hc' Hp').
Qed.

Lemma inv_update l id plain nonce now :
  contacts_inv (cx_amk ctx) A l -> length nonce = NONCE_LEN ->
  (forall c p, c ∈ l -> reads (cx_amk ctx) A c p -> ct_id c <> id -> ~ same_email p plain) ->
  contacts_inv (cx_amk ctx) A (sql_update (fun c => (ct_id c =? id)%Z)
    (fun c => mkStoredContact (ct_id c) (ct_account_id c) (seal_contact nonce (cx_amk ctx) plain) (ct_created_at c) now) l).
Proof.
  intros [Hn Hd] Hl Hnew. split; [by rewrite sql_update_key|].
  intros c c' p p' (y & Hy & ->)%elem_of_sql_update (y' & Hy' & ->)%elem_of_sql_update.
  destruct (ct_id y =? id)%Z eqn:E, (ct_id y' =? id)%Z eqn:E'; cbn [ct_id]; intros [Ha Ho] [Ha' Ho'] Hs; bool_facts;
    cbn [ct_sealed ct_account_id] in *; rewrite ?open_seal_contact in Ho by done; rewrite ?open_seal_contact in Ho' by done.
  - congruence.
  - injection Ho as <-. exfalso. by apply (Hnew y' p' Hy' (conj Ha' Ho') E').
  - injection Ho' as <-. exfalso. by apply (Hnew y p Hy (conj Ha Ho) E).
  - by eapply Hd.
Qed.

Lemma create_contact_known existing req :
  triple (known ctx existing) (create_contact ctx A existing req) (fun r s =>
    match r with
    | Done (Ok (id, p)) => known ctx (existing ++ [(id, p)]) s
    | _ => known ctx existing s
    end).
Proof.
  apply triple_run. intros s Hs. unfold create_contact. destruct (validate_contact_fields _ _) as [u|e]; [rewrite (run_try _ _ s s u) by done|rewrite (run_try_err _ _ s s e) by done; exact Hs].
  destruct (is_duplicate _ _ _) eqn:Ed; [exact Hs|]. unfold fresh at 1, mbind at 1, St_bind at 1, st_try, mbind, St_bind, on_metadata.
  cbn. destruct (Hdraws (ap_draws s)) as [_ Hn]. destruct Hs as [Hi Hk]. split.
  - apply inv_insert; [done|done|apply next_rowid_fresh|]. intros c p Hc Hp E.
    by apply (is_duplicate_false _ _ _ _ _ Ed (Hk c p Hc Hp) ltac:(done)).
  - cbn. intros c p [Hc| ->%list_elem_of_singleton]%elem_of_app Hp; apply elem_of_app; [left; by apply Hk|right].
    destruct Hp as [_ Ho]. cbn [ct_sealed] in Ho. rewrite open_seal_contact in Ho by done. injection Ho as <-. by apply list_elem_of_singleton.
Qed.

Lemma update_contact_known existing id patch :
  triple (known ctx existing) (update_contact_entry ctx A existing id patch) (fun r s =>
    match r with
    | Done (Ok existing') => known ctx existing' s
    | _ => known ctx existing s
    end).
Proof.
  apply triple_run. intros s Hs. unfold update_contact_entry. destruct (contact_row_id id) as [row|] eqn:Er; [|rewrite (run_try_err _ _ s s (# "notFound")) by done; exact Hs].
  cbn [ok_or]. rewrite (run_try _ _ s s row) by done.
  unfold read_metadata at 1, mbind at 1, St_bind at 1.
  destruct (own_contact (metadata (ap_mail s)) A id) as [c|] eqn:Eo; [|rewrite (run_try_err _ _ s s (# "notFound")) by done; exact Hs].
  cbn [ok_or]. rewrite (run_try _ _ s s c) by done.
  destruct (display_err (open_contact (cx_amk ctx) (ct_sealed c))) as [current|e]; [rewrite (run_try _ _ s s current) by done|rewrite (run_try_err _ _ s s e) by done; exact Hs].
  cbv zeta. destruct (validate_contact_fields _ _) as [u|e]; [rewrite (run_try _ _ s s u) by done|rewrite (run_try_err _ _ s s e) by done; exact Hs].
  destruct (is_duplicate _ _ _) eqn:Ed; [exact Hs|].
  unfold fresh at 1, mbind at 1, St_bind at 1, st_try, mbind, St_bind, on_metadata. cbn.
  destruct (Hdraws (ap_draws s)) as [_ Hn]. destruct Hs as [Hi Hk]. split.
  - apply inv_update; [done|done|]. intros c' p Hc' Hp Hne E.
    by apply (is_duplicate_false _ _ _ _ _ Ed (Hk c' p Hc' Hp) ltac:(congruence)).
  - cbn. intros c' p (y & Hy & ->)%elem_of_sql_update. destruct (ct_id y =? row)%Z eqn:E; intros Hp; apply elem_of_app.
    + right. destruct Hp as [_ Ho]. cbn [ct_sealed] in Ho. rewrite open_seal_contact in Ho by done. injection Ho as <-. bool_facts.
      subst row. by apply list_elem_of_singleton.
    + left. apply elem_of_filter_list. split; [by apply Hk|]. cbn. by rewrite E.
Qed.

Lemma destroy_contact_inv id : keeps (inv ctx) (destroy_contact A id).
Proof.
  intros s Hi. unfold destroy_contact, read_metadata at 1, mbind at 1, St_bind at 1.
  destruct (own_contact _ A id) as [c|]; [|exact Hi]. cbn [ok_or]. rewrite (run_try _ _ s s c) by done.
  unfold on_metadata. cbn. destruct Hi as [Hn Hd]. split; cbn; [by apply NoDup_fmap_filter|].
  intros c1 c2 p p' [H1' _]%elem_of_filter_list [H2' _]%elem_of_filter_list. by apply Hd.
Qed.

Lemma contact_set_inv args call_id : keeps (inv ctx) (contact_set args call_id ctx).
Proof.
  unfold contact_set. apply keeps_method. intros a.
  assert (Hlift : forall B (m : St ApiState B) (R : B -> ApiState -> Prop), (forall b s, R b s -> inv ctx s) ->
    triple (inv ctx) m (fun r s => match r with Done b => R b s | Panicked => inv ctx s end) -> forall C (f : B -> St ApiState C),
    (forall b, triple (R b) (f b) (fun _ => inv ctx)) -> keeps (inv ctx) (m ≫= f)).
  { intros B m R HR Hm C f Hf. eapply triple_bind; [exact Hm|exact Hf|done]. }
  apply (Hlift _ _ (known ctx)); [by intros b s [? _]| |].
  { intros s Hs. unfold read_metadata. cbn [fst snd]. by apply load_existing_known. }
  intros existing.
  assert (Hfold1 : forall l acc, triple (known ctx acc.2) (st_foldl (create_contact_entry ctx A) acc l)
    (fun r s => match r with Done acc' => known ctx acc'.2 s | Panicked => inv ctx s end)).
  { intros l acc. apply (triple_foldl (fun acc => known ctx acc.2)). intros [r ex] x _. unfold create_contact_entry. cbn [snd].
    eapply triple_bind; [apply create_contact_known| |by intros s [? _]]. intros [[id p]|e]; by apply triple_ret. }
  assert (Hfold2 : forall l acc, triple (known ctx acc.2) (st_foldl (update_contact_step ctx A) acc l)
    (fun r s => match r with Done acc' => known ctx acc'.2 s | Panicked => inv ctx s end)).
  { intros l acc. apply (triple_foldl (fun acc => known ctx acc.2)). intros [r ex] x _. unfold update_contact_step. cbn [snd].
    eapply triple_bind; [apply update_contact_known| |by intros s [? _]]. intros [ex'|e]; by apply triple_ret. }
  eapply triple_bind; [apply (Hfold1 _ (_, existing))| |done]. intros r1.
  eapply triple_bind; [apply Hfold2| |done]. intros r2.
  eapply (triple_consequence _ _ (inv ctx) _ (fun _ => inv ctx)); [|by intros s [? _]|done].
  apply keeps_bind; [|intros r3].
  - apply keeps_foldl. intros r id _. unfold destroy_contact_step. apply keeps_bind; [apply destroy_contact_inv|intros ?; apply keeps_ret].
  - apply keeps_bind; [|intros ?; apply keeps_ret]. destruct (_ && _); [apply keeps_ret|]. apply keeps_mod. by intros s Hs.
Qed.

(** *** The other methods do not write contacts *)
Section Others.
Context (l : list StoredContact).
Context (Hsearch : forall q s, exists i, (search_fn ctx q s).2 = with_index i s).

Abbreviation same := (fun s => contacts (metadata (ap_mail s)) = l).

Lemma same_ensure {B} account role (g : Result Mailbox -> B) :
  keeps same (on_metadata (fun m => let '(r, m') := ensure_mailbox m account role in (g r, m'))).
Proof. apply keeps_on_metadata. intros s Hs. exact Hs. Qed.

Lemma same_update id mb kw m : contacts (update_message m id mb kw) = contacts m.
Proof. unfold update_message. by destruct mb, kw. Qed.

Lemma same_thread m tm : contacts (find_or_create_thread m tm).2 = contacts m.
Proof. unfold find_or_create_thread. by repeat case_match. Qed.

Lemma same_queue {B} (f : QueueStore -> B * QueueStore) : keeps same (on_queue f).
Proof. apply keeps_on_queue. by intros s Hs. Qed.

Lemma same_enqueue key new now : keeps same (enqueue_message key new now).
Proof. intros s Hs. unfold enqueue_message. by destruct (enqueue _ _ _ _ _) as [r [q b]]. Qed.

Lemma same_own_message account e id : keeps same (own_message account e id).
Proof. unfold own_message. repeat api_step. Qed.

Lemma same_seal d raw : keeps same (seal_raw ctx d raw).
Proof. intros s Hs. unfold seal_raw. by destruct (seal_for_account _ _ _ _ _). Qed.

Lemma same_remove h : keeps same (remove_blob h).
Proof. intros s Hs. unfold remove_blob. by destruct (remove _ _). Qed.

Lemma same_search q : keeps same (search_fn ctx q).
Proof. intros s Hs. by destruct (Hsearch q s) as [i ->]. Qed.

Lemma same_signature account x : keeps same (write_signature account x).
Proof. by intros s Hs. Qed.

Ltac same_tac :=
  repeat (api_step || apply same_ensure || apply same_queue || apply same_enqueue || apply same_own_message || apply same_seal
          || apply same_remove || apply same_search || apply same_signature || (apply keeps_mod; by intros ? ?)
          || (apply keeps_fresh; by intros ? ? ?)
          || (apply keeps_mod; intros ? <-; apply same_update)
          || (apply keeps_on_metadata; intros ? <-; first [done | apply same_thread])).

Lemma others_keep_contacts args call_id :
  keeps same (mailbox_get args call_id ctx) /\ keeps same (email_query args call_id ctx) /\
  keeps same (email_get args call_id ctx) /\ keeps same (email_set to_lowercase args call_id ctx) /\
  keeps same (email_submission_set args call_id ctx) /\ keeps same (thread_get args call_id ctx) /\
  keeps same (identity_get args call_id ctx) /\ keeps same (identity_set args call_id ctx) /\
  keeps same (contact_get args call_id ctx).
Proof.
  split_and!.
  - unfold mailbox_get, mailboxes_for_account. same_tac. apply keeps_on_metadata. intros s <-.
    assert (E : contacts (ensure_mailbox (metadata (ap_mail s)) A ROLE_INBOX).2 = contacts (metadata (ap_mail s))) by done.
    by destruct (ensure_mailbox _ _ _) as [[mb|e] m'].
  - unfold email_query, matching_ids. same_tac.
  - unfold email_get. same_tac.
  - unfold email_set, create_entry, create_draft, resolve_attachments, resolve_inline_images, resolve_upload, update_email,
      patch_step, schedule, cancel_pending_events, destroy_email. same_tac.
  - unfold email_submission_set, submission_entry, submit_email. same_tac.
  - unfold thread_get. same_tac.
  - unfold identity_get. same_tac.
  - unfold identity_set, identity_entry. same_tac.
  - unfold contact_get. same_tac.
Qed.

End Others.

(** An address book lists an address once: if no two contacts the
    account's key opens have the same address (up to ASCII case), then after
    any method call -- a batch of creations and updates included, in whatever
    order the maps are iterated, and even if the call panics -- that is still
    so. *)
Theorem contacts_stay_distinct (call : MethodCall) (s : ApiState) :
  (forall q s, exists i, (search_fn ctx q s).2 = with_index i s) ->
  inv ctx s -> inv ctx (dispatch to_lowercase call ctx s).2.
Proof.
  intros Hsearch Hi. unfold inv in *. destruct call as [name args call_id].
  destruct (others_keep_contacts (contacts (metadata (ap_mail s))) Hsearch args call_id)
    as (K1 & K2 & K3 & K4 & K5 & K6 & K7 & K8 & K9).
  assert (Hsame : forall m : St ApiState MethodResponse,
    keeps (fun s' => contacts (metadata (ap_mail s')) = contacts (metadata (ap_mail s))) m ->
    contacts_inv (cx_amk ctx) A (contacts (metadata (ap_mail (m s).2)))) by (intros m Hm; by rewrite (Hm s eq_refl)).
  unfold dispatch. repeat match goal with |- context [if ?c then _ else _] => destruct c end;
    first [by apply Hsame | by apply contact_set_inv | exact Hi].
Qed.

End Contacts.
