(* ===== verification/ApiMail.v ===== *)
(** * ApiMail: drafts and submissions, [jmap]

    What [create_draft], [submit_email] and [update_email] of
    src/crates/jmap/src/api.rs do to an account's mail: a draft is filed
    sealed and opens to what was built; a submission queues exactly what was
    stored. *)

From stdpp Require Import base list strings gmap sorting.
From Stdlib Require Import Ascii ZArith Lia.
From S2P Require Import Prelude RustStr Input Header Limits Store Sealing Auth AuditLog Delivery Backoff Queue Worker Html Email Compose Api ApiIsolation.
Import Store.Blob Store.Subject Store.Metadata.

(** ** Mailboxes *)
Lemma insert_role_present account roles t rn :
  rn ∈ roles \/ (exists m, m ∈ t /\ mailbox_is account rn.1 m = true) ->
  exists m, m ∈ foldl (insert_or_ignore_mailbox account) t roles /\ mailbox_is account rn.1 m = true.
Proof.
  assert (Hkeep : forall t r m, m ∈ t -> m ∈ insert_or_ignore_mailbox account t r).
  { intros t0 r m Hm. unfold insert_or_ignore_mailbox. destruct (sql_find _ _); [done|]. apply elem_of_app. by left. }
  revert t. induction roles as [|r roles IH]; intros t Hor; cbn [foldl].
  - destruct Hor as [Hin|Hex]; [by apply elem_of_nil in Hin|done].
  - apply IH. destruct Hor as [[->|Hin]%elem_of_cons|(m & Hm & Hp)]; [right|by left|right; eauto].
    unfold insert_or_ignore_mailbox. destruct (sql_find _ t) as [m|] eqn:E.
    + apply sql_find_some in E. by exists m.
    + eexists. split; [apply elem_of_app; right; by apply list_elem_of_singleton|].
      by apply mailbox_is_spec.
Qed.

(** A system mailbox is always there afterwards. *)
Lemma ensure_mailbox_some m account role : system_role role ->
  exists mb, ensure_mailbox m account role
    = (Ok mb, with_mailboxes (foldl (insert_or_ignore_mailbox account) (mailboxes m) SYSTEM_ROLES) m) /\
    mb ∈ mailboxes (ensure_mailbox m account role).2 /\ mb_key mb = (account, role).
Proof.
  intros (rn & -> & Hrn)%list_elem_of_fmap. unfold ensure_mailbox, get_mailbox_by_role. cbn [snd mailboxes with_mailboxes].
  destruct (insert_role_present account SYSTEM_ROLES (mailboxes m) rn (or_introl Hrn)) as (mb & Hmb & Hp).
  destruct (sql_find_is_some _ _ _ Hmb Hp) as [mb' E]. rewrite E. apply sql_find_some in E as [Hin Hk%mailbox_is_spec].
  by exists mb'.
Qed.

Lemma system_roles_known : system_role ROLE_DRAFTS /\ system_role ROLE_SENT /\ system_role ROLE_TRASH.
Proof. split_and!; apply (bool_decide_unpack (system_role _)); vm_compute; done. Qed.

(** Two writes to a row are one. *)
Lemma update_twice (f g : NewMessage -> NewMessage) id l :
  update_row f id (update_row g id l) = update_row (fun m => f (g m)) id l.
Proof.
  unfold update_row, sql_update. rewrite <- list_fmap_compose. apply list_fmap_ext. intros i m _. cbn.
  destruct (m_id m =? id)%Z eqn:E; cbn; by rewrite E.
Qed.

Section Mail.
Context `{PrimitiveLaws} `{BlobHash} `{SqlAny} `{AnyOrder} `{DkimSigner} `{MailParser} `{FullText} `{HtmlLibrary}.
Context `{MimeWriter} `{ContactJson} `{ArgsDecoder}.
Context (to_lowercase : str -> str).
Context (ctx : AccountContext).

Abbreviation md s := (metadata (ap_mail s)).
Abbreviation bl s := (blobs (ap_mail s)).

(** ** Drafts *)

(** The message a draft was built from. *)
Definition draft_html (req : EmailCreateRequest) : option str := sanitize_outbound <$> ec_body_html req.

Definition draft_text (req : EmailCreateRequest) : option str :=
  match draft_html req with Some h => Some (html_to_text h) | None => ec_body_text req end.

(** The row and the sealed copy a successful [create_draft] leaves. *)
Record draft_filed (A : Z) (req : EmailCreateRequest) (s s' : ApiState) (row_id thread : Z) (row : NewMessage) (raw : RawMessage)
    : Prop := {
  df_messages : messages (md s') = messages (md s) ++ [mkStored row_id row];
  df_new : row_id ∉ m_id <$> messages (md s);
  df_account : account_id row = A;
  df_thread : thread_id row = thread;
  df_keywords : keywords row = KEYWORD_DRAFT;
  df_from : mail_from row = cx_address ctx;
  df_mailbox : exists mb, mb ∈ mailboxes (md s') /\ mb_id mb = mailbox_id row /\ mb_key mb = (A, ROLE_DRAFTS);
  df_message_id : message_id_header row = Some (raw_message_id raw);
  df_size : size_bytes row = Z.of_nat (length (raw_bytes raw)) /\ (size_bytes row <= max_upload_size ctx)%Z;
  df_built : exists irt refs attachments inline,
    build (d_message_id (draws ctx (ap_draws s))) (cx_address ctx) (ec_to req) (ec_cc req) (ec_subject req)
      (draft_text req) (draft_html req) irt refs (d_now (draws ctx (ap_draws s))) attachments inline = Ok raw;
  df_sealed : seal_for_account (d_seal (draws ctx (ap_draws s))) (bl s) (cx_account_pub ctx) (cx_key_id ctx) (raw_bytes raw)
    = (Ok (blob_hash row, dek_wrap row), bl s')
}.

Lemma resolve_keeps (I : ApiState -> Prop) A f l :
  keeps I (resolve_attachments ctx A l) /\ keeps I (resolve_inline_images ctx A f).
Proof. unfold resolve_attachments, resolve_inline_images, resolve_upload. split; repeat api_step. Qed.

Lemma thread_keeps m tm : messages (find_or_create_thread m tm).2 = messages m.
Proof. apply find_or_create_thread_messages. Qed.

Lemma create_draft_outcome A req s0 :
  triple (eq s0) (create_draft to_lowercase ctx A req) (fun r s =>
    match r with
    | Done (Ok (row_id, thread)) => exists row raw, draft_filed A req s0 s row_id thread row raw
    | _ => messages (md s) = messages (md s0)
    end).
Proof.
  unfold create_draft. apply triple_try_ret; [intros u Hcheck|by intros e s _ ->].
  set (base := fun s => messages (md s) = messages (md s0) /\ bl s = bl s0).
  eapply triple_bind with (R := fun r s => base s /\ r = Done (draws ctx (ap_draws s0))).
  { intros s <-. done. }
  2: { intros s [Hs ?]. done. }
  intros d. eapply (triple_consequence _ _ (fun s => d = draws ctx (ap_draws s0) /\ base s));
    [|by intros s [Hs [= ->]]|intros r s Hq; exact Hq]. apply triple_fact. intros ->. cbv zeta.
  eapply triple_bind with (R := fun _ => base); [by intros s Hs| |by intros s [Hs _]]. intros parent.
  destruct (reply_headers parent) as [irt refs].
  apply triple_exec_bind; [|by intros s [Hs _]]. intros subj Hsubj.
  eapply triple_bind with (R := fun _ => base); [| |by intros s [Hs _]].
  { destruct parent; [by intros s Hs|]. intros s Hs. unfold on_metadata.
    pose proof (thread_keeps (md s) (mkThreadMatch A [] subj)) as Ht.
    destruct (find_or_create_thread _ _) as [t m]. cbn in *. unfold base in *. cbn. by rewrite Ht. }
  intros thread. destruct (resolve_keeps base A (match draft_html req with Some h => extract_inline_cids h | None => [] end)
    (ec_attachment_blob_ids req)) as [Hra Hri].
  eapply triple_try with (R := fun _ => base).
  { intros s Hs. specialize (Hra s Hs). destruct (resolve_attachments ctx A _ s) as [[[x|e]|] s']; [done|exact (proj1 Hra)..]. }
  intros attachments. eapply triple_try with (R := fun _ => base).
  { intros s Hs. specialize (Hri s Hs). unfold draft_html in Hri.
    destruct (resolve_inline_images ctx A _ s) as [[[x|e]|] s']; [done|exact (proj1 Hri)..]. }
  intros inline. apply triple_try_ret; [intros raw Hraw|by intros e s _ [Hs _]].
  destruct (max_upload_size ctx <? _)%Z eqn:Emax; [by intros s [Hs _]|].
  eapply triple_try with (R := fun sealed s => messages (md s) = messages (md s0) /\
    seal_for_account (d_seal (draws ctx (ap_draws s0))) (bl s0) (cx_account_pub ctx) (cx_key_id ctx) (raw_bytes raw)
    = (Ok sealed, bl s)).
  { intros s [Hs Hb]. unfold seal_raw. rewrite Hb. destruct (seal_for_account _ _ _ _ _) as [[x|e] b]; by cbn. }
  intros sealed. destruct system_roles_known as (Hdr & _ & _).
  eapply triple_try with (R := fun mb s => messages (md s) = messages (md s0) /\
    seal_for_account (d_seal (draws ctx (ap_draws s0))) (bl s0) (cx_account_pub ctx) (cx_key_id ctx) (raw_bytes raw)
    = (Ok sealed, bl s) /\ mb ∈ mailboxes (md s) /\ mb_key mb = (A, ROLE_DRAFTS)).
  { intros s [Hs Hb]. unfold on_metadata. destruct (ensure_mailbox_some (md s) A ROLE_DRAFTS Hdr) as (mb & E & Hin & Hk).
    rewrite E in Hin |- *. cbn in *. done. }
  intros mb. intros s (Hs & Hb & Hin & Hk). unfold mbind, St_bind, on_metadata, insert_message. cbn.
  eexists _, raw. split; cbn; first [by rewrite Hs|reflexivity|done|idtac].
  - rewrite Hs. apply next_rowid_fresh.
  - by exists mb.
  - split; [reflexivity|]. by apply Z.ltb_ge.
  - by eexists _, _, _, _.
  - by destruct sealed.
Qed.

(** C13.  A draft is filed sealed: [create_draft] either adds exactly one
    message -- in the account's Drafts, marked [$draft], from the account's
    own address, built from the sanitized HTML and the text derived from it,
    no larger than the limit -- whose blob opens with the account's key to
    the bytes that were built, or (an error, a panic) adds none. *)
Theorem create_draft_files_and_opens (A : Z) (req : EmailCreateRequest) (s : ApiState) :
  cx_account_pub ctx = hpke_public (cx_account_priv ctx) -> length (cx_account_priv ctx) = PRIVATE_KEY_LEN ->
  (cx_key_id ctx < 65536)%N -> (forall n, draw_ok (draws ctx n)) -> intact (bl s) ->
  let '(r, s') := create_draft to_lowercase ctx A req s in
  match r with
  | Done (Ok (row_id, thread)) => exists row raw,
      draft_filed A req s s' row_id thread row raw /\
      ((forall c, read (bl s) (blob_hash row) = Ok c ->
          c = aead_seal (dr_nonce (d_seal (draws ctx (ap_draws s)))) (dr_dek (d_seal (draws ctx (ap_draws s)))) 1 (raw_bytes raw)) ->
       open_message (bl s') row (cx_account_priv ctx) = Done (Ok (raw_bytes raw)))
  | _ => messages (md s') = messages (md s)
  end.
Proof.
  intros Hpub Hsk Hkey Hdraws Hb. pose proof (create_draft_outcome A req s s eq_refl) as Ho.
  destruct (create_draft _ _ _ _ s) as [[[[row_id thread]|e]|] s']; [|exact Ho..]. cbn [fst snd] in Ho.
  destruct Ho as (row & raw & Hf). exists row, raw. split; [exact Hf|]. intros Hread.
  destruct (seal_for_account_ok (d_seal (draws ctx (ap_draws s))) (bl s) (cx_account_priv ctx) (cx_key_id ctx) (raw_bytes raw) Hsk)
    as (wrap & E & Ew).
  pose proof (df_sealed _ _ _ _ _ _ _ _ Hf) as Es. rewrite Hpub, E in Es. injection Es as Eh Ewr Eb.
  unfold open_message. rewrite <- Eb, <- Ewr, <- Eh. apply (open_sealed _ _ _ (cx_key_id ctx)); try done.
  - by destruct (Hdraws (ap_draws s)).
  - intros c. rewrite Eh. apply Hread.
Qed.

(** ** Submissions *)

(** A message after it was sent: in Sent, its keywords without [$draft]. *)
Definition sent_row (mailbox : Z) (kw : str) (m : NewMessage) : NewMessage :=
  set_keywords (join (# ",") (List.filter (fun k => negb (str_eqb k KEYWORD_DRAFT)) (keyword_list kw)))
    (set_mailbox mailbox m).

Definition address_domain : str :=
  match rsplit_once "@" (cx_address ctx) with Some (_, d) => d | None => cx_address ctx end.

(** The queue and the messages are as they were. *)
Definition not_submitted (s s' : ApiState) : Prop :=
  outbound (ap_queue s') = outbound (ap_queue s) /\ outbound_rcpt (ap_queue s') = outbound_rcpt (ap_queue s) /\
  messages (md s') = messages (md s).

(** What a successful [submit_email] did: [m] is the account's message,
    [raw] what it opens to, [h] the DKIM header. *)
Record submitted (A : Z) (req : EmailSubmissionCreateRequest) (s s' : ApiState) (m : StoredMessage) (raw : str)
    (key : DomainKey) (h : str) (now oid : Z) (ids : list Z) (sent : Mailbox) : Prop := {
  su_own : m ∈ messages (md s) /\ email_row_id (sc_email_id req) = Some (m_id m) /\ account_id (m_row m) = A;
  su_opened : open_message (bl s) (m_row m) (cx_account_priv ctx) = Done (Ok raw);
  su_envelope : Forall (fun a => valid_email_address a = true) (sc_rcpt_to req) /\ 1 <= length (sc_rcpt_to req) <= 100;
  su_signed : sign key now raw = Ok h /\ dk_domain key = address_domain;
  su_outbound : outbound (ap_queue s') = outbound (ap_queue s) ++
    [mkOutbound oid A (hash_hex (h ++ raw)) (cx_address ctx) now (now + MAX_LIFETIME_SECS) None None false];
  su_rcpts : outbound_rcpt (ap_queue s') = outbound_rcpt (ap_queue s) ++ zip_with (new_rcpt_row oid now) ids (sc_rcpt_to req);
  su_ids : oid ∉ o_id <$> outbound (ap_queue s) /\ fresh_ids (ap_queue s) ids (length (sc_rcpt_to req));
  su_blobs : bl s' = (write (bl s) (h ++ raw)).2;
  su_sent : sent ∈ mailboxes (md s') /\ mb_key sent = (A, ROLE_SENT);
  su_messages : messages (md s') = update_row (sent_row (mb_id sent) (keywords (m_row m))) (m_id m) (messages (md s))
}.

Lemma submit_outcome A req s :
  queue_inv (ap_queue s) ->
  let '(r, s') := submit_email ctx A req s in
  match r with
  | Done (Ok id) => exists m raw key h now oid ids sent, id = m_id m /\ submitted A req s s' m raw key h now oid ids sent
  | _ => not_submitted s s'
  end.
Proof.
  intros Hq. unfold submit_email, read_metadata, get_message.
  destruct (email_row_id (sc_email_id req)) as [row_id|] eqn:Erow; [|done].
  rewrite (run_try _ _ s s row_id) by done.
  erewrite (run_try _ _ s s) by done. cbn [display_err].
  destruct (sql_find _ (messages (md s))) as [m|] eqn:Em; [|done]. apply sql_find_some in Em as [Hm Hid%Z.eqb_eq].
  cbn [mbind option_bind]. destruct (account_id (m_row m) =? A)%Z eqn:EA; [|done]. apply Z.eqb_eq in EA.
  rewrite (run_try _ _ s s m) by done.
  destruct (bool_decide (sc_rcpt_to req = [])) eqn:En; [done|]. destruct (100 <? _) eqn:Elen; [done|].
  destruct (sql_find _ (sc_rcpt_to req)) as [bad|] eqn:Ebad; [done|].
  erewrite (run_bind st_get _ s s) by done.
  destruct (open_message (bl s) (m_row m) (cx_account_priv ctx)) as [[raw|e]|] eqn:Eo; [|done..].
  erewrite (run_bind (st_exec _) _ s s) by done. rewrite (run_try _ _ s s raw) by done. cbv zeta.
  fold address_domain. unfold fresh at 1. erewrite run_bind by done.
  set (s1 := with_draws _ s). unfold on_queue.
  destruct (ensure_dkim_key (d_rsa (draws ctx (ap_draws s))) (d_now (draws ctx (ap_draws s))) address_domain (ap_queue s)) as [key q1] eqn:Ek.
  pose proof (ensure_dkim_key_frame (d_rsa (draws ctx (ap_draws s))) (d_now (draws ctx (ap_draws s))) address_domain (ap_queue s)) as Hf.
  rewrite Ek in Hf. destruct Hf as (Hf1 & Hf2 & Hf3). cbn [snd] in *.
  destruct key as [key|e].
  2: { erewrite run_try_err; [|change (ap_queue s1) with (ap_queue s); by rewrite Ek]. by split_and!. }
  destruct (dkim_key_stable _ (d_rsa (draws ctx 0)) _ 0 _ _ _ _ Ek) as [Hdom _].
  erewrite run_try; [|change (ap_queue s1) with (ap_queue s); by rewrite Ek].
  erewrite run_bind by done.
  set (now := d_now _). set (new := mkNewOutbound A (cx_address ctx) raw (sc_rcpt_to req) false None None).
  pose proof (enqueue_cases key new now q1 (bl s) (Hf3 Hq)) as [_ Hc].
  unfold enqueue_message. set (s2 := with_draws _ (with_queue q1 s1)).
  assert (E2 : ap_queue s2 = q1 /\ bl s2 = bl s /\ md s2 = md s) by done. destruct E2 as (Eq2 & Eb2 & Em2).
  destruct (enqueue key new now q1 (bl s)) as [[id|e] [q3 b3]] eqn:Een; cbn [fst snd] in Hc.
  2: { subst q3. erewrite run_try_err; [|cbv beta; rewrite Eq2, Eb2; fold new; rewrite Een; reflexivity]. by split_and!. }
  destruct Hc as (h & ids & Es & Eid & Hids & [= -> ->]).
  erewrite run_try; [|cbv beta; rewrite Eq2, Eb2; fold new; rewrite Een; reflexivity].
  set (s3 := with_queue _ (with_blobs _ s2)).
  destruct system_roles_known as (_ & Hsent & _).
  destruct (ensure_mailbox_some (md s) A ROLE_SENT Hsent) as (sent & Emb & Hin & Hk). rewrite Emb in Hin.
  erewrite run_try; [|unfold on_metadata; change (md s3) with (md s); rewrite Emb; reflexivity].
  exists m, raw, key, h, now, id, ids, sent. split; [done|].
  subst row_id. split; cbn [s3]; rewrite <- ?Hf1, <- ?Hf2; try done.
  - split; [|by apply bool_decide_eq_false in En; apply Nat.ltb_ge in Elen; destruct (sc_rcpt_to req); cbn in *; [|lia]].
    apply Forall_forall. intros a Ha. pose proof (sql_find_none _ _ _ Ebad Ha) as Hv. by apply negb_false_iff in Hv.
  - rewrite Eid. reflexivity.
  - rewrite Eid. reflexivity.
  - rewrite Eid. split; [apply next_rowid_fresh|]. unfold fresh_ids. by rewrite <- Hf2.
  - apply (update_twice (set_keywords _) (set_mailbox _)).
Qed.

(** C9.  A submission sends what is stored, as the account.  On success the
    queue holds exactly one message more: the account's own stored message,
    opened with its key, behind a DKIM header made with the key of the
    account's domain, from the account's address, with one recipient row for
    each address of the envelope, in order (every address valid, at most a
    hundred); and the message has moved to Sent without [$draft].  On an error
    or a panic the queue and the messages are as before. *)
Theorem submit_email_sends_the_stored_message (A : Z) (req : EmailSubmissionCreateRequest) (s : ApiState) :
  queue_inv (ap_queue s) -> intact (bl s) ->
  let '(r, s') := submit_email ctx A req s in
  match r with
  | Done (Ok id) => exists m raw key h now oid ids sent, id = m_id m /\
      submitted A req s s' m raw key h now oid ids sent /\
      ((forall c, read (bl s) (hash_hex (h ++ raw)) = Ok c -> c = h ++ raw) ->
       read (bl s') (hash_hex (h ++ raw)) = Ok (h ++ raw))
  | _ => not_submitted s s'
  end.
Proof.
  intros Hq Hb. pose proof (submit_outcome A req s Hq) as Ho.
  destruct (submit_email ctx A req s) as [[[id|e]|] s']; [|exact Ho..].
  destruct Ho as (m & raw & key & h & now & oid & ids & sent & Hid & Hs).
  exists m, raw, key, h, now, oid, ids, sent. split; [done|]. split; [done|]. intros Hc.
  rewrite (su_blobs _ _ _ _ _ _ _ _ _ _ _ _ Hs). by apply write_read.
Qed.

(** ** Patches *)

(** [Email/set] files a message under whatever mailbox number the patch names:
    neither that the mailbox exists nor whose it is is looked up. *)
Lemma update_email_moves_anywhere A id n m s :
  email_row_id id = Some (m_id m) -> get_message (md s) (m_id m) = Ok (Some m) -> account_id (m_row m) = A ->
  (i64_min <= n <= i64_max)%Z ->
  update_email A id {[ # "mailboxIds/" ++ # "b" ++ dec n := VBool true ]} s
  = (Done (Ok tt), with_metadata (with_messages (update_row (set_mailbox n) (m_id m) (messages (md s))) (md s)) s).
Proof.
  intros Hid Hm HA Hn. unfold update_email, own_message. rewrite Hid. unfold read_metadata.
  erewrite run_try; [|rewrite Hm, HA, Z.eqb_refl; reflexivity].
  unfold hash_iter. rewrite map_to_list_singleton, (proj1 (Permutation_singleton_r _ _) (any_order_perm _ _)).
  assert (Hpath : forall r, str_eqb (# "mailboxIds/" ++ r) (# "mailboxIds") = false /\
    strip_prefix (# "mailboxIds/") (# "mailboxIds/" ++ r) = Some r /\ strip_prefix (# "b") (# "b" ++ r) = Some r).
  { intros r. split; [by apply bool_decide_eq_false_2|]. by split; apply strip_prefix_some. }
  cbn [st_foldl]. erewrite run_bind.
  2: { unfold patch_step. destruct (Hpath (# "b" ++ dec n)) as (-> & -> & _).
       unfold is_true. cbn [as_bool]. rewrite bool_decide_eq_true_2 by done. unfold mailbox_row_id.
       rewrite (proj2 (proj2 (Hpath _))). cbn [mbind option_bind]. rewrite parse_i64_dec by done. reflexivity. }
  reflexivity.
Qed.

End Mail.
