(* ===== verification/ApiExamples.v ===== *)
(** * ApiExamples: the methods on small states, [jmap]

    Concrete libraries, sessions and states for src/crates/jmap/src/api.rs,
    and what its theorems say of them. *)

From stdpp Require Import base list strings gmap sorting.
From Stdlib Require Import Ascii ZArith Lia.
From S2P Require Import Prelude RustStr Input Header Limits Store Sealing Auth AuditLog Delivery Backoff Queue Worker Html Email Compose Api ApiIsolation ApiContacts ApiMail.
Import Store.Blob Store.Subject Store.Metadata.

#[local] Existing Instance toy_primitives.
#[local] Existing Instance toy_laws.
#[local] Existing Instance toy_BlobHash.
#[local] Existing Instance toy_signer.
#[local] Existing Instance toy_html.
#[local] Existing Instance toy_mime.
#[local] Existing Instance first_row.
#[local] Existing Instance as_listed.

(** A parser that knows no message and an index that finds nothing. *)
#[local] Instance toy_parser : MailParser := {| parse_message _ := None |}.
#[local] Instance toy_fulltext : FullText := {| fts5_match _ _ := Ok [] |}.

(** Contacts: the name's length in unary, the name, the address. *)
Definition toy_contact (p : ContactPlain) : str :=
  match cp_name p with
  | None => "-"%char :: cp_email p
  | Some n => replicate (length n) "1"%char ++ "0"%char :: (n ++ cp_email p)
  end.

Fixpoint ones (s : str) : nat := match s with "1"%char :: s => S (ones s) | _ => 0 end.

Definition toy_contact_from (s : str) : result str ContactPlain :=
  match s with
  | "-"%char :: e => Ok (mkContactPlain None e)
  | _ => let n := ones s in let rest := drop (S n) s in Ok (mkContactPlain (Some (take n rest)) (drop n rest))
  end.

Lemma ones_replicate n s : ones (replicate n "1"%char ++ "0"%char :: s) = n.
Proof. induction n as [|n IH]; [done|]. cbn. by rewrite IH. Qed.

#[local] Instance toy_contact_json : ContactJson := {| contact_to_vec := toy_contact; contact_from_slice := toy_contact_from |}.
#[local] Instance toy_contact_laws : ContactJsonLaws.
Proof.
  constructor. intros [[n|] e]; [|done]. cbn [contact_from_slice contact_to_vec toy_contact_json]. unfold toy_contact. cbn [cp_name cp_email].
  set (s := replicate _ _ ++ _). assert (Hs : toy_contact_from s
    = Ok (mkContactPlain (Some (take (ones s) (drop (S (ones s)) s))) (drop (ones s) (drop (S (ones s)) s)))).
  { unfold toy_contact_from, s. by destruct n. }
  rewrite Hs. unfold s. rewrite ones_replicate.
  assert (Hd : drop (S (length n)) (replicate (length n) "1"%char ++ "0"%char :: n ++ e) = n ++ e).
  { rewrite drop_app_ge; rewrite length_replicate; [|lia]. by replace (S (length n) - length n) with 1 by lia. }
  by rewrite Hd, take_app_length, drop_app_length.
Defined.

(** Arguments as arrays: the account, then what is destroyed or created. *)
#[local] Instance toy_args : ArgsDecoder := {|
  de_mailbox_get _ := Err [];
  de_email_query _ := Err [];
  de_email_get _ := Err [];
  de_email_set v := match v with VArray [VString a; VString id] => Ok (mkEmailSetArgs a ∅ ∅ [id]) | _ => Err [] end;
  de_submission_set _ := Err [];
  de_thread_get _ := Err [];
  de_identity_get _ := Err [];
  de_identity_set _ := Err [];
  de_contact_get _ := Err [];
  de_contact_set v := match v with
    | VArray [VString a; VString email] => Ok (mkContactSetArgs a {[ # "k" := mkContactCreate None email ]} ∅ [])
    | _ => Err []
    end
|}.

Definition wit_draw (n : nat) : Draw :=
  mkDraw (1000 + Z.of_nat n) (# "ab") (mkDeliverRand (pad 32 (# "dek")) (pad 24 []) []) (pad 24 []) (Ok (# "priv", # "pub")).

Lemma wit_draws n : draw_ok (wit_draw n).
Proof. by repeat split. Qed.

(** Account 1's session. *)
Definition wit_ctx : AccountContext :=
  mkContext (# "1") (pad 32 (# "priv")) (pad 32 (# "priv")) 1 (# "alice@example.com") (pad 32 (# "amk")) 1000
    (fun _ => mret (Ok [])) wit_draw.

Lemma wit_search q s : exists i, (search_fn wit_ctx q s).2 = with_index i s.
Proof. exists (ap_index s). by destruct s. Qed.

Definition wit_row (account : Z) (hash wrap kw : str) : NewMessage :=
  mkNewMessage account 1 1 hash wrap [] [] [] 0 [] [] [] 0 kw None None None None None None.

Definition wit_state (messages : list StoredMessage) (b : BlobStore) : ApiState :=
  mkApi (mkMailStore b (with_messages messages empty_store)) empty_queue empty_auth Changes.new None 0.

(** Account 1 asks for message 1 of account 2 to be destroyed. *)
Definition wit_other : ApiState := wit_state [mkStored 1 (wit_row 2 (# "h") [] [])] ∅.
Definition wit_destroy : MethodCall := mkCall (# "Email/set") (VArray [VString (# "1"); VString (# "m1")]) (# "c").

(** A first contact. *)
Definition wit_contact : MethodCall := mkCall (# "Contact/set") (VArray [VString (# "1"); VString (# "bob@example.net")]) (# "c").
Definition wit_empty_state : ApiState := wit_state [] ∅.

Lemma contacts_stay_distinct_witness :
  let s' := (dispatch to_ascii_lowercase wit_contact wit_ctx wit_empty_state).2 in
  length (contacts (metadata (ap_mail s'))) = 1 /\ inv wit_ctx s'.
Proof.
  split; [vm_compute; reflexivity|].
  apply (contacts_stay_distinct to_ascii_lowercase wit_ctx (fun n => wit_draws n) wit_contact wit_empty_state).
  - exact wit_search.
  - split; [constructor|]. intros c c' p p' Hc. by apply elem_of_nil in Hc.
Defined.

Lemma empty_intact : intact ∅.
Proof. intros h p c _ Hc. by rewrite lookup_empty in Hc. Qed.

(** A draft to one addressee. *)
Definition wit_create : EmailCreateRequest :=
  mkEmailCreate [mkAddressIn (Some (# "Bob")) (# "bob@example.net")] [] [] (Some (# "Hello")) (Some (# "hi")) None None [].
Definition wit_drafted : exec (result str (Z * Z)) * ApiState := create_draft to_ascii_lowercase wit_ctx 1 wit_create wit_empty_state.

Lemma wit_drafted_ok : wit_drafted.1 = Done (Ok (1, 1)%Z).
Proof. vm_compute. reflexivity. Qed.

Lemma create_draft_files_and_opens_witness :
  wit_drafted.1 = Done (Ok (1, 1)%Z) /\
  exists row raw, draft_filed wit_ctx 1 wit_create wit_empty_state wit_drafted.2 1 1 row raw /\
    open_message (blobs (ap_mail wit_drafted.2)) row (cx_account_priv wit_ctx) = Done (Ok (raw_bytes raw)).
Proof.
  pose proof wit_drafted_ok as E. split; [exact E|].
  pose proof (create_draft_files_and_opens to_ascii_lowercase wit_ctx 1 wit_create wit_empty_state eq_refl eq_refl
    ltac:(vm_compute; reflexivity) (fun n => wit_draws n) empty_intact) as Ho.
  fold wit_drafted in Ho. destruct wit_drafted as [r s']. cbn [fst snd] in *. subst r.
  destruct Ho as (row & raw & Hf & Hopen). exists row, raw. split; [exact Hf|]. apply Hopen.
  intros c Hc. change (blobs (ap_mail wit_empty_state)) with (∅ : BlobStore) in Hc.
  unfold read in Hc. destruct (path_for _) as [p|]; [|done]. unfold mbind, result_bind in Hc. by rewrite lookup_empty in Hc.
Defined.

(** Sending that draft. *)
Definition wit_submission : EmailSubmissionCreateRequest := mkSubmissionCreate (# "m1") [ # "bob@example.net"].
Definition wit_submitted : exec (result str Z) * ApiState := submit_email wit_ctx 1 wit_submission wit_drafted.2.

Lemma submit_email_sends_the_stored_message_witness :
  wit_submitted.1 = Done (Ok 1%Z) /\
  exists m raw key h now oid ids sent, submitted wit_ctx 1 wit_submission wit_drafted.2 wit_submitted.2 m raw key h now oid ids sent.
Proof.
  assert (E : wit_submitted.1 = Done (Ok 1%Z)) by (vm_compute; reflexivity).
  split; [exact E|].
  assert (Hq : queue_inv (ap_queue wit_drafted.2)).
  { replace (ap_queue wit_drafted.2) with empty_queue by (vm_compute; reflexivity). apply empty_queue_inv. }
  assert (Hb : intact (blobs (ap_mail wit_drafted.2))).
  { pose proof (create_draft_outcome to_ascii_lowercase wit_ctx 1 wit_create wit_empty_state wit_empty_state eq_refl) as Ho.
    fold wit_drafted in Ho. rewrite wit_drafted_ok in Ho. destruct Ho as (row & raw & Hf).
    pose proof (df_sealed _ _ _ _ _ _ _ _ _ Hf) as Es.
    destruct (seal_for_account_ok (d_seal (wit_draw 0)) (∅ : BlobStore) (cx_account_priv wit_ctx) 1 (raw_bytes raw) eq_refl)
      as (wrap & Eo & _).
    assert (Eb : blobs (ap_mail wit_drafted.2) = (write (∅ : BlobStore) (aead_seal (dr_nonce (d_seal (wit_draw 0)))
      (dr_dek (d_seal (wit_draw 0))) 1 (raw_bytes raw))).2) by exact (f_equal snd (eq_trans (eq_sym Es) Eo)).
    rewrite Eb. apply write_intact, empty_intact. }
  pose proof (submit_email_sends_the_stored_message wit_ctx 1 wit_submission wit_drafted.2 Hq Hb) as Ho.
  fold wit_submitted in Ho. destruct wit_submitted as [r s']. cbn [fst snd] in *. subst r.
  destruct Ho as (m & raw & key & h & now & oid & ids & sent & _ & Hs & _).
  by exists m, raw, key, h, now, oid, ids, sent.
Defined.
