(* ===== verification/Jmap.v ===== *)
(** * Jmap: sessions and HTTP handlers, [jmap]

    src/crates/jmap/src: the registry of unlocked accounts (session_store.rs),
    every HTTP handler (handlers.rs) and the routes with their body limits
    (router.rs).  Each reading of the clock and each random value is drawn
    from a supply; a handler's task that panics keeps what it had done. *)

From stdpp Require Import base list strings gmap sorting.
From Stdlib Require Import Ascii ZArith Lia.
From S2P Require Import Prelude RustStr Input Header Limits Scan Store Sealing Auth AuditLog Delivery Backoff Queue Worker Html Email Compose Api ApiIsolation.
Import Store.Blob Store.Subject Store.Metadata.

(** ** Open sessions, session_store.rs *)
Record SessionIdentity : Type := mkFacts { sid_account_pub : str; sid_key_id : N; sid_address : str }.

(** [js_poisoned] is the mutex's flag: a task panicked holding it. *)
Record Session : Type := mkSession {
  js_account_id : Z;
  js_account_priv : str;
  js_amk : str;
  js_identity : SessionIdentity;
  js_last_seen : Z;
  js_search_index : SearchIndex;
  js_poisoned : bool
}.

Definition set_last_seen (now : Z) (s : Session) : Session :=
  mkSession (js_account_id s) (js_account_priv s) (js_amk s) (js_identity s) now (js_search_index s) (js_poisoned s).
Definition set_index (i : SearchIndex) (s : Session) : Session :=
  mkSession (js_account_id s) (js_account_priv s) (js_amk s) (js_identity s) (js_last_seen s) i (js_poisoned s).
Definition set_poisoned (s : Session) : Session :=
  mkSession (js_account_id s) (js_account_priv s) (js_amk s) (js_identity s) (js_last_seen s) (js_search_index s) true.

(** An [Arc] is a position in [arcs]. *)
Record SessionRegistry : Type := mkRegistry {
  tokens : gmap str nat; arcs : list Session; idle_timeout : Z
}.

Definition new (idle_timeout : Z) : SessionRegistry := mkRegistry ∅ [] idle_timeout.

Definition create (bytes : str) (now : Z) (account : Z) (unlocked : UnlockedAccount) (identity : SessionIdentity)
    (g : SessionRegistry) : str * SessionRegistry :=
  let token := hex_encode bytes in
  let session := mkSession account (account_priv unlocked) (amk unlocked) identity now None false in
  (token, mkRegistry (<[token := length (arcs g)]> (tokens g)) (arcs g ++ [session]) (idle_timeout g)).

Definition get (token : str) (g : SessionRegistry) : option nat := tokens g !! token.

Definition remove (token : str) (g : SessionRegistry) : SessionRegistry :=
  mkRegistry (delete token (tokens g)) (arcs g) (idle_timeout g).

Definition remove_if_same (token : str) (expected : nat) (g : SessionRegistry) : SessionRegistry :=
  if bool_decide (get token g = Some expected) then remove token g else g.

Definition on_arc (f : Session -> Session) (arc : nat) (g : SessionRegistry) : SessionRegistry :=
  mkRegistry (tokens g) (alter f arc (arcs g)) (idle_timeout g).

(** The part every accessor starts with: look the token up, lock its session
    (a poisoned mutex panics), drop it if idle for too long ([elapsed] is zero
    when the clock went back), refresh its timer. *)
Definition lock_session (now : Z) (token : str) : St SessionRegistry (option (nat * Session)) := fun g =>
  match get token g with
  | None => (Done None, g)
  | Some arc =>
      match arcs g !! arc with
      | None => (Done None, g)
      | Some s =>
          if js_poisoned s then (Panicked, g)
          else if (idle_timeout g <? Z.max 0 (now - js_last_seen s))%Z
          then (Done None, remove_if_same token arc g)
          else (Done (Some (arc, set_last_seen now s)), on_arc (set_last_seen now) arc g)
      end
  end.

(** ** State and configuration, router.rs *)
Definition DEFAULT_IDLE_TIMEOUT : Z := 30 * 60 * 10 ^ 9.
Definition MAX_REQUEST_BODY_BYTES : Z := 2 * 1024 * 1024.
Definition THROTTLE_BASE_DELAY : Z := 1 * 10 ^ 9.
Definition THROTTLE_MAX_DELAY : Z := 60 * 10 ^ 9.

Record AppState : Type := mkAppState {
  auth_store : AuthStore;
  mail : MailStore;                       (* blobs and metadata *)
  audit_store : AuditStore;
  sessions : SessionRegistry;
  login_throttle : Throttle.LoginThrottle;
  queue_store : QueueStore;
  notifier : Changes.ChangeNotifier;
  drawn : nat                             (* how many draws were made *)
}.

Definition new_state (a : AuthStore) (m : MailStore) (l : AuditStore) (q : QueueStore) (n : Changes.ChangeNotifier) : AppState :=
  mkAppState a m l (new DEFAULT_IDLE_TIMEOUT) (Throttle.new THROTTLE_BASE_DELAY THROTTLE_MAX_DELAY) q n 0.

Definition put_auth (x : AuthStore) (s : AppState) : AppState :=
  mkAppState x (mail s) (audit_store s) (sessions s) (login_throttle s) (queue_store s) (notifier s) (drawn s).
Definition put_mail (x : MailStore) (s : AppState) : AppState :=
  mkAppState (auth_store s) x (audit_store s) (sessions s) (login_throttle s) (queue_store s) (notifier s) (drawn s).
Definition put_audit (x : AuditStore) (s : AppState) : AppState :=
  mkAppState (auth_store s) (mail s) x (sessions s) (login_throttle s) (queue_store s) (notifier s) (drawn s).
Definition put_sessions (x : SessionRegistry) (s : AppState) : AppState :=
  mkAppState (auth_store s) (mail s) (audit_store s) x (login_throttle s) (queue_store s) (notifier s) (drawn s).
Definition put_throttle (x : Throttle.LoginThrottle) (s : AppState) : AppState :=
  mkAppState (auth_store s) (mail s) (audit_store s) (sessions s) x (queue_store s) (notifier s) (drawn s).
Definition put_drawn (x : nat) (s : AppState) : AppState :=
  mkAppState (auth_store s) (mail s) (audit_store s) (sessions s) (login_throttle s) (queue_store s) (notifier s) x.

(** What the methods of a session see, and the state they leave. *)
Definition api_state (index : SearchIndex) (s : AppState) : ApiState :=
  mkApi (mail s) (queue_store s) (auth_store s) (notifier s) index (drawn s).
Definition put_api (a : ApiState) (s : AppState) : AppState :=
  mkAppState (ap_auth a) (ap_mail a) (audit_store s) (sessions s) (login_throttle s) (ap_queue a) (ap_notifier a) (ap_draws a).

(** One reading of the clocks with the random values that may go with it. *)
Record Moment : Type := mkMoment {
  mt_instant : Z;
  mt_token : str;
  mt_audit : str;
  mt_secret : str;
  mt_salt : str;
  mt_draw : Draw
}.

(** Status codes. *)
Definition BAD_REQUEST : Z := 400.
Definition UNAUTHORIZED : Z := 401.
Definition NOT_FOUND : Z := 404.
Definition PAYLOAD_TOO_LARGE : Z := 413.
Definition UNPROCESSABLE_ENTITY : Z := 422.
Definition TOO_MANY_REQUESTS : Z := 429.
Definition INTERNAL_SERVER_ERROR : Z := 500.
Definition SERVICE_UNAVAILABLE : Z := 503.

(** The session resource, types.rs, less the constant fields. *)
Record JmapSession : Type := mkJmapSession {
  jms_account : str; jms_name : str; is_personal : bool; is_read_only : bool; jms_username : str
}.

Record Download : Type := mkDownload { dl_content_type : str; dl_content_disposition : str; dl_body : str }.

Record UploadResponse : Type := mkUploaded { ur_account_id : str; ur_blob_id : str; ur_content_type : str; ur_size : Z }.

Record AppPasswordResponse : Type := mkAppPasswordResponse {
  apr_id : Z; apr_label : str; apr_scope : str; apr_created_at : Z; apr_last_used_at : option Z
}.

Definition app_password_response (p : AppPasswordSummary) : AppPasswordResponse :=
  mkAppPasswordResponse (aps_id p) (aps_label p) (scope_as_str (aps_scope p)) (aps_created_at p) (aps_last_used_at p).

Definition MAX_APP_PASSWORD_LABEL_LEN : nat := 100.

(** A handler answers with a value or a status. *)
Abbreviation Handler A := (St AppState (result Z A)).

(** [spawn_blocking(..).await.map_err(|_| INTERNAL_SERVER_ERROR)?]. *)
Definition blocking {A} (m : St AppState A) : Handler A := fun s =>
  match m s with
  | (Done a, s') => (Done (Ok a), s')
  | (Panicked, s') => (Done (Err INTERNAL_SERVER_ERROR), s')
  end.

Section Handlers.
Context `{Primitives} `{BlobHash} `{SqlAny} `{AnyOrder} `{DkimSigner} `{MailParser} `{FullText} `{HtmlLibrary}.
Context `{MimeWriter} `{ContactJson} `{ArgsDecoder}.
Context (to_lowercase : str -> str).                 (* str::to_lowercase *)
Context (debug_str : str -> str).                    (* [{:?}] of a [str] *)
Context (moments : nat -> Moment).
Context (argon2_config : Z * Z * Z) (max_upload_size_ : Z).
Context (clamav_io : option (str -> option (Result str))).
    (* clamd's answer to the bytes of a request, none on a timeout; if configured *)

Definition tick : St AppState Moment := fun s => (Done (moments (drawn s)), put_drawn (S (drawn s)) s).

Definition on_sessions {A} (m : St SessionRegistry A) : St AppState A := st_zoom sessions put_sessions m.

(** [let _ = audit_store.log(..)]. *)
Definition audit (action detail : str) : St AppState unit :=
  t ← tick;
  st_zoom audit_store put_audit (
    _ ← log (mt_audit t) (d_now (mt_draw t)) action detail; mret tt).

Definition set_throttle (f : Throttle.LoginThrottle -> Throttle.LoginThrottle) : St AppState unit :=
  st_mod (fun s => put_throttle (f (login_throttle s)) s).

Definition on_auth {A} (f : AuthStore -> Result A * AuthStore) : St AppState (Result A) := fun s =>
  let '(r, a) := f (auth_store s) in (Done r, put_auth a s).

(** *** Accessors of the registry *)
Definition account_id_of (token : str) : St AppState (option Z) :=
  t ← tick;
  r ← on_sessions (lock_session (mt_instant t) token);
  mret ((fun x => js_account_id x.2) <$> r).

(** A panic of [f] poisons the mutex it holds. *)
Definition holding {A} (arc : nat) (f : St AppState A) : St AppState A := fun s =>
  match f s with
  | (Done a, s') => (Done a, s')
  | (Panicked, s') => (Panicked, put_sessions (on_arc set_poisoned arc (sessions s')) s')
  end.

Definition with_session {A} (token : str) (f : nat -> Session -> St AppState A) : St AppState (option A) :=
  t ← tick;
  r ← on_sessions (lock_session (mt_instant t) token);
  match r with
  | None => mret None
  | Some (arc, session) => a ← holding arc (f arc session); mret (Some a)
  end.

Definition with_account {A} (token : str) (f : Z -> str -> St AppState A) : St AppState (option A) :=
  with_session token (fun _ session => f (js_account_id session) (js_account_priv session)).

(** *** unlock and lock *)
Definition bearer_token (authorization : option str) : option str := authorization ≫= strip_prefix (# "Bearer ").

Definition unlock_failed (identity detail : str) : Handler (str * str) :=
  t ← tick;
  _ ← set_throttle (fun th => Throttle.record_failure th identity (mt_instant t));
  _ ← audit (# "auth.unlock_failed") detail;
  mret (Err UNAUTHORIZED).

Definition unlock_task (account : Account) (password : str) : St AppState (Result (UnlockedAccount * AppPasswordScope)) :=
  t ← tick;
  st_zoom auth_store put_auth (unlock_any (d_now (mt_draw t)) account password argon2_config).

Definition open_session (account : Account) (unlocked : UnlockedAccount) : St AppState str :=
  t ← tick;
  on_sessions (fun g =>
    let '(token, g') := create (mt_token t) (mt_instant t) (acc_id account) unlocked
                          (mkFacts (account_pub account) (acc_key_id account) (address account)) g in
    (Done token, g')).

(** The token and the account's id. *)
Definition unlock (req_local_part req_domain req_password : str) : Handler (str * str) :=
  let identity := req_local_part ++ # "@" ++ req_domain in
  t ← tick;
  s ← st_get;
  if negb (is_ok (Throttle.check (login_throttle s) identity (mt_instant t))) then mret (Err TOO_MANY_REQUESTS)
  else
    match find_by_address (auth_store s) req_local_part req_domain with
    | Err _ => mret (Err INTERNAL_SERVER_ERROR)
    | Ok None => unlock_failed identity identity
    | Ok (Some account) =>
        unlock_result ←? blocking (unlock_task account req_password);
        match unlock_result with
        | Ok (unlocked, Full) =>
            _ ← set_throttle (fun th => Throttle.record_success th identity);
            token ← open_session account unlocked;
            _ ← audit (# "auth.unlock") (address account);
            mret (Ok (token, dec (acc_id account)))
        | Ok (_, Submission) | Err _ => unlock_failed identity (address account)
        end
    end.

Definition lock (authorization : option str) : St AppState unit :=
  match bearer_token authorization with
  | None => mret tt
  | Some token =>
      account ← account_id_of token;
      _ ← match account with
          | Some account => audit (# "session.close") (dec account)
          | None => mret tt
          end;
      st_mod (fun s => put_sessions (remove token (sessions s)) s)
  end.

(** The account of a request's session. *)
Definition authenticated_account (authorization : option str) : Handler (str * Z) :=
  token ←? mret (ok_or UNAUTHORIZED (bearer_token authorization));
  account ← account_id_of token;
  account ←? mret (ok_or UNAUTHORIZED account);
  mret (Ok (token, account)).

(** *** Application passwords *)
Definition list_app_passwords (authorization : option str) : Handler (list AppPasswordResponse) :=
  ta ←? authenticated_account authorization;
  s ← st_get;
  passwords ←? mret (map_err INTERNAL_SERVER_ERROR (Auth.list_app_passwords (auth_store s) ta.2));
  mret (Ok (app_password_response <$> passwords)).

Definition create_app_password (authorization : option str) (req_label req_scope : str)
    : Handler (AppPasswordResponse * str) :=
  token ←? mret (ok_or UNAUTHORIZED (bearer_token authorization));
  let label := trim req_label in
  if bool_decide (label = []) || (MAX_APP_PASSWORD_LABEL_LEN <? length label)%nat then mret (Err UNPROCESSABLE_ENTITY)
  else
    scope ←? mret (ok_or UNPROCESSABLE_ENTITY (scope_parse req_scope));
    result ←? blocking (with_session token (fun _ session =>
      t ← tick;
      on_auth (fun a => Auth.create_app_password (mt_secret t) (mt_salt t) (d_nonce (mt_draw t)) (d_now (mt_draw t)) a
                          (js_account_id session) (js_amk session) label scope argon2_config)));
    created ←? mret (ok_or UNAUTHORIZED result);
    created ←? mret (map_err INTERNAL_SERVER_ERROR created);
    _ ← audit (# "account.app_password_create") (aps_label created.1);
    mret (Ok (app_password_response created.1, created.2)).

Definition revoke_app_password (authorization : option str) (id : Z) : Handler unit :=
  ta ←? authenticated_account authorization;
  r ← on_auth (fun a => Auth.revoke_app_password a ta.2 id);
  _ ←? mret (map_err INTERNAL_SERVER_ERROR r);
  _ ← audit (# "account.app_password_revoke") (dec id);
  mret (Ok tt).

(** *** The session resource *)
Definition jmap_session (authorization : option str) : Handler JmapSession :=
  ta ←? authenticated_account authorization;
  let account := dec ta.2 in
  mret (Ok (mkJmapSession account account true true account)).

(** *** Method calls *)
Definition search_in (session : Session) (query : str) : St ApiState (Result (list Z)) := fun a =>
  let '(r, index) := search (blobs (ap_mail a)) (metadata (ap_mail a)) (js_account_id session) (js_account_priv session)
                       query (ap_index a) in
  (r, with_index index a).

Definition session_context (account_id_str : str) (session : Session) : AccountContext :=
  mkContext account_id_str (js_account_priv session) (sid_account_pub (js_identity session)) (sid_key_id (js_identity session))
    (sid_address (js_identity session)) (js_amk session) max_upload_size_ (search_in session) (fun n => mt_draw (moments n)).

(** One call, on the stores and the session's own index. *)
Definition dispatch_in (call : MethodCall) (account_id_str : str) (arc : nat) (session : Session)
    : St AppState MethodResponse := fun s =>
  let '(r, a) := dispatch to_lowercase call (session_context account_id_str session)
                   (api_state (js_search_index session) s) in
  (r, put_sessions (on_arc (set_index (ap_index a)) arc (sessions s)) (put_api a s)).

(** One entry of the batch after another; a session gone ends it. *)
Fixpoint run_calls (token account_id_str : str) (calls : list MethodCall) : Handler (list MethodResponse) :=
  match calls with
  | [] => mret (Ok [])
  | call :: calls =>
      response ← with_session token (dispatch_in call account_id_str);
      response ←? mret (ok_or UNAUTHORIZED response);
      responses ←? run_calls token account_id_str calls;
      mret (Ok (response :: responses))
  end.

Definition jmap_api (authorization : option str) (method_calls : list MethodCall) : Handler (list MethodResponse) :=
  ta ←? authenticated_account authorization;
  r ←? blocking (run_calls ta.1 (dec ta.2) method_calls);
  mret r.

(** *** Push, the stream of [sse] *)

(** What a subscriber receives, and when. *)
Inductive Received : Type := Changed (c : Changes.AccountChanged) | Lagged | Closed.

Inductive SseEvent : Type := StateEvent (account state : Z) | Heartbeat.

Definition HEARTBEAT : Z := 30 * 10 ^ 9.

(** Where one poll of the stream leaves: an event at a time with the rest to
    be received, or the end. *)
Inductive Polled : Type := Event (e : SseEvent) (at_ : Z) (rest : list (Z * Received)) | End_.

(** The body of [unfold] from time [now]: wait for a change or, 30 s after the
    wait began, for the heartbeat; every change received starts a new wait. *)
Fixpoint poll (token : str) (account now : Z) (arrivals : list (Z * Received)) : St SessionRegistry Polled :=
  let heartbeat :=
    r ← lock_session (now + HEARTBEAT) token;
    mret (if bool_decide ((fun x => js_account_id x.2) <$> r = Some account)
          then Event Heartbeat (now + HEARTBEAT) arrivals else End_) in
  match arrivals with
  | [] => heartbeat
  | (t, received) :: rest =>
      if (t <? now + HEARTBEAT)%Z then
        match received with
        | Changed c =>
            if (Changes.account_id c =? account)%Z
            then mret (Event (StateEvent account (Changes.change_state c)) t rest)
            else poll token account t rest
        | Lagged => poll token account t rest
        | Closed => mret End_
        end
      else heartbeat
  end.

(** The first [n] events of the stream. *)
Fixpoint stream (n : nat) (token : str) (account now : Z) (arrivals : list (Z * Received))
    : St SessionRegistry (list SseEvent) :=
  match n with
  | O => mret []
  | S n =>
      p ← poll token account now arrivals;
      match p with
      | End_ => mret []
      | Event e t rest => l ← stream n token account t rest; mret (e :: l)
      end
  end.

(** The token and account the stream is opened for. *)
Definition sse (authorization query_token : option str) : Handler (str * Z) :=
  let token := match bearer_token authorization with Some t => Some t | None => query_token end in
  token ←? mret (ok_or UNAUTHORIZED token);
  account ← account_id_of token;
  account ←? mret (ok_or UNAUTHORIZED account);
  mret (Ok (token, account)).

(** *** Download *)
Definition part_file (part : MailPart) : str * str * str :=
  (default (# "attachment") (attachment_name part), part_type part, part_contents part).

(** The file's name, type and bytes. *)
Definition resolve_blob (m : MailStore) (account : Z) (account_priv blob_id : str) : exec (option (str * str * str)) :=
  match strip_prefix (# "m") blob_id with
  | Some rest =>
      match '(message_id, index) ← split_once "." rest;
            message_id ← parse_i64 message_id;
            index ← parse_usize index;
            stored ← match get_message (metadata m) message_id with Ok o => o | Err _ => None end;
            if (account_id (m_row stored) =? account)%Z then Some (m_row stored, index) else None with
      | None => mret None
      | Some (row, index) =>
          raw ← open_message (blobs m) row account_priv;
          mret (raw ← ok_opt raw;
                message ← parse_message raw;
                part_file <$> mm_attachments message !! Z.to_nat index)
      end
  | None =>
      match rest ← strip_prefix (# "u") blob_id;
            upload_id ← parse_i64 rest;
            stored ← match get_upload (metadata m) upload_id with Ok o => o | Err _ => None end;
            if (up_account_id (up_row stored) =? account)%Z then Some (up_row stored) else None with
      | None => mret None
      | Some row =>
          bytes ← open_blob (blobs m) (up_blob_hash row) (up_dek_wrap row) account_priv;
          mret ((fun b => (up_filename row, up_content_type row, b)) <$> ok_opt bytes)
      end
  end.

Definition download (authorization : option str) (blob_id : str) : Handler Download :=
  token ←? mret (ok_or UNAUTHORIZED (bearer_token authorization));
  resolved ←? blocking (with_account token (fun account account_priv =>
    s ← st_get; st_exec (resolve_blob (mail s) account account_priv blob_id)));
  resolved ←? mret (ok_or UNAUTHORIZED resolved);
  file ←? mret (ok_or NOT_FOUND resolved);
  let '(filename, content_type, bytes) := file in
  mret (Ok (mkDownload content_type (attachment_header filename) bytes)).

(** *** Upload *)
Definition insert_sealed (session : Session) (filename content_type body : str) : Handler UploadResponse :=
  let size := Z.of_nat (length body) in
  t ← tick;
  sealed ←? (fun s =>
    let '(r, b) := seal_for_account (d_seal (mt_draw t)) (blobs (mail s)) (sid_account_pub (js_identity session))
                     (sid_key_id (js_identity session)) body in
    (Done (map_err INTERNAL_SERVER_ERROR r), put_mail (mkMailStore b (metadata (mail s))) s));
  upload_id ←? (fun s =>
    let '(r, m) := insert_upload (metadata (mail s))
      (mkNewUpload (js_account_id session) sealed.1 sealed.2 (sid_key_id (js_identity session)) filename content_type
         size (d_now (mt_draw t))) in
    (Done (map_err INTERNAL_SERVER_ERROR r), put_mail (mkMailStore (blobs (mail s)) m) s));
  mret (Ok (mkUploaded (dec (js_account_id session)) (# "u" ++ dec upload_id) content_type size)).

(** [scan_with_timeout], as the scanner of inbound mail runs it. *)
Definition scanned (body : str) : result Z unit :=
  match run_clamav debug_str (mkScanner None clamav_io) body with
  | None | Some (Ok AvClean) => Ok tt
  | Some (Ok (AvFound _)) => Err UNPROCESSABLE_ENTITY
  | Some (Err _) => Err SERVICE_UNAVAILABLE
  end.

Definition upload (authorization content_type_header query_filename : option str) (body : str) : Handler UploadResponse :=
  token ←? mret (ok_or UNAUTHORIZED (bearer_token authorization));
  let filename := default (# "attachment") query_filename in
  let content_type := default (# "application/octet-stream") content_type_header in
  if negb (valid_header_value filename) || negb (valid_header_value content_type) then mret (Err BAD_REQUEST)
  else
    _ ←? mret (scanned body);
    result ←? blocking (with_session token (fun _ session => insert_sealed session filename content_type body));
    r ←? mret (ok_or UNAUTHORIZED result);
    mret r.

(** ** Routes and body limits, router.rs *)

(** A request on one of the routes, its body decoded; [body_len] is what the
    body measured. *)
Inductive Request : Type :=
| PostUnlock (local_part domain password : str)
| PostLock
| GetAppPasswords
| PostAppPassword (label scope : str)
| DeleteAppPassword (id : Z)
| GetSession
| PostApi (method_calls : list MethodCall)
| GetSse (query_token : option str)
| GetDownload (blob_id : str)
| PostUpload (content_type query_filename : option str) (body : str).

Inductive Response : Type :=
| AUnlocked (token account_id : str)
| ANoContent
| AAppPasswords (l : list AppPasswordResponse)
| AAppPassword (p : AppPasswordResponse) (password : str)
| ASession (s : JmapSession)
| AMethods (l : list MethodResponse)
| ASse (token : str) (account : Z)
| ADownload (d : Download)
| AUpload (u : UploadResponse).

Definition answer {A} (f : A -> Response) (h : Handler A) : Handler Response :=
  a ←? h; mret (Ok (f a)).

(** The limit on the body of a route whose handler reads one. *)
Definition body_limit (r : Request) : option Z :=
  match r with
  | PostUnlock _ _ _ | PostAppPassword _ _ | PostApi _ => Some MAX_REQUEST_BODY_BYTES
  | PostUpload _ _ _ => Some max_upload_size_
  | _ => None
  end.

Definition over_limit (body_len : Z) (r : Request) : bool :=
  match body_limit r with Some limit => (limit <? body_len)%Z | None => false end.

Definition handle (authorization : option str) (body_len : Z) (r : Request) : Handler Response :=
  if over_limit body_len r then mret (Err PAYLOAD_TOO_LARGE)
  else
  match r with
  | PostUnlock l d p => answer (fun x => AUnlocked x.1 x.2) (unlock l d p)
  | PostLock => _ ← lock authorization; mret (Ok ANoContent)
  | GetAppPasswords => answer AAppPasswords (list_app_passwords authorization)
  | PostAppPassword l sc => answer (fun x => AAppPassword x.1 x.2) (create_app_password authorization l sc)
  | DeleteAppPassword id => answer (fun _ => ANoContent) (revoke_app_password authorization id)
  | GetSession => answer ASession (jmap_session authorization)
  | PostApi calls => answer AMethods (jmap_api authorization calls)
  | GetSse q => answer (fun x => ASse x.1 x.2) (sse authorization q)
  | GetDownload id => answer ADownload (download authorization id)
  | PostUpload ct f b => answer AUpload (upload authorization ct f b)
  end.

End Handlers.
