(* ===== verification/JmapSessions.v ===== *)
(** * JmapSessions: who may do what, and for how long, [jmap]

    The sessions of src/crates/jmap/src/session_store.rs behind the handlers
    of handlers.rs: what a request without a live session can do (nothing),
    what unlocking decides, that a batch of methods stays inside its account,
    and what the push stream sends. *)

From stdpp Require Import base list strings gmap sorting.
From Stdlib Require Import Ascii ZArith Lia.
From S2P Require Import Prelude RustStr Input Header Limits Scan Store Sealing Auth AuditLog Delivery Backoff Queue Worker Html Email Compose Api ApiIsolation.
Import Store.Blob Store.Subject Store.Metadata.
From S2P Require Import Jmap.

(** ** Looking a session up *)
Definition session_of (token : str) (g : SessionRegistry) : option (nat * Session) :=
  arc ← get token g; x ← arcs g !! arc; Some (arc, x).

(** Idle for longer than allowed at [now]. *)
Definition idle (now : Z) (g : SessionRegistry) (x : Session) : bool :=
  (idle_timeout g <? Z.max 0 (now - js_last_seen x))%Z.

Lemma lock_session_eq now token g :
  lock_session now token g =
  match session_of token g with
  | None => (Done None, g)
  | Some (arc, x) =>
      if js_poisoned x then (Panicked, g)
      else if idle now g x then (Done None, remove token g)
      else (Done (Some (arc, set_last_seen now x)), on_arc (set_last_seen now) arc g)
  end.
Proof.
  unfold lock_session, session_of, remove_if_same. destruct (get token g) as [arc|] eqn:E; [|done]. cbn [mbind option_bind].
  destruct (arcs g !! arc) as [x|]; [|done]. cbn [mbind option_bind]. by rewrite bool_decide_eq_true_2.
Qed.

(** The session is there, healthy and in use. *)
Definition live (now : Z) (token : str) (g : SessionRegistry) (arc : nat) (x : Session) : Prop :=
  session_of token g = Some (arc, x) /\ js_poisoned x = false /\ idle now g x = false.

Lemma lock_live now token g arc x : live now token g arc x ->
  lock_session now token g = (Done (Some (arc, set_last_seen now x)), on_arc (set_last_seen now) arc g).
Proof. intros (E & Hp & Hi). by rewrite lock_session_eq, E, Hp, Hi. Qed.

Lemma lock_found now token g arc x g' : lock_session now token g = (Done (Some (arc, x)), g') ->
  exists x0, live now token g arc x0 /\ x = set_last_seen now x0 /\ g' = on_arc (set_last_seen now) arc g.
Proof.
  rewrite lock_session_eq. unfold live. destruct (session_of token g) as [[a y]|]; [|done].
  destruct (js_poisoned y) eqn:Ep; [done|]. destruct (idle now g y) eqn:Ei; [done|]. intros [= <- <- <-]. by exists y.
Qed.

(** Refreshing or poisoning a session leaves the others, and the map of
    tokens, as they are. *)
Lemma session_of_on_arc f arc token g :
  session_of token (on_arc f arc g)
  = (fun ax => (ax.1, if bool_decide (ax.1 = arc) then f ax.2 else ax.2)) <$> session_of token g.
Proof.
  unfold session_of, get, on_arc. cbn [tokens arcs]. destruct (tokens g !! token) as [a|]; [|done]. cbn [mbind option_bind].
  destruct (decide (a = arc)) as [->|Hne].
  - rewrite list_lookup_alter_eq. destruct (arcs g !! arc) as [x|]; [|done]. cbn. by rewrite bool_decide_eq_true_2.
  - rewrite list_lookup_alter_ne by done. destruct (arcs g !! a) as [x|]; [|done]. cbn. by rewrite bool_decide_eq_false_2.
Qed.

Section Access.
Context `{Primitives} `{BlobHash} `{SqlAny} `{AnyOrder} `{DkimSigner} `{MailParser} `{FullText} `{HtmlLibrary}.
Context `{MimeWriter} `{ContactJson} `{ArgsDecoder}.
Context (to_lowercase debug_str : str -> str).
Context (moments : nat -> Moment).
Context (argon2_config : Z * Z * Z) (max_upload : Z).
Context (clamav_io : option (str -> option (Result str))).

Abbreviation now_of s := (mt_instant (moments (drawn s))).

(** After a look at the registry. *)
Definition looked (g : SessionRegistry) (s : AppState) : AppState := put_sessions g (put_drawn (S (drawn s)) s).

Lemma run_account_id token s :
  account_id_of moments token s =
  match lock_session (now_of s) token (sessions s) with
  | (Done (Some (_, x)), g) => (Done (Some (js_account_id x)), looked g s)
  | (Done None, g) => (Done None, looked g s)
  | (Panicked, g) => (Panicked, looked g s)
  end.
Proof.
  unfold account_id_of, tick, on_sessions, st_zoom, mbind, St_bind. cbn.
  by destruct (lock_session _ _ _) as [[[[]|]|] g].
Qed.

Lemma run_with_session {A} token (f : nat -> Session -> St AppState A) s :
  with_session moments token f s =
  match lock_session (now_of s) token (sessions s) with
  | (Done (Some (arc, x)), g) =>
      match holding arc (f arc x) (looked g s) with
      | (Done a, s') => (Done (Some a), s')
      | (Panicked, s') => (Panicked, s')
      end
  | (Done None, g) => (Done None, looked g s)
  | (Panicked, g) => (Panicked, looked g s)
  end.
Proof.
  unfold with_session, tick, on_sessions, st_zoom, mbind, St_bind. cbn.
  by destruct (lock_session _ _ _) as [[[[arc x]|]|] g].
Qed.

(** ** Without a session *)

(** The token a request presents: [sse] takes one from the query too. *)
Definition presented (authorization : option str) (r : Request) : option str :=
  match r with
  | GetSse q => match bearer_token authorization with Some t => Some t | None => q end
  | _ => bearer_token authorization
  end.

Definition needs_session (r : Request) : bool := match r with PostUnlock _ _ _ | PostLock => false | _ => true end.

(** At the next reading of the clock the token names no session in use. *)
Definition no_session (token : option str) (s : AppState) : Prop :=
  match token with
  | None => True
  | Some t => match session_of t (sessions s) with
              | None => True
              | Some (_, x) => js_poisoned x = false /\ idle (now_of s) (sessions s) x = true
              end
  end.

(** All that may change is that an idle session is dropped. *)
Definition nothing_happened (s s' : AppState) : Prop :=
  auth_store s' = auth_store s /\ mail s' = mail s /\ audit_store s' = audit_store s /\
  login_throttle s' = login_throttle s /\ queue_store s' = queue_store s /\ notifier s' = notifier s /\
  (sessions s' = sessions s \/ exists t, sessions s' = remove t (sessions s)).

(** The statuses a request may be refused with before its session is. *)
Definition early_refusals (r : Request) : list Z :=
  match r with
  | PostAppPassword _ _ => [PAYLOAD_TOO_LARGE; UNPROCESSABLE_ENTITY]
  | PostApi _ => [PAYLOAD_TOO_LARGE]
  | PostUpload _ _ _ => [PAYLOAD_TOO_LARGE; BAD_REQUEST; UNPROCESSABLE_ENTITY; SERVICE_UNAVAILABLE]
  | _ => []
  end.

Lemma nothing_refl s : nothing_happened s s.
Proof. unfold nothing_happened. tauto. Qed.

Lemma no_session_lock t s : no_session (Some t) s -> exists g,
  lock_session (now_of s) t (sessions s) = (Done None, g) /\ nothing_happened s (looked g s).
Proof.
  unfold no_session. rewrite lock_session_eq. destruct (session_of t (sessions s)) as [[arc x]|].
  - intros [-> ->]. eexists. split; [done|]. unfold nothing_happened. cbn. split_and!; try done. right. by exists t.
  - intros _. eexists. split; [done|]. unfold nothing_happened. cbn. split_and!; try done. by left.
Qed.

(** [h] refuses with 401 or one of [early], and does nothing. *)
Definition refused {A} (early : list Z) (h : Handler A) (s : AppState) : Prop :=
  exists e s', h s = (Done (Err e), s') /\ (e = UNAUTHORIZED \/ e ∈ early) /\ nothing_happened s s'.

Lemma refused_try {A B} early (h : Handler A) (f : A -> Handler B) s : refused early h s -> refused early (st_try h f) s.
Proof. intros (e & s' & E & He & Hs). exists e, s'. split; [by apply run_try_err|done]. Qed.

(** A pure step passes or refuses. *)
Lemma refused_ret {A B} early (r : result Z A) (f : A -> Handler B) s :
  (forall e, r = Err e -> e = UNAUTHORIZED \/ e ∈ early) -> (forall a, r = Ok a -> refused early (f a) s) ->
  refused early (st_try (mret r) f) s.
Proof.
  intros He Hf. destruct r as [a|e].
  - destruct (Hf a eq_refl) as (e & s' & E & Hr). exists e, s'. split; [by rewrite (run_try _ _ s s a)|done].
  - exists e, s. split; [by apply run_try_err|]. split; [by apply He|apply nothing_refl].
Qed.

(** Without a token, or with one that finds no session. *)
Lemma refused_token {B} early authorization (f : str -> Handler B) s :
  no_session (bearer_token authorization) s -> (forall t, no_session (Some t) s -> refused early (f t) s) ->
  refused early (st_try (mret (ok_or UNAUTHORIZED (bearer_token authorization))) f) s.
Proof.
  intros Hs Hf. apply refused_ret; destruct (bearer_token authorization) as [t|]; try done.
  - intros e [= <-]. by left.
  - intros a [= <-]. by apply Hf.
Qed.

Lemma refused_account_id {B} early t (f : Z -> Handler B) s : no_session (Some t) s ->
  refused early (account ← account_id_of moments t; st_try (mret (ok_or UNAUTHORIZED account)) f) s.
Proof.
  intros (g & E & Hsame)%no_session_lock. exists UNAUTHORIZED, (looked g s).
  split; [|split; [by left|done]]. erewrite run_bind; [|rewrite run_account_id, E; reflexivity]. by apply run_try_err.
Qed.

Lemma refused_authenticated early authorization s :
  no_session (bearer_token authorization) s -> refused early (authenticated_account moments authorization) s.
Proof. intros Hs. apply refused_token; [done|]. intros t Ht. by apply refused_account_id. Qed.

Lemma refused_session {A B} early t (f : nat -> Session -> St AppState A) (k : A -> Handler B) s : no_session (Some t) s ->
  refused early (st_try (blocking (with_session moments t f)) (fun r => st_try (mret (ok_or UNAUTHORIZED r)) k)) s.
Proof.
  intros (g & E & Hsame)%no_session_lock. exists UNAUTHORIZED, (looked g s).
  split; [|split; [by left|done]].
  erewrite run_try; [|unfold blocking; rewrite run_with_session, E; reflexivity]. by apply run_try_err.
Qed.

(** C10.  Without a live session a request does nothing: if the token it
    presents is absent, unknown or belongs to a session idle for too long, it
    is answered 401 -- or with a refusal that precedes the look-up -- and no
    store, queue, audit log, throttle or notifier has changed. *)
Theorem requests_need_a_session (authorization : option str) (body_len : Z) (r : Request) (s : AppState) :
  needs_session r = true -> no_session (presented authorization r) s ->
  let '(answer, s') :=
    handle to_lowercase debug_str moments argon2_config max_upload clamav_io authorization body_len r s in
  (exists e, answer = Done (Err e) /\ (e = UNAUTHORIZED \/ e ∈ early_refusals r)) /\ nothing_happened s s'.
Proof.
  intros Hn Hs. assert (Hr : refused (early_refusals r)
    (handle to_lowercase debug_str moments argon2_config max_upload clamav_io authorization body_len r) s).
  2: { destruct Hr as (e & s' & E & He & Hsame). rewrite E. eauto. }
  unfold handle. destruct (over_limit _ _ _) eqn:El.
  { exists PAYLOAD_TOO_LARGE, s. split; [done|]. split; [|apply nothing_refl]. right. destruct r; cbn in *; try done; set_solver. }
  destruct r; try done; apply refused_try; cbn [presented] in Hs.
  - by apply refused_try, refused_authenticated.
  - apply refused_token; [done|]. intros t Ht. cbv beta zeta. destruct (_ || _).
    { exists UNPROCESSABLE_ENTITY, s. split; [done|]. split; [right; set_solver|apply nothing_refl]. }
    apply refused_ret; [|intros sc _; by apply refused_session].
    destruct (scope_parse _); [done|]. intros e [= <-]. right. set_solver.
  - by apply refused_try, refused_authenticated.
  - by apply refused_try, refused_authenticated.
  - by apply refused_try, refused_authenticated.
  - unfold sse. destruct (bearer_token authorization) as [t|]; [|destruct query_token as [t|]];
      (apply refused_ret; [intros e [= <-]; by left|intros a E; (discriminate E || (injection E as <-))]; by apply refused_account_id).
  - apply refused_token; [done|]. intros t Ht. by apply refused_session.
  - apply refused_token; [done|]. intros t Ht. cbv beta zeta. destruct (_ || _).
    { exists BAD_REQUEST, s. split; [done|]. split; [right; set_solver|apply nothing_refl]. }
    apply refused_ret; [|intros u _; by apply refused_session].
    unfold scanned. intros e. destruct (run_clamav _ _ _) as [[[|]|]|]; try done; intros [= <-]; right; set_solver.
Qed.

(** ** Unlocking *)
(** What [unlock_any] makes of the password, the second moment drawn. *)
Definition tried (acct : Account) (p : str) (s : AppState) : exec (Result (UnlockedAccount * AppPasswordScope)) * AuthStore :=
  unlock_any (d_now (mt_draw (moments (S (drawn s))))) acct p argon2_config (auth_store s).

(** A refusal that counts, at the [n]-th moment: 401, one more failure of the
    identity as typed, the sessions as they were.  The audit entry that
    follows is all that can still panic. *)
Record turned_away (identity : str) (n : nat) (s : AppState) (r : exec (result Z (str * str))) (s' : AppState) : Prop := {
  tu_answer : r = Done (Err UNAUTHORIZED) \/ r = Panicked;
  tu_sessions : sessions s' = sessions s;
  tu_throttle : login_throttle s' = Throttle.record_failure (login_throttle s) identity (mt_instant (moments n))
}.

(** An error that counts for nothing. *)
Record broken_off (s : AppState) (r : exec (result Z (str * str))) (s' : AppState) : Prop := {
  br_answer : r = Done (Err INTERNAL_SERVER_ERROR);
  br_sessions : sessions s' = sessions s;
  br_throttle : login_throttle s' = login_throttle s
}.

(** The session opened for [acct], and the answer that names it. *)
Record let_in (identity : str) (acct : Account) (u : UnlockedAccount) (s : AppState)
    (r : exec (result Z (str * str))) (s' : AppState) (token : str) (x : Session) : Prop := {
  li_answer : r = Done (Ok (token, dec (acc_id acct))) \/ r = Panicked;
  li_token : token = hex_encode (mt_token (moments (S (S (drawn s)))));
  li_session : session_of token (sessions s') = Some (length (arcs (sessions s)), x);
  li_id : js_account_id x = acc_id acct;
  li_priv : js_account_priv x = account_priv u;
  li_amk : js_amk x = amk u;
  li_pub : sid_account_pub (js_identity x) = account_pub acct;
  li_key_id : sid_key_id (js_identity x) = acc_key_id acct;
  li_address : sid_address (js_identity x) = address acct;
  li_seen : js_last_seen x = mt_instant (moments (S (S (drawn s))));
  li_fresh : js_search_index x = None /\ js_poisoned x = false;
  li_arcs : arcs (sessions s') = arcs (sessions s) ++ [x];
  li_others t : t <> token -> get t (sessions s') = get t (sessions s);
  li_timeout : idle_timeout (sessions s') = idle_timeout (sessions s);
  li_throttle : login_throttle s' = Throttle.record_success (login_throttle s) identity
}.

Context `{!PrimitiveLaws}.

Lemma audit_frame action detail s : exists r a,
  audit moments action detail s = (r, put_audit a (put_drawn (S (drawn s)) s)) /\
  (sliceable (audit_store s) -> r = Done tt).
Proof.
  unfold audit, st_zoom. erewrite run_bind by reflexivity.
  match goal with |- context [log ?rnd ?now action detail] =>
    pose proof (log_done (audit_store s) rnd now action detail) as Hl end.
  unfold mbind at 1, St_bind. change (audit_store (put_drawn _ s)) with (audit_store s).
  destruct (log _ _ action detail (audit_store s)) as [r a]. exists (match r with Done _ => Done tt | Panicked => Panicked end), a.
  split; [by destruct r|]. intros Hs. by destruct (Hl Hs) as (r' & a' & [= -> ->] & _).
Qed.

(** The failure is recorded under the identity as typed. *)
Lemma unlock_failed_frame identity detail s :
  let '(r, s') := unlock_failed moments identity detail s in
  (r = Done (Err UNAUTHORIZED) \/ r = Panicked) /\ (sliceable (audit_store s) -> r = Done (Err UNAUTHORIZED)) /\
  exists a n, s' = put_drawn n (put_audit a (put_throttle
    (Throttle.record_failure (login_throttle s) identity (mt_instant (moments (drawn s)))) s)).
Proof.
  unfold unlock_failed. erewrite run_bind by reflexivity. erewrite run_bind by reflexivity.
  match goal with |- context [mbind _ (audit _ _ _) ?s'] =>
    destruct (audit_frame (# "auth.unlock_failed") detail s') as (r & a & E & Hr) end.
  unfold mbind at 1, St_bind. rewrite E. destruct r as [[]|]; cbn.
  - split_and!; [by left|done|by exists a, (S (S (drawn s)))].
  - split_and!; [by right|intros Hs; by specialize (Hr Hs)|by exists a, (S (S (drawn s)))].
Qed.

(** A success is a session created at the third moment. *)
Lemma let_in_created identity acct u s r s' :
  let m := moments (S (S (drawn s))) in
  r = Done (Ok (hex_encode (mt_token m), dec (acc_id acct))) \/ r = Panicked ->
  sessions s' = (create (mt_token m) (mt_instant m) (acc_id acct) u
    (mkFacts (account_pub acct) (acc_key_id acct) (address acct)) (sessions s)).2 ->
  login_throttle s' = Throttle.record_success (login_throttle s) identity ->
  let_in identity acct u s r s' (hex_encode (mt_token m)) (mkSession (acc_id acct) (account_priv u) (amk u)
    (mkFacts (account_pub acct) (acc_key_id acct) (address acct)) (mt_instant m) None false).
Proof.
  intros m Hr Es Ht. split; try done; rewrite Es; unfold session_of, get; cbn; try done.
  - rewrite lookup_insert_eq. cbn. by rewrite lookup_app_r, Nat.sub_diag by done.
  - intros t Hne. by rewrite lookup_insert_ne.
Qed.

(** C12.  Unlocking decides as it should, in every case.  While the identity
    is locked out the answer is 429 and nothing changes.  Otherwise an unknown
    account, a wrong password and a [Submission] password alike give 401,
    leave the sessions as they are and count as one more failure of the
    identity; the password, or a [Full] application password, gives out the
    token of one new session, which holds that account's keys and identity,
    leaves the other sessions as they are and makes the throttle forget; a
    panic of the key derivation is answered 500 and counts for nothing.  Mail,
    queue and notifier are never touched, the account store only as trying the
    password does; and with a well-formed audit log the handler never
    panics. *)
Theorem unlock_decides (l d p : str) (s : AppState) :
  let identity := l ++ # "@" ++ d in
  let '(r, s') := unlock moments argon2_config l d p s in
  mail s' = mail s /\ queue_store s' = queue_store s /\ notifier s' = notifier s /\
  (sliceable (audit_store s) -> r <> Panicked) /\
  if is_ok (Throttle.check (login_throttle s) identity (mt_instant (moments (drawn s)))) then
    match find_by_address (auth_store s) l d with
    | Err _ => broken_off s r s' /\ auth_store s' = auth_store s
    | Ok None => turned_away identity (S (drawn s)) s r s' /\ auth_store s' = auth_store s
    | Ok (Some acct) => auth_store s' = (tried acct p s).2 /\
        match (tried acct p s).1 with
        | Done (Ok (u, Full)) => exists token x, let_in identity acct u s r s' token x
        | Done (Ok (_, Submission)) | Done (Err _) => turned_away identity (S (S (drawn s))) s r s'
        | Panicked => broken_off s r s'
        end
    end
  else r = Done (Err TOO_MANY_REQUESTS) /\ s' = put_drawn (S (drawn s)) s.
Proof.
  intros identity. unfold unlock. fold identity. erewrite run_bind by reflexivity. erewrite run_bind by reflexivity.
  change (login_throttle (put_drawn _ s)) with (login_throttle s).
  destruct (is_ok _); cbn [negb]; [|by split_and!].
  change (auth_store (put_drawn _ s)) with (auth_store s).
  destruct (find_by_address (auth_store s) l d) as [[acct|]|e]; [| |by split_and!].
  2: { pose proof (unlock_failed_frame identity identity (put_drawn (S (drawn s)) s)) as Hu.
       destruct (unlock_failed _ _ _ _) as [r s']. destruct Hu as (Hr & Hn & a & n & ->).
       split_and!; try done. intros Hs. by rewrite (Hn Hs). }
  set (s1 := put_drawn _ s). unfold tried.
  destruct (unlock_any (d_now (mt_draw (moments (S (drawn s))))) acct p argon2_config (auth_store s)) as [ru a'] eqn:Eu.
  assert (Et : unlock_task moments argon2_config acct p s1 = (ru, put_auth a' (put_drawn (S (S (drawn s))) s))).
  { unfold unlock_task. erewrite run_bind by reflexivity. unfold st_zoom. cbn. by rewrite Eu. }
  destruct ru as [ru|]; cbn [fst snd].
  2: { erewrite run_try_err; [|unfold blocking; rewrite Et; reflexivity]. by split_and!. }
  erewrite run_try; [|unfold blocking; rewrite Et; reflexivity]. set (s2 := put_auth _ _).
  assert (Hfail : let '(r, s') := unlock_failed moments identity (address acct) s2 in
    mail s' = mail s /\ queue_store s' = queue_store s /\ notifier s' = notifier s /\
    (sliceable (audit_store s) -> r <> Panicked) /\ auth_store s' = a' /\ turned_away identity (S (S (drawn s))) s r s').
  { pose proof (unlock_failed_frame identity (address acct) s2) as Hu.
    destruct (unlock_failed _ _ _ s2) as [r s']. destruct Hu as (Hr & Hn & a & n & ->).
    split_and!; try done. intros Hs. by rewrite (Hn Hs). }
  destruct ru as [[u []]|er]; [|exact Hfail..].
  erewrite run_bind by reflexivity. erewrite run_bind by reflexivity.
  match goal with |- context [mbind _ (audit _ _ _) ?s'] =>
    destruct (audit_frame (# "auth.unlock") (address acct) s') as (r & a & E & Hr) end.
  unfold mbind at 1, St_bind. rewrite E.
  destruct r as [[]|]; cbn.
  - split_and!; try done. do 2 eexists. by apply let_in_created; [left|..].
  - split_and!; try done; [intros Hs; by specialize (Hr Hs)|]. do 2 eexists. by apply let_in_created; [right|..].
Qed.

(** A session whose mutex is poisoned cannot even be locked: the handler
    panics before it removes the token. *)
Lemma lock_poisoned token s arc x :
  session_of token (sessions s) = Some (arc, x) -> js_poisoned x = true ->
  lock moments (Some (# "Bearer " ++ token)) s = (Panicked, looked (sessions s) s).
Proof.
  intros Es Hp. unfold lock, bearer_token. cbn [mbind option_bind]. rewrite (proj2 (strip_prefix_some _ _ token)) by done.
  unfold mbind, St_bind. by rewrite run_account_id, lock_session_eq, Es, Hp.
Qed.

(** ** A batch of method calls *)
Lemma search_in_index x q a : exists i, (search_in x q a).2 = with_index i a.
Proof. unfold search_in. destruct (search _ _ _ _ _ _) as [r i]. by exists i. Qed.

(** Who a session is for: what no request changes. *)
Definition facts (x : Session) : Z * str * str * SessionIdentity :=
  (js_account_id x, js_account_priv x, js_amk x, js_identity x).

Section Batch.
Context (token : str) (arc : nat) (x : Session) (b : Z) (s0 : AppState).
Context (Hid : (i64_min <= js_account_id x <= i64_max)%Z) (Hb : b <> js_account_id x).

Abbreviation A := (js_account_id x).

(** The other sessions are as they were; [token] still names [x]'s session or
    none. *)
Definition own_session (g : SessionRegistry) : Prop :=
  (get token g = None \/ get token g = Some arc) /\
  (fun y => facts y) <$> arcs g !! arc = Some (facts x) /\
  (forall t, t <> token -> get t g = get t (sessions s0)) /\
  (forall a, a <> arc -> arcs g !! a = arcs (sessions s0) !! a).

Definition others_untouched (s : AppState) : Prop :=
  untouched A (sid_address (js_identity x)) b (api_state None s0) (api_state None s) /\
  audit_store s = audit_store s0 /\ login_throttle s = login_throttle s0 /\ own_session (sessions s).

Lemma own_on_arc f g : (forall y, facts (f y) = facts y) -> own_session g -> own_session (on_arc f arc g).
Proof.
  intros Hf (H1' & H2' & H3' & H4'). unfold own_session, on_arc, get in *. cbn [tokens arcs]. split_and!; try done.
  - rewrite list_lookup_alter_eq. destruct (arcs g !! arc) as [y|]; [|done]. cbn in *. by rewrite Hf.
  - intros a Ha. rewrite list_lookup_alter_ne by done. by apply H4'.
Qed.

Lemma own_remove g : own_session g -> own_session (remove token g).
Proof.
  intros (H1' & H2' & H3' & H4'). unfold own_session, remove, get in *. cbn [tokens arcs]. split_and!; try done.
  - left. apply lookup_delete_eq.
  - intros t Ht. rewrite lookup_delete_ne by done. by apply H3'.
Qed.

(** Locking the session of [token]. *)
Lemma own_lock now g : own_session g ->
  own_session (lock_session now token g).2 /\
  (forall a y, (lock_session now token g).1 = Done (Some (a, y)) -> a = arc /\ facts y = facts x).
Proof.
  intros Hown. pose proof Hown as (H1' & H2' & _). rewrite lock_session_eq. unfold session_of.
  destruct H1' as [-> | ->]; [done|]. cbn [mbind option_bind]. destruct (arcs g !! arc) as [y|]; [|done]. cbn [mbind option_bind].
  destruct (js_poisoned y); [done|]. destruct (idle now g y); [split; [by apply own_remove|done]|].
  split; [by apply own_on_arc|]. intros a z [= <- <-]. cbn in H2'. injection H2' as E. split; [done|]. unfold facts. cbn. congruence.
Qed.

Lemma untouched_view i s i' : untouched A (sid_address (js_identity x)) b (api_state None s0) (api_state i s) ->
  untouched A (sid_address (js_identity x)) b (api_state None s0) (api_state i' s).
Proof. by intros []; split. Qed.

Lemma own_dispatch call y : facts y = facts x ->
  keeps others_untouched (dispatch_in to_lowercase moments max_upload call (dec A) arc y).
Proof.
  intros Hy s (Hu & Ha & Ht & Hown). unfold dispatch_in. unfold facts in Hy. injection Hy as E1 E2 E3 E4.
  set (ctx := session_context _ _ _ _). assert (HA : parse_account_id ctx = A) by (unfold parse_account_id; cbn; by rewrite parse_i64_dec).
  assert (Hk := dispatch_isolates to_lowercase call ctx (api_state None s0) b (search_in_index y) ltac:(by rewrite HA)).
  rewrite HA in Hk. change (cx_address ctx) with (sid_address (js_identity y)) in Hk. rewrite E4 in Hk.
  specialize (Hk _ (untouched_view None s (js_search_index y) Hu)).
  destruct (dispatch _ _ _ _) as [r a]. cbn [snd] in *. split_and!; [|done|done|by apply own_on_arc].
  destruct Hk. by split.
Qed.

Lemma own_calls calls : keeps others_untouched (run_calls to_lowercase moments max_upload token (dec A) calls).
Proof.
  induction calls as [|call calls IH]; cbn [run_calls]; [apply keeps_ret|].
  apply keeps_bind; [|intros r; apply keeps_try; [apply keeps_ret|]; intros r'; apply keeps_try; [exact IH|intros ?; apply keeps_ret]].
  intros s Hs. rewrite run_with_session. destruct Hs as (Hu & Ha & Ht & Hown).
  destruct (own_lock (now_of s) (sessions s) Hown) as [Hown' Hses].
  destruct (lock_session _ _ _) as [[[[a y]|]|] g]; cbn [fst snd] in *.
  2, 3: (split_and!; try done; destruct Hu; by split).
  destruct (Hses a y eq_refl) as [-> Hy].
  assert (Hl : others_untouched (looked g s)) by (split_and!; try done; destruct Hu; by split).
  pose proof (own_dispatch call y Hy _ Hl) as Hd. unfold holding.
  destruct (dispatch_in _ _ _ _ _ _ _ _) as [[r|] s']; [exact Hd|]. destruct Hd as (Hu' & Ha' & Ht' & Ho').
  split_and!; try done. by apply own_on_arc.
Qed.

End Batch.

(** C3.  Accounts are isolated from one another.  Whatever batch of methods
    a request makes in its session, with whatever arguments -- ids of other
    accounts' messages, mailboxes, uploads or contacts included -- and even if
    a call panics half-way, every other account keeps exactly its mailboxes,
    threads, messages, contacts, uploads, scheduled events, account row,
    application passwords and notifications; what the batch adds to the
    outbound queue is sent by the session's own account under its own address;
    and every other session, the audit log and the login throttle are as
    before. *)
Theorem batch_isolates_accounts (authorization : option str) (token : str) (calls : list MethodCall) (s : AppState)
    (arc : nat) (x : Session) (b : Z) :
  bearer_token authorization = Some token -> session_of token (sessions s) = Some (arc, x) ->
  (i64_min <= js_account_id x <= i64_max)%Z -> row_ids_ok (api_state None s) -> b <> js_account_id x ->
  others_untouched token arc x b s (jmap_api to_lowercase moments max_upload authorization calls s).2.
Proof.
  intros Et Es Hid Hrows Hb.
  assert (Hs : others_untouched token arc x b s s).
  { unfold session_of in Es. destruct (get token (sessions s)) as [a|] eqn:Eg; [|done]. cbn in Es.
    destruct (arcs (sessions s) !! a) eqn:Ea; [|done]. cbn in Es. injection Es as -> ->.
    split; [by apply untouched_refl|]. split_and!; try done; unfold own_session. split_and!; [by right|by rewrite Ea|done..]. }
  destruct Hs as (Hu & Ha & Ht & Hown). destruct (own_lock token arc x s (now_of s) (sessions s) Hown) as [Hown' Hses].
  assert (Hl : others_untouched token arc x b s (looked (lock_session (now_of s) token (sessions s)).2 s))
    by (split; [destruct Hu; by split|by split_and!]).
  unfold jmap_api, authenticated_account. rewrite Et. pose proof (run_account_id token s) as Ei.
  destruct (lock_session (now_of s) token (sessions s)) as [[[[a y]|]|] g]; cbn [fst snd] in *.
  - destruct (Hses a y eq_refl) as [-> Hy]. injection Hy as Hy _ _ _. rewrite Hy in Ei.
    erewrite run_try; [|erewrite run_try by reflexivity; erewrite run_bind by exact Ei; reflexivity].
    pose proof (own_calls token arc x b s Hid Hb calls _ Hl) as Hc. cbn [fst snd] in *. unfold st_try at 1, mbind, St_bind, blocking.
    by destruct (run_calls _ _ _ _ _ _ _) as [[r|] s'].
  - erewrite run_try_err; [|erewrite run_try by reflexivity; erewrite run_bind by exact Ei; reflexivity]. exact Hl.
  - unfold st_try, mbind, St_bind, mret, St_ret. cbn. rewrite Ei. exact Hl.
Qed.

End Access.

(** ** Push *)

(** The states broadcast for [account], and those a stream sent. *)
Definition own_changes (account : Z) (arrivals : list (Z * Received)) : list Z :=
  omap (fun tr => match tr.2 with
                  | Changed c => if (Changes.account_id c =? account)%Z then Some (Changes.change_state c) else None
                  | _ => None
                  end) arrivals.

Definition states_sent (l : list SseEvent) : list Z :=
  omap (fun e => match e with StateEvent _ st => Some st | Heartbeat => None end) l.

Definition polled_ok (token : str) (account : Z) (arrivals : list (Z * Received)) (g : SessionRegistry) (e : SseEvent)
    (rest : list (Z * Received)) : Prop :=
  match e with
  | StateEvent a st => a = account /\ own_changes account arrivals = st :: own_changes account rest
  | Heartbeat => own_changes account arrivals = own_changes account rest /\ exists arc x, session_of token g = Some (arc, x)
  end.

Lemma poll_heartbeat token account at_ arrivals g :
  let '(r, g') := (r ← lock_session at_ token; mret (if bool_decide ((fun x => js_account_id x.2) <$> r = Some account)
                                                   then Event Heartbeat at_ arrivals else End_)) g in
  match r with Done (Event e t rest) => polled_ok token account arrivals g e rest | _ => True end.
Proof.
  unfold mbind, St_bind. rewrite lock_session_eq. destruct (session_of token g) as [[arc x]|] eqn:E; [|done].
  destruct (js_poisoned x); [done|]. destruct (idle _ _ _); [done|]. cbn. case_bool_decide; [|done]. split; [done|]. by exists arc, x.
Qed.

Lemma poll_spec token account arrivals : forall now g,
  let '(r, g') := poll token account now arrivals g in
  match r with Done (Event e t rest) => polled_ok token account arrivals g e rest | _ => True end.
Proof.
  induction arrivals as [|[t received] arrivals IH]; intros now g; [apply (poll_heartbeat token account _ [])|].
  cbn [poll]. destruct (t <? now + HEARTBEAT)%Z; [|apply (poll_heartbeat token account _ ((t, received) :: arrivals))].
  assert (Hskip : forall r0, received = r0 -> own_changes account ((t, r0) :: arrivals) = own_changes account arrivals ->
    let '(r, g') := poll token account t arrivals g in
    match r with Done (Event e _ rest) => polled_ok token account ((t, r0) :: arrivals) g e rest | _ => True end).
  { intros r0 _ Ho. specialize (IH t g). destruct (poll token account t arrivals g) as [[[e t' rest|]|] g']; try done.
    unfold polled_ok in *. destruct e; rewrite Ho; exact IH. }
  destruct received as [c| |]; [|by apply Hskip|done].
  destruct (Changes.account_id c =? account)%Z eqn:E; [cbn; by rewrite E|]. apply Hskip; [done|]. cbn. by rewrite E.
Qed.

(** A token without a session: the stream cannot tell until it is silent. *)
Lemma poll_gone token account arrivals : forall now g, session_of token g = None ->
  (poll token account now arrivals g).2 = g.
Proof.
  assert (Hh : forall at_ l g, session_of token g = None ->
    ((r ← lock_session at_ token; mret (if bool_decide ((fun x => js_account_id x.2) <$> r = Some account)
                                       then Event Heartbeat at_ l else End_)) g).2 = g).
  { intros at_ l g E. unfold mbind, St_bind. by rewrite lock_session_eq, E. }
  induction arrivals as [|[t received] arrivals IH]; intros now g E; [by apply (Hh _ [])|]. cbn [poll].
  destruct (t <? now + HEARTBEAT)%Z; [|by apply Hh]. destruct received as [c| |]; [|by apply IH|done].
  destruct (_ =? _)%Z; [done|by apply IH].
Qed.

(** The push stream tells a session about its own account only: the
    events it sends, in order, are the first of the changes broadcast for that
    account -- each once, none out of order, none of another account's -- with
    heartbeats in between; and a heartbeat is sent only to a token that names a
    session. *)
Theorem stream_sends_own_changes (n : nat) (token : str) (account now : Z) (arrivals : list (Z * Received))
    (g : SessionRegistry) :
  let '(r, _) := stream n token account now arrivals g in
  match r with
  | Done l =>
      Forall (fun e => match e with StateEvent a _ => a = account | Heartbeat => True end) l /\
      states_sent l `prefix_of` own_changes account arrivals /\
      (session_of token g = None -> Heartbeat ∉ l)
  | Panicked => True
  end.
Proof.
  revert now arrivals g. induction n as [|n IH]; intros now arrivals g; cbn [stream].
  { split_and!; [by apply Forall_nil|by apply prefix_nil|intros _ Hin; by apply elem_of_nil in Hin]. }
  unfold mbind at 1, St_bind. pose proof (poll_spec token account arrivals now g) as Hp.
  pose proof (poll_gone token account arrivals now g) as Hg.
  destruct (poll token account now arrivals g) as [[[e t rest|]|] g']; [|cbn..|done].
  2: { split_and!; [by apply Forall_nil|by apply prefix_nil|intros _ Hin; by apply elem_of_nil in Hin]. }
  specialize (IH t rest g'). unfold mbind, St_bind. destruct (stream n token account t rest g') as [[l|] g'']; [|done].
  cbn [mret St_ret]. destruct IH as (Hl & Hpre & Hno). destruct e as [a st|]; cbn [polled_ok] in Hp; destruct Hp as [Hp1 Hp2].
  - rewrite Hp2. split_and!; [by constructor|by apply prefix_cons|]. intros Hn. rewrite elem_of_cons. intros [?|Hin]; [done|].
    cbn [snd] in Hg. rewrite (Hg Hn) in Hno. by apply Hno.
  - rewrite Hp1. split_and!; [by constructor|done|]. intros Hn. destruct Hp2 as (arc & x & Hs). by rewrite Hs in Hn.
Qed.

(** While changes for the account keep coming, the stream is never checked: it
    sends them all, whatever became of the token. *)
Lemma stream_outlives_its_session account sts : forall now token g,
  stream (length sts) token account now
    (imap (fun i st => (now + (Z.of_nat i + 1) * (HEARTBEAT - 1), Changed (Changes.mkChanged account st))%Z) sts) g
  = (Done (StateEvent account <$> sts), g).
Proof.
  induction sts as [|st sts IH]; intros now token g; [done|]. cbn [length stream imap]. unfold mbind at 1, St_bind.
  cbn [poll]. rewrite (proj2 (Z.ltb_lt _ _)) by (unfold HEARTBEAT; lia). cbn [Changes.account_id]. rewrite Z.eqb_refl.
  cbn [mret St_ret Changes.change_state]. unfold mbind, St_bind.
  specialize (IH (now + (HEARTBEAT - 1))%Z token g).
  erewrite imap_ext; [|intros; reflexivity].
  replace (imap _ sts) with (imap (fun i st => (now + (HEARTBEAT - 1) + (Z.of_nat i + 1) * (HEARTBEAT - 1), Changed (Changes.mkChanged account st))%Z) sts).
  - replace (now + (Z.of_nat 0 + 1) * (HEARTBEAT - 1))%Z with (now + (HEARTBEAT - 1))%Z by lia. by rewrite IH.
  - apply imap_ext. intros i s' _. cbn. f_equal. lia.
Qed.

(** An idle stream keeps its session: every heartbeat refreshes the timer it
    checks, so a session with an open stream is never idle for too long. *)
Lemma heartbeats_keep_the_session n token arc account : forall now g x,
  (HEARTBEAT <= idle_timeout g)%Z -> session_of token g = Some (arc, x) -> js_poisoned x = false ->
  js_account_id x = account -> js_last_seen x = now ->
  exists g', stream n token account now [] g = (Done (replicate n Heartbeat), g') /\ is_Some (session_of token g').
Proof.
  induction n as [|n IH]; intros now g x Hi Es Hp Ha Hl; cbn [stream replicate]; [exists g; by rewrite Es|].
  unfold mbind at 1, St_bind. cbn [poll].
  assert (El : lock_session (now + HEARTBEAT) token g
    = (Done (Some (arc, set_last_seen (now + HEARTBEAT) x)), on_arc (set_last_seen (now + HEARTBEAT)) arc g)).
  { apply lock_live. split; [done|]. split; [done|]. unfold idle. apply Z.ltb_ge. unfold HEARTBEAT in *. lia. }
  unfold mbind at 1, St_bind. rewrite El. cbn. rewrite bool_decide_eq_true_2 by (by rewrite Ha).
  destruct (IH (now + HEARTBEAT)%Z (on_arc (set_last_seen (now + HEARTBEAT)) arc g) (set_last_seen (now + HEARTBEAT) x))
    as (g' & Eg & Hs); try done.
  { rewrite session_of_on_arc, Es. cbn. by rewrite bool_decide_eq_true_2. }
  exists g'. cbn in Eg. unfold mbind, St_bind. by rewrite Eg.
Qed.
