(* ===== verification/JmapBlobs.v ===== *)
(** * JmapBlobs: uploads, downloads and attachments, [jmap]

    What src/crates/jmap/src/handlers.rs keeps of an uploaded file and what it
    gives back for a blob id: round trips through the sealed stores. *)

From stdpp Require Import base list strings gmap sorting.
From Stdlib Require Import Ascii ZArith Lia.
From S2P Require Import Prelude RustStr Input Header Limits Scan Store Sealing Auth AuditLog Delivery Backoff Queue Worker Html Email Compose Api ApiIsolation.
Import Store.Blob Store.Subject Store.Metadata.
From S2P Require Import Jmap JmapSessions.

Section Blobs.
Context `{PrimitiveLaws} `{BlobHash} `{SqlAny} `{AnyOrder} `{DkimSigner} `{MailParser} `{FullText} `{HtmlLibrary}.

(** ** Attachments of messages *)

Lemma strip_prefix_app p s : strip_prefix p (p ++ s) = Some s.
Proof. by apply strip_prefix_some. Qed.

(** The file behind "m<id>.<index>". *)
Lemma resolve_message_blob m priv stored index raw :
  NoDup (m_id <$> messages (metadata m)) -> stored ∈ messages (metadata m) ->
  (i64_min <= m_id stored <= i64_max)%Z -> (Z.of_nat index <= usize_max)%Z ->
  open_message (blobs m) (m_row stored) priv = Done (Ok raw) ->
  resolve_blob m (account_id (m_row stored)) priv (# "m" ++ dec (m_id stored) ++ # "." ++ dec (Z.of_nat index))
  = Done (message ← parse_message raw; part_file <$> mm_attachments message !! index).
Proof.
  intros Hnd Hin Hid Hix Ho. unfold resolve_blob. rewrite strip_prefix_app.
  rewrite (proj2 (split_once_some "." _ (dec (m_id stored)) (dec (Z.of_nat index)))) by (split; [done|apply dec_no_dot]).
  cbn [mbind option_bind]. rewrite parse_i64_dec by done. cbn [mbind option_bind]. rewrite parse_usize_dec by lia.
  cbn [mbind option_bind]. unfold get_message.
  rewrite (sql_find_key m_id) by done. cbn [mbind option_bind]. rewrite Z.eqb_refl. cbn [mbind option_bind].
  rewrite Ho. unfold mbind, exec_bind. cbn [ok_opt option_bind mret exec_ret]. by rewrite Nat2Z.id.
Qed.

(** What [Email/get] lists can be downloaded: every attachment in the
    object it returns for a message resolves, by its blobId, to a file with
    the name, the type and the size listed, whichever properties were asked
    for; and the listing leaves none of the message's attachments out when
    attachments were asked for. *)
Theorem listed_attachments_download (m : MailStore) (account_priv : str) (stored : StoredMessage)
    (properties : option (list str)) (o : EmailObject) :
  NoDup (m_id <$> messages (metadata m)) -> stored ∈ messages (metadata m) ->
  (i64_min <= m_id stored <= i64_max)%Z ->
  open_and_parse (blobs m) stored account_priv properties = Done (Ok o) ->
  (Z.of_nat (length (em_attachments o)) <= usize_max)%Z ->
  Forall (fun a => exists bytes,
    resolve_blob m (account_id (m_row stored)) account_priv (at_blob_id a) = Done (Some (at_file a, at_type a, bytes)) /\
    at_size a = Z.of_nat (length bytes)) (em_attachments o) /\
  (wants properties (# "attachments") = true -> forall raw message,
     open_message (blobs m) (m_row stored) account_priv = Done (Ok raw) -> parse_message raw = Some message ->
     length (em_attachments o) = length (mm_attachments message)).
Proof.
  intros Hnd Hin Hid Ho Hlen. unfold open_and_parse in Ho.
  destruct (open_message (blobs m) (m_row stored) account_priv) as [[raw|e]|] eqn:Eo; [|done..].
  injection Ho as <-. cbn [email_object em_attachments] in *. split.
  - destruct (wants properties (# "attachments")); [|constructor]. apply Forall_lookup. intros i a Ha.
    rewrite list_lookup_imap in Ha. destruct (_ !! i) as [part|] eqn:Ep; [|done]. injection Ha as <-.
    exists (part_contents part). split; [|done]. cbn [email_attachment at_blob_id at_file at_type].
    rewrite (resolve_message_blob _ _ _ _ raw); try done.
    + destruct (parse_message raw) as [message|]; [|done]. cbn [mbind option_bind]. by rewrite Ep.
    + rewrite length_imap in Hlen. apply lookup_lt_Some in Ep. lia.
  - intros -> raw' message [= <-] ->. by rewrite length_imap.
Qed.


(** ** Uploads *)
Context (debug_str : str -> str).
Context (moments : nat -> Moment).
Context (clamav_io : option (str -> option (Result str))).

(** What an upload adds: a row and a sealed blob. *)
Record stored_upload (s s' : AppState) (x : Session) (filename content_type body : str) (r : UploadResponse) (id : Z)
    (row : NewUpload) (d : Draw) : Prop := {
  su_scanned : scanned debug_str clamav_io body = Ok tt;
  su_uploads : uploads (metadata (mail s')) = uploads (metadata (mail s)) ++ [mkStoredUpload id row];
  su_id : id = next_rowid (up_id <$> uploads (metadata (mail s)));
  su_row : up_account_id row = js_account_id x /\ up_filename row = filename /\ up_content_type row = content_type /\
           up_size_bytes row = Z.of_nat (length body);
  su_sealed : seal_for_account (d_seal d) (blobs (mail s)) (sid_account_pub (js_identity x)) (sid_key_id (js_identity x)) body
              = (Ok (up_blob_hash row, up_dek_wrap row), blobs (mail s'));
  su_drawn : exists n, d = mt_draw (moments n);
  su_answer : r = mkUploaded (dec (js_account_id x)) (# "u" ++ dec id) content_type (Z.of_nat (length body))
}.

Definition upload_row (x : Session) (filename content_type body : str) (sealed : str * str) (now : Z) : NewUpload :=
  mkNewUpload (js_account_id x) sealed.1 sealed.2 (sid_key_id (js_identity x)) filename content_type
    (Z.of_nat (length body)) now.

Lemma insert_sealed_outcome x filename content_type body s :
  let m := mt_draw (moments (drawn s)) in
  let id := next_rowid (up_id <$> uploads (metadata (mail s))) in
  exists r s', insert_sealed moments x filename content_type body s = (Done r, s') /\
  match seal_for_account (d_seal m) (blobs (mail s)) (sid_account_pub (js_identity x)) (sid_key_id (js_identity x)) body with
  | (Ok sealed, b) =>
      r = Ok (mkUploaded (dec (js_account_id x)) (# "u" ++ dec id) content_type (Z.of_nat (length body))) /\
      mail s' = mkMailStore b (with_uploads (uploads (metadata (mail s)) ++
                  [mkStoredUpload id (upload_row x filename content_type body sealed (d_now m))]) (metadata (mail s)))
  | (Err _, b) => r = Err INTERNAL_SERVER_ERROR /\ mail s' = mkMailStore b (metadata (mail s))
  end.
Proof.
  intros m id. unfold insert_sealed. erewrite run_bind by reflexivity.
  destruct (seal_for_account (d_seal m) (blobs (mail s)) (sid_account_pub (js_identity x)) (sid_key_id (js_identity x)) body)
    as [[sealed|e] b] eqn:E.
  - do 2 eexists. split; [erewrite run_try; [|cbn; unfold m in E; rewrite E; reflexivity]; reflexivity|]. by split.
  - do 2 eexists. split; [erewrite run_try_err; [reflexivity|cbn; unfold m in E; rewrite E; reflexivity]|]. by split.
Qed.

(** An upload stores one row and one sealed blob, or no row. *)
Lemma upload_outcome authorization ct fn body s :
  let '(r, s') := upload debug_str moments clamav_io authorization ct fn body s in
  match r with
  | Done (Ok u) => exists token arc x id row d, bearer_token authorization = Some token /\
      live (mt_instant (moments (drawn s))) token (sessions s) arc x /\
      stored_upload s s' x (default (# "attachment") fn) (default (# "application/octet-stream") ct) body u id row d
  | Done (Err _) => metadata (mail s') = metadata (mail s) /\
         (scanned debug_str clamav_io body <> Ok tt -> s' = s)
  | Panicked => False
  end.
Proof.
  unfold upload. destruct (bearer_token authorization) as [token|]; [|done].
  erewrite run_try by reflexivity. cbv zeta. destruct (_ || _); [done|].
  destruct (scanned debug_str clamav_io body) as [[]|e] eqn:Es; [|done]. erewrite run_try by reflexivity.
  unfold st_try at 1, mbind, St_bind, blocking. rewrite run_with_session.
  destruct (lock_session _ _ _) as [[[[arc x]|]|] g] eqn:El; [|by split..].
  apply lock_found in El as (x0 & Hlive & -> & ->). set (x := set_last_seen _ x0). set (s1 := looked _ s).
  destruct (insert_sealed_outcome x (default (# "attachment") fn) (default (# "application/octet-stream") ct) body s1)
    as (r & s' & E & Hr). unfold holding. rewrite E. clear E. cbn [ok_or mret St_ret].
  destruct (seal_for_account _ _ _ _ _) as [[sealed|e] b] eqn:Eseal; destruct Hr as [-> Hm].
  - exists token, arc, x0, (next_rowid (up_id <$> uploads (metadata (mail s1)))). do 2 eexists.
    split; [done|]. split; [done|]. split; try (rewrite Hm; reflexivity); try done.
    + rewrite Hm. destruct sealed. exact Eseal.
    + by eexists.
  - unfold st_try, mbind, St_bind, mret, St_ret. split; [by rewrite Hm|done].
Qed.

(** clamd, if there is one, answered and found nothing. *)
Definition clamd_passes (body : str) : Prop :=
  match run_clamav debug_str (mkScanner None clamav_io) body with
  | None | Some (Ok AvClean) => True
  | Some (Ok (AvFound _)) | Some (Err _) => False
  end.

Lemma scanned_passes body : scanned debug_str clamav_io body = Ok tt <-> clamd_passes body.
Proof. unfold scanned, clamd_passes. by destruct (run_clamav _ _ _) as [[[|]|]|]. Qed.

(** C14.  A file comes back as it went in: an upload is scanned before it is
    sealed, adds exactly one row -- of the session's own account, with the
    file's name, type and size -- and from then on the session downloads it by
    the blobId in the answer with the same name, the same type and the very
    same bytes; an upload that is refused or fails adds no row; and one in
    which clamd finds something, or for which a configured clamd fails to
    answer, is always refused and changes nothing at all. *)
Theorem upload_then_download (authorization ct fn : option str) (body : str) (s : AppState) :
  (forall n, draw_ok (mt_draw (moments n))) -> intact (blobs (mail s)) ->
  (next_rowid (up_id <$> uploads (metadata (mail s))) <= i64_max)%Z ->
  let '(r, s') := upload debug_str moments clamav_io authorization ct fn body s in
  match r with
  | Done (Ok u) => clamd_passes body /\ exists token arc x id row d, bearer_token authorization = Some token /\
      live (mt_instant (moments (drawn s))) token (sessions s) arc x /\
      stored_upload s s' x (default (# "attachment") fn) (default (# "application/octet-stream") ct) body u id row d /\
      (sid_account_pub (js_identity x) = hpke_public (js_account_priv x) -> length (js_account_priv x) = PRIVATE_KEY_LEN ->
       (sid_key_id (js_identity x) < 65536)%N ->
       (forall c, read (blobs (mail s)) (up_blob_hash row) = Ok c ->
          c = aead_seal (dr_nonce (d_seal d)) (dr_dek (d_seal d)) 1 body) ->
       forall s2 arc2 x2, mail s2 = mail s' -> live (mt_instant (moments (drawn s2))) token (sessions s2) arc2 x2 ->
       facts x2 = facts x -> exists s3,
       download moments authorization (ur_blob_id u) s2
       = (Done (Ok (mkDownload (up_content_type row) (attachment_header (up_filename row)) body)), s3))
  | Done (Err _) => metadata (mail s') = metadata (mail s) /\ (~ clamd_passes body -> s' = s)
  | Panicked => False
  end.
Proof.
  intros Hdraws Hb Hids. pose proof (upload_outcome authorization ct fn body s) as Ho.
  destruct (upload _ _ _ _ _ _ _ s) as [[[u|e]|] s']; [| |done].
  2: { destruct Ho as [Hm Hs]. split; [done|]. intros Hn. apply Hs. by rewrite scanned_passes. }
  destruct Ho as (token & arc & x & id & row & d & Et & Hlive & Hst).
  split; [apply scanned_passes; by destruct Hst|].
  exists token, arc, x, id, row, d. split; [done|]. split; [done|]. split; [done|]. intros Hpub Hsk Hkey Hc s2 arc2 x2 Hm Hlive2 Hx.
  destruct Hst as [_ Hups Hid (Hacct & Hfn & Hct & Hsize) Hseal [n Hd] ->]. cbn [ur_blob_id].
  unfold facts in Hx. injection Hx as E1 E2 _ _.
  assert (Hfile : resolve_blob (mail s2) (js_account_id x2) (js_account_priv x2) (# "u" ++ dec id)
    = Done (Some (up_filename row, up_content_type row, body))).
  { unfold resolve_blob. replace (strip_prefix (# "m") (# "u" ++ dec id)) with (@None str) by done.
    rewrite strip_prefix_app. cbn [mbind option_bind].
    pose proof (next_rowid_pos (up_id <$> uploads (metadata (mail s)))) as Hpos.
    rewrite parse_i64_dec by (unfold i64_min; lia). cbn [mbind option_bind]. unfold get_upload. rewrite Hm, Hups, sql_find_app.
    rewrite sql_find_absent.
    2: { intros y Hy. apply Z.eqb_neq. rewrite Hid. intros E. apply (next_rowid_fresh (up_id <$> uploads (metadata (mail s)))).
         rewrite <- E. by apply list_elem_of_fmap_2. }
    unfold sql_find. cbn [find up_id up_row]. rewrite Z.eqb_refl. cbn [mbind option_bind up_row]. rewrite Hacct, E1, Z.eqb_refl.
    cbn [mbind option_bind]. rewrite E2. rewrite Hpub in Hseal.
    destruct (seal_for_account_ok (d_seal d) (blobs (mail s)) (js_account_priv x) (sid_key_id (js_identity x)) body Hsk)
      as (wrap & Es & Ew). rewrite Es in Hseal. injection Hseal as Eh Ewr Eb. rewrite <- Eb, <- Eh, <- Ewr.
    rewrite (open_sealed _ _ _ (sid_key_id (js_identity x)) body wrap); try done.
    - rewrite Hd. apply Hdraws.
    - rewrite Eh. exact Hc. }
  unfold download. rewrite Et. erewrite run_try by reflexivity.
  set (now := mt_instant (moments (drawn s2))) in *. set (g := on_arc (set_last_seen now) arc2 (sessions s2)).
  assert (Erun : with_account moments token (fun account account_priv =>
      s ← st_get; st_exec (resolve_blob (mail s) account account_priv (# "u" ++ dec id))) s2
    = (Done (Some (Some (up_filename row, up_content_type row, body))), looked g s2)).
  { unfold with_account. rewrite run_with_session. fold now. rewrite (lock_live _ _ _ _ _ Hlive2). fold g.
    unfold holding. erewrite run_bind by reflexivity. unfold st_exec. change (mail (looked g s2)) with (mail s2).
    cbn [js_account_id js_account_priv set_last_seen]. by rewrite Hfile. }
  eexists. erewrite run_try; [|unfold blocking; rewrite Erun; reflexivity]. reflexivity.
Qed.

End Blobs.
