(* ===== verification/ApiKept.v ===== *)
(** * ApiKept: what the JMAP requests do to a filed message, [jmap]

    No method of src/crates/jmap/src/api.rs and no handler of handlers.rs
    takes a message away or makes it unreadable, except the Email/set of its
    owner that names it under [destroy].  The methods are gone through once,
    for any property of the mail store and the queue that their writes keep. *)

From stdpp Require Import base list strings gmap sorting.
From Stdlib Require Import Ascii ZArith Lia.
From S2P Require Import Prelude RustStr Input Header Limits Scan Store Sealing Auth AuditLog Delivery Backoff Queue Worker QueueSystem MailKept Html Email Compose Api ApiIsolation.
Import Store.Blob Store.Subject Store.Metadata.
From S2P Require Import Jmap JmapSessions.

Section Kept.
Context `{Primitives} `{BlobHash} `{SqlAny} `{AnyOrder} `{DkimSigner} `{MailParser} `{FullText} `{HtmlLibrary}.
Context `{MimeWriter} `{ContactJson} `{ArgsDecoder}.
Context (to_lowercase : str -> str).

(** A property of the mail store, the queue and the accounts that the API's
    own writes keep: [fresh_rand] draws, rows under an [okhash] name in a
    thread that [fits], and the destruction of [spare] rows of an account. *)
Record kept_by_api (fresh_rand : DeliverRand -> Prop) (okhash : str -> Prop) (fits : MetadataStore -> Z -> Z -> Prop)
    (spare : Z -> Z -> Prop) (K : MailStore -> QueueStore -> AuthStore -> Prop) : Prop := {
  ka_delivery q a : kept_by_delivery fresh_rand okhash fits (fun ms => K ms q a);
  ka_row ms q a m : K ms q a -> m ∈ messages (metadata ms) -> fits (metadata ms) (account_id (m_row m)) (thread_id (m_row m));
  ka_update ms q a id mailbox kw : K ms q a -> K (mkMailStore (blobs ms) (update_message (metadata ms) id mailbox kw)) q a;
  ka_queue ms q q' a : outbound q' = outbound q -> outbound_rcpt q' = outbound_rcpt q -> K ms q a -> K ms q' a;
  ka_enqueue ms q a key new now : K ms q a ->
    K (mkMailStore (enqueue key new now q (blobs ms)).2.2 (metadata ms)) (enqueue key new now q (blobs ms)).2.1 a;
  ka_destroy ms q a m : m ∈ messages (metadata ms) -> spare (account_id (m_row m)) (m_id m) -> K ms q a ->
    K (mkMailStore (Blob.remove (blobs ms) (blob_hash (m_row m))).2 (delete_message (metadata ms) (m_id m))) q a;
  ka_auth ms q a a' : auth_step a a' -> K ms q a -> K ms q a'
}.

Section Property.
Context (fresh_rand : DeliverRand -> Prop) (okhash : str -> Prop) (fits : MetadataStore -> Z -> Z -> Prop) (spare : Z -> Z -> Prop).
Context (K : MailStore -> QueueStore -> AuthStore -> Prop) (HK : kept_by_api fresh_rand okhash fits spare K).

(** ** Methods *)
Section Account.
Context (ctx : AccountContext) (A : Z) (HA : parse_account_id ctx = A).
Context (Hsearch : forall q s, exists i, (search_fn ctx q s).2 = with_index i s).
Context (Hdraws : forall n, fresh_rand (d_seal (draws ctx n))).

Definition api_kept (s : ApiState) : Prop := K (ap_mail s) (ap_queue s) (ap_auth s).

Lemma ak_on_metadata {B} (f : MetadataStore -> B * MetadataStore) :
  (forall m, meta_step m (f m).2) -> keeps api_kept (on_metadata f).
Proof. intros Hf. apply keeps_on_metadata. intros s. apply (kd_metadata _ _ _ _ (ka_delivery _ _ _ _ _ HK (ap_queue s) (ap_auth s)) (ap_mail s)), Hf. Qed.

Lemma ak_ensure {B} role (g : Result Mailbox -> B) :
  keeps api_kept (on_metadata (fun m => let '(r, m') := ensure_mailbox m A role in (g r, m'))).
Proof.
  apply ak_on_metadata. intros m. pose proof (meta_ensure m A role) as E. by destruct (ensure_mailbox _ _ _).
Qed.

Lemma ak_on_queue {B} (f : QueueStore -> B * QueueStore) :
  (forall q, outbound (f q).2 = outbound q /\ outbound_rcpt (f q).2 = outbound_rcpt q) -> keeps api_kept (on_queue f).
Proof. intros Hf. apply keeps_on_queue. intros s. apply (ka_queue _ _ _ _ _ HK); apply Hf. Qed.

Lemma ak_notify : keeps api_kept (notify A).
Proof. by apply keeps_mod. Qed.

Lemma ak_fresh : keeps api_kept (fresh ctx).
Proof. by apply keeps_fresh. Qed.

Lemma ak_search q : keeps api_kept (search_fn ctx q).
Proof. intros s Hs. destruct (Hsearch q s) as [i ->]. exact Hs. Qed.

Lemma ak_update_message id mailbox kw s :
  api_kept s -> api_kept (with_metadata (update_message (metadata (ap_mail s)) id mailbox kw) s).
Proof. apply (ka_update _ _ _ _ _ HK _ (ap_queue s) (ap_auth s)). Qed.

Lemma cancelled_rows k message_id q :
  let q' := foldl (fun q e => if bool_decide (payload e = Some message_id) then mark_event_cancelled (e_id e) q else q)
              q (pending_events_for_account q A k) in
  outbound q' = outbound q /\ outbound_rcpt q' = outbound_rcpt q.
Proof.
  cbv zeta. generalize (pending_events_for_account q A k) as l. intros l. revert q.
  induction l as [|e l IH]; intros q; [done|]. cbn [foldl]. by destruct (IH (if bool_decide (payload e = Some message_id)
    then mark_event_cancelled (e_id e) q else q)) as [-> ->]; case_bool_decide.
Qed.

Lemma ak_schedule k id existing v : keeps api_kept (schedule A k id existing v).
Proof.
  unfold schedule, cancel_pending_events. repeat (api_step; try (by apply ak_on_queue)).
  apply keeps_mod. intros s. by apply (ka_queue _ _ _ _ _ HK); apply cancelled_rows.
Qed.

(** The rest of a computation whose first step drew a moment. *)
Lemma ak_fresh_bind {B} (f : Draw -> St ApiState B) :
  (forall n, keeps api_kept (f (draws ctx n))) -> keeps api_kept (fresh ctx ≫= f).
Proof. intros Hf s Hs. exact (Hf (ap_draws s) (with_draws (S (ap_draws s)) s) Hs). Qed.

Lemma ak_seal_try {B} n raw (f : str * str -> Step B) :
  (forall sealed, okhash sealed.1 -> keeps api_kept (f sealed)) ->
  keeps api_kept (st_try (seal_raw ctx (draws ctx n) raw) f).
Proof.
  intros Hf. eapply triple_try with (R := fun sealed s => okhash sealed.1 /\ api_kept s).
  - intros s Hs. unfold seal_raw.
    pose proof (kd_seal _ _ _ _ (ka_delivery _ _ _ _ _ HK (ap_queue s) (ap_auth s)) (ap_mail s) (d_seal (draws ctx n)) (cx_account_pub ctx) (cx_key_id ctx) raw (Hdraws n) Hs) as Hb.
    pose proof (kd_sealed _ _ _ _ (ka_delivery _ _ _ _ _ HK (ap_queue s) (ap_auth s)) (blobs (ap_mail s)) (d_seal (draws ctx n)) (cx_account_pub ctx) (cx_key_id ctx) raw) as Hh.
    destruct (seal_for_account _ _ _ _ _) as [[[hash wrap]|e] b]; cbn in *; [|exact Hb].
    split; [by apply (Hh hash wrap b)|exact Hb].
  - intros sealed. apply triple_fact. apply Hf.
Qed.

(** ... and the thread a draft is to go in fits its account. *)
Definition api_fits (th : Z) (s : ApiState) : Prop := api_kept s /\ fits (metadata (ap_mail s)) A th.

Lemma af_on_metadata {B} th (f : MetadataStore -> B * MetadataStore) :
  (forall m, meta_step m (f m).2) -> keeps (api_fits th) (on_metadata f).
Proof.
  intros Hf s [Hs Ht]. pose proof (ak_on_metadata f Hf s Hs) as Hk. pose proof (Hf (metadata (ap_mail s))) as Hm.
  unfold on_metadata in *. destruct (f _) as [b m]. split; [exact Hk|].
  exact (kd_fits _ _ _ _ (ka_delivery _ _ _ _ _ HK (ap_queue s) (ap_auth s)) _ _ _ _ Hm Ht).
Qed.

Lemma af_seal_try {B} th n raw (f : str * str -> Step B) :
  (forall sealed, okhash sealed.1 -> keeps (api_fits th) (f sealed)) ->
  keeps (api_fits th) (st_try (seal_raw ctx (draws ctx n) raw) f).
Proof.
  intros Hf. eapply triple_try with (R := fun sealed s => okhash sealed.1 /\ api_fits th s).
  - intros s [Hs Ht]. unfold seal_raw.
    pose proof (kd_seal _ _ _ _ (ka_delivery _ _ _ _ _ HK (ap_queue s) (ap_auth s)) (ap_mail s) (d_seal (draws ctx n)) (cx_account_pub ctx) (cx_key_id ctx) raw (Hdraws n) Hs) as Hb.
    pose proof (kd_sealed _ _ _ _ (ka_delivery _ _ _ _ _ HK (ap_queue s) (ap_auth s)) (blobs (ap_mail s)) (d_seal (draws ctx n)) (cx_account_pub ctx) (cx_key_id ctx) raw) as Hh.
    destruct (seal_for_account _ _ _ _ _) as [[[hash wrap]|e] b]; cbn in *; [|by split].
    split; [by apply (Hh hash wrap b)|by split].
  - intros sealed. apply triple_fact. apply Hf.
Qed.

Lemma af_insert th row : okhash (blob_hash row) -> account_id row = A -> thread_id row = th ->
  keeps (api_fits th) (on_metadata (fun m => insert_message m row)).
Proof.
  intros Hok Ha Et s [Hs Ht]. split.
  - apply (kd_insert _ _ _ _ (ka_delivery _ _ _ _ _ HK (ap_queue s) (ap_auth s)) (ap_mail s)); [done|by rewrite Ha, Et|exact Hs].
  - exact (kd_fits_insert _ _ _ _ (ka_delivery _ _ _ _ _ HK (ap_queue s) (ap_auth s)) _ row A th Ht).
Qed.

(** A draft's thread: its parent's, or one of its own. *)
Definition parent_fits (parent : option NewMessage) (s : ApiState) : Prop :=
  match parent with Some p => api_fits (thread_id p) s | None => api_kept s end.

Lemma af_parent req : triple api_kept (read_metadata (fun m => reply_parent m A req)) (fun r s =>
  match r with Done p => parent_fits p s | Panicked => api_kept s end).
Proof.
  intros s Hs. unfold read_metadata, parent_fits, reply_parent. cbn [fst snd].
  destruct (ec_in_reply_to req) as [k|]; [|exact Hs]. cbn [mbind option_bind]. destruct (email_row_id k) as [row|]; [|exact Hs].
  cbn [mbind option_bind]. unfold get_message. destruct (sql_find _ _) as [m|] eqn:Em; [|exact Hs].
  destruct (_ =? A)%Z eqn:Ea; [|exact Hs]. apply sql_find_some in Em as [Hm _]. apply Z.eqb_eq in Ea.
  split; [exact Hs|]. rewrite <- Ea. by apply (ka_row _ _ _ _ _ HK _ (ap_queue s) (ap_auth s)).
Qed.

Lemma af_thread parent subject_hash : triple (parent_fits parent)
  (match parent with
   | Some p => mret (thread_id p)
   | None => on_metadata (fun m => find_or_create_thread m (mkThreadMatch A [] subject_hash))
   end) (fun r s => match r with Done th => api_fits th s | Panicked => api_kept s end).
Proof.
  intros s Hs. destruct parent as [p|]; [exact Hs|]. unfold on_metadata. set (tm := mkThreadMatch A [] subject_hash).
  pose proof (kd_thread _ _ _ _ (ka_delivery _ _ _ _ _ HK (ap_queue s) (ap_auth s)) (ap_mail s) tm Hs) as Ht.
  pose proof (kd_metadata _ _ _ _ (ka_delivery _ _ _ _ _ HK (ap_queue s) (ap_auth s)) (ap_mail s) _ (meta_thread _ tm) Hs) as Hk.
  destruct (find_or_create_thread _ tm) as [th m]. by split.
Qed.

Lemma parent_fits_kept parent s : parent_fits parent s -> api_kept s.
Proof. destruct parent; [by intros [? _]|done]. Qed.

Lemma af_kept {B} th (m : St ApiState B) : keeps (api_fits th) m -> triple (api_fits th) m (fun _ => api_kept).
Proof. intros Hm. eapply triple_consequence; [exact Hm|done|]. by intros r s [? _]. Qed.

Lemma ak_create_draft req : keeps api_kept (create_draft to_lowercase ctx A req).
Proof.
  unfold create_draft. api_step; [api_step|]. apply ak_fresh_bind. intros n.
  eapply triple_bind; [apply af_parent| |by auto]. intros parent. destruct (reply_headers parent) as [irt refs].
  apply triple_exec_bind; [|apply parent_fits_kept]. intros hash _.
  eapply triple_bind; [apply af_thread| |by auto]. intros th. apply af_kept.
  unfold resolve_attachments, resolve_inline_images, resolve_upload.
  repeat (first [apply af_seal_try; intros ? ?|api_step]).
  all: try by apply af_insert.
  apply af_on_metadata. intros m. pose proof (meta_ensure m A ROLE_DRAFTS) as E. by destruct (ensure_mailbox _ _ _).
Qed.

Lemma ak_update_email id patch : keeps api_kept (update_email A id patch).
Proof.
  unfold update_email, own_message, patch_step.
  repeat (api_step; try apply ak_schedule). apply keeps_mod. intros s. apply ak_update_message.
Qed.

(** The message an entry of [destroy] names is the account's own. *)
Lemma own_message_found e id :
  triple api_kept (own_message A e id) (fun r s => match r with
    | Done (Ok m) => (email_row_id id = Some (m_id m) /\ account_id (m_row m) = A) /\ m ∈ messages (metadata (ap_mail s)) /\ api_kept s
    | _ => api_kept s end).
Proof.
  intros s Hs. unfold own_message. destruct (email_row_id id) as [row|]; [|exact Hs].
  unfold read_metadata, get_message. cbn [fst snd]. destruct (sql_find _ _) as [m|] eqn:E; [|exact Hs].
  destruct (_ =? A)%Z eqn:Ea; [|exact Hs]. apply sql_find_some in E as [Hm Er%Z.eqb_eq]. apply Z.eqb_eq in Ea.
  split; [split; [by rewrite Er|done]|done].
Qed.

Lemma ak_destroy_email id : (forall row, email_row_id id = Some row -> spare A row) -> keeps api_kept (destroy_email A id).
Proof.
  intros Hid. unfold destroy_email.
  eapply triple_try; [eapply triple_consequence; [apply own_message_found|done|]|].
  - intros [[m|e]|] s Hs; exact Hs.
  - intros existing. apply triple_fact. intros [Er Ea].
    eapply triple_try with (R := fun _ s => existing ∈ messages (metadata (ap_mail s)) /\ api_kept s).
    + intros s [Hm Hs]. pose proof (ak_ensure ROLE_TRASH set_error s Hs) as Hk. unfold on_metadata in *.
      pose proof (ensure_mailbox_messages (metadata (ap_mail s)) A ROLE_TRASH) as Em.
      destruct (ensure_mailbox _ _ _) as [[mb|e] m']; cbn in *; [|exact Hk]. split; [by rewrite Em|exact Hk].
    + intros trash s [Hm Hs]. destruct (_ =? _)%Z.
      * pose proof (ka_destroy _ _ _ _ _ HK _ _ _ existing Hm ltac:(rewrite Ea; by apply Hid) Hs) as Hd.
        unfold st_mod, remove_blob, mbind, St_bind. cbn. by destruct (Blob.remove _ _).
      * apply (fun HH => (HH : keeps api_kept _) s Hs). api_step; [|api_step]. apply keeps_mod. intros s1. apply ak_update_message.
Qed.

(** Whether what a call may destroy is to spare. *)
Definition spares (call : MethodCall) : Prop := forall a id row,
  mc_name call = # "Email/set" -> de_email_set (mc_args call) = Ok a -> id ∈ es_destroy a -> email_row_id id = Some row -> spare A row.

Lemma ak_enqueue key new now : keeps api_kept (enqueue_message key new now).
Proof.
  intros s Hs. unfold enqueue_message. pose proof (ka_enqueue _ _ _ _ _ HK _ _ _ key new now Hs) as Hk.
  by destruct (enqueue _ _ _ _ _) as [r [q b]].
Qed.

Lemma ak_dkim_key {B} g now d (f : Result DomainKey -> B) :
  keeps api_kept (on_queue (fun q => let '(r, q') := ensure_dkim_key g now d q in (f r, q'))).
Proof.
  apply ak_on_queue. intros q. pose proof (ensure_dkim_key_frame g now d q) as (E1 & E2 & _). by destruct (ensure_dkim_key _ _ _ _).
Qed.

Lemma ak_submit_email req : keeps api_kept (submit_email ctx A req).
Proof.
  unfold submit_email. repeat (api_step; try apply ak_fresh; try apply ak_dkim_key; try apply ak_enqueue; try apply ak_ensure).
  apply keeps_mod. intros ?. apply ak_update_message.
Qed.

Lemma ak_signature sealed : keeps api_kept (write_signature A sealed).
Proof.
  intros s Hs. unfold write_signature. pose proof (auth_signature (ap_auth s) A sealed) as Hu.
  destruct (set_signature_sealed _ _ _) as [r a]. by apply (ka_auth _ _ _ _ _ HK _ _ (ap_auth s)).
Qed.

Lemma ak_contacts args call_id : keeps api_kept (contact_set args call_id ctx).
Proof.
  unfold contact_set. rewrite HA.
  unfold create_contact_entry, update_contact_step, destroy_contact_step, create_contact, update_contact_entry, destroy_contact.
  repeat (api_step; try apply ak_notify; try apply ak_fresh).
  all: apply ak_on_metadata; intros m; apply meta_other; try done.
  all: unfold update_contact, delete_contact; cbn; by repeat case_match; simplify_eq.
Qed.

Lemma dispatch_keeps (call : MethodCall) : spares call -> keeps api_kept (dispatch to_lowercase call ctx).
Proof.
  intros Hsp. destruct call as [name args call_id]. unfold dispatch, thread_get, identity_get, contact_get.
  repeat match goal with |- keeps _ (if ?c then _ else _) => destruct c eqn:? end.
  - unfold mailbox_get. rewrite HA. repeat api_step. apply ak_on_metadata. intros m.
    pose proof (meta_ensure m A ROLE_INBOX) as E. unfold mailboxes_for_account. by destruct (ensure_mailbox _ _ _) as [[mb|e] m'].
  - unfold email_query, matching_ids. rewrite HA. repeat (api_step; try apply ak_search).
    apply ak_on_metadata. intros m. apply meta_ensure.
  - unfold email_get. repeat api_step.
  - unfold email_set, create_entry. rewrite HA. destruct (de_email_set args) as [a|e] eqn:Ea; [|unfold method; rewrite Ea; api_step].
    assert (Hd : forall r, keeps api_kept (st_foldl (fun r id => o ← destroy_email A id; mret (set_destroyed id o r)) r (es_destroy a))).
    { intros r. apply keeps_foldl. intros r' id Hid. api_step; [|api_step]. apply ak_destroy_email. intros row Er.
      bool_facts. by apply (Hsp a id row). }
    unfold method. rewrite Ea.
    repeat (try apply Hd; api_step; try apply ak_create_draft; try apply ak_update_email; try apply ak_notify).
  - unfold email_submission_set, submission_entry. rewrite HA. repeat (api_step; try apply ak_notify; try apply ak_submit_email).
  - repeat api_step.
  - repeat api_step.
  - unfold identity_set, identity_entry. rewrite HA. repeat (api_step; try apply ak_notify; try apply ak_fresh; try apply ak_signature).
  - repeat api_step.
  - apply ak_contacts.
  - apply keeps_ret.
Qed.

End Account.

(** ** Requests *)
Section Requests.
Context (debug_str : str -> str) (moments : nat -> Moment).
Context (argon2_config : Z * Z * Z) (max_upload : Z).
Context (clamav_io : option (str -> option (Result str))).
Context (Hmoments : forall n, fresh_rand (d_seal (mt_draw (moments n)))).

Definition jmap_kept (s : AppState) : Prop := K (mail s) (queue_store s) (auth_store s).

Lemma jk_tick : keeps jmap_kept (tick moments).
Proof. by intros s Hs. Qed.

Lemma jk_zoom {T B} (get : AppState -> T) (put : T -> AppState -> AppState) (m : St T B) :
  (forall x s, mail (put x s) = mail s) -> (forall x s, queue_store (put x s) = queue_store s) ->
  (forall x s, auth_store (put x s) = auth_store s) -> keeps jmap_kept (st_zoom get put m).
Proof. intros Hp Hq Ha s Hs. unfold st_zoom, jmap_kept. destruct (m (get s)) as [r x]. cbn. by rewrite Hp, Hq, Ha. Qed.

Lemma jk_on_auth {B} (f : AuthStore -> Result B * AuthStore) : (forall a, auth_step a (f a).2) -> keeps jmap_kept (on_auth f).
Proof.
  intros Hf s Hs. unfold on_auth. specialize (Hf (auth_store s)). destruct (f _) as [r a'].
  by apply (ka_auth _ _ _ _ _ HK _ _ (auth_store s)).
Qed.

Lemma jk_unlock_task account p : keeps jmap_kept (unlock_task moments argon2_config account p).
Proof.
  unfold unlock_task. api_step; [apply jk_tick|]. intros s Hs. unfold st_zoom.
  match goal with |- context [unlock_any ?n account p argon2_config] => pose proof (auth_unlock (auth_store s) n account p argon2_config) as Hu end.
  destruct (unlock_any _ _ _ _ _) as [r a']. by apply (ka_auth _ _ _ _ _ HK _ _ (auth_store s)).
Qed.

Lemma jk_audit action detail : keeps jmap_kept (audit moments action detail).
Proof. unfold audit. api_step; [apply jk_tick|]. by apply jk_zoom. Qed.

Lemma jk_blocking {B} (m : St AppState B) : keeps jmap_kept m -> keeps jmap_kept (blocking m).
Proof. intros Hm s Hs. specialize (Hm s Hs). unfold blocking. by destruct (m s) as [[b|] s']. Qed.

Lemma jk_with_session {B} token (f : nat -> Session -> St AppState B) :
  (forall arc x, keeps jmap_kept (f arc x)) -> keeps jmap_kept (with_session moments token f).
Proof.
  intros Hf. unfold with_session. api_step; [apply jk_tick|]. api_step; [by apply jk_zoom|]. repeat api_step.
  intros st Hst. unfold holding. match goal with |- context [f ?a ?x st] => specialize (Hf a x st Hst); by destruct (f a x st) as [[?|] ?] end.
Qed.

Lemma jk_account_id_of token : keeps jmap_kept (account_id_of moments token).
Proof. unfold account_id_of. api_step; [apply jk_tick|]. api_step; [by apply jk_zoom|]. api_step. Qed.

Lemma jk_authenticated authorization : keeps jmap_kept (authenticated_account moments authorization).
Proof. unfold authenticated_account. repeat (api_step; try apply jk_account_id_of). Qed.

Lemma jk_unlock_failed identity detail : keeps jmap_kept (unlock_failed moments identity detail).
Proof.
  unfold unlock_failed, set_throttle. api_step; [apply jk_tick|]. api_step; [by apply keeps_mod|].
  api_step; [apply jk_audit|api_step].
Qed.

Ltac jk_step :=
  match goal with
  | |- keeps _ (tick _) => apply jk_tick
  | |- keeps _ (unlock_failed _ _ _) => apply jk_unlock_failed
  | |- keeps _ (audit _ _ _) => apply jk_audit
  | |- keeps _ (blocking _) => apply jk_blocking
  | |- keeps _ (st_zoom _ _ _) => by apply jk_zoom
  | |- keeps _ (st_mod _) => by apply keeps_mod
  | |- keeps _ (on_auth _) => apply jk_on_auth; intros ?; constructor
  | |- keeps _ (unlock_task _ _ _ _) => apply jk_unlock_task
  | |- keeps _ (account_id_of _ _) => apply jk_account_id_of
  | |- keeps _ (authenticated_account _ _) => apply jk_authenticated
  | |- keeps _ (with_session _ _ _) => apply jk_with_session; intros ? ?
  | |- _ => api_step
  end.

Lemma jk_unlock l d p : keeps jmap_kept (unlock moments argon2_config l d p).
Proof.
  unfold unlock, open_session, on_sessions, set_throttle.
  repeat jk_step.
Qed.

Lemma jk_insert_sealed session filename content_type body : keeps jmap_kept (insert_sealed moments session filename content_type body).
Proof.
  unfold insert_sealed. intros s Hs. unfold tick at 1, mbind at 1, St_bind at 1.
  match goal with |- context [st_try ?m ?f ?s1] =>
    assert (Hs1 : jmap_kept s1) by exact Hs; revert Hs1; generalize s1; change (keeps jmap_kept (st_try m f)) end.
  api_step.
  - intros s1 Hs1. pose proof (kd_seal _ _ _ _ (ka_delivery _ _ _ _ _ HK (queue_store s1) (auth_store s1)) (mail s1) (d_seal (mt_draw (moments (drawn s)))) (sid_account_pub (js_identity session))
      (sid_key_id (js_identity session)) body (Hmoments _) Hs1) as Hb. by destruct (seal_for_account _ _ _ _ _).
  - api_step; [|api_step]. intros s1 Hs1. cbn. by apply (kd_metadata _ _ _ _ (ka_delivery _ _ _ _ _ HK (queue_store s1) (auth_store s1)) (mail s1)); [apply meta_other|].
Qed.

Lemma search_in_any x q a : exists i, (search_in x q a).2 = with_index i a.
Proof. unfold search_in. destruct (search _ _ _ _ _ _) as [r i]. by exists i. Qed.

Lemma jk_calls token account calls : Forall (spares (default 0%Z (parse_i64 account))) calls ->
  keeps jmap_kept (run_calls to_lowercase moments max_upload token account calls).
Proof.
  induction 1 as [|call calls Hc Hcs IH]; cbn [run_calls]; [apply keeps_ret|].
  api_step; [|repeat api_step; exact IH]. apply jk_with_session. intros arc x s Hs. unfold dispatch_in.
  pose proof (dispatch_keeps (session_context moments max_upload account x) (default 0%Z (parse_i64 account)) eq_refl
    (search_in_any x) (fun n => Hmoments n) call Hc (api_state (js_search_index x) s) Hs) as Hk.
  by destruct (dispatch _ _ _ _) as [r a].
Qed.

(** The batch of a session's request spares the target. *)
Definition request_spares (authorization : option str) (r : Request) (s : AppState) : Prop :=
  match r with
  | PostApi calls => forall token arc x, bearer_token authorization = Some token ->
      session_of token (sessions s) = Some (arc, x) ->
      Forall (spares (default 0%Z (parse_i64 (dec (js_account_id x))))) calls
  | _ => True
  end.

Lemma jk_api authorization calls s : request_spares authorization (PostApi calls) s -> jmap_kept s ->
  jmap_kept (jmap_api to_lowercase moments max_upload authorization calls s).2.
Proof.
  intros Hsp Hs. unfold jmap_api, authenticated_account. cbn [request_spares] in Hsp.
  destruct (bearer_token authorization) as [token|]; [|exact Hs]. specialize (Hsp token).
  unfold st_try at 1, mbind at 1, St_bind at 1. erewrite run_try by reflexivity. unfold mbind at 1, St_bind at 1.
  pose proof (jk_account_id_of token s Hs) as Hk. rewrite run_account_id in *.
  destruct (lock_session _ _ _) as [[[[arc x]|]|] g] eqn:El; cbn [ok_or]; try exact Hk.
  apply lock_found in El as (x0 & (Es & _) & -> & _). specialize (Hsp arc x0 eq_refl Es).
  erewrite run_try by reflexivity. unfold mret at 1, St_ret at 1. cbn [fst snd] in *.
  match goal with |- jmap_kept (st_try ?m ?f ?s1).2 => revert Hk; generalize s1; change (keeps jmap_kept (st_try m f)) end.
  api_step; [|api_step]. apply jk_blocking. by apply jk_calls.
Qed.

(** Whatever the request, short of its owner destroying it, the message
    stays. *)
Lemma handle_keeps authorization body_len r s : request_spares authorization r s -> jmap_kept s ->
  jmap_kept (handle to_lowercase debug_str moments argon2_config max_upload clamav_io authorization body_len r s).2.
Proof.
  intros Hsp Hs. unfold handle. destruct (over_limit _ _ _); [done|].
  assert (Hr : forall (h : Handler Response), keeps jmap_kept h -> jmap_kept (h s).2) by (intros h Hh; exact (Hh s Hs)).
  destruct r; unfold answer; try match goal with _ : request_spares _ (PostApi _) _ |- _ => fail 1 | _ => apply Hr end.
  - api_step; [apply jk_unlock|api_step].
  - unfold lock. repeat jk_step.
  - unfold list_app_passwords. repeat jk_step.
  - unfold create_app_password. repeat jk_step.
  - unfold revoke_app_password. repeat jk_step.
  - unfold jmap_session. repeat jk_step.
  - pose proof (jk_api authorization method_calls s Hsp Hs) as Hk. unfold st_try, mbind, St_bind.
    by destruct (jmap_api _ _ _ _ _ _) as [[[l|e]|] s'].
  - unfold sse. repeat jk_step.
  - unfold download, with_account. repeat jk_step.
  - unfold upload. repeat (jk_step; try apply jk_insert_sealed).
Qed.

End Requests.
End Property.
End Kept.
