(* ===== verification/System.v ===== *)
(** * System: the whole process, [server]

    The parts of the running server side by side, on the stores they share,
    as src/crates/server/src/main.rs wires them: SMTP sessions, submission
    sessions, JMAP requests, admin requests, passes of the outbound worker,
    and around them restarts and subcommands.  A step is one command of a
    session, one request, one pass or one run of the binary; what the clients
    send, the clocks, the network and the random draws come with the event. *)

From stdpp Require Import base list strings gmap sorting.
From Stdlib Require Import Ascii ZArith Lia.
From S2P Require Import Submission.
From S2P Require Import Prelude RustStr Config Input Header Limits Wire Scan Store Sealing Auth DnsRecords AdminStore AuditLog Delivery SmtpIn Backoff Queue Dane Admin Startup Worker QueueSystem MailKept Html Email Compose Api ApiIsolation.
Import Store.Blob Store.Subject Store.Metadata.
From S2P Require Import Jmap JmapSessions ApiKept.

(** ** Memory of the process *)

(** A session in progress: whether it is encrypted, its connection -- with
    all that its client is going to send -- its envelope, and how many
    commands it has read. *)
Record SmtpConn : Type := mkSmtpConn {
  sc_ip : str; sc_tls : bool; sc_conn : Conn; sc_env : SmtpIn.Envelope; sc_tick : nat
}.
Record SubConn : Type := mkSubConn {
  bc_tls : bool; bc_conn : Conn; bc_env : Submission.Envelope; bc_tick : nat
}.

Record Memory `{TlsLibrary} : Type := mkMemory {
  my_services : Services;
  my_notifier : Changes.ChangeNotifier;
  my_jmap : SessionRegistry;
  my_jmap_throttle : Throttle.LoginThrottle;
  my_admin : Sessions.Registry;
  my_admin_throttle : Throttle.LoginThrottle;
  my_sub_throttle : Throttle.LoginThrottle;
  my_cooldowns : gmap str Instant;
  my_smtp : gmap nat SmtpConn;
  my_sub : gmap nat SubConn
}.

Arguments mkMemory {_}.

(** What everything starts from. *)
Definition fresh_memory `{TlsLibrary} (sv : Services) : Memory :=
  mkMemory sv Changes.new (Jmap.new Jmap.DEFAULT_IDLE_TIMEOUT)
    (Throttle.new Jmap.THROTTLE_BASE_DELAY Jmap.THROTTLE_MAX_DELAY)
    (Sessions.new Admin.DEFAULT_IDLE_TIMEOUT) (Throttle.new Admin.THROTTLE_BASE_DELAY Admin.THROTTLE_MAX_DELAY)
    Submission.login_throttle ∅ ∅ ∅.

(** The process is down without a memory; [sy_drawn] counts the draws of the
    JMAP side. *)
Record System `{TlsLibrary} : Type := mkSystem { sy_world : World; sy_memory : option Memory; sy_drawn : nat }.

Arguments mkSystem {_}.

(** ** What happens *)

(** What one SMTP command meets outside: the decrypted stream or a failed
    handshake, the scanners, the clock and the draws. *)
Record SmtpOutside : Type := mkSmtpOutside {
  so_handshake : option (list str * bool);
  so_rspamd : str -> option (Result str);
  so_clamd : str -> option (Result str);
  so_now : Z;
  so_rand : nat -> DeliverRand;
  so_audit : str
}.

Record SubOutside : Type := mkSubOutside {
  bo_handshake : option (list str * bool);
  bo_check : Z; bo_failure : Z; bo_now : Z;
  bo_audit : str;
  bo_key : result str (str * str)
}.

Inductive Event : Type :=
| SmtpConnect (id : nat) (ip : str) (c : Conn)
| SmtpCommand (id : nat) (o : SmtpOutside)
| SmtpTimeout (id : nat)
| SubConnect (id : nat) (implicit : bool) (c : Conn) (o : SubOutside)
| SubCommand (id : nat) (o : SubOutside)
| SubTimeout (id : nat)
| JmapRequest (authorization : option str) (body_len : Z) (r : Request) (clamd : str -> option (Result str))
| AdminRequest (c : Context_) (call : Call)
| WorkerPass (env : IterationEnv)
| Subcommand (r : Run)
| Restart (r : Run).

Section System.
Context `{Primitives} `{BlobHash} `{SqlAny} `{MailAuth} `{Sha256} `{TomlLibrary} `{TlsLibrary}.
Context `{MailBuilder} `{SendErrorDisplay} `{AnyOrder} `{DkimSigner} `{MailParser} `{FullText} `{HtmlLibrary}.
Context `{MimeWriter} `{ContactJson} `{ArgsDecoder} `{TotpLibrary} `{StringListJson} `{DnsLibrary} `{LogLibrary}.
Context (parse : str -> option ParsedMessage) (to_lowercase : str -> str) (fmt1 : f64 -> str) (debug_str : str -> str).
Context (json : str -> result str (RawResponse (F64 := f64))).
Context (b64decode : str -> option str) (utf8_error : str -> str).
Context (spki_of_pkcs1 : str -> option str) (base64_encode : str -> str).
Context (log_dir : option (result unit (list (str * option str)))).
Context (moments : nat -> Moment).

(** *** Settings *)
Definition config_of (m : Memory) : Config.Config := sv_config (my_services m).
Definition host (m : Memory) : str := Config.domain (Config.server (config_of m)).
Definition if_set {A B} (endpoint : option A) (io : B) : option B := (fun _ => io) <$> endpoint.

(** *** Views *)
Definition smtp_deps (m : Memory) (d : Disk) (o : SmtpOutside) : SmtpIn.Deps :=
  SmtpIn.mkDeps (host m) (Z.to_nat (smtp_max_message_size (Config.smtp (config_of m))))
    (fun _ => dk_auth d) (fun _ => dk_admin d)
    (match load_smtp_acceptor (Config.smtp (config_of m)) with Ok (Some _) => Some (so_handshake o) | _ => None end)
    (fun _ => mkScanner (if_set (sv_scanner (my_services m)).1 (so_rspamd o)) (if_set (sv_scanner (my_services m)).2 (so_clamd o)))
    (fun _ => so_now o) (fun _ => so_rand o) (fun _ => so_audit o).

Definition sub_deps (m : Memory) (o : SubOutside) : Submission.Deps :=
  Submission.mkDeps (host m) (Z.to_nat (sub_max_message_size (Config.submission (config_of m))))
    (costs (Config.argon2 (config_of m))) (bo_handshake o) (fun _ h => h)
    (fun _ => bo_check o) (fun _ => bo_failure o) (fun _ => bo_now o) (fun _ => bo_audit o) (fun _ => bo_key o).

Definition smtp_view (m : Memory) (d : Disk) (c : SmtpConn) : SmtpIn.Session :=
  SmtpIn.mkSession (sc_conn c) (sc_env c) (dk_mail d) (dk_audit d) (my_notifier m) (sc_tick c).
Definition sub_view (m : Memory) (d : Disk) (c : SubConn) : Submission.Session :=
  Submission.mkSession (bc_conn c) (bc_env c)
    (Submission.mkShared (dk_auth d) (my_sub_throttle m) (dk_queue d) (blobs (dk_mail d)) (dk_audit d)) (bc_tick c).
Definition jmap_view (m : Memory) (d : Disk) (drawn : nat) : Jmap.AppState :=
  Jmap.mkAppState (dk_auth d) (dk_mail d) (dk_audit d) (my_jmap m) (my_jmap_throttle m) (dk_queue d) (my_notifier m) drawn.
Definition admin_view (m : Memory) (d : Disk) : Admin.AppState :=
  Admin.mkAppState (dk_admin d) (dk_auth d) (dk_queue d) (dk_audit d) (my_admin m) (my_admin_throttle m).
Definition worker_view (m : Memory) (d : Disk) : Worker :=
  mkWorker (dk_queue d) (dk_mail d) (dk_auth d) (dk_audit d) (my_cooldowns m) (my_notifier m).

(** *** What a step leaves *)
Definition set_smtp (l : gmap nat SmtpConn) (n : Changes.ChangeNotifier) (m : Memory) : Memory :=
  mkMemory (my_services m) n (my_jmap m) (my_jmap_throttle m) (my_admin m) (my_admin_throttle m) (my_sub_throttle m)
    (my_cooldowns m) l (my_sub m).
Definition set_sub (l : gmap nat SubConn) (t : Throttle.LoginThrottle) (m : Memory) : Memory :=
  mkMemory (my_services m) (my_notifier m) (my_jmap m) (my_jmap_throttle m) (my_admin m) (my_admin_throttle m) t
    (my_cooldowns m) (my_smtp m) l.

(** What follows a command, as [handle_connection] has it: the loop goes on,
    TLS begins with an empty envelope, or the connection is gone. *)
Definition smtp_next (c : SmtpConn) (deps : SmtpIn.Deps) (r : exec SmtpIn.Flow) (s : SmtpIn.Session) : option SmtpConn :=
  match r with
  | Done SmtpIn.Continue => Some (mkSmtpConn (sc_ip c) (sc_tls c) (SmtpIn.se_conn s) (SmtpIn.se_env s) (SmtpIn.se_tick s))
  | Done (SmtpIn.Leave SmtpIn.StartTls) =>
      match rd_buf (cn_rd (SmtpIn.se_conn s)), SmtpIn.tls_acceptor deps with
      | [], Some (Some (chunks, err)) =>
          Some (mkSmtpConn (sc_ip c) true (mkConn (mkReader [] chunks err) (cn_wok (SmtpIn.se_conn s)) (cn_out (SmtpIn.se_conn s)))
                  SmtpIn.env_default (SmtpIn.se_tick s))
      | _, _ => None
      end
  | _ => None
  end.

Definition sub_next (deps : Submission.Deps) (c : SubConn) (r : exec Submission.Flow) (s : Submission.Session) : option SubConn :=
  match r with
  | Done Submission.Continue => Some (mkSubConn (bc_tls c) (Submission.se_conn s) (Submission.se_env s) (Submission.se_tick s))
  | Done (Submission.Leave Submission.StartTls) =>
      match rd_buf (cn_rd (Submission.se_conn s)), Submission.tls_acceptor deps with
      | [], Some (chunks, err) =>
          Some (mkSubConn true (mkConn (mkReader [] chunks err) (cn_wok (Submission.se_conn s)) (cn_out (Submission.se_conn s)))
                  Submission.env_default (Submission.se_tick s))
      | _, _ => None
      end
  | _ => None
  end.

(** The greeting of a new connection. *)
Definition greeted (c : Conn) (text : str) : option Conn :=
  let '(ok, c') := write_reply c 220 text in if ok : bool then Some c' else None.

Definition smtp_command (id : nat) (o : SmtpOutside) (m : Memory) (d : Disk) : Memory * Disk :=
  match my_smtp m !! id with
  | None => (m, d)
  | Some c =>
      let deps := smtp_deps m d o in
      let '(r, s) := SmtpIn.loop_step parse to_lowercase fmt1 debug_str json deps (sc_ip c) (sc_tls c) (smtp_view m d c) in
      (set_smtp (partial_alter (fun _ => smtp_next c deps r s) id (my_smtp m)) (SmtpIn.se_notifier s) m,
       mkDisk (dk_auth d) (dk_admin d) (SmtpIn.se_audit s) (dk_queue d) (SmtpIn.se_mail s))
  end.

Definition sub_command (id : nat) (o : SubOutside) (m : Memory) (d : Disk) : Memory * Disk :=
  match my_sub m !! id with
  | None => (m, d)
  | Some c =>
      let deps := sub_deps m o in
      let '(r, s) := Submission.loop_step b64decode deps (bc_tls c) (sub_view m d c) in
      let h := Submission.se_shared s in
      (set_sub (partial_alter (fun _ => sub_next deps c r s) id (my_sub m)) (Submission.sh_throttle h) m,
       mkDisk (Submission.sh_auth h) (dk_admin d) (Submission.sh_audit h) (Submission.sh_queue h)
         (mkMailStore (Submission.sh_blobs h) (metadata (dk_mail d))))
  end.

Definition jmap_handle (m : Memory) (authorization : option str) (body_len : Z) (r : Request)
    (clamd : str -> option (Result str)) : Jmap.Handler Response :=
  Jmap.handle to_lowercase debug_str moments (costs (Config.argon2 (config_of m))) (Config.max_upload_size (Config.jmap (config_of m)))
    (if_set (sv_scanner (my_services m)).2 clamd) authorization body_len r.

Definition jmap_request (m : Memory) (d : Disk) (drawn : nat) (authorization : option str) (body_len : Z) (r : Request)
    (clamd : str -> option (Result str)) : Memory * Disk * nat :=
  let s := (jmap_handle m authorization body_len r clamd (jmap_view m d drawn)).2 in
  (mkMemory (my_services m) (Jmap.notifier s) (Jmap.sessions s) (Jmap.login_throttle s) (my_admin m) (my_admin_throttle m)
     (my_sub_throttle m) (my_cooldowns m) (my_smtp m) (my_sub m),
   mkDisk (Jmap.auth_store s) (dk_admin d) (Jmap.audit_store s) (Jmap.queue_store s) (Jmap.mail s), Jmap.drawn s).

Definition admin_request (m : Memory) (d : Disk) (c : Context_) (call : Call) : Memory * Disk :=
  let s := (Admin.handle utf8_error spki_of_pkcs1 base64_encode (costs (Config.argon2 (config_of m))) (host m) log_dir c call
              (admin_view m d)).2 in
  (mkMemory (my_services m) (my_notifier m) (my_jmap m) (my_jmap_throttle m) (Admin.sessions_ s) (Admin.login_throttle s)
     (my_sub_throttle m) (my_cooldowns m) (my_smtp m) (my_sub m),
   mkDisk (Admin.auth_store s) (Admin.admin_store s) (Admin.audit_store s) (Admin.queue_store s) (dk_mail d)).

Definition worker_pass (m : Memory) (d : Disk) (env : IterationEnv) : Memory * Disk :=
  let w := (run_iteration parse to_lowercase (host m) env (worker_view m d)).2 in
  (mkMemory (my_services m) (Worker.notifier w) (my_jmap m) (my_jmap_throttle m) (my_admin m) (my_admin_throttle m)
     (my_sub_throttle m) (cooldowns w) (my_smtp m) (my_sub m),
   mkDisk (Worker.auth_store w) (dk_admin d) (Worker.audit w) (queue w) (Worker.mail w)).

Definition smtp_connect (id : nat) (ip : str) (c : Conn) (m : Memory) : Memory :=
  match my_smtp m !! id, greeted c (host m ++ # " ESMTP Litterae") with
  | None, Some c => set_smtp (<[id := mkSmtpConn ip false c SmtpIn.env_default 0]> (my_smtp m)) (my_notifier m) m
  | _, _ => m
  end.

(** Port 465 begins with the handshake; neither port listens when submission
    is disabled. *)
Definition sub_connect (id : nat) (implicit : bool) (c : Conn) (o : SubOutside) (m : Memory) : Memory :=
  let stream := if implicit then (fun s => mkConn (mkReader [] s.1 s.2) (cn_wok c) (cn_out c)) <$> bo_handshake o else Some c in
  match submission_service (config_of m), my_sub m !! id,
        (c ← stream; greeted c (host m ++ # " ESMTP Litterae Submission")) with
  | Some _, None, Some c => set_sub (<[id := mkSubConn implicit c Submission.env_default 0]> (my_sub m)) (my_sub_throttle m) m
  | _, _, _ => m
  end.

(** A session has had its ten minutes. *)
Definition smtp_timeout (id : nat) (m : Memory) : Memory := set_smtp (delete id (my_smtp m)) (my_notifier m) m.
Definition sub_timeout (id : nat) (m : Memory) : Memory := set_sub (delete id (my_sub m)) (my_sub_throttle m) m.

(** After [main] has set everything up, a listener whose certificate does not
    load ends the process. *)
Definition stays_up (sv : Services) : bool :=
  is_ok (load_smtp_acceptor (Config.smtp (sv_config sv))) &&
  match submission_service (sv_config sv) with Some r => is_ok r | None => true end.

Definition run_binary (r : Run) (w : World) : exec (result Z (option Services)) * World :=
  main_run spki_of_pkcs1 base64_encode r w.

Definition restart (r : Run) (s : System) : System :=
  match run_binary r (sy_world s) with
  | (Done (Ok (Some sv)), w) => mkSystem w (if stays_up sv then Some (fresh_memory sv) else None) (sy_drawn s)
  | (_, w) => mkSystem w None (sy_drawn s)
  end.

(** A step on the memory of a running process and its disk. *)
Definition on_running (f : Memory -> Disk -> Memory * Disk) (s : System) : System :=
  match sy_memory s with
  | None => s
  | Some m => let '(m', d') := f m (disk (sy_world s)) in mkSystem (with_disk d' (sy_world s)) (Some m') (sy_drawn s)
  end.

Definition step (s : System) (e : Event) : System :=
  match e with
  | SmtpConnect id ip c => on_running (fun m d => (smtp_connect id ip c m, d)) s
  | SmtpCommand id o => on_running (smtp_command id o) s
  | SmtpTimeout id => on_running (fun m d => (smtp_timeout id m, d)) s
  | SubConnect id implicit c o => on_running (fun m d => (sub_connect id implicit c o m, d)) s
  | SubCommand id o => on_running (sub_command id o) s
  | SubTimeout id => on_running (fun m d => (sub_timeout id m, d)) s
  | JmapRequest authorization body_len r clamd =>
      match sy_memory s with
      | None => s
      | Some m =>
          let '(m', d', n) := jmap_request m (disk (sy_world s)) (sy_drawn s) authorization body_len r clamd in
          mkSystem (with_disk d' (sy_world s)) (Some m') n
      end
  | AdminRequest c call => on_running (fun m d => admin_request m d c call) s
  | WorkerPass env => on_running (fun m d => worker_pass m d env) s
  | Subcommand r =>
      if serves r then s else mkSystem (run_binary r (sy_world s)).2 (sy_memory s) (sy_drawn s)
  | Restart r => if serves r then restart r s else s
  end.

Definition run (s : System) (es : list Event) : System := foldl step s es.

Definition stores (s : System) : Disk := disk (sy_world s).

(** An installation before its first start. *)
Definition installed (admin : AdminStore) : System :=
  mkSystem (mkWorld (mkDisk empty_auth admin empty_audit empty_queue (mkMailStore ∅ empty_store)) [] []) None 0.
End System.
