(* ===== verification/SystemKept.v ===== *)
(** * SystemKept: what every step of the process keeps

    One interface for the properties of the mail store and the queue that
    survive every part of the running server, the theorem that any run keeps
    them, and its instances: mail that was accepted is not lost before it is
    settled, what is settled stays so, and a filed message stays readable. *)

From stdpp Require Import base list strings gmap sorting.
From Stdlib Require Import Ascii ZArith Lia.
From S2P Require Import Submission.
From S2P Require Import Prelude RustStr Config Input Header Limits Wire Scan Store Sealing Auth DnsRecords AdminStore AuditLog Delivery SmtpIn Backoff Queue Dane Admin Startup Worker QueueSystem MailKept Html Email Compose Api ApiIsolation.
Import Store.Blob Store.Subject Store.Metadata.
From S2P Require Import Jmap JmapSessions ApiKept System.

(** ** Names of blobs *)
Section Names.
Context `{Primitives} `{BlobHash} `{DkimSigner}.

(** A sealed message's, and a queued message's as it goes over the wire. *)
Definition sealed_name (h : str) : Prop := exists rnd raw, h = hash_hex (aead_seal (dr_nonce rnd) (dr_dek rnd) 1 raw).
Definition wire_name (h : str) : Prop := exists key now raw header, sign key now raw = Ok header /\ h = hash_hex (header ++ raw).

(** SHA-256 tells the two forms apart: one begins with the crypto-agility
    header, the other with "DKIM-Signature". *)
Definition names_apart : Prop := forall h, sealed_name h -> wire_name h -> False.

Lemma seal_name rnd b pub key_id raw hash wrap b' :
  seal_for_account rnd b pub key_id raw = (Ok (hash, wrap), b') -> sealed_name hash.
Proof.
  unfold seal_for_account. destruct (write_ok b (aead_seal (dr_nonce rnd) (dr_dek rnd) 1 raw)) as [b1 ->].
  destruct (as_crypto_error _); [|done]. intros [= <- _ _]. by exists rnd, raw.
Qed.

Lemma enqueue_names key new now q b :
  Forall (fun o => wire_name (message_blob o)) (outbound q) ->
  Forall (fun o => wire_name (message_blob o)) (outbound (enqueue key new now q b).2.1).
Proof.
  intros Hq. unfold enqueue. destruct (negb _); [done|]. destruct (sign key now (raw_message new)) as [header|] eqn:Es; [|done].
  destruct (write_ok b (header ++ raw_message new)) as [b' ->]. destruct (rate_limit _ _ _); [|done].
  destruct (insert_outbound _ _ now q) as [id q1] eqn:E. cbn [fst snd]. rewrite insert_rcpts_outbound.
  cbn [insert_outbound] in E. injection E as <- <-. cbn. apply Forall_app. split; [done|]. apply Forall_singleton. cbn.
  by exists key, now, (raw_message new), header.
Qed.

End Names.

(** ** The invariant of the stores *)
Section Stores.
Context `{Primitives} `{BlobHash} `{SqlAny} `{DkimSigner}.

(** The messages have their own ids, and every one its sealed blob's name. *)
Definition all_sealed (ms : MailStore) : Prop :=
  NoDup (m_id <$> messages (metadata ms)) /\ forall m, m ∈ messages (metadata ms) -> sealed_name (blob_hash (m_row m)).

(** The queue's invariant with the blobs it needs, [frozen] rows among the
    settled ones, every message under a sealed name and every queued one
    under a wire name. *)
Record stores_ok (frozen : list RcptRow) (ms : MailStore) (q : QueueStore) : Prop := {
  sk_queue : J frozen [] (mkWorker q ms empty_auth empty_audit ∅ Changes.new);
  sk_sealed : all_sealed ms;
  sk_wire : Forall (fun o => wire_name (message_blob o)) (outbound q)
}.

Lemma sealed_ext ms b m : messages m = messages (metadata ms) -> all_sealed ms -> all_sealed (mkMailStore b m).
Proof. unfold all_sealed. cbn. by intros ->. Qed.

Lemma sealed_update_row f id ms m : seal_op f -> messages m = update_row f id (messages (metadata ms)) ->
  all_sealed ms -> all_sealed (mkMailStore (blobs ms) m).
Proof.
  intros Hf E [Hn Hs]. split; cbn [metadata]; rewrite E; [unfold update_row; by rewrite sql_update_key|].
  intros x (r & Hr & ->)%elem_of_sql_update. specialize (Hs r Hr). destruct (_ =? _)%Z; [|done]. cbn.
  by destruct (Hf (m_row r)) as (_ & -> & _).
Qed.

Lemma sealed_update ms id mailbox kw : all_sealed ms ->
  all_sealed (mkMailStore (blobs ms) (update_message (metadata ms) id mailbox kw)).
Proof.
  intros Hs. unfold update_message. cbv zeta. set (m1 := match mailbox with Some _ => _ | None => _ end).
  assert (H1s : all_sealed (mkMailStore (blobs ms) m1)).
  { destruct mailbox as [mb|]; [by apply (sealed_update_row (set_mailbox mb) id ms)|by apply (sealed_ext ms)]. }
  destruct kw as [k|]; [|exact H1s]. exact (sealed_update_row _ id _ (with_messages _ _) (set_keywords_op k) eq_refl H1s).
Qed.

Lemma sealed_insert ms row : sealed_name (blob_hash row) -> all_sealed ms ->
  all_sealed (mkMailStore (blobs ms) (insert_message (metadata ms) row).2).
Proof.
  intros Hr [Hn Hs]. split; cbn.
  - rewrite fmap_app. apply NoDup_snoc; [done|apply next_rowid_fresh].
  - intros m [Hm| ->%list_elem_of_singleton]%elem_of_app; [by apply Hs|exact Hr].
Qed.

Lemma sealed_delete ms b id : all_sealed ms -> all_sealed (mkMailStore b (delete_message (metadata ms) id)).
Proof. intros [Hn Hs]. split; cbn; [by apply NoDup_fmap_filter|]. intros m [Hm _]%elem_of_filter_list. by apply Hs. Qed.

Lemma sealed_delivery : kept_by_delivery (fun _ => True) sealed_name any_thread all_sealed.
Proof.
  split; [|by intros; case_match|done|done|..].
  - intros s m Hm. by apply sealed_ext, meta_step_messages.
  - intros s row Hr _. by apply sealed_insert.
  - intros s rnd pub key_id raw _. by apply sealed_ext.
  - intros b rnd pub key_id raw hash wrap b' _. apply seal_name.
Qed.

Lemma sealed_by_worker gone : kept_by_worker (fun _ => True) sealed_name any_thread gone all_sealed.
Proof.
  split.
  - apply sealed_delivery.
  - apply sealed_update.
  - intros s h _. by apply sealed_ext.
Qed.

(** The queue's invariant under changes of the mail store that keep the
    blobs it can read. *)
Lemma J_blobs frozen ms ms' q :
  (forall h c, read (blobs ms) h = Ok c -> wire_name h -> read (blobs ms') h = Ok c) -> intact (blobs ms') ->
  stores_ok frozen ms q -> J frozen [] (mkWorker q ms' empty_auth empty_audit ∅ Changes.new).
Proof.
  intros Hr Hi [[[Hq Hrt Hb Hk] Ha Hf] _ Hw]. split; [|done|done]. split; cbn in *; try done.
  intros r o Hj Ht. destruct (Hk r o Hj Ht) as [c Hc]. exists c. apply Hr; [done|].
  apply elem_of_rcpt_join in Hj as (_ & Ho & _). rewrite Forall_forall in Hw. by apply Hw.
Qed.

Lemma stores_ok_delivery frozen q : kept_by_delivery (fun _ => True) sealed_name any_thread (fun ms => stores_ok frozen ms q).
Proof.
  split; [|by intros; case_match|done|done|..].
  - intros s m E%meta_step_messages Hs.
    split; [by apply (J_blobs frozen s); [| |done]; destruct Hs as [[[]]]|by apply (sealed_ext s), Hs|apply Hs].
  - intros s row Hr _ Hs. split; [by apply (J_blobs frozen s); [| |done]; destruct Hs as [[[]]]| |apply Hs].
    by apply (kd_insert _ _ _ _ sealed_delivery), Hs.
  - intros s rnd pub key_id raw _ Hs. destruct (seal_for_account_blobs rnd (blobs s) pub key_id raw) as [x ->].
    split; [|by apply (sealed_ext s), Hs|apply Hs]. apply (J_blobs frozen s); [|apply write_intact; by destruct Hs as [[[]]]|done].
    intros h c Hc _. by apply write_keeps.
  - intros b rnd pub key_id raw hash wrap b' _. apply seal_name.
Qed.

Lemma stores_ok_queue frozen ms q q' :
  outbound q' = outbound q -> outbound_rcpt q' = outbound_rcpt q -> stores_ok frozen ms q -> stores_ok frozen ms q'.
Proof. intros Eo Er [Hj Hs Hw]. split; [by apply (J_same frozen [] _ _ Hj)|done|by rewrite Eo]. Qed.

(** The JMAP side keeps it: what it destroys was sealed. *)
Lemma stores_ok_api frozen : names_apart -> kept_by_api (fun _ => True) sealed_name any_thread (fun _ _ => True) (fun ms q _ => stores_ok frozen ms q).
Proof.
  intros Hap. split; [|done|..|done].
  - intros q _. apply stores_ok_delivery.
  - intros ms q _ id mailbox kw Hs. split; [by apply (J_blobs frozen ms); [| |done]; destruct Hs as [[[]]]|by apply sealed_update, Hs|apply Hs].
  - intros ms q q' _. apply stores_ok_queue.
  - intros ms q _ key new now Hs. pose proof (enqueue_J frozen key new now _ (sk_queue _ _ _ Hs)) as Hj. unfold enqueue_step in Hj.
    pose proof (enqueue_names key new now q (blobs ms) (sk_wire _ _ _ Hs)) as Hw.
    cbn [queue mail] in Hj. destruct (enqueue _ _ _ _ _) as [r [q' b']]. cbn in *.
    split; [exact Hj|by apply (sealed_ext ms), Hs|exact Hw].
  - intros ms q _ m Hm _ Hs. pose proof (proj2 (sk_sealed _ _ _ Hs) m Hm) as Hn.
    split; [|by apply sealed_delete, Hs|apply Hs].
    apply (J_blobs frozen ms); [|cbn; apply remove_intact; by destruct Hs as [[[]]]|done].
    intros h c Hc Hw. cbn. rewrite remove_read; [done|]. intros ->. by apply (Hap (blob_hash (m_row m))).
Qed.

End Stores.

(** ** Every step *)
Section Steps.
Context `{Primitives} `{BlobHash} `{SqlAny} `{MailAuth} `{Sha256} `{TomlLibrary} `{TlsLibrary}.
Context `{MailBuilder} `{SendErrorDisplay} `{AnyOrder} `{DkimSigner} `{MailParser} `{FullText} `{HtmlLibrary}.
Context `{MimeWriter} `{ContactJson} `{ArgsDecoder} `{TotpLibrary} `{StringListJson} `{DnsLibrary} `{LogLibrary}.
Context (parse : str -> option ParsedMessage) (to_lowercase : str -> str) (fmt1 : f64 -> str) (debug_str : str -> str).
Context (json : str -> result str (RawResponse (F64 := f64))).
Context (b64decode : str -> option str) (utf8_error : str -> str).
Context (spki_of_pkcs1 : str -> option str) (base64_encode : str -> str).
Context (log_dir : option (result unit (list (str * option str)))).
Context (moments : nat -> Moment).

Abbreviation step_ := (step parse to_lowercase fmt1 debug_str json b64decode utf8_error spki_of_pkcs1 base64_encode log_dir moments).
Abbreviation run_ := (run parse to_lowercase fmt1 debug_str json b64decode utf8_error spki_of_pkcs1 base64_encode log_dir moments).

(** A property of the mail store and the queue that the process keeps: under
    the API's writes and a pass of the worker. *)
Record kept_by_process (fresh_rand : DeliverRand -> Prop) (okhash : str -> Prop) (fits : MetadataStore -> Z -> Z -> Prop)
    (spare : Z -> Z -> Prop) (K : MailStore -> QueueStore -> Prop) : Prop := {
  kp_api : kept_by_api fresh_rand okhash fits spare (fun ms q _ => K ms q);
  kp_pass h env (w : Worker) : (forall c, fresh_rand (fe_dsn_rand (ie_finalize env c))) -> K (Worker.mail w) (queue w) ->
    let w' := (run_iteration parse to_lowercase h env w).2 in K (Worker.mail w') (queue w')
}.

Section Property.
Context (fresh_rand : DeliverRand -> Prop) (okhash : str -> Prop) (fits : MetadataStore -> Z -> Z -> Prop) (spare : Z -> Z -> Prop).
Context (K : MailStore -> QueueStore -> Prop) (HK : kept_by_process fresh_rand okhash fits spare K).
Context (Hmoments : forall n, fresh_rand (d_seal (mt_draw (moments n)))).

(** The draws of an event, and what its request may destroy. *)
Definition event_ok (s : System) (e : Event) : Prop :=
  match e with
  | SmtpCommand _ o => forall n, fresh_rand (so_rand o n)
  | WorkerPass env => forall c, fresh_rand (fe_dsn_rand (ie_finalize env c))
  | JmapRequest authorization _ r _ => forall m, sy_memory s = Some m ->
      request_spares spare authorization r (jmap_view m (stores s) (sy_drawn s))
  | _ => True
  end.

Fixpoint events_ok (s : System) (es : list Event) : Prop :=
  match es with [] => True | e :: es => event_ok s e /\ events_ok (step_ s e) es end.

Definition stores_kept (d : Disk) : Prop := K (dk_mail d) (dk_queue d).

(** The open SMTP sessions have well-formed envelopes. *)
Definition conns_ok (m : Memory) : Prop := forall id c, my_smtp m !! id = Some c -> env_with (fun _ => True) (sc_env c).

Definition system_kept (s : System) : Prop :=
  stores_kept (stores s) /\ forall m, sy_memory s = Some m -> conns_ok m.

Lemma kept_smtp id o m d : (forall n, fresh_rand (so_rand o n)) -> conns_ok m -> stores_kept d ->
  let '(m', d') := smtp_command parse to_lowercase fmt1 debug_str json id o m d in conns_ok m' /\ stores_kept d'.
Proof.
  intros Hf Hc Hd. unfold smtp_command. destruct (my_smtp m !! id) as [c|] eqn:Ec; [|done].
  pose proof (smtp_step_kept parse to_lowercase fmt1 debug_str json (smtp_deps m d o) (sc_ip c) fresh_rand okhash fits
    (fun ms => K ms (dk_queue d)) (sc_tls c) (smtp_view m d c) (fun _ => True) ltac:(done)
    (ka_delivery _ _ _ _ _ (kp_api _ _ _ _ _ HK) (dk_queue d) (dk_auth d)) ltac:(done) (Hc id c Ec) Hd) as [He Hk].
  destruct (SmtpIn.loop_step _ _ _ _ _ _ _ _ _) as [r s]. cbn [snd] in He, Hk. split; [|exact Hk].
  intros i c'. cbn [my_smtp set_smtp]. destruct (decide (i = id)) as [->|Hne].
  - rewrite lookup_partial_alter_eq. unfold smtp_next. destruct r as [[|[|]]|]; try done.
    + by intros [= <-].
    + destruct (rd_buf _); [|done]. destruct (SmtpIn.tls_acceptor _) as [[[ch er]|]|]; [|done..]. intros [= <-].
      apply (env_ok_default (fun _ => True)).
  - rewrite lookup_partial_alter_ne by done. apply Hc.
Qed.

Lemma kept_sub id o m d : conns_ok m -> stores_kept d ->
  let '(m', d') := sub_command b64decode id o m d in conns_ok m' /\ stores_kept d'.
Proof.
  intros Hc Hd. unfold sub_command. destruct (my_sub m !! id) as [c|]; [|done].
  set (P := fun (_ : AuthStore) q b => K (mkMailStore b (metadata (dk_mail d))) q).
  assert (HP : Submission.kept_by_submission P).
  { intros a q b Hq. split; [by intros|]. split.
    - intros g now dom. destruct (ensure_dkim_key_frame g now dom q) as (E1 & E2 & _).
      by apply (ka_queue _ _ _ _ _ (kp_api _ _ _ _ _ HK) _ q _ a).
    - intros key new now. exact (ka_enqueue _ _ _ _ _ (kp_api _ _ _ _ _ HK) _ q a key new now Hq). }
  pose proof (Submission.stores_loop_step b64decode (sub_deps m o) P HP (bc_tls c) (sub_view m d c)) as Hs. cbn zeta in Hs.
  unfold stores_kept in Hd. specialize (Hs ltac:(unfold P; cbn; by destruct (dk_mail d))). cbn in Hs.
  destruct (Submission.loop_step _ _ _ _) as [r s]. split; [exact Hc|exact Hs].
Qed.

Lemma kept_admin m d c call : conns_ok m -> stores_kept d ->
  let '(m', d') := admin_request utf8_error spki_of_pkcs1 base64_encode log_dir m d c call in conns_ok m' /\ stores_kept d'.
Proof.
  intros Hc Hd. unfold admin_request. split; [exact Hc|].
  pose proof (handle_queue_rows utf8_error spki_of_pkcs1 base64_encode (costs (Config.argon2 (config_of m))) (host m) log_dir
    (dk_queue d) c call (admin_view m d) (conj eq_refl eq_refl)) as [E1 E2].
  by apply (ka_queue _ _ _ _ _ (kp_api _ _ _ _ _ HK) _ (dk_queue d) _ (dk_auth d)).
Qed.

(** Runs of the binary do not touch the mail store, and of the queue only its
    signing keys. *)
Lemma kept_binary r w : stores_kept (disk w) -> stores_kept (disk (run_binary spki_of_pkcs1 base64_encode r w).2).
Proof.
  intros Hw. unfold run_binary. destruct (serves r) eqn:Hs.
  - rewrite main_serves by done. destruct (run_config r) as [c|e]; [|done].
    apply (fun HH => (HH : keeps (fun w => stores_kept (disk w)) (st_try (serve (run_rand r) (run_open_fails r) c) (fun s => mret (Ok (Some s))))) w); [|exact Hw].
    st_step; [|st_step]. apply (kd_serve stores_kept); [done|]. unfold admin_bootstrap, bootstrap_admin.
    repeat (st_step; try by apply kd_on_admin). all: first [apply keeps_ret|by apply keeps_mod].
  - apply (kd_commands spki_of_pkcs1 base64_encode stores_kept); try done. intros d g n dom Hd.
    destruct (ensure_dkim_key_frame g n dom (dk_queue d)) as (E1 & E2 & _).
    by apply (ka_queue _ _ _ _ _ (kp_api _ _ _ _ _ HK) _ (dk_queue d) _ (dk_auth d)).
Qed.

Lemma fresh_conns sv : conns_ok (fresh_memory sv).
Proof. intros id c. unfold fresh_memory. cbn. by rewrite lookup_empty. Qed.

Lemma kept_on_running f s :
  (forall m d, conns_ok m -> stores_kept d -> let '(m', d') := f m d in conns_ok m' /\ stores_kept d') ->
  system_kept s -> system_kept (on_running f s).
Proof.
  intros Hf [Hs Hm]. unfold on_running. destruct (sy_memory s) as [m|] eqn:Em; [|by split; [|rewrite Em]].
  specialize (Hf m (stores s) (Hm m eq_refl) Hs). fold (stores s). destruct (f m (stores s)) as [m' d'].
  destruct Hf as [Hm' Hd']. split; [exact Hd'|]. by intros m0 [= <-].
Qed.

Lemma step_kept s e : event_ok s e -> system_kept s -> system_kept (step_ s e).
Proof.
  intros He Hs. destruct e as [id ip c|id o|id|id implicit c o|id o|id|authorization body_len r clamd|c call|env|r|r]; cbn [step].
  - apply kept_on_running; [|done]. intros m d Hc Hd. split; [|done]. unfold smtp_connect.
    destruct (my_smtp m !! id); [done|]. destruct (greeted _ _) as [c'|]; [|done].
    intros i c0. cbn. intros [[<- <-]|[_ Hi]]%lookup_insert_Some; [|by apply (Hc i)]. apply (env_ok_default (fun _ => True)).
  - apply kept_on_running; [|done]. intros m d. by apply kept_smtp.
  - apply kept_on_running; [|done]. intros m d Hc Hd. split; [|done]. intros i c. cbn.
    intros [_ Hi]%lookup_delete_Some. by apply (Hc i).
  - apply kept_on_running; [|done]. intros m d Hc Hd. split; [|done]. unfold sub_connect.
    by repeat case_match.
  - apply kept_on_running; [|done]. intros m d. by apply kept_sub.
  - by apply kept_on_running.
  - destruct (sy_memory s) as [m|] eqn:Em; [|exact Hs]. destruct Hs as [Hs Hm]. unfold jmap_request. split; [|by intros m0 [= <-]; apply (Hm m)].
    apply (handle_keeps to_lowercase fresh_rand okhash fits spare _ (kp_api _ _ _ _ _ HK) debug_str moments); [done|by apply (He m)|exact Hs].
  - apply kept_on_running; [|done]. intros m d. by apply kept_admin.
  - apply kept_on_running; [|done]. intros m d Hc Hd. unfold worker_pass. split; [exact Hc|].
    by apply (kp_pass _ _ _ _ _ HK (host m) env (worker_view m d)).
  - destruct (serves r); [done|]. destruct Hs as [Hs Hm]. split; [by apply kept_binary|exact Hm].
  - destruct (serves r); [|done]. unfold restart. destruct Hs as [Hs Hm]. pose proof (kept_binary r (sy_world s) Hs) as Hb.
    destruct (run_binary _ _ _ _) as [[[[sv|]|e]|] w]; (split; [exact Hb|]); try done.
    cbn. destruct (stays_up sv); [|done]. intros m0 [= <-]. apply fresh_conns.
Qed.

Lemma run_kept es : forall s, events_ok s es -> system_kept s -> system_kept (run_ s es).
Proof.
  induction es as [|e es IH]; intros s He Hs; [done|]. destruct He as [He Hes]. apply (IH (step_ s e) Hes). by apply step_kept.
Qed.

End Property.

(** ** Instances *)

Lemma J_other_parts frozen ids w w' : queue w' = queue w -> Worker.mail w' = Worker.mail w -> J frozen ids w -> J frozen ids w'.
Proof. intros Eq Em Hj. apply (J_same frozen ids w); [done|by rewrite Eq|by rewrite Eq|by rewrite Em]. Qed.

Lemma stores_ok_process frozen : names_apart -> Forall (fun r => terminal r = true) frozen ->
  kept_by_process (fun _ => True) sealed_name any_thread (fun _ _ => True) (stores_ok frozen).
Proof.
  intros Hap Hfr. split; [by apply stores_ok_api|]. intros h env w _ Hs. cbn zeta.
  assert (Hj : J frozen [] w) by (apply (J_other_parts frozen [] (mkWorker (queue w) (Worker.mail w) empty_auth empty_audit ∅ Changes.new)); [done|done|apply Hs]).
  pose proof (run_iteration_J parse to_lowercase h frozen Hfr env w Hj) as Hj'.
  pose proof (kept_iteration parse to_lowercase (fun _ => True) sealed_name any_thread (fun _ => True) all_sealed (sealed_by_worker _) h
    (Worker.auth_store w) (outbound (queue w)) ltac:(by apply Forall_true) env ltac:(done) w (conj (conj eq_refl eq_refl) (sk_sealed _ _ _ Hs)))
    as [[Eo _] Hk].
  split; [|exact Hk|rewrite Eo; apply Hs]. by apply (J_other_parts frozen [] (run_iteration parse to_lowercase h env w).2).
Qed.

Lemma mail_kept_api t :
  kept_by_api (avoids t) (fun h => h <> tg_hash t) any_thread (fun A id => A <> tg_account t \/ id <> tg_id t) (fun ms _ _ => mail_kept t ms).
Proof.
  split; [|done|..|done].
  - intros _ _. apply mail_kept_by_delivery.
  - intros ms _ _ id mailbox kw. apply mk_update_message.
  - by intros.
  - intros ms q _ key new now Hs. destruct (enqueue_blobs key new now q (blobs ms)) as [->|[x ->]]; [by destruct ms|by apply mk_write].
  - intros ms _ _ m Hm Hsp Hs. assert (Hne : m_id m <> tg_id t).
    { destruct Hsp as [Ha|Hi]; [|done]. intros Ei. destruct Hs as [K1 (r & Hr & Er & Ea & _) _ _].
      rewrite <- Er in Ei. by rewrite (row_key_unique m_id _ m r K1 Hm Hr Ei) in Ha. }
    assert (Hh : blob_hash (m_row m) <> tg_hash t) by (intros Eh; by apply Hne, (mk_alone t _ Hs)).
    exact (mk_remove t _ _ Hh (mk_delete t _ _ Hne Hs)).
Qed.

Lemma kept_by_delivery_and f1 o1 t1 K1 f2 o2 t2 K2 : kept_by_delivery f1 o1 t1 K1 -> kept_by_delivery f2 o2 t2 K2 ->
  kept_by_delivery (fun r => f1 r /\ f2 r) (fun h => o1 h /\ o2 h) (fun m A th => t1 m A th /\ t2 m A th) (fun ms => K1 ms /\ K2 ms).
Proof.
  intros [M1 T1 F1 I1 N1 S1 D1] [M2 T2 F2 I2 N2 S2 D2]. split.
  - intros s m Hm [G1 G2]. split; eauto.
  - intros s tm [G1 G2]. specialize (T1 s tm G1). specialize (T2 s tm G2). by destruct (find_or_create_thread _ _).
  - intros m m' A th Hm [G1 G2]. split; eauto.
  - intros m row A th [G1 G2]. split; eauto.
  - intros s row [O1 O2] [X1 X2] [G1 G2]. split; eauto.
  - intros s rnd pub key_id raw [R1 R2] [G1 G2]. split; eauto.
  - intros b rnd pub key_id raw hash wrap b' [R1 R2] E. split; eauto.
Qed.

Lemma kept_by_api_and f1 o1 t1 s1 K1 f2 o2 t2 s2 K2 : kept_by_api f1 o1 t1 s1 K1 -> kept_by_api f2 o2 t2 s2 K2 ->
  kept_by_api (fun r => f1 r /\ f2 r) (fun h => o1 h /\ o2 h) (fun m A th => t1 m A th /\ t2 m A th)
    (fun A id => s1 A id /\ s2 A id) (fun ms q a => K1 ms q a /\ K2 ms q a).
Proof.
  intros [D1 R1 U1 Q1 E1 X1 A1] [D2 R2 U2 Q2 E2 X2 A2]. split.
  - intros q a. by apply (kept_by_delivery_and _ _ _ (fun ms => K1 ms q a) _ _ _ (fun ms => K2 ms q a)).
  - intros ms q a m [G1 G2] Hm. split; eauto.
  - intros ms q a id mailbox kw [G1 G2]. split; eauto.
  - intros ms q q' a Eo Er [G1 G2]. split; eauto.
  - intros ms q a key new now [G1 G2]. split; eauto.
  - intros ms q a m Hm [P1 P2] [G1 G2]. split; eauto.
  - intros ms q a a' Ha [G1 G2]. split; eauto.
Qed.

(** The message with its surroundings. *)
Definition filed (t : Target) (ms : MailStore) (q : QueueStore) : Prop := mail_kept t ms /\ stores_ok [] ms q.

Lemma filed_process t : names_apart ->
  kept_by_process (fun r => avoids t r /\ True) (fun h => h <> tg_hash t /\ sealed_name h)
    (fun m A th => any_thread m A th /\ any_thread m A th) (fun A id => (A <> tg_account t \/ id <> tg_id t) /\ True) (filed t).
Proof.
  intros Hap. split; [apply kept_by_api_and; [apply mail_kept_api|by apply stores_ok_api]|].
  intros h env w Hf [Hm Hs]. cbn zeta. split; [|apply (kp_pass _ _ _ _ _ (stores_ok_process [] Hap ltac:(done)) h env w); done].
  assert (Hg : Forall (fun o => message_blob o <> tg_hash t) (outbound (queue w))).
  { pose proof (sk_wire _ _ _ Hs) as Hw. rewrite Forall_forall in *. intros o Ho E. apply (Hap (message_blob o)); [|by apply Hw].
    rewrite E. destruct (mk_row t _ Hm) as (m & Hin & _ & _ & <- & _). by apply (proj2 (sk_sealed _ _ _ Hs)). }
  exact (proj2 (kept_iteration parse to_lowercase (avoids t) _ _ _ (mail_kept t) (mail_kept_by_worker t) h _ _ Hg env
    (fun c => proj1 (Hf c)) w (conj (conj eq_refl eq_refl) Hm))).
Qed.

(** ** Runs of an installation *)

Lemma events_free es : forall s, events_ok (fun _ => True) (fun _ _ => True) s es.
Proof.
  induction es as [|e es IH]; intros s; [done|]. split; [|apply IH]. destruct e; try done.
  intros m _. destruct r; try done. cbn. intros token arc x _ _. apply Forall_true. by intros call a id row.
Qed.

Lemma run_free okhash fits K es s :
  kept_by_process (fun _ => True) okhash fits (fun _ _ => True) K -> system_kept K s -> system_kept K (run_ s es).
Proof. intros HK. apply (run_kept (fun _ => True) okhash fits (fun _ _ => True)); [done|done|apply events_free]. Qed.

Lemma run_app es1 es2 s : run_ s (es1 ++ es2) = run_ (run_ s es1) es2.
Proof. apply foldl_app. Qed.

Lemma installed_kept admin : system_kept (stores_ok []) (installed admin).
Proof.
  split; [|done]. split; [|by split; [apply NoDup_nil|intros m ?%elem_of_nil]|done].
  split; [apply (start_inv empty_auth empty_audit empty_store)|by intros r ?%elem_of_nil|by intros r ?%elem_of_nil].
Qed.

Lemma reachable_kept admin es : names_apart -> system_kept (stores_ok []) (run_ (installed admin) es).
Proof.
  intros Hap. eapply run_free; [by apply stores_ok_process|apply installed_kept].
Qed.

Lemma open_reads b row sk raw : open_message b row sk = Done (Ok raw) -> exists c, read b (blob_hash row) = Ok c.
Proof.
  unfold open_message, open_blob. destruct (as_crypto_error _) as [dek|]; [|done]. destruct (copy_from_slice 32 dek); [|done].
  cbn. destruct (read b (blob_hash row)) as [c|]; [by exists c|done].
Qed.

(** C1.  The server does not lose mail it accepted.  From a fresh
    installation, whatever SMTP and submission clients send, whatever requests
    come over JMAP and to the admin console, whatever the worker's passes meet
    in the network, and through restarts and subcommands, in any order: every
    recipient row that is not delivered, failed or expired belongs to a stored
    message whose signed blob is on disk and readable; and no account sends
    more than 200 messages or to more than 500 recipients in any hour, by
    whichever way in.  Of SHA-256 it is assumed ([names_apart]) that no sealed
    message and no queued message have the same digest. *)
Theorem process_never_loses_mail (admin : AdminStore) (es : list Event) :
  names_apart ->
  let d := stores (run_ (installed admin) es) in
  (forall r, r ∈ outbound_rcpt (dk_queue d) -> is_terminal (from_db_str (state r)) = false ->
     exists o c, get_outbound (dk_queue d) (outbound_id r) = Some o /\ read (blobs (dk_mail d)) (message_blob o) = Ok c) /\
  (forall account since, (window_messages account since (dk_queue d) <= 200 /\
                     window_recipients account since (dk_queue d) <= 500)%Z).
Proof.
  intros Hap d. destruct (reachable_kept admin es Hap) as [[[Hi _ _] _ _] _].
  exact (inv_not_lost _ Hi).
Qed.

(** C5.  What is settled stays settled, in the whole process: once a
    recipient row is delivered, failed or expired, it is the very same row
    after any further commands, requests, passes, restarts and subcommands.
    Assumes [names_apart]: no sealed and no queued message share a digest. *)
Theorem process_keeps_settled (admin : AdminStore) (before after : list Event) (r : RcptRow) :
  names_apart ->
  r ∈ outbound_rcpt (dk_queue (stores (run_ (installed admin) before))) -> is_terminal (from_db_str (state r)) = true ->
  r ∈ outbound_rcpt (dk_queue (stores (run_ (run_ (installed admin) before) after))).
Proof.
  intros Hap Hin Ht. destruct (reachable_kept admin before Hap) as [[[Hi Ha Hf] Hs Hw] Hm].
  destruct (run_free _ _ _ after (run_ (installed admin) before) (stores_ok_process [r] Hap ltac:(by apply Forall_singleton)))
    as [[[_ _ Hr] _ _] _]; [|by apply Hr, list_elem_of_singleton].
  split; [|exact Hm]. split; [|exact Hs|exact Hw]. split; [exact Hi|exact Ha|]. by intros x ->%list_elem_of_singleton.
Qed.

(** C6.  A filed message stays, and stays readable.  Let a message be filed
    after any history, with a key that opens it, and let it be the only one
    with its blob.  Through any further commands, requests, passes, restarts
    and subcommands in which no session of its account destroys it by
    Email/set, and with draws that do not happen to seal to the same blob
    again, its row stays in the same account with the same wrapped key, and
    the key opens it to the same bytes.  Assumes [names_apart]: no sealed and
    no queued message share a digest. *)
Theorem filed_message_stays (admin : AdminStore) (before after : list Event) (m : StoredMessage) (sk raw : str) :
  let s := run_ (installed admin) before in
  let t := mkTarget (m_id m) (account_id (m_row m)) (blob_hash (m_row m)) (dek_wrap (m_row m)) (default [] (ok_opt (read (blobs (dk_mail (stores s))) (blob_hash (m_row m))))) in
  names_apart ->
  m ∈ messages (metadata (dk_mail (stores s))) ->
  (forall m', m' ∈ messages (metadata (dk_mail (stores s))) -> blob_hash (m_row m') = blob_hash (m_row m) -> m' = m) ->
  open_message (blobs (dk_mail (stores s))) (m_row m) sk = Done (Ok raw) ->
  (forall n, avoids t (d_seal (mt_draw (moments n)))) ->
  events_ok (avoids t) (fun account id => account <> account_id (m_row m) \/ id <> m_id m) s after ->
  let d := stores (run_ s after) in
  exists m', m' ∈ messages (metadata (dk_mail d)) /\ is_target t m' /\
    open_message (blobs (dk_mail d)) (m_row m') sk = Done (Ok raw).
Proof.
  intros s t Hap Hin Hal Ho Hmo Hev d. destruct (reachable_kept admin before Hap) as [Hst Hm]. fold s in Hst, Hm.
  assert (Ht : mail_kept t (dk_mail (stores s))).
  { split; [apply Hst|by exists m| |].
    - intros m' Hm' E. by rewrite (Hal m' Hm' E).
    - destruct (open_reads _ _ _ _ Ho) as [c E]. cbn. by rewrite E. }
  destruct (run_kept _ _ _ _ _ (filed_process t Hap) (fun n => conj (Hmo n) I) after s) as [[Hk _] _].
  - revert Hev. generalize s. induction after as [|e es IH]; [done|]. intros s0 [He Hes]. split; [|by apply IH].
    destruct e; try done. cbn in *.
    intros m0 Em. specialize (He m0 Em). destruct r; try done. cbn in *. intros token arc x Hb Hx.
    apply (Forall_impl _ _ _ (He token arc x Hb Hx)). intros call Hc a id row K1 K2 K3 K4. split; [|done]. by apply (Hc a id row).
  - by split.
  - by apply (mk_opens t (dk_mail (stores s)) _ m sk raw).
Qed.

End Steps.
