(* ===== verification/SystemTables.v ===== *)
(** * SystemTables: the databases of a running process

    The invariants of the tables that the code relies on without stating
    them, for every reachable state of the whole process: the mail database,
    the accounts, and the administrators and domains. *)

From stdpp Require Import base list strings gmap sorting.
From Stdlib Require Import Ascii ZArith Lia.
From S2P Require Import Submission.
From S2P Require Import Prelude RustStr Config Input Header Limits Wire Scan Store Sealing Auth DnsRecords AdminStore AuditLog Delivery SmtpIn Backoff Queue Dane Admin Startup Worker QueueSystem MailKept Html Email Compose Api ApiIsolation.
Import Store.Blob Store.Subject Store.Metadata.
From S2P Require Import Jmap JmapSessions ApiKept System SystemKept.

(** ** The mail database *)

(** Ids are unique, an account has one mailbox per role, and every message is
    in a thread of its own account.  (Its mailbox may be any: Email/set does
    not look whose it is.) *)
Record mail_tables (m : MetadataStore) : Prop := {
  tb_mailboxes : mailboxes_ok (mailboxes m);
  tb_thread_ids : NoDup (th_id <$> threads m);
  tb_message_ids : NoDup (m_id <$> messages m);
  tb_threads : forall x, x ∈ messages m -> thread_of m (account_id (m_row x)) (thread_id (m_row x))
}.

Lemma empty_tables : mail_tables empty_store.
Proof. split; try apply NoDup_nil_2; [split; apply NoDup_nil_2|]. by intros x ?%elem_of_nil. Qed.

Lemma tables_same m m' : mailboxes m' = mailboxes m -> threads m' = threads m -> messages m' = messages m ->
  mail_tables m -> mail_tables m'.
Proof. intros E1 E2 E3 [K1 K2 K3 K4]. split; unfold thread_of in *; rewrite ?E1, ?E2, ?E3; done. Qed.

Lemma tables_insert m row : thread_of m (account_id row) (thread_id row) -> mail_tables m -> mail_tables (insert_message m row).2.
Proof.
  intros Ht [K1 K2 K3 K4]. split; cbn; try done.
  - rewrite fmap_app. apply NoDup_snoc; (done || apply next_rowid_fresh).
  - intros x [Hx| ->%list_elem_of_singleton]%elem_of_app; [by apply K4|done].
Qed.

(** Changes of a row that leave its account and its thread. *)
Lemma tables_update_row f id m : (forall r, account_id (f r) = account_id r /\ thread_id (f r) = thread_id r) ->
  mail_tables m -> mail_tables (with_messages (update_row f id (messages m)) m).
Proof.
  intros Hf [K1 K2 K3 K4]. split; cbn; try done.
  - unfold update_row. by rewrite sql_update_key.
  - intros x (y & Hy & ->)%elem_of_sql_update. specialize (K4 y Hy). destruct (_ =? _)%Z; [|done]. cbn.
    by destruct (Hf (m_row y)) as [-> ->].
Qed.

Lemma tables_update_message m id mailbox kw : mail_tables m -> mail_tables (update_message m id mailbox kw).
Proof. intros Hm. unfold update_message. destruct mailbox, kw; cbv zeta; repeat (apply tables_update_row; [done|]); done. Qed.

Lemma tables_delete m id : mail_tables m -> mail_tables (delete_message m id).
Proof.
  intros [K1 K2 K3 K4]. split; cbn; try done; [by apply NoDup_fmap_filter|].
  intros x [Hx _]%elem_of_filter_list. by apply K4.
Qed.

Section Mail.
Context `{Primitives} `{BlobHash} `{SqlAny} `{DkimSigner}.

(** The thread found is one of the account's; a new one is under a new id. *)
Lemma tables_thread m tm : mail_tables m ->
  let '(th, m') := find_or_create_thread m tm in mail_tables m' /\ thread_of m' (tm_account tm) th.
Proof.
  intros Hm. unfold find_or_create_thread.
  destruct (thread_by_reference m (tm_account tm) (reference_ids tm)) as [id|] eqn:E.
  { apply thread_by_reference_some in E as (x & Hx & <- & <- & _). split; [done|by apply Hm]. }
  destruct (h ← tm_subject_hash tm; thread_by_subject_hash m (tm_account tm) h) as [id|] eqn:E2.
  { destruct (tm_subject_hash tm) as [h|]; cbn in E2; [|done].
    apply thread_by_subject_some in E2 as (x & Hx & <- & <- & _). split; [done|by apply Hm]. }
  destruct Hm as [K1 K2 K3 K4]. split; [|by apply elem_of_app; right; apply list_elem_of_singleton].
  split; cbn; try done; [|by intros x Hx; apply elem_of_app; left; apply K4].
  rewrite fmap_app. apply NoDup_snoc; (done || apply next_rowid_fresh).
Qed.

Lemma tables_step m m' : meta_step m m' -> mail_tables m -> mail_tables m'.
Proof.
  destruct 1 as [m account role|m tm|m m']; intros Hm.
  - destruct Hm as [K1 K2 K3 K4]. split; [exact (proj1 (insert_roles_ok account SYSTEM_ROLES _ K1))|done..].
  - pose proof (tables_thread m tm Hm) as Ht. destruct (find_or_create_thread m tm). apply Ht.
  - by apply (tables_same m).
Qed.

Lemma thread_of_step m m' account th : meta_step m m' -> thread_of m account th -> thread_of m' account th.
Proof.
  destruct 1 as [m a role|m tm|m m' _ E _]; unfold thread_of; [done| |by rewrite E].
  intros Ht. unfold find_or_create_thread. repeat case_match; try done. cbn. apply elem_of_app. by left.
Qed.

Lemma tables_delivery : kept_by_delivery (fun _ => True) (fun _ => True) thread_of (fun ms => mail_tables (metadata ms)).
Proof.
  split; cbn; try done.
  - intros s m. apply tables_step.
  - intros s tm Hs. pose proof (tables_thread (metadata s) tm Hs) as Ht. destruct (find_or_create_thread _ _). apply Ht.
  - apply thread_of_step.
  - intros s row _. apply tables_insert.
Qed.

Lemma tables_worker : kept_by_worker (fun _ => True) (fun _ => True) thread_of (fun _ => True) (fun ms => mail_tables (metadata ms)).
Proof. split; [apply tables_delivery|intros s id mailbox kw; apply tables_update_message|done]. Qed.

Lemma tables_api : kept_by_api (fun _ => True) (fun _ => True) thread_of (fun _ _ => True) (fun ms _ _ => mail_tables (metadata ms)).
Proof.
  split; try done.
  - intros _ _. apply tables_delivery.
  - intros ms _ _ m Hm. apply Hm.
  - intros ms _ _ id mailbox kw. apply tables_update_message.
  - intros ms _ _ m _ _. apply tables_delete.
Qed.

End Mail.

(** ** The accounts, the administrators and the domains *)

(** The catch-all of a domain may be anything: the command line does not look
    at it. *)
Definition any_catch_all (_ : str) : Prop := True.

Section Accounts.
Context `{Primitives} `{BlobHash} `{SqlAny} `{MailAuth} `{Sha256} `{TomlLibrary} `{TlsLibrary}.
Context `{MailBuilder} `{SendErrorDisplay} `{AnyOrder} `{DkimSigner} `{MailParser} `{FullText} `{HtmlLibrary}.
Context `{MimeWriter} `{ContactJson} `{ArgsDecoder} `{TotpLibrary} `{StringListJson} `{DnsLibrary} `{LogLibrary}.
Context (parse : str -> option ParsedMessage) (to_lowercase : str -> str) (fmt1 : f64 -> str) (debug_str : str -> str).
Context (json : str -> result str (RawResponse (F64 := f64))).
Context (b64decode : str -> option str) (utf8_error : str -> str).
Context (spki_of_pkcs1 : str -> option str) (base64_encode : str -> str).
Context (log_dir : option (result unit (list (str * option str)))).
Context (moments : nat -> Moment).

Abbreviation step_ := (step parse to_lowercase fmt1 debug_str json b64decode utf8_error spki_of_pkcs1 base64_encode log_dir moments).
Abbreviation run_ := (run parse to_lowercase fmt1 debug_str json b64decode utf8_error spki_of_pkcs1 base64_encode log_dir moments).

Record account_tables (d : Disk) : Prop := {
  at_accounts : auth_inv (dk_auth d);
  at_admins : admin_inv_with any_catch_all (dk_admin d)
}.

Lemma auth_inv_api : kept_by_api (fun _ => True) (fun _ => True) any_thread (fun _ _ => True) (fun _ _ a => auth_inv a).
Proof. split; try done; [intros _ a; split; try done; by intros; case_match|]. intros _ _ a a' Ha. by apply auth_step_inv. Qed.

(** Reading the tables back in with their tokens adds none. *)
Lemma migrate_tables tokens s : admin_inv_with any_catch_all s -> migrate_domains_columns tokens s = s.
Proof. intros Hs. apply migrate_idle. eapply Forall_impl; [apply Hs|]. by intros d []. Qed.

Lemma domain_step_tables s s' : domain_step s s' -> admin_inv_with any_catch_all s -> admin_inv_with any_catch_all s'.
Proof.
  assert (Hca : forall ca, catch_all_ok any_catch_all ca) by by intros [].
  destruct 1; intros Hs; [by apply create_domain_inv|by apply set_catch_all_inv|by rewrite migrate_tables].
Qed.

Lemma binary_tables r w : account_tables (disk w) -> account_tables (disk (run_binary spki_of_pkcs1 base64_encode r w).2).
Proof.
  intros Hw. unfold run_binary. destruct (serves r) eqn:Hs.
  - rewrite main_serves by done. destruct (run_config r) as [c|e]; [|done].
    apply (fun HH => (HH : keeps (fun w => account_tables (disk w)) (st_try (serve (run_rand r) (run_open_fails r) c) (fun s => mret (Ok (Some s))))) w); [|exact Hw].
    st_step; [|st_step]. apply (kd_serve account_tables); [intros d [Ha Hd]; split; [done|by rewrite migrate_tables]|].
    unfold admin_bootstrap, bootstrap_admin.
    repeat (st_step; try (by apply kd_on_admin; intros d [Ha Hd]; split; [|apply bootstrap_inv])).
    all: first [apply keeps_ret|by apply keeps_mod; intros w0 []; split].
  - apply (kd_commands spki_of_pkcs1 base64_encode account_tables); [done|..|done].
    + intros d x [Ha Hd] Hx. split; [by apply (auth_step_inv (dk_auth d))|done].
    + by intros d g n dom [].
    + intros d a [Ha Hd] Hx. split; [done|by apply (domain_step_tables (dk_admin d))].
Qed.

Lemma sub_tables id o m d : account_tables d -> account_tables (sub_command b64decode id o m d).2.
Proof.
  intros [Ha Hd]. unfold sub_command. destruct (my_sub m !! id) as [c|]; [|done].
  assert (HP : Submission.kept_by_submission (fun a _ _ => auth_inv a)).
  { intros a q b Hq. split; [|done]. intros a' [->|(now & acc & cred & cfg & ->)]; [done|by apply unlock_any_inv]. }
  pose proof (Submission.stores_loop_step b64decode (sub_deps m o) _ HP (bc_tls c) (sub_view m d c) Ha) as Hs.
  destruct (Submission.loop_step _ _ _ _) as [r s]. by split.
Qed.

Lemma step_tables s e : account_tables (stores s) -> account_tables (stores (step_ s e)).
Proof.
  assert (Hrun : forall f, (forall m d, account_tables d -> account_tables (f m d).2) ->
    account_tables (stores s) -> account_tables (stores (on_running f s))).
  { intros f Hf Hs. unfold on_running. destruct (sy_memory s) as [m|]; [|done]. specialize (Hf m _ Hs). unfold stores in *.
    by destruct (f m _) as [m' d']. }
  destruct e as [id ip c|id o|id|id implicit c o|id o|id|authorization body_len r clamd|c call|env|r|r]; cbn [step].
  all: try (apply Hrun; intros m d Hd; try done).
  - destruct Hd. unfold smtp_command. destruct (my_smtp m !! id) as [c|]; [|done]. by destruct (SmtpIn.loop_step _ _ _ _ _ _ _ _ _).
  - by apply sub_tables.
  - intros [Ha Hd]. destruct (sy_memory s) as [m|]; [|done]. split; [|done].
    apply (handle_keeps to_lowercase (fun _ => True) (fun _ => True) any_thread (fun _ _ => True) _ auth_inv_api debug_str moments); [done| |exact Ha].
    destruct r; try done. intros token arc x _ _. apply Forall_true. by intros call a i row.
  - unfold admin_request. split; apply (handle_admin_ok utf8_error spki_of_pkcs1 base64_encode (costs (Config.argon2 (config_of m))) (host m) log_dir
      any_catch_all ltac:(done) c call (admin_view m d)); by destruct Hd.
  - destruct Hd as [Ha Hd]. split; [|exact Hd].
    assert (HK : kept_by_worker (fun _ => True) (fun _ => True) any_thread (fun _ => True) (fun _ => True)).
    { split; try done. split; try done. by intros; case_match. }
    pose proof (kept_iteration parse to_lowercase _ _ _ _ _ HK (host m) (dk_auth d) (outbound (dk_queue d))
      ltac:(by apply Forall_true) env ltac:(done) (worker_view m d) ltac:(done)) as [[_ Eq] _].
    unfold worker_pass. cbn in *. by rewrite Eq.
  - intros Hd. destruct (serves r); [done|]. by apply binary_tables.
  - intros Hd. destruct (serves r); [|done]. unfold restart. pose proof (binary_tables r (sy_world s) Hd) as Hb.
    by destruct (run_binary _ _ _ _) as [[[[sv|]|e]|] w].
Qed.

Lemma run_tables es : forall s, account_tables (stores s) -> account_tables (stores (run_ s es)).
Proof. induction es as [|e es IH]; intros s Hs; [done|]. apply (IH (step_ s e)). by apply step_tables. Qed.

Lemma tables_process :
  kept_by_process parse to_lowercase (fun _ => True) (fun _ => True) thread_of (fun _ _ => True) (fun ms _ => mail_tables (metadata ms)).
Proof.
  split; [apply tables_api|]. intros h env w _ Hw.
  exact (proj2 (kept_iteration parse to_lowercase _ _ _ _ _ tables_worker h (Worker.auth_store w) (outbound (queue w))
    ltac:(by apply Forall_true) env ltac:(done) w (conj (conj eq_refl eq_refl) Hw))).
Qed.

(** C7.  The databases of a running process stay well formed.  From an
    installation with well-formed administrators, after any commands,
    requests, passes, restarts and subcommands: ids of mailboxes, threads and
    messages are unique, an account has one mailbox per role, and every
    message is in a thread of its own account; every blob is under its own
    digest; recipient rows belong to stored messages, with unique ids and
    states the code knows; accounts and application passwords have unique
    ids, and accounts unique addresses; administrators and domains have unique ids and
    names, TOTP is on only with a wrapped secret and recovery codes, and every
    domain has its token.  Assumes [names_apart]: no sealed and no queued
    message share a digest. *)
Theorem process_tables_well_formed (admin : AdminStore) (es : list Event) :
  names_apart -> admin_inv_with any_catch_all admin ->
  let d := stores (run_ (installed admin) es) in
  mail_tables (metadata (dk_mail d)) /\ intact (blobs (dk_mail d)) /\ queue_inv (dk_queue d) /\
  auth_inv (dk_auth d) /\ admin_inv_with any_catch_all (dk_admin d).
Proof.
  intros Hap Ha d.
  destruct (reachable_kept parse to_lowercase fmt1 debug_str json b64decode utf8_error spki_of_pkcs1 base64_encode log_dir moments admin es Hap)
    as [[[[Hq _ Hi _] _ _] _ _] _].
  assert (Hm : system_kept (fun ms _ => mail_tables (metadata ms)) (run_ (installed admin) es)).
  { eapply run_free; [apply tables_process|]. split; [apply empty_tables|done]. }
  assert (Hd : account_tables d).
  { apply run_tables. by split; [apply empty_auth_inv|]. }
  destruct Hm as [Hm _], Hd. done.
Qed.

End Accounts.
