(* ===== verification/JmapExamples.v ===== *)
(** * JmapExamples: requests on small servers, [jmap]

    Concrete servers for src/crates/jmap/src/handlers.rs, and what its theorems
    say of them; the libraries are those of ApiExamples. *)

From stdpp Require Import base list strings gmap sorting.
From Stdlib Require Import Ascii ZArith Lia.
From S2P Require Import Prelude RustStr Input Header Limits Scan Store Sealing Auth AuditLog Delivery Backoff Queue Worker Html Email Compose Api ApiIsolation ApiMail ApiExamples.
Import Store.Blob Store.Subject Store.Metadata.
From S2P Require Import Jmap JmapSessions JmapBlobs.

#[local] Existing Instance toy_primitives.
#[local] Existing Instance toy_laws.
#[local] Existing Instance toy_BlobHash.
#[local] Existing Instance toy_signer.
#[local] Existing Instance toy_html.
#[local] Existing Instance toy_mime.
#[local] Existing Instance toy_fulltext.
#[local] Existing Instance toy_contact_json.
#[local] Existing Instance first_row.
#[local] Existing Instance as_listed.

(** A message has one attachment: its own text. *)
#[local] Instance one_part : MailParser := {|
  parse_message raw := Some (mkMail [mkPart (Some (# "text", Some (# "plain"))) raw (Some (# "a.txt")) None] None None None None 0 None)
|}.

(** Arguments as arrays: the account, then an id to destroy or, after a null,
    the subject of a draft. *)
#[local] Instance draft_args : ArgsDecoder := {|
  de_mailbox_get _ := Err [];
  de_email_query _ := Err [];
  de_email_get _ := Err [];
  de_email_set v := match v with
    | VArray [VString a; VString id] => Ok (mkEmailSetArgs a ∅ ∅ [id])
    | VArray [VString a; VNull; VString subject] =>
        Ok (mkEmailSetArgs a {[ # "k" := mkEmailCreate [] [] [] (Some subject) None None None [] ]} ∅ [])
    | _ => Err []
    end;
  de_submission_set _ := Err [];
  de_thread_get _ := Err [];
  de_identity_get _ := Err [];
  de_identity_set _ := Err [];
  de_contact_get _ := Err [];
  de_contact_set _ := Err []
|}.

(** A second passes between readings of the clock. *)
Definition wit_moment (n : nat) : Moment :=
  mkMoment (Z.of_nat n * 10 ^ 9) (# "token") [] (# "secret") (pad 16 []) (wit_draw n).

(** Account 1 is unlocked; "746f6b656e" is its token. *)
Definition wit_key : str := pad 32 (# "priv").
Definition wit_unlocked : UnlockedAccount := mkUnlocked (pad 32 (# "amk")) wit_key.
Definition wit_server (messages : list StoredMessage) (b : BlobStore) : AppState :=
  let s := new_state empty_auth (mkMailStore b (with_messages messages empty_store)) empty_audit empty_queue Changes.new in
  put_sessions (create (# "token") 0 1 wit_unlocked (mkFacts wit_key 1 (# "alice@example.com")) (sessions s)).2 s.

Definition wit_session : Session :=
  mkSession 1 wit_key (pad 32 (# "amk")) (mkFacts wit_key 1 (# "alice@example.com")) 0 None false.

Definition wit_auth : option str := Some (# "Bearer " ++ hex_encode (# "token")).

(** A message of account 2 and account 1's wish to destroy it. *)
Definition wit_shared : AppState := wit_server [mkStored 1 (wit_row 2 (# "h") [] [])] ∅.

Lemma batch_isolates_accounts_witness :
  rows_of (fun m => account_id (m_row m)) 2
    (messages (metadata (mail (jmap_api to_ascii_lowercase wit_moment 1000 wit_auth [wit_destroy; wit_destroy] wit_shared).2)))
  = [mkStored 1 (wit_row 2 (# "h") [] [])].
Proof.
  destruct (batch_isolates_accounts to_ascii_lowercase wit_moment 1000 wit_auth (hex_encode (# "token")) [wit_destroy; wit_destroy]
    wit_shared 0 wit_session 2)
    as [[_ _ E _] _].
  - reflexivity.
  - reflexivity.
  - unfold i64_min, i64_max. cbn. lia.
  - split; [apply NoDup_singleton|]. split; constructor.
  - done.
  - exact E.
Defined.

(** A download with a token nobody has. *)
Lemma requests_need_a_session_witness :
  (handle to_ascii_lowercase (fun s => s) wit_moment (65536, 3, 4)%Z 1000 None (Some (# "Bearer x")) 0 (GetDownload (# "m1.0"))
     wit_shared).1 = Done (Err UNAUTHORIZED).
Proof.
  pose proof (requests_need_a_session to_ascii_lowercase (fun s => s) wit_moment (65536, 3, 4)%Z 1000 None (Some (# "Bearer x")) 0
    (GetDownload (# "m1.0")) wit_shared eq_refl I) as Hr.
  destruct (handle _ _ _ _ _ _ _ _ _ _) as [r s']. destruct Hr as [(e & -> & [-> | Hin]) _]; [done|by apply elem_of_nil in Hin].
Defined.

(** Alice's account, and what unlocking it gives. *)
Definition wit_home : AppState :=
  new_state Auth.wit_provisioned.2 (mkMailStore ∅ empty_store) empty_audit empty_queue Changes.new.
Definition wit_opening : exec (result Z (str * str)) * AppState :=
  Jmap.unlock wit_moment Auth.wit_cfg (# "alice") (# "example.com") (# "pw") wit_home.

Lemma unlock_decides_witness : wit_opening.1 = Done (Ok (hex_encode (# "token"), # "1")) /\
  exists x, session_of (hex_encode (# "token")) (sessions wit_opening.2) = Some (0, x) /\
    js_account_id x = 1%Z /\ js_account_priv x = account_priv Auth.wit_unlocked /\ js_amk x = amk Auth.wit_unlocked.
Proof.
  pose proof (unlock_decides wit_moment Auth.wit_cfg (# "alice") (# "example.com") (# "pw") wit_home) as Hu.
  cbv zeta in Hu. fold wit_opening in Hu. rewrite (surjective_pairing wit_opening) in Hu.
  destruct Hu as (_ & _ & _ & Hnp & Hu).
  assert (Hok : is_ok (Throttle.check (login_throttle wit_home) (# "alice" ++ # "@" ++ # "example.com")
    (mt_instant (wit_moment (drawn wit_home)))) = true) by (vm_compute; reflexivity).
  assert (Ef : find_by_address (auth_store wit_home) (# "alice") (# "example.com") = Ok (Some Auth.wit_account))
    by (vm_compute; reflexivity).
  assert (Et : (tried wit_moment Auth.wit_cfg Auth.wit_account (# "pw") wit_home).1
    = Done (Ok (Auth.wit_unlocked, Full))) by (vm_compute; reflexivity).
  rewrite Hok, Ef in Hu. destruct Hu as [_ Hu]. rewrite Et in Hu.
  destruct Hu as (token & x & [Hr -> Hs Hid Hpriv Hamk _ _ _ _ _ _ _ _ _]). split.
  - destruct Hr as [Hr|Hr]; [exact Hr|]. destruct (Hnp ltac:(split; [discriminate|constructor]) Hr).
  - exists x. exact (conj Hs (conj Hid (conj Hpriv Hamk))).
Defined.

(** A message of account 1, sealed. *)
Definition wit_rand1 : DeliverRand := mkDeliverRand (pad 32 (# "dek")) (pad 24 []) [].
Definition wit_sealed : Result (str * str) * BlobStore := seal_for_account wit_rand1 ∅ wit_key 1 (# "hello").
Definition wit_file : str * str := default ([], []) (ok_opt wit_sealed.1).
Definition wit_stored : StoredMessage := mkStored 7 (wit_row 1 wit_file.1 wit_file.2 []).
Definition wit_mail : MailStore := mkMailStore wit_sealed.2 (with_messages [wit_stored] empty_store).

Lemma listed_attachments_download_witness :
  exists o, open_and_parse (blobs wit_mail) wit_stored wit_key None = Done (Ok o) /\
  at_blob_id <$> em_attachments o = [ # "m7.0"] /\
  Forall (fun a => exists bytes,
    resolve_blob wit_mail 1 wit_key (at_blob_id a) = Done (Some (at_file a, at_type a, bytes)) /\
    at_size a = Z.of_nat (length bytes)) (em_attachments o).
Proof.
  assert (Eo : open_message (blobs wit_mail) (m_row wit_stored) wit_key = Done (Ok (# "hello"))) by (vm_compute; reflexivity).
  assert (E : open_and_parse (blobs wit_mail) wit_stored wit_key None
    = Done (Ok (email_object wit_stored (parse_message (# "hello")) None))) by (unfold open_and_parse; by rewrite Eo).
  eexists. split; [exact E|]. split; [vm_compute; reflexivity|].
  apply (listed_attachments_download wit_mail wit_key wit_stored None _); [apply NoDup_singleton|by left| |exact E|].
  - unfold i64_min, i64_max. cbn. lia.
  - unfold usize_max. cbn. lia.
Defined.

(** A file goes up and comes down. *)
Definition wit_up : exec (result Z UploadResponse) * AppState :=
  upload (fun s => s) wit_moment None wit_auth (Some (# "text/plain")) (Some (# "b.txt")) (# "bytes") (wit_server [] ∅).

Lemma upload_then_download_witness :
  exists s3, download wit_moment wit_auth (# "u1") wit_up.2
  = (Done (Ok (mkDownload (# "text/plain") (attachment_header (# "b.txt")) (# "bytes"))), s3).
Proof.
  pose proof (upload_then_download (fun s => s) wit_moment None wit_auth (Some (# "text/plain")) (Some (# "b.txt")) (# "bytes")
    (wit_server [] ∅) (fun n => wit_draws n) empty_intact ltac:(vm_compute; discriminate)) as Ho.
  fold wit_up in Ho. assert (E : wit_up.1 = Done (Ok (mkUploaded (# "1") (# "u1") (# "text/plain") 5)))
    by (vm_compute; reflexivity).
  rewrite (surjective_pairing wit_up), E in Ho.
  destruct Ho as (_ & token & arc & x & id & row & d & Et & Hlive & Hst & Hdown). injection Et as <-.
  assert (Ex : Some (0, wit_session) = Some (arc, x)) by exact (proj1 Hlive). injection Ex as <- <-.
  assert (Hrow : up_content_type row = # "text/plain" /\ up_filename row = # "b.txt").
  { destruct Hst as [_ _ _ (_ & -> & -> & _) _ _ _]. by split. }
  destruct Hrow as [<- <-]. apply (Hdown eq_refl eq_refl ltac:(vm_compute; reflexivity)) with (arc2 := 0)
    (x2 := set_last_seen 0 wit_session); try done.
  - intros c Hc. change (blobs (mail (wit_server [] ∅))) with (∅ : BlobStore) in Hc.
    unfold read in Hc. destruct (path_for _) as [p|]; [|done]. unfold mbind, result_bind in Hc. by rewrite lookup_empty in Hc.
Defined.

(** A draft whose subject makes [normalize_subject] panic: the request fails,
    and so does the lock that follows, which leaves the token, and the account's
    key, where they are. *)
Definition wit_panic : AppState :=
  (jmap_api to_ascii_lowercase wit_moment 1000 wit_auth
     [mkCall (# "Email/set") (VArray [VString (# "1"); VNull; VString (# "日本語")]) (# "c")] (wit_server [] ∅)).2.

Example panic_fails_the_request :
  (jmap_api to_ascii_lowercase wit_moment 1000 wit_auth
     [mkCall (# "Email/set") (VArray [VString (# "1"); VNull; VString (# "日本語")]) (# "c")] (wit_server [] ∅)).1
  = Done (Err INTERNAL_SERVER_ERROR).
Proof. vm_compute. reflexivity. Qed.

Example a_panic_leaves_the_session_unlockable :
  exists x, lock wit_moment wit_auth wit_panic = (Panicked, looked (sessions wit_panic) wit_panic) /\
  session_of (hex_encode (# "token")) (sessions wit_panic) = Some (0, x) /\ js_account_priv x = wit_key /\ js_poisoned x = true.
Proof.
  eexists. split; [eapply lock_poisoned; vm_compute; reflexivity|]. by split; [vm_compute; reflexivity|].
Qed.
