(* ===== verification/SystemExamples.v ===== *)
(** * SystemExamples: a small installation, started and used

    One run of the whole process, on the libraries of the other examples:
    an account and a domain set up from the command line, a start, a message
    that comes in by SMTP, one that goes out by submission, a pass of the
    worker without a network, and a restart; and what the theorems of
    SystemKept and SystemTables say of it. *)

From stdpp Require Import base list strings gmap sorting.
From Stdlib Require Import Ascii ZArith Lia.
From S2P Require Import Submission.
From S2P Require Import Prelude RustStr Config Input Header Limits Wire Scan Store Sealing Auth DnsRecords AdminStore AuditLog Delivery SmtpIn Backoff Queue Dane Admin Startup Worker QueueSystem MailKept Html Email Compose Api ApiIsolation ApiExamples.
Import Store.Blob Store.Subject Store.Metadata.
From S2P Require Import Jmap JmapSessions JmapExamples ApiKept System SystemKept SystemTables.

#[local] Existing Instance toy_primitives.
#[local] Existing Instance toy_laws.
#[local] Existing Instance toy_BlobHash.
#[local] Existing Instance toy_signer.
#[local] Existing Instance toy_sha256.
#[local] Existing Instance toy_mail_auth.
#[local] Existing Instance toy_builder.
#[local] Existing Instance toy_display.
#[local] Existing Instance toy_html.
#[local] Existing Instance toy_mime.
#[local] Existing Instance toy_fulltext.
#[local] Existing Instance toy_contact_json.
#[local] Existing Instance toy_json.
#[local] Existing Instance toy_totp.
#[local] Existing Instance no_dns.
#[local] Existing Instance no_logs.
#[local] Existing Instance one_part.
#[local] Existing Instance draft_args.
#[local] Existing Instance first_row.
#[local] Existing Instance as_listed.

(** ** The installation *)
Definition sys_table : Config.Table :=
  [(# "server", TTable [(# "domain", TString (# "mx.example.com"))]);
   (# "storage", TTable [(# "blob_dir", TString (# "blobs")); (# "sqlite_path", TString (# "db"))]);
   (# "smtp", TTable [(# "max_message_size", TInteger 1000)]);
   (# "submission", TTable [(# "max_message_size", TInteger 1000); (# "tls_cert_path", TString (# "cert")); (# "tls_key_path", TString (# "key"))])].
#[local] Instance sys_toml : TomlLibrary := {| toml_table := fun _ => Some sys_table; toml_error := fun _ => [] |}.
#[local] Instance any_tls : TlsLibrary := {|
  TlsConfig := unit; pem_file_iter := fun _ => Ok [Ok (# "cert")]; key_from_pem_file := fun _ => Ok (# "key");
  with_single_cert := fun _ _ => Ok tt
|}.

Abbreviation sys_run :=
  (System.run toy_parse to_ascii_lowercase (fun _ => []) id (fun _ => Err []) Submission.wit_b64 (fun s => s) (fun _ => Some (# "spki"))
     (fun s => s) None wit_moment).

Definition cli (args : list str) : Run := Startup.wit_run args.

(** Everything a client sends at once. *)
Definition sending (input : str) : Conn := mkConn (mkReader input [] false) (fun _ => true) [].

Definition inbound : str :=
  # "EHLO x.org" ++ crlf ++ # "MAIL FROM:<bob@x.org>" ++ crlf ++ # "RCPT TO:<alice@example.com>" ++ crlf
    ++ # "DATA" ++ crlf ++ # "Hello" ++ crlf ++ # "." ++ crlf.
Definition inbound_outside : SmtpOutside :=
  mkSmtpOutside None (fun _ => None) (fun _ => None) 0 (fun _ => mkDeliverRand (pad 32 (# "dek")) (pad 24 (# "in")) []) [].
Definition sub_outside : SubOutside := mkSubOutside (Some ([Submission.wit_input], false)) 0 0 0 [] (Ok (# "private", # "public")).

Definition wit_setup : list Event :=
  [Subcommand (cli [ # "provision"; # "alice"; # "example.com"; # "pw"]); Subcommand (cli [ # "domain"; # "add"; # "example.com"]);
   Restart (cli [])].
Definition wit_in : list Event :=
  SmtpConnect 0 (# "192.0.2.1") (sending inbound) :: replicate 4 (SmtpCommand 0 inbound_outside).
Definition wit_out : list Event :=
  SubConnect 1 true (sending []) sub_outside :: replicate 4 (SubCommand 1 sub_outside).
Definition wit_before : list Event := wit_setup ++ wit_in.
(** Someone without a session asks for the message to be destroyed. *)
Definition wit_after : list Event :=
  wit_out ++ [JmapRequest (Some (# "Bearer 00")) 0 (PostApi [wit_destroy]) (fun _ => None); WorkerPass (wit_pass 2000); Restart (cli [])].

Definition wit_s1 : System := sys_run (installed empty_admin) wit_before.
Definition wit_s2 : System := sys_run wit_s1 wit_after.

(** ** The theorems on it *)
Lemma toy_names_apart : names_apart.
Proof.
  intros h (rnd & raw & ->) (key & now & raw' & header & [= <-] & E). apply (f_equal (take 2)) in E. vm_compute in E. discriminate E.
Qed.

(** Bob's copy of Alice's message, and hers from him. *)
Definition wit_queued : RcptRow := default (new_rcpt_row 1 0 1 []) (head (outbound_rcpt (dk_queue (stores wit_s2)))).
Definition wit_filed : StoredMessage := default (mkStored 0 (wit_row 0 [] [] [])) (head (messages (metadata (dk_mail (stores wit_s1))))).

Lemma process_never_loses_mail_witness :
  state wit_queued = # "deferred" /\ exists o c, get_outbound (dk_queue (stores wit_s2)) (outbound_id wit_queued) = Some o /\
    read (blobs (dk_mail (stores wit_s2))) (message_blob o) = Ok c.
Proof.
  split; [vm_compute; reflexivity|].
  pose proof (process_never_loses_mail toy_parse to_ascii_lowercase (fun _ => []) id (fun _ => Err []) Submission.wit_b64 (fun s => s)
    (fun _ => Some (# "spki")) (fun s => s) None wit_moment empty_admin (wit_before ++ wit_after) toy_names_apart) as [Hr _].
  rewrite run_app in Hr. apply Hr; [|vm_compute; reflexivity]. apply list_elem_of_In. vm_compute. left. reflexivity.
Defined.

(** A week later the worker gives Bob's copy up. *)
Definition wit_given_up : list Event := wit_before ++ wit_after ++ [WorkerPass (wit_pass 500000)].
Definition wit_expired : RcptRow :=
  default (new_rcpt_row 1 0 1 []) (head (outbound_rcpt (dk_queue (stores (sys_run (installed empty_admin) wit_given_up))))).

Lemma process_keeps_settled_witness :
  state wit_expired = # "expired" /\
  wit_expired ∈ outbound_rcpt (dk_queue (stores (sys_run (sys_run (installed empty_admin) wit_given_up) wit_after))).
Proof.
  split; [vm_compute; reflexivity|].
  apply (process_keeps_settled toy_parse to_ascii_lowercase (fun _ => []) id (fun _ => Err []) Submission.wit_b64 (fun s => s)
    (fun _ => Some (# "spki")) (fun s => s) None wit_moment empty_admin wit_given_up wit_after _ toy_names_apart);
    [|vm_compute; reflexivity]. apply list_elem_of_In. vm_compute. left. reflexivity.
Defined.

Lemma filed_message_stays_witness :
  exists m', m' ∈ messages (metadata (dk_mail (stores (sys_run (sys_run (installed empty_admin) wit_before) wit_after)))) /\ m_id m' = m_id wit_filed /\
    open_message (blobs (dk_mail (stores (sys_run (sys_run (installed empty_admin) wit_before) wit_after)))) (m_row m') Auth.wit_unlocked.(account_priv) = Done (Ok (# "Hello" ++ crlf)).
Proof.
  assert (Hone : messages (metadata (dk_mail (stores (sys_run (installed empty_admin) wit_before)))) = [wit_filed]) by (vm_compute; reflexivity).
  destruct (filed_message_stays toy_parse to_ascii_lowercase (fun _ => []) id (fun _ => Err []) Submission.wit_b64 (fun s => s)
    (fun _ => Some (# "spki")) (fun s => s) None wit_moment empty_admin wit_before wit_after wit_filed Auth.wit_unlocked.(account_priv)
    (# "Hello" ++ crlf) toy_names_apart) as (m' & Hin & Ht & Ho).
  - rewrite Hone. apply list_elem_of_singleton. reflexivity.
  - rewrite Hone. intros m' ->%list_elem_of_singleton. reflexivity.
  - vm_compute. reflexivity.
  - intros n raw E. vm_compute in E. discriminate E.
  - cbn [wit_after wit_out replicate app events_ok event_ok]. repeat split.
    + intros m Hm token arc x Hb Hx. vm_compute in Hm. injection Hm as <-. vm_compute in Hx. discriminate Hx.
    + intros c raw E. vm_compute in E. discriminate E.
  - destruct Ht as [Hid _]. cbn [tg_id] in Hid. exists m'. exact (conj Hin (conj Hid Ho)).
Defined.

(** Alice has one mailbox per role, and her message is in her thread. *)
Lemma process_tables_well_formed_witness :
  let d := stores (sys_run (installed empty_admin) (wit_before ++ wit_after)) in
  length (mailboxes (metadata (dk_mail d))) = 6 /\ mailboxes_ok (mailboxes (metadata (dk_mail d))) /\
  length (accounts (dk_auth d)) = 1 /\ auth_inv (dk_auth d).
Proof.
  destruct (process_tables_well_formed toy_parse to_ascii_lowercase (fun _ => []) id (fun _ => Err []) Submission.wit_b64 (fun s => s)
    (fun _ => Some (# "spki")) (fun s => s) None wit_moment empty_admin (wit_before ++ wit_after) toy_names_apart (empty_admin_inv _))
    as (Hm & _ & _ & Ha & _).
  split; [vm_compute; reflexivity|]. split; [apply Hm|]. split; [vm_compute; reflexivity|exact Ha].
Defined.
